(* ===== verification/_CoqProject ===== *)
-Q . S2P
Prelude.v
Kernel.v
Fortune.v
FortuneSpec.v
Interleave.v
FortuneRace.v
FortuneRaceSpec.v
TaskInfo.v
SingleFile.v
SingleFileSpec.v
SingleRace.v
SeqFile.v
KernelFs.v
Myfs.v
MyfsSpec.v
Myvfs.v
Slab.v
FsTypes.v
Threads.v
KernelIrq.v
Tasklet.v
TaskletSpec.v
Workqueue.v
WorkqueueSpec.v
WorkqueueRace.v
WorkqueueRaceSpec.v
Letters.v
Bakery1.v
Bakery1Inv.v
Bakery1Spec.v
Bakery1Live.v
Bakery1Tickets.v
Bakery2.v
Bakery2Spec.v
BakeryRpc.v
BakeryRpcSpec.v
Bakery1Rpc.v
Bakery1RpcSpec.v
Bakery1UdpSpec.v
Catalog.v
CatalogSpec.v
Posix.v
Pthread.v
OpenFile.v
OpenFileSpec.v
OpenFileThreads.v
OpenFileWrite.v
Unjoined.v
OpenFileLists.v
OpenFileListsSpec.v
OpenFileTypes.v
ProcInfo.v
ProcInfoSpec.v
Text.v
Dgram.v
DgramSpec.v
Paired.v
PairedSpec.v
Epoll.v
EpollSpec.v
MdTasks.v
Interactive.v
ProcFiles.v
ProcOps.v
