(* ===== verification/Prelude.v ===== *)
(** * A verification library for the operating-system laboratory programs

    The repository holds the programs of a course on operating systems: two servers for
    the bakery algorithm over RPC, kernel modules (a fortune file, two sequence files, two
    file systems, interrupt handlers with a tasklet and with work queues, a list of tasks,
    modules that use each other), and user programs (tree walkers, programs that open a
    file twice, a process report, socket programs). This library models each of them as
    executable functions and step relations, and proves what it guarantees - and, where it
    fails, exactly how.

    ** How code becomes definitions

    A function that only computes is a function. Code with state is a [prog S A], a
    function from the state to an [outcome]: a result with the new state, or a [Fault]
    where C or the kernel leaves the behaviour undefined (an access out of bounds, a null
    or released pointer, a bad release, an uninitialised value). Loops over data that the
    code bounds are structural; the others take fuel ([lprog], [None] when it is used up),
    and every theorem about them says how much fuel is enough. Concurrency is a step
    relation whose steps are single memory accesses or system calls; its theorems hold for
    every interleaving, and where a run ends they bound the number of steps. Buffers are
    lists of bytes at their size in the code ([bput], [bwrite], [bread], [cstr] fault
    outside), integers wrap where overflow can matter ([int32], [uint32], [size_t]).

    ** The parts

    - Prelude, Text: outcomes and their weakest preconditions, arrays, machine integers,
      byte buffers, C strings, decimal text.
    - Kernel, KernelFs, KernelIrq: the kernel calls as type classes with laws - allocation
      and /proc ([Kernel], [KernelLaws]), user memory ([UserMem]), file systems, interrupts
      - and a ledger that implements them. Everything a module acquires is an object held
      until it is released, so that a leak or a double release is visible.
    - Fortune, FortuneSpec: 6/fortunka/fortune.c. The pot refines a list of cookies.
    - Interleave: calls of handlers that run at the same time, as a type class of actions,
      with the rule by which a kept property makes every run end without a fault.
      FortuneRace, FortuneRaceSpec, SingleRace: the handlers of the fortune and of the
      single_file module as actions.
    - TaskInfo, SingleFile, SingleFileSpec, SeqFile: 6/seq_files, the two /proc files.
    - Myfs, MyfsSpec, Myvfs, Slab, FsTypes: 7/vfs, main.c and myvfs.c. Slab has the
      constructors of their slab caches, FsTypes the tables by which the kernel mounts,
      uses and unmounts them, over the kernel's own functions ([FsLib], [FsLibLaws]).
    - Threads, Tasklet, TaskletSpec, Workqueue, WorkqueueSpec: 9/interrupts. Loading and
      unloading are threads that interrupts come between. WorkqueueRace, WorkqueueRaceSpec:
      the loaded workqueue module, whose handler and two work functions run on different
      processors, as single accesses to the work items.
    - Letters, Bakery1, Bakery1Inv, Bakery1Spec, Bakery1Live, Bakery1Tickets:
      3/proc/bakery1, whose server has a thread for every client; it refines a ticket
      queue. Bakery1Live has its progress in any interleaving, Bakery1Tickets what holds
      of the ticket of a client all the way. The files of 3/proc with the same names are
      copies.
    - Bakery2, Bakery2Spec: the sequential server of 3/proc/bakery2. BakeryRpc,
      BakeryRpcSpec: the XDR filter, dispatchers, stubs, client, and the start-up of both
      servers, over the RPC library and the portmapper.
    - Bakery1Rpc: the stubs and the client program of bakery1, a tree of calls, put together
      with the server of Bakery1. Bakery1RpcSpec: the calls are delivered once.
      Bakery1UdpSpec: the datagrams of a call are lost, delayed and sent again.
    - Catalog, CatalogSpec: the two tree walkers of 1/catalog.
    - Posix, Pthread, OpenFile and OpenFileSpec, OpenFileThreads, OpenFileWrite,
      OpenFileTypes: the eight programs of 8/open_file/src, over descriptors, open files
      and buffered streams, four of them with two threads. Unjoined, OpenFileLists,
      OpenFileListsSpec: the listings of the report that differ from the programs.
    - ProcInfo, ProcInfoSpec: the process report 3/proc/main.c; what the pointer that it
      gives to [getline] without a value holds is a parameter.
    - Dgram, DgramSpec: the datagram programs of 2/client-sever, with the address of the
      sender and its size as [recvfrom] leaves them. Epoll, EpollSpec: the
      stream server and its clients there. Paired, PairedSpec: 2/paired-sockets.
    - ProcFiles: how the files of 6/seq_files and 9/interrupts are opened and released with
      the library of sequence files ([SeqLib], [SeqLibLaws]). ProcOps: their operation
      tables, whose reads and seeks are calls of that library ([SeqRead], [SeqReadLaws]),
      and processes that use the files.
    - MdTasks: 4/proc_info/md.c. Interactive: 5/interactive_module.

    Definitions have the names of the functions they model; a loop inside a function has a
    name made of it ([copy_loop], [stat_loop]), the control points of a process are the
    constructors of a type ([tpc], [child_pc], [server_pc]).

    ** What is proved

    - Safety and refinement: mutual exclusion of the bakery server and its refinement of
      the ticket queue; the fortune pot as a list; the name printed for every key; the
      walkers against a count over the tree.
    - Whole runs: the sessions of both bakery servers, of the socket programs and of the
      threaded file programs end, within bounds given, in the states given, whatever the
      order of the steps; those that need not end are shown to block, and where.
    - Composition: a client of bakery1 over its stubs and the server prints its own index
      and ticket and gets the letter of its place in the queue; a call that is sent again
      is carried out again, with what follows for the client and the server. What is
      written to single_file is what a read through the tables shows.
    - Calls at the same time: what the handlers of the fortune and the single_file module,
      which take no lock, guarantee (any number of writes and one read of the pot, if all
      of it fits; any number of writes and shows of texts shorter than the buffer), and
      what two writes, two reads, or a write and a show can do to each other. The
      workqueue module at rest has printed the last key last, whatever was going on before;
      a key released at the wrong moment indexes its table of names past the end.
    - Life cycles: loading a module fails without a trace or succeeds, and unloading gives
      everything back - or what is left behind, by the call that failed; in between, the
      /proc files are opened, read, written and closed, and the file systems mounted and
      unmounted, any number of times.
    - Errors: each failing branch with its exact outcome, and the inputs that break a
      bound (the 33rd client, a write of one byte too many, a 53rd word, a full datagram,
      the address of a sender that is longer than the one before).
    - Round trips: XDR. Well-formedness: the states of the file programs.

    ** Fuel and bounds

    The loops of the sequential bakery server end by its time limit, the clock being an
    oracle that advances; the walkers need fuel for the height of the tree; a loop over a
    file needs a round more than it has parts, lines or bytes, the loop over the tasks one
    for each. The thread of the oldest client ends within 136 of its own steps, the rounds of
    its loops on [choosing] not counted, and each of those loops ends within 70 steps of
    the dispatcher, with any steps of the others between; two threads of the
    file programs within 162 steps or a few for each byte, the processes with the paired
    sockets within 14, the stream server with n clients within 12 n + 2, the calls of the
    fortune module within 7 each, those of single_file within 4; the workqueue module
    makes at most 40 accesses after the last key, and is then at rest unless a key that
    has no name makes it fault.

    ** Not modelled

    - The measurement of times, and log messages that carry time stamps only.
    - The declaration of the fortune module's table, whose functions are modelled one by
      one, and the code of the kernel, of the C library and of the RPC library: what the
      programs rely on are the laws of the type classes above, each with an instance.
    - Weak memory: accesses are sequentially consistent. A datagram or a message of 32
      bytes arrives whole.
    - Files written by the kernel build, the copies in 3/proc, and the listings of the
      report that are the programs of 8/open_file/src word for word. The first half of
      seq_file.c is an older version of it, commented out. *)

From stdpp Require Export base gmap list strings numbers relations.
From stdpp Require Import options.
From Stdlib Require Export ZArith Lia.


(** ** Outcomes of C code

    A C function either returns, or performs an access the language or the
    kernel forbids; the model stops at such an access and says which one. *)

Inductive fault :=
  | OutOfBounds   (* access outside an array or an allocation *)
  | NullDeref     (* dereference of a NULL pointer *)
  | UseAfterFree  (* use of an object that has been released *)
  | BadFree       (* release of an object that is not held *)
  | Uninit.       (* use of memory that has not been initialised *)

Inductive outcome (A : Type) : Type :=
  | Ok (a : A)
  | Fault (f : fault).
Arguments Ok {A} a.
Arguments Fault {A} f.

#[export] Instance fault_eq_dec : EqDecision fault.
Proof. solve_decision. Defined.
#[export] Instance outcome_eq_dec `{EqDecision A} : EqDecision (outcome A).
Proof. solve_decision. Defined.

#[export] Instance outcome_ret : MRet outcome := @Ok.
#[export] Instance outcome_bind : MBind outcome := λ _ _ k m,
  match m with Ok a => k a | Fault f => Fault f end.

(** Code that also changes the state [S]. *)
Definition prog (S A : Type) : Type := S → outcome (A * S).

#[export] Instance prog_ret S : MRet (prog S) := λ _ a s, Ok (a, s).
#[export] Instance prog_bind S : MBind (prog S) := λ _ _ k m s,
  match m s with Ok (a, s') => k a s' | Fault f => Fault f end.

Definition get_st {S} : prog S S := λ s, Ok (s, s).
Definition put_st {S} (s : S) : prog S unit := λ _, Ok (tt, s).
Definition modify {S} (f : S → S) : prog S unit := λ s, Ok (tt, f s).
Definition crash {S A} (f : fault) : prog S A := λ _, Fault f.
Definition lift {S A} (m : outcome A) : prog S A := λ s,
  match m with Ok a => Ok (a, s) | Fault f => Fault f end.

Lemma outcome_bind_Ok {A B} (m : outcome A) (k : A → outcome B) b :
  (m ≫= k) = Ok b ↔ ∃ a, m = Ok a ∧ k a = Ok b.
Proof. destruct m; naive_solver. Qed.

Lemma prog_bind_Ok {S A B} (m : prog S A) (k : A → prog S B) s r :
  (m ≫= k) s = Ok r ↔ ∃ a s', m s = Ok (a, s') ∧ k a s' = Ok r.
Proof. unfold mbind, prog_bind. destruct (m s) as [[a s']|]; naive_solver. Qed.

(** [wp m Q s]: from [s], [m] returns without a fault, in a state and with a
    result that satisfy [Q]. *)
Definition wp {S A} (m : prog S A) (Q : A → S → Prop) (s : S) : Prop :=
  ∃ a s', m s = Ok (a, s') ∧ Q a s'.

Section Wp.
Context {S A B : Type}.
Implicit Types (m : prog S A) (k : A → prog S B) (Q : A → S → Prop) (s : S).

Lemma wp_ret a Q s : Q a s → wp (mret a) Q s.
Proof. intros HQ. by exists a, s. Qed.

Lemma wp_bind m k (R : B → S → Prop) s : wp m (λ a, wp (k a) R) s → wp (m ≫= k) R s.
Proof. intros (a & s' & Hm & b & s2 & Hk & HR). exists b, s2. unfold mbind, prog_bind. by rewrite Hm. Qed.

Lemma wp_mono m Q Q' s : wp m Q s → (∀ a s', Q a s' → Q' a s') → wp m Q' s.
Proof. intros (a & s' & Hm & HQ) HQ'. exists a, s'. auto. Qed.

Lemma wp_Ok m Q s a s' : m s = Ok (a, s') → Q a s' → wp m Q s.
Proof. intros. by exists a, s'. Qed.

Lemma wp_get_st (Q : S → S → Prop) s : Q s s → wp get_st Q s.
Proof. intros. by exists s, s. Qed.

Lemma wp_modify f (Q : unit → S → Prop) s : Q tt (f s) → wp (modify f) Q s.
Proof. intros. by eexists _, _. Qed.

Lemma wp_lift (o : outcome A) Q s a : o = Ok a → Q a s → wp (lift o) Q s.
Proof. intros -> HQ. by exists a, s. Qed.
End Wp.

(** Code with loops whose number of turns is not known beforehand: the functions
    that contain such a loop take fuel, and give [None] when it is used up. *)
Definition lprog (S A : Type) : Type := S → option (outcome (A * S)).

#[export] Instance lprog_ret S : MRet (lprog S) := λ _ a s, Some (Ok (a, s)).
#[export] Instance lprog_bind S : MBind (lprog S) := λ _ _ k m s,
  match m s with
  | Some (Ok (a, s')) => k a s'
  | Some (Fault f) => Some (Fault f)
  | None => None
  end.

(** Code without such loops, and the lack of fuel. *)
Definition now {S A} (m : prog S A) : lprog S A := λ s, Some (m s).
Definition no_fuel {S A} : lprog S A := λ _, None.

(** [lwp m Q s]: from [s], [m] returns, within its fuel and without a fault, in a
    state and with a result that satisfy [Q]. *)
Definition lwp {S A} (m : lprog S A) (Q : A → S → Prop) (s : S) : Prop :=
  ∃ a s', m s = Some (Ok (a, s')) ∧ Q a s'.

Section Lwp.
Context {S A B : Type}.
Implicit Types (m : lprog S A) (k : A → lprog S B) (Q : A → S → Prop) (s : S).

Lemma lwp_ret a Q s : Q a s → lwp (mret a) Q s.
Proof. intros HQ. by exists a, s. Qed.

Lemma lwp_bind m k (R : B → S → Prop) s : lwp m (λ a, lwp (k a) R) s → lwp (m ≫= k) R s.
Proof. intros (a & s' & Hm & b & s2 & Hk & HR). exists b, s2. unfold mbind, lprog_bind. by rewrite Hm. Qed.

Lemma lwp_mono m Q Q' s : lwp m Q s → (∀ a s', Q a s' → Q' a s') → lwp m Q' s.
Proof. intros (a & s' & Hm & HQ) HQ'. exists a, s'. auto. Qed.

Lemma lwp_Ok m Q s a s' : m s = Some (Ok (a, s')) → Q a s' → lwp m Q s.
Proof. intros. by exists a, s'. Qed.

Lemma lwp_now (m : prog S A) Q s : wp m Q s → lwp (now m) Q s.
Proof. intros (a & s' & Hm & HQ). exists a, s'. unfold now. by rewrite Hm. Qed.

Lemma lwp_now_Ok (m : prog S A) Q s a s' : m s = Ok (a, s') → Q a s' → lwp (now m) Q s.
Proof. intros. apply lwp_now. by eapply wp_Ok. Qed.
End Lwp.

Lemma lwp_get_st {S} (Q : S → S → Prop) s : Q s s → lwp (now get_st) Q s.
Proof. intros. by eapply lwp_now_Ok. Qed.

(** ** C arrays of a fixed size, indexed by C integers *)

Definition carray (A : Type) : Type := gmap Z A.

Definition carray_make {A} (n : nat) (v : A) : gmap Z A :=
  list_to_map ((λ i, (Z.of_nat i, v)) <$> seq 0 n).

Lemma lookup_carray_make {A} n (v : A) i :
  carray_make n v !! i = if decide (0 ≤ i < Z.of_nat n)%Z then Some v else None.
Proof.
  unfold carray_make. case_decide as Hi.
  - apply elem_of_list_to_map_1.
    + rewrite <- list_fmap_compose. apply NoDup_fmap; [|apply NoDup_seq].
      intros x y. simpl. lia.
    + apply list_elem_of_fmap. exists (Z.to_nat i).
      rewrite elem_of_seq. split; [f_equal|]; lia.
  - apply not_elem_of_list_to_map_1. rewrite <- list_fmap_compose.
    rewrite list_elem_of_fmap. intros (j & -> & Hj%elem_of_seq). simpl in Hi. lia.
Qed.

(** ** Machine integers *)

Definition int32 (x : Z) : Z := ((x + 2 ^ 31) mod 2 ^ 32 - 2 ^ 31)%Z.
Definition uint32 (x : Z) : Z := (x mod 2 ^ 32)%Z.
Definition size_t (x : Z) : Z := (x mod 2 ^ 64)%Z.

Lemma int32_small x : (- 2 ^ 31 ≤ x < 2 ^ 31)%Z → int32 x = x.
Proof. intros. unfold int32. rewrite Z.mod_small; lia. Qed.
Lemma uint32_small x : (0 ≤ x < 2 ^ 32)%Z → uint32 x = x.
Proof. intros. by apply Z.mod_small. Qed.
Lemma size_t_small x : (0 ≤ x < 2 ^ 64)%Z → size_t x = x.
Proof. intros. by apply Z.mod_small. Qed.

(** ** Byte buffers *)

(** [b[i] = v]. *)
Definition bput (b : list Z) (i v : Z) : outcome (list Z) :=
  if decide (0 ≤ i < Z.of_nat (length b))%Z then Ok (<[Z.to_nat i := v]> b)
  else Fault OutOfBounds.

(** Storing the bytes [d] from offset [off] on. *)
Definition bwrite (b : list Z) (off : Z) (d : list Z) : outcome (list Z) :=
  if decide (0 ≤ off ∧ off + Z.of_nat (length d) ≤ Z.of_nat (length b))%Z then
    Ok (take (Z.to_nat off) b ++ d ++ drop (Z.to_nat off + length d) b)
  else Fault OutOfBounds.

(** Loading [n] bytes. *)
Definition bread (b : list Z) (off n : Z) : outcome (list Z) :=
  if decide (0 ≤ off ∧ 0 ≤ n ∧ off + n ≤ Z.of_nat (length b))%Z then
    Ok (take (Z.to_nat n) (drop (Z.to_nat off) b))
  else Fault OutOfBounds.

(** The C string at offset [off]: the bytes up to the first zero; running off the
    end of the buffer is a fault. *)
Fixpoint until_nul (l : list Z) : option (list Z) :=
  match l with
  | [] => None
  | x :: l => if decide (x = 0)%Z then Some [] else (x ::.) <$> until_nul l
  end.

Definition cstr (b : list Z) (off : Z) : outcome (list Z) :=
  if decide (0 ≤ off)%Z then
    match until_nul (drop (Z.to_nat off) b) with
    | Some s => Ok s
    | None => Fault OutOfBounds
    end
  else Fault OutOfBounds.

(** [snprintf(buf, size, ..)] of the text [s], [size > 0]: at most [size - 1]
    characters and a zero are stored; the result is the length of all of [s]. *)
Definition snprintf (buf : list Z) (size : Z) (s : list Z) : outcome (list Z * Z) :=
  b ← bwrite buf 0 (take (Z.to_nat (size - 1)) s ++ [0%Z]);
  Ok (b, Z.of_nat (length s)).

Lemma until_nul_app s l : Forall (λ x, x ≠ 0%Z) s → until_nul (s ++ 0%Z :: l) = Some s.
Proof.
  induction 1 as [|x s Hx Hs IH]; simpl; [done|]. rewrite decide_False by done. by rewrite IH.
Qed.

Lemma until_nul_in l : 0%Z ∈ l → ∃ s, until_nul l = Some s.
Proof.
  induction l as [|x l IH]; [by intros []%not_elem_of_nil|]. simpl. intros Hin.
  case_decide as Hx; [by eexists|]. apply elem_of_cons in Hin as [|Hin]; [done|].
  destruct (IH Hin) as [s ->]. by eexists.
Qed.

Lemma until_nul_prefix l k s : until_nul l = Some s → until_nul (l ++ k) = Some s.
Proof.
  revert s. induction l as [|x l IH]; intros s; simpl; [done|]. case_decide; [done|].
  destruct (until_nul l) as [s'|]; [|done]. by rewrite (IH s').
Qed.

Lemma cstr_app p s l n :
  n = Z.of_nat (length p) → Forall (λ x, x ≠ 0%Z) s → cstr (p ++ s ++ 0%Z :: l) n = Ok s.
Proof.
  intros -> Hs. unfold cstr. rewrite decide_True by lia.
  rewrite Nat2Z.id, drop_app_length. by rewrite until_nul_app.
Qed.

Lemma bwrite_app p q r d n :
  n = Z.of_nat (length p) → length q = length d → bwrite (p ++ q ++ r) n d = Ok (p ++ d ++ r).
Proof.
  intros -> Hq. unfold bwrite. rewrite !length_app, decide_True by lia.
  rewrite Nat2Z.id, take_app_length. do 2 f_equal.
  rewrite app_assoc, drop_app_length' by (rewrite length_app; lia). done.
Qed.

Lemma length_bwrite b off d b' : bwrite b off d = Ok b' → length b' = length b.
Proof.
  unfold bwrite. case_decide; intros; simplify_eq.
  rewrite !length_app, length_take, length_drop. lia.
Qed.

Lemma length_bput b i v b' : bput b i v = Ok b' → length b' = length b.
Proof. unfold bput. case_decide; intros; simplify_eq. apply length_insert. Qed.

Section Last.
Local Open Scope Z_scope.

Lemma removelast_length (d : list Z) : length (removelast d) = (length d - 1)%nat.
Proof. induction d as [|x [|y d] IH]; simpl in *; lia. Qed.

(** [buf[..len-1] = 0] turns the last byte of the text just stored into a zero. *)
Lemma bput_last p d r n :
  d ≠ [] → n = Z.of_nat (length p) + Z.of_nat (length d) - 1 →
  bput (p ++ d ++ r) n 0 = Ok (p ++ removelast d ++ 0 :: r).
Proof.
  intros Hd ->. destruct (exists_last Hd) as (d' & x & ->).
  rewrite removelast_last, length_app. simpl. unfold bput.
  rewrite decide_True by (rewrite !length_app; simpl; lia). f_equal.
  rewrite insert_app_r_alt by lia. f_equal.
  replace (Z.to_nat _ - length p)%nat with (length d' + 0)%nat by lia.
  rewrite <- (assoc app), insert_app_r. done.
Qed.

(** A string at or before a zero ends there at the latest. *)
Lemma cstr_zero p k off :
  p !! k = Some 0 → 0 ≤ off ≤ Z.of_nat k → ∃ s, cstr p off = Ok s ∧ off + Z.of_nat (length s) ≤ Z.of_nat k.
Proof.
  intros Hk Hoff. unfold cstr. rewrite decide_True by lia.
  assert (drop (Z.to_nat off) p !! (k - Z.to_nat off)%nat = Some 0) as Hz
    by (rewrite lookup_drop, <- Hk; f_equal; lia).
  assert (∀ l i, l !! i = Some 0 → ∃ s, until_nul l = Some s ∧ (length s ≤ i)%nat) as Hu.
  { clear. induction l as [|x l IH]; intros i Hi; [done|]. simpl.
    case_decide; [eexists; split; [done|simpl; lia]|]. destruct i as [|i]; [by simplify_eq/=|].
    destruct (IH i Hi) as (s & -> & ?). eexists. split; [done|]. simpl. lia. }
  destruct (Hu _ _ Hz) as (s & -> & ?). exists s. split; [done|]. lia.
Qed.

(** Storing below [k] leaves [b[k]]. *)
Lemma bwrite_below p off d k :
  0 ≤ off → off + Z.of_nat (length d) ≤ Z.of_nat k → (k < length p)%nat →
  ∃ p', bwrite p off d = Ok p' ∧ length p' = length p ∧ p' !! k = p !! k.
Proof.
  intros. unfold bwrite. rewrite decide_True by lia. eexists. split; [done|]. split.
  - rewrite !length_app, length_take, length_drop. lia.
  - rewrite !lookup_app_r by (rewrite ?length_take; lia). rewrite lookup_drop, length_take. f_equal. lia.
Qed.

Lemma bput_again b i v b' : bput b i v = Ok b' → bput b' i v = Ok b'.
Proof.
  unfold bput. case_decide; intros; simplify_eq.
  rewrite decide_True by (by rewrite length_insert). by rewrite list_insert_insert_eq.
Qed.

End Last.

(** ** Text *)

Definition bytes (s : string) : list Z :=
  (λ c, Z.of_N (Ascii.N_of_ascii c)) <$> String.list_ascii_of_string s.

Definition digit (d : Z) : Z := if decide (d < 10)%Z then (48 + d)%Z else (87 + d)%Z.

(** The digits of [n] in base [b]; twenty of them hold every 64-bit number. *)
Fixpoint digits (fuel : nat) (b n : Z) : list Z :=
  match fuel with
  | O => []
  | S fuel =>
      if decide (n < b)%Z then [digit n]
      else digits fuel b (n / b)%Z ++ [digit (n mod b)%Z]
  end.

(** The conversions %d (and %lld, %llu) and %x. *)
Definition dec (n : Z) : list Z :=
  if decide (n < 0)%Z then 45%Z :: digits 20 10 (- n) else digits 20 10 n.
Definition hex (n : Z) : list Z := digits 20 16 n.

(** ** Shared automation *)

(** A closed decidable fact, by computation. *)
Ltac decided := apply (bool_decide_unpack _); vm_compute; exact I.

(** Runs that keep an invariant and lower a measure: the invariant holds at the end, and
    the measure bounds the number of steps. *)
Lemma nsteps_measure {A} (R : relation A) (I : A → Prop) (μ : A → nat) :
  (∀ x y, I x → R x y → I y ∧ (μ y < μ x)%nat) →
  ∀ n x y, I x → nsteps R n x y → I y ∧ (n + μ y ≤ μ x)%nat.
Proof.
  intros Hstep n x y Hx Hn. induction Hn as [x|n x y z Hxy _ IH]; [split; [done|lia]|].
  destruct (Hstep x y Hx Hxy) as [Hy Hlt]. destruct (IH Hy) as [Hz Hle]. split; [done|lia].
Qed.

Lemma Exists_lookup {A} (P : A → Prop) (l : list A) : Exists P l ↔ ∃ i x, l !! i = Some x ∧ P x.
Proof.
  rewrite Exists_exists. split.
  - intros (x & [i Hi]%list_elem_of_lookup & Hx). by exists i, x.
  - intros (i & x & Hi & Hx). exists x. split; [|done]. by eapply list_elem_of_lookup_2.
Qed.
