(* ===== verification/Kernel.v ===== *)
(** * The kernel as the modules see it

    The kernel's allocation and registration calls are code outside this
    repository: they are the operations of a type class, with the documented
    behaviour the modules rely on as its laws. A concrete ledger shows that the
    laws can hold. *)

From S2P Require Import Prelude.
From stdpp Require Import options.
#[local] Set Default Proof Using "Type*".
Local Open Scope Z_scope.

(** ** Objects a module acquires from the kernel *)

(** A handle is a non-NULL pointer (or a registration); [option handle] is a
    pointer that may be NULL. *)
Definition handle : Type := positive.

Inductive kobj :=
  | KVmalloc (size : Z)
  | KKmalloc (size : Z)
  | KProcDir (name : string) (parent : option handle)
  | KProcFile (name : string) (mode : Z) (parent : option handle)
  | KProcLink (name : string) (parent : option handle) (target : string)
  | KIrq (irq : Z) (name : string)
  | KWorkqueue (name : string)
  | KCache (name : string) (size : Z)
  | KCacheObj (cache : handle)
  | KFilesystem (name : string)
  | KInode
  | KSuper
  | KDentry (inode : handle)
  | KPidRef (pid : Z)
  | KTaskRef (pid : Z).

#[export] Instance kobj_eq_dec : EqDecision kobj.
Proof. solve_decision. Defined.

(** The key of a /proc entry: its name and its parent directory. *)
Definition proc_key (o : kobj) : option (string * option handle) :=
  match o with
  | KProcDir n p | KProcFile n _ p | KProcLink n p _ => Some (n, p)
  | _ => None
  end.

(** What an object lies in: the directory of an entry, the cache of an object, the
    inode of a dentry. *)
Definition parent_of (o : kobj) : option handle :=
  match o with
  | KCacheObj c => Some c
  | KDentry i => Some i
  | _ => proc_key o ≫= snd
  end.

(** Neither an entry nor inside anything. *)
Definition standalone (o : kobj) : Prop := proc_key o = None ∧ parent_of o = None.

(** What is known of a handle the kernel returns: it is new, nothing held lies in
    it, and a /proc entry of the same name does not exist in its directory. *)
Record fresh_for (m : gmap handle kobj) (h : handle) (o : kobj) : Prop := {
  ff_new : m !! h = None;
  ff_key : ∀ k h' o', proc_key o = Some k → m !! h' = Some o' → proc_key o' ≠ Some k;
  ff_child : ∀ h' o', m !! h' = Some o' → parent_of o' ≠ Some h;
  ff_self : parent_of o ≠ Some h
}.

(** ** The interface *)

Class Kernel (W : Type) := {
  held : W → gmap handle kobj;                  (* what has been acquired and not released *)
  acquire : kobj → W → (handle + Z) * W;        (* a handle, or a negative error code *)
  forget : handle → W → W
}.

Class KernelLaws (W : Type) `{!Kernel W} := {
  acquire_ok o w h w' : acquire o w = (inl h, w') →
    fresh_for (held w) h o ∧ held w' = <[h := o]> (held w);
  acquire_err o w e w' : acquire o w = (inr e, w') → held w' = held w ∧ e < 0;
  held_forget h w : held (forget h w) = delete h (held w)
}.

(** The state of a module: the kernel and the module's static data. *)
Record kstate (W G : Type) := KState { world : W; glob : G }.
Arguments KState {W G} _ _.
Arguments world {W G} _.
Arguments glob {W G} _.

(** Objects found by a property, among those held. *)
Definition find_obj (P : kobj → bool) (m : gmap handle kobj) : option handle :=
  fst <$> head (filter (λ ho, P ho.2) (map_to_list m)).

Definition is_key (k : string * option handle) (o : kobj) : bool :=
  bool_decide (proc_key o = Some k).

(** Does a held entry lie in the directory [h]? *)
Definition has_children (h : handle) (m : gmap handle kobj) : bool :=
  match find_obj (λ o, bool_decide (parent_of o = Some h)) m with
  | Some _ => true
  | None => false
  end.

Section Calls.
Context {W : Type} `{!Kernel W} {G : Type}.
Abbreviation M := (prog (kstate W G)).

(** Allocation calls that return a pointer, NULL on failure. *)
Definition alloc (o : kobj) : M (option handle) := λ s,
  match acquire o (world s) with
  | (inl h, w) => Ok (Some h, KState w (glob s))
  | (inr _, w) => Ok (None, KState w (glob s))
  end.

(** Registration calls that return 0 or an error code. *)
Definition register (o : kobj) : M Z := λ s,
  match acquire o (world s) with
  | (inl _, w) => Ok (0, KState w (glob s))
  | (inr e, w) => Ok (e, KState w (glob s))
  end.

(** Releasing an object that must be held and satisfy [P]. *)
Definition release (P : kobj → bool) (h : handle) : M unit := λ s,
  match held (world s) !! h with
  | Some o => if P o then Ok (tt, KState (forget h (world s)) (glob s)) else Fault BadFree
  | None => Fault BadFree
  end.

Definition release_found (P : kobj → bool) : M unit := λ s,
  match find_obj P (held (world s)) with
  | Some h => Ok (tt, KState (forget h (world s)) (glob s))
  | None => Fault BadFree
  end.

Definition vmalloc (size : Z) : M (option handle) := alloc (KVmalloc size).
Definition kmalloc (size : Z) : M (option handle) := alloc (KKmalloc size).
Definition proc_mkdir name parent : M (option handle) := alloc (KProcDir name parent).
Definition proc_create name mode parent : M (option handle) := alloc (KProcFile name mode parent).
Definition proc_symlink name parent target : M (option handle) :=
  alloc (KProcLink name parent target).

(** [vfree(NULL)] and [kfree(NULL)] do nothing. *)
Definition vfree (p : option handle) : M unit :=
  match p with
  | None => mret tt
  | Some h => release (λ o, match o with KVmalloc _ => true | _ => false end) h
  end.
Definition kfree (p : option handle) : M unit :=
  match p with
  | None => mret tt
  | Some h => release (λ o, match o with KKmalloc _ => true | _ => false end) h
  end.

(** The entry is looked up by name and directory; it must exist and be empty. *)
Definition remove_proc_entry (name : string) (parent : option handle) : M unit := λ s,
  match find_obj (is_key (name, parent)) (held (world s)) with
  | Some h =>
      if has_children h (held (world s)) then Fault BadFree
      else Ok (tt, KState (forget h (world s)) (glob s))
  | None => Fault BadFree
  end.

Definition get_g : M G := λ s, Ok (glob s, s).
Definition set_g (f : G → G) : M unit := λ s, Ok (tt, KState (world s) (f (glob s))).
End Calls.

(** ** A ledger: the interface can be implemented *)

(** [fails] lists, by the number of acquisitions made so far, the calls that fail. *)
Record ledger := Ledger {
  l_held : gmap handle kobj;
  l_calls : nat;
  l_fails : list nat
}.

Definition parents (m : gmap handle kobj) : gset handle :=
  list_to_set (omap (λ ho, parent_of ho.2) (map_to_list m)).

Definition ledger_acquire (o : kobj) (w : ledger) : (handle + Z) * ledger :=
  let m := l_held w in
  let taken := match proc_key o with
    | Some k => match find_obj (is_key k) m with Some _ => true | None => false end
    | None => false
    end in
  if taken || bool_decide (l_calls w ∈ l_fails w)
  then (inr (-12), Ledger m (S (l_calls w)) (l_fails w))
  else let h := fresh (dom m ∪ parents m ∪ option_to_set (parent_of o)) in
       (inl h, Ledger (<[h := o]> m) (S (l_calls w)) (l_fails w)).

#[export] Instance ledger_kernel : Kernel ledger := {|
  held := l_held;
  acquire := ledger_acquire;
  forget h w := Ledger (delete h (l_held w)) (l_calls w) (l_fails w)
|}.

Lemma find_obj_None P m h o : find_obj P m = None → m !! h = Some o → P o = false.
Proof.
  unfold find_obj. intros Hf Ho. destruct (filter _ _) as [|ho l] eqn:Hl; [|done].
  destruct (P o) eqn:HP; [|done]. assert ((h, o) ∈ @nil (handle * kobj)) as []%elem_of_nil.
  rewrite <- Hl. apply list_elem_of_filter. split; [simpl; by rewrite HP|]. by apply elem_of_map_to_list.
Qed.

Lemma find_obj_Some P m h :
  find_obj P m = Some h → ∃ o, m !! h = Some o ∧ P o = true.
Proof.
  unfold find_obj. intros Hf. apply fmap_Some in Hf as ([h' o] & Hh & ->).
  assert ((h', o) ∈ filter (λ ho : handle * kobj, P ho.2) (map_to_list m)) as Hin
    by (destruct (filter _ _); simplify_eq/=; set_solver).
  apply list_elem_of_filter in Hin as [HP Hin%elem_of_map_to_list]. exists o.
  split; [done|]. by apply Is_true_true_1.
Qed.

(** The only object with the property is the one found. *)
Lemma find_obj_unique P m h o :
  m !! h = Some o → P o = true → (∀ h' o', m !! h' = Some o' → P o' = true → h' = h) →
  find_obj P m = Some h.
Proof.
  intros Ho HP Huniq. destruct (find_obj P m) as [h'|] eqn:Hf.
  - apply find_obj_Some in Hf as (o' & ? & ?). f_equal. by eapply Huniq.
  - by rewrite (find_obj_None _ _ _ _ Hf Ho) in HP.
Qed.

#[export] Instance ledger_laws : KernelLaws ledger.
Proof.
  split; simpl; unfold ledger_acquire.
  - intros o w h w'. case_match eqn:Ht; intros; simplify_eq/=.
    apply orb_false_elim in Ht as [Ht _]. split; [|done].
    pose proof (is_fresh (dom (l_held w) ∪ parents (l_held w) ∪ option_to_set (parent_of o)))
      as Hfresh. apply not_elem_of_union in Hfresh as [[Hd Hp]%not_elem_of_union Hs].
    split.
    + by apply not_elem_of_dom.
    + intros k h' o' Hk Ho' Hk'. rewrite Hk in Ht.
      destruct (find_obj (is_key k) (l_held w)) eqn:Hf; [done|].
      pose proof (find_obj_None _ _ _ _ Hf Ho') as Hn. unfold is_key in Hn.
      by rewrite bool_decide_eq_true_2 in Hn.
    + intros h' o' Ho' Hpar. apply Hp, elem_of_list_to_set, list_elem_of_omap.
      exists (h', o'). split; [by apply elem_of_map_to_list|done].
    + intros Hpar. apply Hs. rewrite Hpar. simpl. set_solver.
  - intros o w e w'. case_match; intros; simplify_eq/=. split; [done|lia].
  - done.
Qed.

(** ** What the calls do, by the laws *)

Section CallLemmas.
Context {W : Type} `{!Kernel W, !KernelLaws W} {G : Type}.
Implicit Types (s : kstate W G) (m : gmap handle kobj).

(** The outcome of an allocation. *)
Definition allocated (o : kobj) s (r : option handle) s' : Prop :=
  glob s' = glob s ∧
  match r with
  | Some h => fresh_for (held (world s)) h o ∧ held (world s') = <[h := o]> (held (world s))
  | None => held (world s') = held (world s)
  end.

Lemma alloc_spec o s : ∃ r s', alloc o s = Ok (r, s') ∧ allocated o s r s'.
Proof.
  unfold alloc, allocated. destruct (acquire o (world s)) as [[h|e] w] eqn:Ha.
  - destruct (acquire_ok _ _ _ _ Ha). eexists _, _. split; [done|]. done.
  - destruct (acquire_err _ _ _ _ Ha). eexists _, _. split; [done|]. done.
Qed.

Lemma register_spec o s :
  (∃ h s', register o s = Ok (0, s') ∧ allocated o s (Some h) s') ∨
  (∃ e s', register o s = Ok (e, s') ∧ e < 0 ∧ allocated o s None s').
Proof.
  unfold register, allocated. destruct (acquire o (world s)) as [[h|e] w] eqn:Ha.
  - left. destruct (acquire_ok _ _ _ _ Ha). exists h. eexists. split; [done|]. done.
  - right. destruct (acquire_err _ _ _ _ Ha). exists e. eexists. split; [done|]. done.
Qed.

(** Releasing what was acquired last gives back the ledger of before. *)
Lemma release_last P h o m s :
  held (world s) = <[h := o]> m → m !! h = None → P o = true →
  ∃ s', release P h s = Ok (tt, s') ∧ glob s' = glob s ∧ held (world s') = m.
Proof.
  intros Hh Hm HP. unfold release. rewrite Hh, lookup_insert_eq, HP.
  eexists. split; [done|]. split; [done|]. simpl. rewrite held_forget, Hh.
  by rewrite delete_insert_id.
Qed.

Lemma find_entry_last h o k m :
  fresh_for m h o → proc_key o = Some k → find_obj (is_key k) (<[h := o]> m) = Some h.
Proof.
  intros [_ Hk _ _] Ho. apply (find_obj_unique _ _ _ o).
  - apply lookup_insert_eq.
  - unfold is_key. by rewrite bool_decide_eq_true_2.
  - intros h' o' Ho' Hk'%bool_decide_eq_true_1. destruct (decide (h = h')) as [|Hne]; [done|].
    rewrite lookup_insert_ne in Ho' by done. by destruct (Hk _ _ _ Ho Ho').
Qed.

Lemma no_children_last h o m : fresh_for m h o → has_children h (<[h := o]> m) = false.
Proof.
  intros [_ _ Hc Hs]. unfold has_children. destruct (find_obj _ _) as [h'|] eqn:Hf; [|done].
  apply find_obj_Some in Hf as (o' & Ho' & Hp%bool_decide_eq_true_1).
  destruct (decide (h = h')) as [<-|].
  - rewrite lookup_insert_eq in Ho'. by simplify_eq.
  - rewrite lookup_insert_ne in Ho' by done. by destruct (Hc _ _ Ho').
Qed.

Lemma remove_proc_entry_last name parent h o m s :
  held (world s) = <[h := o]> m → fresh_for m h o → proc_key o = Some (name, parent) →
  ∃ s', remove_proc_entry name parent s = Ok (tt, s') ∧ glob s' = glob s ∧
    held (world s') = m.
Proof.
  intros Hh Hf Ho. unfold remove_proc_entry.
  rewrite Hh, (find_entry_last _ _ _ _ Hf Ho), (no_children_last _ _ _ Hf).
  eexists. split; [done|]. split; [done|]. simpl. rewrite held_forget, Hh.
  apply delete_insert_id, Hf.
Qed.
End CallLemmas.

(** ** A directory, a file in it and a link to the file *)

Section ProcTree.
Context (dname fname : string) (mode : Z) (lname target : string).

(** [m'] is [m] and, acquired after it, the three entries. *)
Definition proc_tree (m : gmap handle kobj) (hd hf hl : handle) (m' : gmap handle kobj) : Prop :=
  let m1 := <[hd := KProcDir dname None]> m in
  let m2 := <[hf := KProcFile fname mode (Some hd)]> m1 in
  fresh_for m hd (KProcDir dname None) ∧
  fresh_for m1 hf (KProcFile fname mode (Some hd)) ∧
  fresh_for m2 hl (KProcLink lname None target) ∧
  m' = <[hl := KProcLink lname None target]> m2.

Lemma fresh_insert m h o h' o' :
  fresh_for m h o → h' ≠ h → standalone o' → fresh_for (<[h' := o']> m) h o.
Proof.
  intros [Hn Hk Hc Hs] Hne [Ho' Hp']. split; [by rewrite lookup_insert_ne|..|done].
  - intros k i x Hkey. rewrite lookup_insert_Some. intros [[<- <-]|[_ Hx]]; [by rewrite Ho'|eauto].
  - intros i x. rewrite lookup_insert_Some.
    intros [[<- <-]|[_ Hx]]; [by rewrite Hp'|by eapply Hc].
Qed.

(** An object that is not an entry can as well have been acquired before them. *)
Lemma proc_tree_insert m hd hf hl m' h o :
  proc_tree m hd hf hl m' → m' !! h = None → standalone o →
  proc_tree (<[h := o]> m) hd hf hl (<[h := o]> m').
Proof.
  intros (Hd & Hf & Hl & ->) Hh Ho.
  apply lookup_insert_None in Hh as [Hh ?]. apply lookup_insert_None in Hh as [Hh ?].
  apply lookup_insert_None in Hh as [Hh ?].
  unfold proc_tree. split_and!.
  - by apply fresh_insert.
  - rewrite insert_insert_ne by done. by apply fresh_insert.
  - rewrite (insert_insert_ne _ hd h), (insert_insert_ne _ hf h) by done. by apply fresh_insert.
  - by rewrite (insert_insert_ne _ hd h), (insert_insert_ne _ hf h), (insert_insert_ne _ hl h).
Qed.
End ProcTree.

(** ** Weakest preconditions of the calls *)

Section CallWp.
Context {W : Type} `{!Kernel W, !KernelLaws W} {G : Type}.
Implicit Types (w : W) (g : G) (m : gmap handle kobj).

Lemma wp_alloc o (Q : option handle → kstate W G → Prop) w g :
  (∀ h w', fresh_for (held w) h o → held w' = <[h := o]> (held w) → Q (Some h) (KState w' g)) →
  (∀ w', held w' = held w → Q None (KState w' g)) →
  wp (alloc o) Q (KState w g).
Proof.
  intros HS HN. destruct (alloc_spec o (KState w g)) as (r & [w' g'] & Hr & Hg & Hh).
  simpl in *. subst g'. eapply wp_Ok; [done|]. destruct r as [h|]; [destruct Hh|]; auto.
Qed.

Lemma wp_register o (Q : Z → kstate W G → Prop) w g :
  (∀ h w', fresh_for (held w) h o → held w' = <[h := o]> (held w) → Q 0 (KState w' g)) →
  (∀ e w', e < 0 → held w' = held w → Q e (KState w' g)) →
  wp (register o) Q (KState w g).
Proof.
  intros HS HN.
  destruct (register_spec o (KState w g))
    as [(h & [w' g'] & Hr & Hg & Hh)|(e & [w' g'] & Hr & He & Hg & Hh)];
    simpl in *; subst g'; (eapply wp_Ok; [done|]); [destruct Hh|]; eauto.
Qed.

Lemma wp_release P h o (Q : unit → kstate W G → Prop) w g :
  held w !! h = Some o → P o = true →
  (∀ w', held w' = delete h (held w) → Q tt (KState w' g)) →
  wp (release P h) Q (KState w g).
Proof.
  intros Hh HP HQ. eexists tt, (KState (forget h w) g). unfold release. simpl.
  rewrite Hh, HP. split; [done|]. apply HQ, held_forget.
Qed.

Lemma wp_release_last P h o m (Q : unit → kstate W G → Prop) w g :
  held w = <[h := o]> m → m !! h = None → P o = true →
  (∀ w', held w' = m → Q tt (KState w' g)) →
  wp (release P h) Q (KState w g).
Proof.
  intros Hw Hm HP HQ. eapply wp_release; [by rewrite Hw, lookup_insert_eq|done|].
  intros w' Hw'. apply HQ. by rewrite Hw', Hw, delete_insert_id.
Qed.

Lemma wp_remove_last name parent h o m (Q : unit → kstate W G → Prop) w g :
  held w = <[h := o]> m → fresh_for m h o → proc_key o = Some (name, parent) →
  (∀ w', held w' = m → Q tt (KState w' g)) →
  wp (remove_proc_entry name parent) Q (KState w g).
Proof.
  intros Hw Hf Hk HQ.
  destruct (remove_proc_entry_last name parent h o m (KState w g) Hw Hf Hk)
    as ([w' g'] & Hr & Hg & Hh). simpl in *. subst g'. eapply wp_Ok; eauto.
Qed.

Lemma wp_get_g (Q : G → kstate W G → Prop) w g : Q g (KState w g) → wp get_g Q (KState w g).
Proof. intros. by eapply wp_Ok. Qed.

Lemma wp_set_g f (Q : unit → kstate W G → Prop) w g :
  Q tt (KState w (f g)) → wp (set_g f) Q (KState w g).
Proof. intros. by eapply wp_Ok. Qed.
End CallWp.

(** What is held, in terms of the last acquisition not released. *)
Ltac held_norm :=
  repeat match goal with
    | H : held ?a = held ?b, H' : held ?b = _ |- _ => rewrite H' in H
    end.

(** One step of a program with kernel calls; allocations leave two goals, the
    successful one first. *)
Ltac wp_step :=
  lazymatch goal with
  | |- wp (mbind _ _) _ _ => apply wp_bind
  | |- wp (mret _) _ _ => apply wp_ret
  | |- wp get_g _ _ => apply wp_get_g
  | |- wp (set_g _) _ _ => apply wp_set_g; simpl
  | |- wp (vfree _) _ _ => progress simpl
  | |- wp (kfree _) _ _ => progress simpl
  | |- wp (release _ _) _ _ =>
      eapply wp_release_last; [eassumption|by eapply ff_new|reflexivity|intros ? ?]
  | |- wp (remove_proc_entry _ _) _ _ =>
      eapply wp_remove_last; [eassumption|eassumption|reflexivity|intros ? ?]
  | |- wp (alloc _) _ _ => apply wp_alloc; [intros ? ? ? ?|intros ? ?]
  | |- wp (register _) _ _ => apply wp_register; [intros ? ? ? ?|intros ? ? ? ?]
  | |- wp (match _ with _ => _ end) _ _ => progress simpl
  end.
Ltac wp_steps := repeat (wp_step; held_norm).

(** ** User memory *)

(** [U] is a user buffer. [copy_from_user u n] is what is stored in the
    destination and the number of bytes not copied; [copy_to_user u d] is the
    buffer after storing [d] at its start and the number of bytes not copied. *)
Class UserMem (U : Type) := {
  user_data : U → list Z;
  copy_from_user : U → Z → list Z * Z;
  copy_to_user : U → list Z → U * Z
}.

Class UserMemLaws (U : Type) `{!UserMem U} := {
  copy_from_user_length u n : 0 ≤ n → length (copy_from_user u n).1 = Z.to_nat n;
  copy_from_user_ok u n d : 0 ≤ n → copy_from_user u n = (d, 0) →
    n ≤ Z.of_nat (length (user_data u)) ∧ d = take (Z.to_nat n) (user_data u);
  (* what could not be copied is zeroed *)
  copy_from_user_rest u n d r : 0 ≤ n → copy_from_user u n = (d, r) →
    0 ≤ r ≤ n ∧ drop (Z.to_nat (n - r)) d = replicate (Z.to_nat r) 0;
  copy_to_user_ok u d u' : copy_to_user u d = (u', 0) →
    user_data u' = d ++ drop (length d) (user_data u)
}.

(** A buffer that is a list of bytes, all of them accessible. *)
#[export] Instance list_user_mem : UserMem (list Z) := {|
  user_data u := u;
  copy_from_user u n :=
    if decide (n ≤ Z.of_nat (length u)) then (take (Z.to_nat n) u, 0)
    else (replicate (Z.to_nat n) 0, n);
  copy_to_user u d :=
    if decide (length d ≤ length u)%nat then (d ++ drop (length d) u, 0)
    else (u, Z.of_nat (length d))
|}.

#[export] Instance list_user_mem_laws : UserMemLaws (list Z).
Proof.
  split; simpl.
  - intros u n Hn. case_decide; simpl; [rewrite length_take; lia|by rewrite length_replicate].
  - intros u n d Hn. case_decide; intros; simplify_eq; [done|lia].
  - intros u n d r Hn. case_decide; intros; simplify_eq.
    + split; [lia|]. rewrite drop_ge by (rewrite length_take; lia). done.
    + split; [lia|]. by rewrite Z.sub_diag.
  - intros u d u'. case_decide; intros; simplify_eq; [done|]. destruct d; simpl in *; lia.
Qed.
