(* ===== verification/Fortune.v ===== *)
(** * The fortune module (6/fortunka/fortune.c)

    A page of cookies filled by writes to /proc/fortuneDir/fortuneFile and read
    back in turn. *)

From S2P Require Import Prelude Kernel.
From stdpp Require Import options.
#[local] Set Default Proof Using "Type*".
Local Open Scope Z_scope.

(** ** Data *)

Definition COOKIE_POT_SIZE : Z := 4096.
Definition FILENAME : string := "fortuneFile".
Definition DIRNAME : string := "fortuneDir".
Definition SYMLINK : string := "fortuneLink".
Definition FILEPATH : string := "fortuneDir/fortuneFile".

Definition ENOMEM : Z := 12.
Definition EFAULT : Z := 14.
Definition ENOSPC : Z := 28.

(** The module's static data; [pot] is the memory [cookiePot] points to. *)
Record fortune := Fortune {
  fortuneFile : option handle;
  fortuneDir : option handle;
  fortuneLink : option handle;
  cookiePot : option handle;
  pot : list Z;
  tmpBuf : list Z;
  readInd : Z;
  writeInd : Z
}.

Definition set_file v g := Fortune v (fortuneDir g) (fortuneLink g) (cookiePot g) (pot g) (tmpBuf g) (readInd g) (writeInd g).
Definition set_dir v g := Fortune (fortuneFile g) v (fortuneLink g) (cookiePot g) (pot g) (tmpBuf g) (readInd g) (writeInd g).
Definition set_link v g := Fortune (fortuneFile g) (fortuneDir g) v (cookiePot g) (pot g) (tmpBuf g) (readInd g) (writeInd g).
Definition set_cookiePot v g := Fortune (fortuneFile g) (fortuneDir g) (fortuneLink g) v (pot g) (tmpBuf g) (readInd g) (writeInd g).
Definition set_pot v g := Fortune (fortuneFile g) (fortuneDir g) (fortuneLink g) (cookiePot g) v (tmpBuf g) (readInd g) (writeInd g).
Definition set_tmpBuf v g := Fortune (fortuneFile g) (fortuneDir g) (fortuneLink g) (cookiePot g) (pot g) v (readInd g) (writeInd g).
Definition set_readInd v g := Fortune (fortuneFile g) (fortuneDir g) (fortuneLink g) (cookiePot g) (pot g) (tmpBuf g) v (writeInd g).
Definition set_writeInd v g := Fortune (fortuneFile g) (fortuneDir g) (fortuneLink g) (cookiePot g) (pot g) (tmpBuf g) (readInd g) v.

(** The static data when the module is loaded. *)
Definition unloaded : fortune :=
  Fortune None None None None [] (replicate 4096 0) 0 0.

(** Every access to [cookiePot[..]] goes through the pointer. *)
Definition pot_ptr : prog fortune (list Z) := λ g,
  match cookiePot g with Some _ => Ok (pot g, g) | None => Fault NullDeref end.

(** ** The file operations *)

Section Handlers.
Context {U : Type} `{!UserMem U}.

Definition fortuneOpen : prog fortune Z := mret 0.
Definition fortuneRelease : prog fortune Z := mret 0.

Definition fortuneWrite (buf : U) (len : Z) : prog fortune Z :=
  g ← get_st;
  if decide (len > size_t (COOKIE_POT_SIZE - writeInd g + 1)) then mret (- ENOSPC)
  else
    let '(bytes, rest) := copy_from_user buf len in
    p ← pot_ptr;
    p' ← lift (bwrite p (writeInd g) bytes);
    modify (set_pot p');;
    if decide (rest ≠ 0) then mret (- EFAULT)
    else
      modify (set_writeInd (int32 (writeInd g + len)));;
      g ← get_st;
      p ← pot_ptr;
      p' ← lift (bput p (writeInd g - 1) 0);
      modify (set_pot p');;
      mret len.

(** The result, the user buffer and the file position afterwards. *)
Definition fortuneRead (buf : U) (len fPos : Z) : prog fortune (Z * U * Z) :=
  g ← get_st;
  if decide (fPos > 0 ∨ writeInd g = 0) then mret (0, buf, fPos)
  else
    (if decide (readInd g >= writeInd g) then modify (set_readInd 0) else mret tt);;
    g ← get_st;
    p ← pot_ptr;
    s ← lift (cstr p (readInd g));
    '(t, readLen) ← lift (snprintf (tmpBuf g) COOKIE_POT_SIZE (s ++ [10]));
    modify (set_tmpBuf t);;
    bytes ← lift (bread t 0 readLen);
    let '(buf', rest) := copy_to_user buf bytes in
    if decide (rest ≠ 0) then mret (- EFAULT, buf', fPos)
    else
      modify (set_readInd (int32 (readInd g + readLen)));;
      mret (readLen, buf', fPos + readLen).
End Handlers.

(** ** Loading and unloading *)

Section Module.
Context {W : Type} `{!Kernel W}.
Abbreviation M := (prog (kstate W fortune)).

Definition freeMemory : M unit :=
  g ← get_g;
  (match fortuneLink g with Some _ => remove_proc_entry SYMLINK None | None => mret tt end);;
  (match fortuneFile g with
   | Some _ => remove_proc_entry FILENAME (fortuneDir g) | None => mret tt end);;
  (match fortuneDir g with Some _ => remove_proc_entry DIRNAME None | None => mret tt end);;
  vfree (cookiePot g).

Definition md_init : M Z :=
  p ← vmalloc COOKIE_POT_SIZE;
  set_g (set_cookiePot p);;
  match p with
  | None => mret (- ENOMEM)
  | Some _ =>
      set_g (set_pot (replicate 4096 0));;
      d ← proc_mkdir DIRNAME None;
      set_g (set_dir d);;
      match d with
      | None => freeMemory;; mret (- ENOMEM)
      | Some _ =>
          f ← proc_create FILENAME 438 d;
          set_g (set_file f);;
          match f with
          | None => freeMemory;; mret (- ENOMEM)
          | Some _ =>
              l ← proc_symlink SYMLINK None FILEPATH;
              set_g (set_link l);;
              match l with
              | None => freeMemory;; mret (- ENOMEM)
              | Some _ => set_g (set_readInd 0);; set_g (set_writeInd 0);; mret 0
              end
          end
      end
  end.

Definition md_exit : M unit := freeMemory.
End Module.
