(* ===== verification/FortuneSpec.v ===== *)
(** * What the fortune module guarantees

    The abstract cookie pot, the refinement of the write and read handlers, the
    exact error branches, and the life cycle of the kernel objects. *)

From S2P Require Import Prelude Kernel Fortune.
From stdpp Require Import options.
#[local] Set Default Proof Using "Type*".
Local Open Scope Z_scope.
#[local] Arguments replicate : simpl never.

(** ** The abstract pot: a list of cookies and the next one to read *)

Record cookies := Cookies { msgs : list (list Z); cursor : nat }.

(** A write stores its bytes, the last one replaced by a zero: one cookie per
    zero-terminated piece. *)
Fixpoint pieces (l : list Z) : list (list Z) :=
  match l with
  | [] => [[]]
  | x :: l =>
      if decide (x = 0) then [] :: pieces l
      else match pieces l with p :: ps => (x :: p) :: ps | [] => [[x]] end
  end.

Definition put_cookies (d : list Z) (a : cookies) : cookies :=
  Cookies (msgs a ++ pieces (removelast d)) (cursor a).

Definition wrap_cursor (a : cookies) : nat :=
  if decide (cursor a = length (msgs a)) then 0%nat else cursor a.

(** A read gives the cookie at the cursor, the first one after the last. *)
Definition get_cookie (a : cookies) : option (list Z * cookies) :=
  m ← msgs a !! wrap_cursor a;
  Some (m, Cookies (msgs a) (S (wrap_cursor a))).

(** How the cookies lie in the pot. *)
Definition encode (ms : list (list Z)) : list Z := concat ((λ m, m ++ [0]) <$> ms).

Definition clean (m : list Z) : Prop := Forall (λ x, x ≠ 0) m.

Record pot_ok (g : fortune) (a : cookies) : Prop := {
  po_ptr : is_Some (cookiePot g);
  po_tmp : length (tmpBuf g) = 4096%nat;
  po_pot : ∃ free, pot g = encode (msgs a) ++ free ∧ length (pot g) = 4096%nat;
  po_write : writeInd g = Z.of_nat (length (encode (msgs a)));
  po_read : readInd g = Z.of_nat (length (encode (take (cursor a) (msgs a))));
  po_cursor : (cursor a ≤ length (msgs a))%nat;
  po_clean : Forall clean (msgs a)
}.

(** ** Lemmas on the encoding *)

Lemma encode_app ms ms' : encode (ms ++ ms') = encode ms ++ encode ms'.
Proof. unfold encode. by rewrite fmap_app, concat_app. Qed.

Lemma encode_cons m ms : encode (m :: ms) = m ++ 0 :: encode ms.
Proof. unfold encode. simpl. by rewrite <- (assoc app). Qed.

Lemma pieces_encode l : encode (pieces l) = l ++ [0] ∧ Forall clean (pieces l) ∧ pieces l ≠ [].
Proof.
  induction l as [|x l (IH & Hc & Hne)]; simpl.
  - split; [done|]. split; [by repeat constructor|done].
  - case_decide as Hx; [subst x|].
    + rewrite encode_cons, IH. split; [done|]. split; [by constructor; [constructor|]|done].
    + destruct (pieces l) as [|p ps]; [done|]. rewrite encode_cons in IH |- *. simpl. rewrite IH.
      split; [done|]. apply Forall_cons in Hc as [??].
      split; [constructor; [by constructor|done]|done].
Qed.

Lemma encode_take_lt n ms :
  (n < length ms)%nat → (length (encode (take n ms)) < length (encode ms))%nat.
Proof.
  intros Hn. rewrite <- (take_drop n ms) at 2. rewrite encode_app, length_app.
  destruct (drop n ms) as [|m ms'] eqn:Hd.
  - apply (f_equal length) in Hd. rewrite length_drop in Hd. simpl in Hd. lia.
  - rewrite encode_cons, length_app. simpl. lia.
Qed.

Lemma encode_take_S n ms m :
  ms !! n = Some m → length (encode (take (S n) ms)) = (length (encode (take n ms)) + S (length m))%nat.
Proof.
  intros Hm. rewrite (take_S_r _ _ m) by done. rewrite encode_app, length_app.
  unfold encode at 2. simpl. rewrite app_nil_r, length_app. simpl. lia.
Qed.

(** The cookie at index [n] starts where the first [n] end. *)
Lemma cstr_encode ms n m free :
  Forall clean ms → ms !! n = Some m →
  cstr (encode ms ++ free) (Z.of_nat (length (encode (take n ms)))) = Ok m.
Proof.
  intros Hc Hm. rewrite <- (take_drop_middle ms n m Hm) at 1.
  rewrite encode_app, encode_cons, <- (assoc app). simpl. rewrite <- (assoc app). simpl.
  apply cstr_app; [done|]. by eapply Forall_lookup_1.
Qed.

Lemma length_pot_free g a free :
  pot g = encode (msgs a) ++ free → length (pot g) = 4096%nat →
  writeInd g = Z.of_nat (length (encode (msgs a))) →
  writeInd g + Z.of_nat (length free) = 4096.
Proof. intros Hp Hl ->. rewrite Hp, length_app in Hl. lia. Qed.

Section Spec.
Context {U : Type} `{!UserMem U, !UserMemLaws U}.
Implicit Types (g : fortune) (a : cookies).

Lemma fortuneWrite_enter g a (buf : U) len :
  pot_ok g a → 0 ≤ len ≤ 4097 - writeInd g →
  fortuneWrite buf len g =
    (let '(bytes, rest) := copy_from_user buf len in
     p' ← bwrite (pot g) (writeInd g) bytes;
     if decide (rest ≠ 0) then Ok (- EFAULT, set_pot p' g)
     else
       p'' ← bput p' (int32 (writeInd g + len) - 1) 0;
       Ok (len, set_pot p'' (set_writeInd (int32 (writeInd g + len)) (set_pot p' g)))).
Proof.
  intros [[h Hptr] _ (free & Hpot & Hlen) Hw _ _ _] Hn.
  unfold fortuneWrite, mbind, prog_bind, outcome_bind, get_st; simpl.
  pose proof (length_pot_free _ _ _ Hpot Hlen Hw).
  rewrite (size_t_small (COOKIE_POT_SIZE - writeInd g + 1)) by (unfold COOKIE_POT_SIZE; lia).
  rewrite decide_False by (unfold COOKIE_POT_SIZE; lia).
  destruct (copy_from_user buf len) as [bytes rest]. unfold pot_ptr. rewrite Hptr. simpl.
  unfold lift. destruct (bwrite _ _ _); [|done]. simpl. case_decide; [done|]. simpl.
  rewrite Hptr. simpl. by destruct (bput _ _ _).
Qed.

(** Bytes stored after the cookies, the last one turned into a zero. *)
Lemma pot_ok_put g g' a d :
  pot_ok g a → d ≠ [] → cookiePot g' = cookiePot g → length (tmpBuf g') = length (tmpBuf g) →
  (∃ free, pot g' = encode (msgs a) ++ removelast d ++ 0 :: free ∧ length (pot g') = 4096%nat) →
  writeInd g' = writeInd g + Z.of_nat (length d) → readInd g' = readInd g →
  pot_ok g' (put_cookies d a).
Proof.
  intros [Hptr Htmp _ Hw Hr Hc Hclean] Hd Hp' Ht' (free & Hpot & Hlen) Hw' Hr'.
  destruct (pieces_encode (removelast d)) as (He & Hcl & _).
  assert (0 < length d)%nat by (by destruct d; simpl; [|lia]).
  split; simpl; [by rewrite Hp'|congruence|..].
  - exists free. rewrite encode_app, He, <- !(assoc app). done.
  - rewrite Hw', Hw, encode_app, length_app, He, length_app, removelast_length. simpl. lia.
  - by rewrite Hr', take_app_le.
  - rewrite length_app. lia.
  - by apply Forall_app.
Qed.

(** C13: a write of [len] bytes that fit appends its zero-separated pieces to the
    abstract pot and returns [len]. *)
Theorem fortuneWrite_appends g a (buf : U) len d :
  pot_ok g a → 1 ≤ len ≤ 4096 - writeInd g → copy_from_user buf len = (d, 0) →
  ∃ g', fortuneWrite buf len g = Ok (len, g') ∧ pot_ok g' (put_cookies d a).
Proof.
  intros Hok Hlen Hcopy. rewrite (fortuneWrite_enter _ a) by (done || lia).
  pose proof (copy_from_user_length buf len ltac:(lia)) as Hd. rewrite Hcopy in *. simpl in Hd.
  destruct Hok as [Hptr Htmp (free & Hpot & Hplen) Hw Hr Hc Hclean].
  pose proof (length_pot_free _ _ _ Hpot Hplen Hw).
  rewrite int32_small by lia.
  rewrite <- (take_drop (length d) free) in Hpot. rewrite Hpot.
  rewrite (bwrite_app _ (take _ free)) by (rewrite ?length_take; lia). simpl.
  rewrite bput_last by (try lia; by intros ->; simpl in *; lia). simpl.
  eexists. split; [done|]. eapply pot_ok_put; simpl; [by split; eauto|by intros ->; simpl in *; lia|done|done|..|done]; [|lia].
  exists (drop (length d) free). split; [done|].
  rewrite !length_app. simpl. rewrite length_drop, removelast_length. lia.
Qed.

(** The other branches of a write: too long is refused, one byte too long
    overruns the pot, a failing copy leaves the cookies, an empty write to an
    empty pot stores before the pot. *)
Theorem fortuneWrite_errors g a (buf : U) len :
  pot_ok g a → 0 ≤ len →
  let room := 4096 - writeInd g in
  (room + 1 < len → fortuneWrite buf len g = Ok (- ENOSPC, g)) ∧
  (len = room + 1 → fortuneWrite buf len g = Fault OutOfBounds) ∧
  (len ≤ room → (copy_from_user buf len).2 ≠ 0 →
    ∃ g', fortuneWrite buf len g = Ok (- EFAULT, g') ∧ pot_ok g' a) ∧
  (len = 0 → (copy_from_user buf len).2 = 0 → writeInd g = 0 →
    fortuneWrite buf len g = Fault OutOfBounds).
Proof.
  intros Hok Hlen room. subst room.
  pose proof (copy_from_user_length buf len Hlen) as Hd.
  pose proof Hok as [[h Hptr] Htmp (free & Hpot & Hplen) Hw Hr Hc Hclean].
  pose proof (length_pot_free _ _ _ Hpot Hplen Hw).
  split_and!.
  - intros. unfold fortuneWrite, mbind, prog_bind, get_st; simpl.
    rewrite (size_t_small (COOKIE_POT_SIZE - writeInd g + 1)) by (unfold COOKIE_POT_SIZE; lia).
    by rewrite decide_True by (unfold COOKIE_POT_SIZE; lia).
  - intros. rewrite (fortuneWrite_enter _ a) by (done || lia).
    destruct (copy_from_user buf len) as [bytes rest]. simpl in Hd.
    unfold bwrite. by rewrite decide_False by lia.
  - intros ? Hrest. rewrite (fortuneWrite_enter _ a) by (done || lia).
    destruct (copy_from_user buf len) as [bytes rest]. simpl in Hd, Hrest.
    rewrite <- (take_drop (length bytes) free) in Hpot. rewrite Hpot.
    rewrite (bwrite_app _ (take _ free)) by (rewrite ?length_take; lia). simpl.
    rewrite decide_True by done. eexists. split; [done|]. split; simpl; try done.
    eexists. split; [done|]. rewrite !length_app, length_drop. lia.
  - intros -> Hrest H0. rewrite (fortuneWrite_enter _ a) by (done || lia).
    destruct (copy_from_user buf 0) as [bytes rest]. simpl in Hrest. subst rest.
    destruct (bwrite (pot g) (writeInd g) bytes) as [p'|f] eqn:Hb; simpl.
    + unfold bput. rewrite H0, decide_False; [done|]. change (int32 (0 + 0) - 1) with (-1). lia.
    + unfold bwrite in Hb. case_decide; simplify_eq. done.
Qed.

(** The bytes of a cookie as a read delivers them: [snprintf] has room for 4095
    characters, so the line end of a longest cookie becomes a zero. *)
Definition shown (m : list Z) : list Z :=
  m ++ [if decide (length m < 4095)%nat then 10 else 0].

Lemma get_cookie_inv a m a' :
  get_cookie a = Some (m, a') →
  msgs a !! wrap_cursor a = Some m ∧ a' = Cookies (msgs a) (S (wrap_cursor a)).
Proof.
  unfold get_cookie. destruct (msgs a !! wrap_cursor a); simpl; intros; by simplify_eq.
Qed.

(** [if (readInd >= writeInd) readInd = 0] is the wrap-around of the cursor. *)
Lemma pot_wrap g a :
  pot_ok g a → msgs a ≠ [] →
  pot_ok (if decide (readInd g >= writeInd g) then set_readInd 0 g else g)
    (Cookies (msgs a) (wrap_cursor a)) ∧ writeInd g ≠ 0.
Proof.
  intros [Hptr Htmp Hpot Hw Hr Hc Hclean] Hne.
  assert (0 < length (msgs a))%nat by (destruct (msgs a); simpl; [done|lia]).
  pose proof (encode_take_lt 0 (msgs a) ltac:(done)) as Hpos. simpl in Hpos.
  split; [|lia]. unfold wrap_cursor.
  destruct (decide (cursor a = length (msgs a))) as [He|Hn].
  - rewrite He, firstn_all in Hr. rewrite decide_True by lia. split; simpl; try done. lia.
  - pose proof (encode_take_lt (cursor a) (msgs a) ltac:(lia)).
    rewrite decide_False by lia. by split.
Qed.

Lemma snprintf_shown t m :
  length t = 4096%nat → (length m ≤ 4095)%nat →
  ∃ t', snprintf t COOKIE_POT_SIZE (m ++ [10]) = Ok (t', Z.of_nat (S (length m))) ∧
    length t' = 4096%nat ∧ bread t' 0 (Z.of_nat (S (length m))) = Ok (shown m).
Proof.
  intros Ht Hm. unfold snprintf, COOKIE_POT_SIZE. change (Z.to_nat (4096 - 1)) with 4095%nat.
  set (d := take 4095 (m ++ [10]) ++ [0]).
  assert (∃ e, d = shown m ++ e ∧ (length d ≤ 4096)%nat) as (e & Hd & Hlen).
  { unfold d, shown. case_decide.
    - exists [0]. rewrite take_ge by (rewrite length_app; simpl; lia).
      split; [done|]. rewrite !length_app; simpl; lia.
    - exists []. rewrite take_app_le, take_ge by lia. split; [by rewrite app_nil_r|].
      rewrite length_app; simpl; lia. }
  assert (t = [] ++ take (length d) t ++ drop (length d) t) as Hsplit by (by rewrite take_drop).
  rewrite Hsplit, (bwrite_app [] _ _ d 0) by (rewrite ?length_take; lia || done). simpl.
  eexists. rewrite length_app. simpl. split; [do 3 f_equal; lia|].
  split; [rewrite length_app, length_drop; lia|].
  assert (length (shown m) = S (length m)) as Hshown by (unfold shown; rewrite length_app; simpl; lia).
  unfold bread. rewrite decide_True by (rewrite length_app, length_drop; lia).
  rewrite Hd, <- (assoc app). simpl. by rewrite drop_0, take_app_length' by lia.
Qed.

Lemma fortuneRead_enter g a (buf : U) len m a' :
  pot_ok g a → get_cookie a = Some (m, a') →
  ∃ g1, pot_ok g1 (Cookies (msgs a) (wrap_cursor a)) ∧
    pot_ok (set_readInd (int32 (readInd g1 + Z.of_nat (S (length m)))) g1) a' ∧
    ∀ fPos, fPos ≤ 0 → fortuneRead buf len fPos g =
      (let '(buf', rest) := copy_to_user buf (shown m) in
       if decide (rest ≠ 0) then Ok ((- EFAULT, buf', fPos), g1)
       else Ok ((Z.of_nat (S (length m)), buf', fPos + Z.of_nat (S (length m))),
                set_readInd (int32 (readInd g1 + Z.of_nat (S (length m)))) g1)).
Proof.
  intros Hok (Hm & ->)%get_cookie_inv.
  assert (msgs a ≠ []) as Hne by (by intros He; rewrite He in Hm).
  destruct (pot_wrap g a Hok Hne) as [Hok1 Hw0].
  set (g0 := if decide (readInd g >= writeInd g) then set_readInd 0 g else g) in *.
  pose proof Hok1 as [Hptr Htmp (free & Hpot & Hplen) Hw Hr Hc Hclean]. simpl in *.
  assert (length (encode (take (wrap_cursor a) (msgs a))) + S (length m)
    <= length (encode (msgs a)))%nat as Hfit.
  { rewrite <- (encode_take_S _ _ _ Hm).
    rewrite <- (take_drop (S (wrap_cursor a)) (msgs a)) at 2. rewrite encode_app, length_app. lia. }
  pose proof (length_pot_free g0 (Cookies (msgs a) (wrap_cursor a)) free Hpot Hplen Hw).
  destruct (snprintf_shown (tmpBuf g0) m Htmp ltac:(lia)) as (t' & Hsn & Ht' & Hbr).
  exists (set_tmpBuf t' g0). split; [by split; simpl; eauto|]. split.
  { assert (wrap_cursor a < length (msgs a))%nat by (by eapply lookup_lt_Some).
    split; simpl; eauto. rewrite int32_small by lia.
    rewrite (encode_take_S _ _ _ Hm). lia. }
  intros fPos Hpos. unfold fortuneRead, mbind, prog_bind, get_st.
  rewrite decide_False by lia.
  assert (((if decide (readInd g >= writeInd g) then modify (set_readInd 0) else mret tt)
    : prog fortune unit) g = Ok (tt, g0)) as -> by (subst g0; by destruct (decide (readInd g >= writeInd g))).
  unfold pot_ptr. destruct Hptr as [h ->]. unfold lift. rewrite Hpot, Hr.
  rewrite (cstr_encode _ _ m) by done. rewrite Hsn. unfold modify. rewrite Hbr.
  destruct (copy_to_user buf (shown m)) as [buf' rest]. case_decide; [done|].
  simpl. by rewrite Hr.
Qed.

(** C2: whatever [len] the caller gives, a read from the start of the file
    delivers the whole next cookie with its line end, and moves the cursor. *)
Theorem fortuneRead_returns g a (buf : U) len fPos m a' buf' :
  pot_ok g a → get_cookie a = Some (m, a') → fPos ≤ 0 →
  copy_to_user buf (shown m) = (buf', 0) →
  let n := Z.of_nat (S (length m)) in
  ∃ g', fortuneRead buf len fPos g = Ok ((n, buf', fPos + n), g') ∧ pot_ok g' a' ∧
    user_data buf' = shown m ++ drop (length (shown m)) (user_data buf).
Proof.
  intros Hok Hget Hpos Hcopy n. subst n.
  destruct (fortuneRead_enter g a buf len m a' Hok Hget) as (g1 & _ & Hok' & Hr).
  rewrite Hr, Hcopy by done. eexists. split; [done|]. split; [done|].
  by apply copy_to_user_ok.
Qed.

(** A read returns 0 past the start of the file or when there is no cookie,
    and -EFAULT when the copy fails; no cookie is consumed. *)
Theorem fortuneRead_errors g a (buf : U) len fPos :
  pot_ok g a →
  (fPos > 0 → fortuneRead buf len fPos g = Ok ((0, buf, fPos), g)) ∧
  (get_cookie a = None → fortuneRead buf len fPos g = Ok ((0, buf, fPos), g)) ∧
  (∀ m a', get_cookie a = Some (m, a') → fPos ≤ 0 → (copy_to_user buf (shown m)).2 ≠ 0 →
    ∃ g' a'', fortuneRead buf len fPos g =
        Ok ((- EFAULT, (copy_to_user buf (shown m)).1, fPos), g') ∧
      pot_ok g' a'' ∧ msgs a'' = msgs a ∧ get_cookie a'' = get_cookie a).
Proof.
  intros Hok. split; [|split].
  - intros. unfold fortuneRead, mbind, prog_bind, get_st. by rewrite decide_True by lia.
  - intros Hnone. assert (writeInd g = 0) as Hw.
    { destruct Hok as [_ _ _ Hw _ Hc _]. rewrite Hw. unfold get_cookie, wrap_cursor in Hnone.
      destruct (msgs a) as [|m ms] eqn:Hms; [done|]. exfalso.
      destruct (_ !! _) as [m'|] eqn:Hl in Hnone; [done|].
      apply lookup_ge_None in Hl. clear Hnone. simpl in Hl, Hc. case_decide; lia. }
    unfold fortuneRead, mbind, prog_bind, get_st. by rewrite decide_True by lia.
  - intros m a' Hget Hpos Hrest.
    destruct (fortuneRead_enter g a buf len m a' Hok Hget) as (g1 & Hok1 & _ & Hr).
    rewrite Hr by done. destruct (copy_to_user buf (shown m)) as [buf' rest]. simpl in *.
    rewrite decide_True by done. eexists _, _. split; [done|]. split; [done|]. split; [done|].
    apply get_cookie_inv in Hget as [Hm _]. apply lookup_lt_Some in Hm.
    assert (wrap_cursor (Cookies (msgs a) (wrap_cursor a)) = wrap_cursor a) as Hwc
      by (unfold wrap_cursor at 1; simpl; by rewrite decide_False by lia).
    unfold get_cookie. by rewrite Hwc.
Qed.
End Spec.

(** ** One [cat] after the other *)

(** [cat] opens the file anew and reads a page. *)
Definition cat : prog fortune (list Z) :=
  '(n, buf, _) ← fortuneRead (replicate 4096 0) 4096 0;
  mret (take (Z.to_nat n) buf).

Fixpoint cats (n : nat) : prog fortune (list (list Z)) :=
  match n with
  | O => mret []
  | S n => m ← cat; ms ← cats n; mret (m :: ms)
  end.

(** The [k]-th of a sequence of [n] reads that starts at cursor [c]. *)
Definition in_turn (ms : list (list Z)) (c n : nat) : list (list Z) :=
  (λ k, shown (ms !!! ((c + k) mod length ms)%nat)) <$> seq 0 n.

Lemma in_turn_S ms c n :
  in_turn ms c (S n) = shown (ms !!! (c mod length ms)%nat) :: in_turn ms (S c) n.
Proof.
  unfold in_turn. simpl. rewrite Nat.add_0_r. f_equal. rewrite <- fmap_S_seq, <- list_fmap_compose.
  apply list_fmap_ext. intros i k _. simpl. by rewrite Nat.add_succ_r.
Qed.

Lemma pot_ok_short g a m : pot_ok g a → m ∈ msgs a → (length m < 4096)%nat.
Proof.
  intros [_ _ (free & Hp & Hl) _ _ _ _] (k & Hk)%list_elem_of_lookup_1.
  rewrite Hp, length_app in Hl. pose proof (encode_take_S _ _ _ Hk).
  rewrite <- (take_drop (S k) (msgs a)) in Hl. rewrite encode_app, length_app in Hl. lia.
Qed.

Lemma cat_next g a m a' :
  pot_ok g a → get_cookie a = Some (m, a') → ∃ g', cat g = Ok (shown m, g') ∧ pot_ok g' a'.
Proof.
  intros Hok Hget.
  pose proof (pot_ok_short _ _ m Hok) as Hm.
  destruct (get_cookie_inv _ _ _ Hget) as [Hl _].
  specialize (Hm (list_elem_of_lookup_2 _ _ _ Hl)).
  assert (length (shown m) = S (length m)) as Hs by (unfold shown; rewrite length_app; simpl; lia).
  unfold cat. assert (length (replicate 4096 (0 : Z)) = 4096%nat) as Hb by apply length_replicate.
  revert Hb. generalize (replicate 4096 (0 : Z)). intros b Hb.
  destruct (fortuneRead_enter g a b 4096 m a' Hok Hget) as (g1 & _ & Hok' & Hr).
  unfold mbind, prog_bind. rewrite Hr by lia. simpl copy_to_user.
  rewrite decide_True by lia. simpl.
  eexists. split; [|done]. by rewrite take_app_length' by lia.
Qed.

Lemma get_cookie_turn a :
  msgs a ≠ [] → (cursor a ≤ length (msgs a))%nat →
  get_cookie a = Some (msgs a !!! (cursor a mod length (msgs a))%nat,
    Cookies (msgs a) (S (cursor a mod length (msgs a)))).
Proof.
  intros Hne Hc.
  assert (0 < length (msgs a))%nat by (destruct (msgs a); simpl; [done|lia]).
  assert (wrap_cursor a = (cursor a mod length (msgs a))%nat) as Hw.
  { unfold wrap_cursor. case_decide as He; [by rewrite He, Nat.Div0.mod_same|].
    rewrite Nat.mod_small by lia. done. }
  unfold get_cookie. rewrite Hw.
  destruct (lookup_lt_is_Some_2 (msgs a) (cursor a mod length (msgs a))) as [m Hm];
    [by apply Nat.mod_upper_bound; lia|].
  rewrite Hm. simpl. by rewrite (list_lookup_total_correct _ _ _ Hm).
Qed.

Lemma in_turn_mod ms c n : ms ≠ [] → in_turn ms (S (c mod length ms)) n = in_turn ms (S c) n.
Proof.
  intros Hne. unfold in_turn. apply list_fmap_ext. intros i k _. do 2 f_equal. simpl.
  assert (length ms ≠ 0)%nat by (by destruct ms).
  rewrite <- Nat.add_succ_r, Nat.Div0.add_mod_idemp_l. by rewrite Nat.add_succ_r.
Qed.

(** [n] reads one after the other deliver the cookies in the order they were
    written, from the first one again after the last. *)
Theorem fortune_cats_in_turn n g a :
  pot_ok g a → msgs a ≠ [] →
  ∃ g' a', cats n g = Ok (in_turn (msgs a) (cursor a) n, g') ∧ pot_ok g' a' ∧ msgs a' = msgs a.
Proof.
  revert g a. induction n as [|n IH]; intros g a Hok Hne; [by eexists _, a|].
  pose proof (get_cookie_turn a Hne (po_cursor _ _ Hok)) as Hget.
  destruct (cat_next _ _ _ _ Hok Hget) as (g1 & Hcat & Hok1).
  destruct (IH _ _ Hok1 Hne) as (g2 & a2 & Hcats & Hok2 & Hm2). exists g2, a2.
  simpl. unfold mbind, prog_bind. rewrite Hcat, Hcats. split; [|done]. simpl.
  by rewrite in_turn_S, in_turn_mod.
Qed.

(** ** The life cycle *)

Section Life.
Context {W U : Type} `{!Kernel W, !KernelLaws W, !UserMem U, !UserMemLaws U}.
Implicit Types (w : W) (g : fortune).

(** The module's pointers to kernel objects; no file operation assigns them. *)
Definition pointers (g : fortune) : list (option handle) :=
  [fortuneFile g; fortuneDir g; fortuneLink g; cookiePot g].

Inductive file_op :=
  | OpWrite (buf : U) (len : Z)
  | OpRead (buf : U) (len fPos : Z).

Definition run_op (o : file_op) : prog fortune unit :=
  match o with
  | OpWrite buf len => fortuneWrite buf len;; mret tt
  | OpRead buf len fPos => fortuneRead buf len fPos;; mret tt
  end.

Fixpoint run_ops (os : list file_op) : prog fortune unit :=
  match os with
  | [] => mret tt
  | o :: os => run_op o;; run_ops os
  end.

Lemma run_op_pointers o g g' : run_op o g = Ok (tt, g') → pointers g' = pointers g.
Proof.
  destruct o as [buf len|buf len fPos]; unfold run_op, fortuneWrite, fortuneRead, pot_ptr, lift,
    modify, mret, prog_ret, mbind, prog_bind, get_st;
    intros Hr; repeat (case_match; simplify_eq/=); done.
Qed.

Lemma run_ops_pointers os g g' : run_ops os g = Ok (tt, g') → pointers g' = pointers g.
Proof.
  revert g. induction os as [|o os IH]; intros g; simpl; [by intros [= ->]|].
  intros ([] & g1 & H1 & H2)%prog_bind_Ok.
  apply IH in H2. apply run_op_pointers in H1. congruence.
Qed.

(** What unloading needs: the four objects, in the order of their acquisition. *)
Definition loaded (m : gmap handle kobj) g w : Prop :=
  ∃ hp hd hf hl, pointers g = [Some hf; Some hd; Some hl; Some hp] ∧ m !! hp = None ∧
    proc_tree DIRNAME FILENAME 438 SYMLINK FILEPATH (<[hp := KVmalloc COOKIE_POT_SIZE]> m)
      hd hf hl (held w).

Lemma md_init_wp w :
  wp md_init (λ r s,
    (r = 0 ∧ loaded (held w) (glob s) (world s) ∧ pot_ok (glob s) (Cookies [] 0)) ∨
    (r = - ENOMEM ∧ held (world s) = held w)) (KState w unloaded).
Proof.
  unfold md_init, vmalloc, proc_mkdir, proc_create, proc_symlink, freeMemory.
  wp_steps; simpl in *; try (by right; split).
  left. split; [done|]. split.
  - eexists _, _, _, _. simpl. split; [done|]. split; [by eapply ff_new|].
    split_and!; congruence.
  - split; simpl; try done. by exists (replicate 4096 0).
Qed.

Lemma loaded_pointers m g g' w : pointers g' = pointers g → loaded m g w → loaded m g' w.
Proof. intros Hp (hp & hd & hf & hl & H). exists hp, hd, hf, hl. by rewrite Hp. Qed.

Lemma md_exit_wp m g w :
  loaded m g w → wp md_exit (λ _ s, held (world s) = m) (KState w g).
Proof.
  intros (hp & hd & hf & hl & Hp & Hm & Hd & Hf & Hl & Hheld).
  unfold pointers in Hp. injection Hp as Hgf Hgd Hgl Hgp.
  unfold md_exit, freeMemory. apply wp_bind, wp_get_g. rewrite Hgf, Hgd, Hgl, Hgp.
  wp_steps. eapply wp_release_last; [eassumption|done|done|]. by intros.
Qed.
End Life.

(** Loading either fails with -ENOMEM and leaves nothing behind, or yields an
    empty pot; then, after any sequence of file operations, unloading releases
    everything that was acquired. *)
Theorem fortune_life_cycle
    {W U : Type} `{!Kernel W, !KernelLaws W, !UserMem U, !UserMemLaws U} (w : W) :
  ∃ r s, md_init (KState w unloaded) = Ok (r, s) ∧
    (r = 0 ∧ pot_ok (glob s) (Cookies [] 0) ∧
      (∀ (os : list (@file_op U)) g', run_ops os (glob s) = Ok (tt, g') →
        ∃ s', md_exit (KState (world s) g') = Ok (tt, s') ∧ held (world s') = held w) ∨
     r = - ENOMEM ∧ held (world s) = held w).
Proof.
  destruct (md_init_wp w) as (r & s & Hi & Hr). exists r, s. split; [done|].
  destruct Hr as [(-> & Hl & Hp)|[-> Hh]]; [left|by right].
  split; [done|]. split; [done|]. intros os g' Hos%run_ops_pointers.
  destruct (md_exit_wp (held w) g' (world s)) as ([] & s' & He & Hs').
  { by eapply loaded_pointers. }
  by exists s'.
Qed.

(** ** The theorems at work: a loaded module with one cookie *)

Definition hello : list Z := [104; 105].

Definition sample : fortune :=
  Fortune (Some 3%positive) (Some 2%positive) (Some 4%positive) (Some 1%positive)
    (encode [hello] ++ replicate 4093 0) (replicate 4096 0) 0 3.

Lemma fortune_sample_ok : pot_ok sample (Cookies [hello] 0).
Proof.
  split; simpl; try done.
  - by exists (replicate 4093 0).
  - lia.
  - repeat constructor; done.
Qed.

Lemma fortuneWrite_appends_witness :
  ∃ g', fortuneWrite [97; 10] 2 sample = Ok (2, g') ∧
    pot_ok g' (put_cookies [97; 10] (Cookies [hello] 0)).
Proof.
  apply (fortuneWrite_appends sample (Cookies [hello] 0) [97; 10] 2 [97; 10]);
    [exact fortune_sample_ok|simpl; lia|reflexivity].
Defined.

Lemma fortuneWrite_errors_witness :
  fortuneWrite (replicate 5000 1) 4095 sample = Ok (- ENOSPC, sample) ∧
  fortuneWrite (replicate 5000 1) 4094 sample = Fault OutOfBounds.
Proof.
  split.
  - apply (fortuneWrite_errors sample (Cookies [hello] 0) (replicate 5000 1) 4095);
      [exact fortune_sample_ok|lia|simpl; lia].
  - refine (proj1 (proj2 (fortuneWrite_errors sample (Cookies [hello] 0) (replicate 5000 1) 4094
      fortune_sample_ok _)) _); [lia|reflexivity].
Defined.

Lemma fortuneRead_returns_witness :
  ∃ g', fortuneRead [0; 0; 0; 7] 1 0 sample = Ok ((3, [104; 105; 10; 7], 3), g') ∧
    pot_ok g' (Cookies [hello] 1) ∧ [104; 105; 10; 7] = shown hello ++ [7].
Proof.
  assert (copy_to_user [0; 0; 0; 7] (shown hello) = ([104; 105; 10; 7], 0)) as Hcopy
    by (vm_compute; reflexivity).
  destruct (fortuneRead_returns sample (Cookies [hello] 0) [0; 0; 0; 7] 1 0 hello
    (Cookies [hello] 1) [104; 105; 10; 7] fortune_sample_ok eq_refl (Z.le_refl 0) Hcopy)
    as (g' & Hr & Hok & Hu).
  exists g'. split; [exact Hr|split; [exact Hok|exact Hu]].
Defined.

Lemma fortuneRead_errors_witness :
  fortuneRead [0; 0] 2 3 sample = Ok ((0, [0; 0], 3), sample) ∧
  ∃ g' a'', fortuneRead [0; 0] 2 0 sample = Ok ((- EFAULT, [0; 0], 0), g') ∧
    pot_ok g' a'' ∧ msgs a'' = [hello] ∧ get_cookie a'' = get_cookie (Cookies [hello] 0).
Proof.
  split.
  - exact (proj1 (fortuneRead_errors sample (Cookies [hello] 0) [0; 0] 2 3 fortune_sample_ok) eq_refl).
  - assert (copy_to_user [0; 0] (shown hello) = ([0; 0], 3)) as Hcopy by (vm_compute; reflexivity).
    destruct (proj2 (proj2 (fortuneRead_errors sample (Cookies [hello] 0) [0; 0] 2 0 fortune_sample_ok))
      hello (Cookies [hello] 1) eq_refl (Z.le_refl 0)) as (g' & a'' & Hr & Hok); [by rewrite Hcopy|].
    rewrite Hcopy in Hr. by exists g', a''.
Defined.

Lemma fortune_cats_in_turn_witness :
  ∃ g' a', cats 2 sample = Ok ([[104; 105; 10]; [104; 105; 10]], g') ∧ pot_ok g' a' ∧
    msgs a' = [hello].
Proof.
  apply (fortune_cats_in_turn 2 sample (Cookies [hello] 0)); [exact fortune_sample_ok|done].
Defined.

Lemma fortune_life_cycle_witness :
  ∃ r s, md_init (KState (Ledger ∅ 0 []) unloaded) = Ok (r, s) ∧
    (r = 0 ∧ pot_ok (glob s) (Cookies [] 0) ∧
      (∀ (os : list (@file_op (list Z))) g', run_ops os (glob s) = Ok (tt, g') →
        ∃ s', md_exit (KState (world s) g') = Ok (tt, s') ∧ l_held (world s') = ∅) ∨
     r = - ENOMEM ∧ l_held (world s) = ∅).
Proof. exact (fortune_life_cycle (Ledger ∅ 0 [])). Defined.

(** Both outcomes of loading occur. *)
Example fortune_loads :
  (λ x : outcome (Z * kstate ledger fortune), match x with Ok (r, _) => Some r | _ => None end)
    (md_init (KState (Ledger ∅ 0 []) unloaded)) = Some 0.
Proof. vm_compute. reflexivity. Qed.
Example fortune_does_not_load :
  (λ x : outcome (Z * kstate ledger fortune), match x with Ok (r, _) => Some r | _ => None end)
    (md_init (KState (Ledger ∅ 0 [2%nat]) unloaded)) = Some (- ENOMEM).
Proof. vm_compute. reflexivity. Qed.
