(* ===== verification/Interleave.v ===== *)
(** * Calls that run at the same time

    A call of a handler is a value that says how far it has got; an action of a call is one
    access to shared data or one call of the kernel. The actions of any number of calls
    are interleaved. *)

From S2P Require Import Prelude.
From stdpp Require Import options.
#[local] Set Default Proof Using "Type*".

(** [C] are the calls, [G] is what they share; a call that has returned has no action. *)
Class Actions (C G : Type) := call_step : C → option (prog G C).

Inductive config (C G : Type) := Calls (cs : list C) (s : G) | Crashed (f : fault).
Arguments Calls {C G} _ _.
Arguments Crashed {C G} _.

Section Interleave.
Context {C G : Type} `{!Actions C G}.
Implicit Types (c : C) (cs : list C) (s : G) (x : config C G).

(** A call on its own, for a number of actions. *)
Fixpoint alone (n : nat) (c : C) : prog G C :=
  match n with
  | O => mret c
  | S n => match call_step c with Some m => c' ← m; alone n c' | None => mret c end
  end.

Inductive step : config C G → config C G → Prop :=
  | step_call i cs s c m c' s' :
      cs !! i = Some c → call_step c = Some m → m s = Ok (c', s') →
      step (Calls cs s) (Calls (<[i := c']> cs) s')
  | step_fault i cs s c m f :
      cs !! i = Some c → call_step c = Some m → m s = Fault f → step (Calls cs s) (Crashed f).

(** Running the calls in the given order; only the last action may fault. *)
Fixpoint schedule (order : list nat) (cs : list C) (s : G) : option (config C G) :=
  match order with
  | [] => Some (Calls cs s)
  | i :: order =>
      c ← cs !! i;
      m ← call_step c;
      match m s with
      | Ok (c', s') => schedule order (<[i := c']> cs) s'
      | Fault f => match order with [] => Some (Crashed f) | _ => None end
      end
  end.

(** One action of a call, from one state to another. *)
Definition does (c : C) (s : G) (c' : C) (s' : G) : Prop :=
  ∃ m, call_step c = Some m ∧ m s = Ok (c', s').

Lemma schedule_step i order cs s c c' s' :
  cs !! i = Some c → does c s c' s' → schedule (i :: order) cs s = schedule order (<[i := c']> cs) s'.
Proof. intros Hc (m & Hm & Hs). simpl. rewrite Hc. simpl. rewrite Hm. simpl. by rewrite Hs. Qed.

Lemma schedule_fault i cs s c m f :
  cs !! i = Some c → call_step c = Some m → m s = Fault f → schedule [i] cs s = Some (Crashed f).
Proof. intros Hc Hm Hs. simpl. rewrite Hc. simpl. rewrite Hm. simpl. by rewrite Hs. Qed.

Lemma schedule_nsteps order cs s x :
  schedule order cs s = Some x → nsteps step (length order) (Calls cs s) x.
Proof.
  revert cs s. induction order as [|i order IH]; intros cs s; simpl; [intros; simplify_eq; constructor|].
  destruct (cs !! i) as [c|] eqn:Hc; [|done]. simpl. destruct (call_step c) as [m|] eqn:Hm; [|done]. simpl.
  destruct (m s) as [[c' s']|f] eqn:Hs; intros Hx.
  - econstructor; [by eapply step_call|by apply IH].
  - destruct order; simplify_eq. apply (nsteps_l _ _ _ (Crashed f)); [by eapply step_fault|constructor].
Qed.

(** A property of all the calls that every action keeps while their work gets less: no
    run faults or is longer than the work, and one that cannot go on has returned
    everywhere. *)
Section Invariant.
Context (remaining : C → nat).

Definition work (cs : list C) : nat := foldr (λ c n, (remaining c + n)%nat) 0%nat cs.

Lemma calls_work_insert cs i c c' :
  cs !! i = Some c → (work (<[i := c']> cs) + remaining c = work cs + remaining c')%nat.
Proof.
  revert i. induction cs as [|d cs IH]; intros [|i] Hi; simplify_eq/=; [lia|].
  specialize (IH _ Hi). lia.
Qed.

Lemma work_bound k cs : (∀ c, remaining c ≤ k)%nat → (work cs ≤ k * length cs)%nat.
Proof. intros Hk. induction cs as [|c cs IH]; simpl; [lia|]. pose proof (Hk c). lia. Qed.

Context (Inv : list C → G → Prop).

Definition kept : Prop :=
  ∀ i cs s c m, Inv cs s → cs !! i = Some c → call_step c = Some m →
    wp m (λ c' s', Inv (<[i := c']> cs) s' ∧ (remaining c' < remaining c)%nat) s.

Lemma kept_steps n cs s x :
  kept → Inv cs s → nsteps step n (Calls cs s) x →
  ∃ cs' s', x = Calls cs' s' ∧ Inv cs' s' ∧ (work cs' + n ≤ work cs)%nat ∧
    ((∀ y, ¬ step x y) → Forall (λ c, call_step c = None) cs').
Proof.
  intros Hkept HI Hsteps. remember (Calls cs s) as x0 eqn:Hx0. revert cs s HI Hx0.
  induction Hsteps as [x0|n x0 x1 x Hstep _ IH]; intros cs s HI ->.
  - exists cs, s. split_and!; [done|done|lia|]. intros Hend. apply Forall_lookup. intros i c Hi.
    destruct (call_step c) as [m|] eqn:Hm; [|done].
    destruct (m s) as [[c' s']|f] eqn:Hs; destruct (Hend _ ltac:(by econstructor)).
  - inversion Hstep as [i ? ? c m c1 s1 Hi Hm Hs|i ? ? c m f Hi Hm Hs]; subst;
      destruct (Hkept i cs s c m HI Hi Hm) as (c2 & s2 & Hs2 & HI2 & Hlt); rewrite Hs in Hs2; simplify_eq.
    destruct (IH _ _ HI2 eq_refl) as (cs' & s' & -> & HI' & Hw & Hend). exists cs', s'.
    pose proof (calls_work_insert cs i c c2 Hi). split_and!; [done|done|lia|done].
Qed.
End Invariant.
End Interleave.
