(* ===== verification/FortuneRace.v ===== *)
(** * The handlers of the fortune module, running at the same time (6/fortunka/fortune.c)

    Nothing keeps two processes from being inside [fortuneWrite] and [fortuneRead] at
    once. Here a handler is a sequence of actions, each of them one access to the
    static data or one call of the kernel, and the actions of any number of calls are
    interleaved. *)

From S2P Require Import Prelude Interleave Kernel Fortune.
From stdpp Require Import options.
#[local] Set Default Proof Using "Type*".
Local Open Scope Z_scope.

(** Where a call of [fortuneWrite] is; a value that was loaded is kept. *)
Inductive wpc :=
  | WCheck                (* if (len > COOKIE_POT_SIZE - writeInd + 1) *)
  | WCopy                 (* copy_from_user(&cookiePot[writeInd], buf, len) *)
  | WLoad                 (* writeInd += len: the load .. *)
  | WStore (w : Z)        (* .. and the store *)
  | WTerm                 (* cookiePot[writeInd - 1] = 0 *)
  | WReturn (r : Z).

(** Where a call of [fortuneRead] is. *)
Inductive rpc :=
  | RCheck                (* if (fPos > 0 || writeInd == 0) *)
  | RWrap                 (* if (readInd >= writeInd) *)
  | RReset                (* readInd = 0 *)
  | RPrint                (* snprintf(tmpBuf, .., &cookiePot[readInd]) *)
  | RCopy (n : Z)         (* copy_to_user(buf, tmpBuf, readLen) *)
  | RLoad (n : Z)         (* readInd += readLen: the load .. *)
  | RStore (n r : Z)      (* .. and the store *)
  | RReturn (r fPos : Z).

Section Calls.
Context {U : Type} `{!UserMem U}.

Definition write_step (buf : U) (len : Z) (pc : wpc) : option (prog fortune wpc) :=
  match pc with
  | WCheck => Some (
      g ← get_st;
      mret (if decide (len > size_t (COOKIE_POT_SIZE - writeInd g + 1)) then WReturn (- ENOSPC) else WCopy))
  | WCopy => Some (
      g ← get_st;
      let '(bytes, rest) := copy_from_user buf len in
      p ← pot_ptr;
      p' ← lift (bwrite p (writeInd g) bytes);
      modify (set_pot p');;
      mret (if decide (rest ≠ 0) then WReturn (- EFAULT) else WLoad))
  | WLoad => Some (g ← get_st; mret (WStore (writeInd g)))
  | WStore w => Some (modify (set_writeInd (int32 (w + len)));; mret WTerm)
  | WTerm => Some (
      g ← get_st;
      p ← pot_ptr;
      p' ← lift (bput p (writeInd g - 1) 0);
      modify (set_pot p');;
      mret (WReturn len))
  | WReturn _ => None
  end.

(** The user's buffer is part of the call. *)
Definition read_step (fPos : Z) (c : U * rpc) : option (prog fortune (U * rpc)) :=
  let '(buf, pc) := c in
  match pc with
  | RCheck => Some (
      g ← get_st;
      mret (buf, if decide (fPos > 0 ∨ writeInd g = 0) then RReturn 0 fPos else RWrap))
  | RWrap => Some (
      g ← get_st;
      mret (buf, if decide (readInd g >= writeInd g) then RReset else RPrint))
  | RReset => Some (modify (set_readInd 0);; mret (buf, RPrint))
  | RPrint => Some (
      g ← get_st;
      p ← pot_ptr;
      s ← lift (cstr p (readInd g));
      '(t, readLen) ← lift (snprintf (tmpBuf g) COOKIE_POT_SIZE (s ++ [10]));
      modify (set_tmpBuf t);;
      mret (buf, RCopy readLen))
  | RCopy n => Some (
      g ← get_st;
      bytes ← lift (bread (tmpBuf g) 0 n);
      let '(buf', rest) := copy_to_user buf bytes in
      mret (buf', if decide (rest ≠ 0) then RReturn (- EFAULT) fPos else RLoad n))
  | RLoad n => Some (g ← get_st; mret (buf, RStore n (readInd g)))
  | RStore n r => Some (modify (set_readInd (int32 (r + n)));; mret (buf, RReturn n (fPos + n)))
  | RReturn _ _ => None
  end.

(** A call in progress. *)
Inductive call :=
  | Write (buf : U) (len : Z) (pc : wpc)
  | Read (fPos : Z) (buf : U) (pc : rpc).

Definition fortune_step (c : call) : option (prog fortune call) :=
  match c with
  | Write buf len pc => m ← write_step buf len pc; Some (pc' ← m; mret (Write buf len pc'))
  | Read fPos buf pc => m ← read_step fPos (buf, pc); Some ('(buf', pc') ← m; mret (Read fPos buf' pc'))
  end.
#[export] Instance fortune_actions : Actions call fortune := fortune_step.
End Calls.
Arguments call : clear implicits.
