(* ===== verification/FortuneRaceSpec.v ===== *)
(** * What the fortune module guarantees to calls that run at the same time *)

From S2P Require Import Prelude Interleave Kernel Fortune FortuneSpec FortuneRace.
From stdpp Require Import options.
#[local] Set Default Proof Using "Type*".
Local Open Scope Z_scope.
#[local] Arguments replicate : simpl never.
#[local] Arguments size_t : simpl never.
#[local] Arguments int32 : simpl never.
#[local] Arguments snprintf : simpl never.
#[local] Arguments cstr : simpl never.
#[local] Arguments bread : simpl never.
#[local] Arguments bwrite : simpl never.
#[local] Arguments bput : simpl never.

(** Runs a handler or an action, case by case. *)
Ltac run_action :=
  repeat (simpl; unfold call_step, fortune_actions, mbind, prog_bind, get_st, modify, lift, pot_ptr, mret, prog_ret;
          simpl; try case_match; simplify_eq/=).

Section Race.
Context {U : Type} `{!UserMem U, !UserMemLaws U}.

(** ** One call alone *)

(** The actions are the handlers, cut into pieces: when nobody else runs, a call
    does what its handler does, faults included, within seven actions. *)
Theorem fortune_calls_alone (buf : U) len fPos g :
  alone 5 (Write buf len WCheck) g =
    match fortuneWrite buf len g with
    | Ok (r, g') => Ok (Write buf len (WReturn r), g') | Fault f => Fault f end ∧
  alone 7 (Read fPos buf RCheck) g =
    match fortuneRead buf len fPos g with
    | Ok ((r, buf', fPos'), g') => Ok (Read fPos buf' (RReturn r fPos'), g') | Fault f => Fault f end.
Proof.
  split.
  - unfold fortuneWrite. by run_action.
  - unfold fortuneRead. by run_action.
Qed.

(** ** Any number of writes and one read *)

(** The bytes a call may still add to the pot. *)
Definition need (c : call U) : Z :=
  match c with
  | Write _ len (WCheck | WCopy | WLoad | WStore _) => len
  | _ => 0
  end.

Definition total (cs : list (call U)) : Z := foldr (λ c t, need c + t) 0 cs.

Definition is_read (c : call U) : Prop := match c with Read _ _ _ => True | Write _ _ _ => False end.

(** A call that has just been made. *)
Definition starting (c : call U) : Prop :=
  match c with
  | Write _ len pc => pc = WCheck ∧ 1 ≤ len
  | Read _ _ pc => pc = RCheck
  end.

(** The actions a call still has before it returns, at most. *)
Definition remaining (c : call U) : nat :=
  match c with
  | Write _ _ WCheck => 5 | Write _ _ WCopy => 4 | Write _ _ WLoad => 3
  | Write _ _ (WStore _) => 2 | Write _ _ WTerm => 1 | Write _ _ (WReturn _) => 0
  | Read _ _ RCheck => 7 | Read _ _ RWrap => 6 | Read _ _ RReset => 5 | Read _ _ RPrint => 4
  | Read _ _ (RCopy _) => 3 | Read _ _ (RLoad _) => 2 | Read _ _ (RStore _ _) => 1
  | Read _ _ (RReturn _ _) => 0
  end.

(** The pot, when [t] more bytes may be stored and [T] are allowed: its last byte is
    never touched, so that a string in it always ends. *)
Record pot_sound (T t : Z) (g : fortune) : Prop := {
  ps_ptr : is_Some (cookiePot g);
  ps_tmp : length (tmpBuf g) = 4096%nat;
  ps_pot : length (pot g) = 4096%nat;
  ps_last : pot g !! 4095%nat = Some 0;
  ps_write : 0 ≤ writeInd g ∧ writeInd g + t ≤ T;
  ps_read : 0 ≤ readInd g
}.

Definition call_ok (T t : Z) (g : fortune) (c : call U) : Prop :=
  match c with
  | Write _ len pc => 1 ≤ len ∧
      match pc with
      | WStore w => 0 ≤ w ∧ w + t ≤ T
      | WTerm => 1 ≤ writeInd g
      | WReturn r => r = len ∨ r = - EFAULT
      | _ => True
      end
  | Read _ _ pc =>
      match pc with
      | RPrint => readInd g ≤ 4095
      | RCopy n | RLoad n => 1 ≤ n ∧ readInd g + n ≤ 4096
      | RStore n r => 1 ≤ n ∧ 0 ≤ r ∧ r + n ≤ 4096
      | _ => True
      end
  end.

(** What an action of another call leaves true. *)
Lemma call_ok_frame T t t' g g' c :
  call_ok T t g c → t' ≤ t → (1 ≤ writeInd g → 1 ≤ writeInd g') →
  (is_read c → readInd g' = readInd g) → call_ok T t' g' c.
Proof.
  destruct c as [b len pc|p b pc]; simpl; [destruct pc; naive_solver lia|].
  intros ? _ _ Hr. specialize (Hr I). rewrite Hr. by destruct pc.
Qed.

(** What an action gives: it does not fault, and keeps the pot and the call sound. *)
Definition action_post (T t : Z) (g : fortune) (c c' : call U) (g' : fortune) : Prop :=
  let t' := t - need c + need c' in
  pot_sound T t' g' ∧ call_ok T t' g' c' ∧ 0 ≤ need c' ≤ need c ∧ (is_read c' ↔ is_read c) ∧
  (1 ≤ writeInd g → 1 ≤ writeInd g') ∧ (¬ is_read c → readInd g' = readInd g) ∧
  (remaining c' < remaining c)%nat.

Lemma write_action T t g buf len pc m :
  T ≤ 4095 → pot_sound T t g → call_ok T t g (Write buf len pc) → need (Write buf len pc) ≤ t →
  write_step buf len pc = Some m →
  wp m (λ pc', action_post T t g (Write buf len pc) (Write buf len pc')) g.
Proof.
  intros HT [[h Hptr] Htmp Hpot Hlast [Hw Hs] Hr] [Hlen Hc] Hneed. unfold action_post.
  destruct pc as [| | |w| |r]; simpl in Hc, Hneed |- *; intros [= <-].
  - apply wp_bind, wp_get_st, wp_ret. rewrite size_t_small by (unfold COOKIE_POT_SIZE; lia).
    unfold COOKIE_POT_SIZE. rewrite decide_False by lia. split_and!; try split; eauto; simpl; lia.
  - apply wp_bind, wp_get_st.
    pose proof (copy_from_user_length buf len ltac:(lia)) as Hd.
    destruct (copy_from_user buf len) as [d rest]. simpl in Hd.
    destruct (bwrite_below (pot g) (writeInd g) d 4095) as (p & Hb & Hl & Hk); [lia..|].
    apply wp_bind. apply (wp_Ok _ _ _ (pot g) g); [unfold pot_ptr; by rewrite Hptr|].
    apply wp_bind. apply (wp_lift _ _ _ p); [done|]. apply wp_bind, wp_modify, wp_ret.
    case_decide; split_and!; try split; simpl; eauto; try congruence; try lia.
  - apply wp_bind, wp_get_st, wp_ret. split_and!; try split; simpl; eauto; lia.
  - apply wp_bind, wp_modify, wp_ret. rewrite int32_small by lia.
    split_and!; try split; simpl; eauto; lia.
  - apply wp_bind, wp_get_st, wp_bind. apply (wp_Ok _ _ _ (pot g) g); [unfold pot_ptr; by rewrite Hptr|].
    apply wp_bind. unfold bput. rewrite decide_True by lia. eapply wp_lift; [done|].
    apply wp_bind, wp_modify, wp_ret.
    split_and!; try split; simpl; rewrite ?length_insert; eauto; try lia.
    rewrite list_lookup_insert_ne by lia. done.
Qed.

Lemma read_action T t g fPos buf pc m :
  T ≤ 4095 → 0 ≤ t → pot_sound T t g → call_ok T t g (Read fPos buf pc) →
  read_step fPos (buf, pc) = Some m →
  wp m (λ c, action_post T t g (Read fPos buf pc) (Read fPos c.1 c.2)) g.
Proof.
  intros HT Ht Hs Hc. pose proof Hs as [[h Hptr] Htmp Hpot Hlast [Hw Hsum] Hr]. unfold action_post.
  destruct pc as [| | | |n|n|n r|r p]; simpl in Hc |- *; intros [= <-].
  - apply wp_bind, wp_get_st, wp_ret. case_decide; split_and!; try split; simpl; eauto; lia.
  - apply wp_bind, wp_get_st, wp_ret. case_decide; split_and!; try split; simpl; eauto; lia.
  - apply wp_bind, wp_modify, wp_ret. split_and!; try split; simpl; eauto; lia.
  - apply wp_bind, wp_get_st, wp_bind. apply (wp_Ok _ _ _ (pot g) g); [unfold pot_ptr; by rewrite Hptr|].
    destruct (cstr_zero (pot g) 4095 (readInd g) Hlast ltac:(lia)) as (s & Hcs & Hl).
    apply wp_bind. apply (wp_lift _ _ _ s); [done|]. apply wp_bind.
    destruct (snprintf_shown (tmpBuf g) s Htmp ltac:(lia)) as (t' & Hsn & Ht' & _).
    eapply wp_lift; [done|]. apply wp_bind, wp_modify, wp_ret. split_and!; try split; simpl; eauto; lia.
  - apply wp_bind, wp_get_st, wp_bind. unfold bread. rewrite decide_True by lia.
    eapply wp_lift; [done|]. destruct (copy_to_user _ _) as [buf' rest]. apply wp_ret.
    case_decide; split_and!; try split; simpl; eauto; lia.
  - apply wp_bind, wp_get_st, wp_ret. split_and!; try split; simpl; eauto; lia.
  - apply wp_bind, wp_modify, wp_ret. rewrite int32_small by lia.
    split_and!; try split; simpl; eauto; lia.
Qed.

Lemma action_ok T t g c m :
  T ≤ 4095 → pot_sound T t g → call_ok T t g c → need c ≤ t → fortune_step c = Some m →
  wp m (action_post T t g c) g.
Proof.
  intros HT Hs Hc Hn. destruct c as [buf len pc|fPos buf pc]; unfold fortune_step.
  - destruct (write_step buf len pc) as [m'|] eqn:Hm; simpl; [intros [= <-]|done]. apply wp_bind.
    eapply wp_mono; [by eapply write_action|]. intros pc' g' Hp. by apply wp_ret.
  - destruct (read_step fPos (buf, pc)) as [m'|] eqn:Hm; simpl; [intros [= <-]|done]. apply wp_bind.
    eapply wp_mono; [by eapply read_action|]. intros [buf' pc'] g' Hp. by apply wp_ret.
Qed.

Lemma total_insert cs i c c' :
  cs !! i = Some c → total (<[i := c']> cs) = total cs - need c + need c'.
Proof.
  revert i. induction cs as [|d cs IH]; intros [|i] Hi; simplify_eq/=; [lia|].
  specialize (IH _ Hi). lia.
Qed.

Lemma total_nonneg cs : (∀ j d, cs !! j = Some d → 0 ≤ need d) → 0 ≤ total cs.
Proof.
  induction cs as [|d cs IH]; intros Hcs; simpl; [done|].
  pose proof (Hcs 0%nat d eq_refl). pose proof (IH (λ j, Hcs (S j))). lia.
Qed.

Lemma need_total cs i c :
  (∀ j d, cs !! j = Some d → 0 ≤ need d) → cs !! i = Some c → need c ≤ total cs.
Proof.
  revert i. induction cs as [|d cs IH]; intros i Hcs Hi; [done|]. simpl.
  pose proof (total_nonneg cs (λ j, Hcs (S j))). pose proof (Hcs 0%nat d eq_refl).
  destruct i as [|i]; simplify_eq/=; [lia|]. pose proof (IH i (λ j, Hcs (S j)) Hi). lia.
Qed.

Record sound (T : Z) (cs : list (call U)) (g : fortune) : Prop := {
  so_pot : pot_sound T (total cs) g;
  so_calls : ∀ i c, cs !! i = Some c → call_ok T (total cs) g c;
  so_one : ∀ i j c d, cs !! i = Some c → cs !! j = Some d → is_read c → is_read d → i = j
}.

Lemma need_nonneg T t g c : call_ok T t g c → 0 ≤ need c.
Proof. destruct c as [b len []|? ? []]; simpl; lia. Qed.

Lemma sound_kept T : T ≤ 4095 → kept remaining (sound T).
Proof.
  intros HT i cs g c m [Hp Hc H1] Hi Hm.
  eapply wp_mono.
  { apply (action_ok T (total cs)); eauto. eapply need_total; [|done]. intros j d Hj. eapply need_nonneg. by eapply Hc. }
  intros c2 g2 (Hp2 & Hc2 & Hn & Hr & Hw & Hf & Hrem). split; [|done].
  split; [by rewrite (total_insert _ _ c)|..].
  - intros j d [(<- & <- & ?)|[Hne Hj]]%list_lookup_insert_Some; rewrite (total_insert _ _ c) by done; [done|].
    eapply call_ok_frame; [by eapply Hc|lia|done|]. intros Hd. apply Hf. intros Hcr. by apply Hne, (H1 i j c d).
  - intros j k d e Hj Hk Hd He.
    assert (∀ j d, <[i := c2]> cs !! j = Some d → is_read d → ∃ d', cs !! j = Some d' ∧ is_read d') as Hold.
    { intros j' d' [(<- & <- & ?)|[? ?]]%list_lookup_insert_Some ?; [exists c; tauto|by exists d']. }
    destruct (Hold j d) as (d' & ? & ?), (Hold k e) as (e' & ? & ?); [done..|]. by apply (H1 j k d' e').
Qed.



(** ** What may happen otherwise *)

#[local] Arguments schedule : simpl never.

Section Writer.
Context (buf : U) (len : Z).
Implicit Types g : fortune.

Lemma does_check g :
  0 ≤ writeInd g → 0 ≤ len ≤ 4096 - writeInd g → does (Write buf len WCheck) g (Write buf len WCopy) g.
Proof.
  intros. eexists. split; [done|]. unfold mbind, prog_bind, get_st. simpl.
  rewrite size_t_small by (unfold COOKIE_POT_SIZE; lia). by rewrite decide_False by (unfold COOKIE_POT_SIZE; lia).
Qed.

Lemma does_copy g d p :
  is_Some (cookiePot g) → copy_from_user buf len = (d, 0) → bwrite (pot g) (writeInd g) d = Ok p →
  does (Write buf len WCopy) g (Write buf len WLoad) (set_pot p g).
Proof.
  intros [h Hh] Hc Hb. eexists. split; [done|]. unfold mbind, prog_bind, get_st, pot_ptr, lift, modify.
  rewrite Hc, Hh, Hb. done.
Qed.

Lemma does_load g : does (Write buf len WLoad) g (Write buf len (WStore (writeInd g))) g.
Proof. by eexists. Qed.

Lemma does_store g w :
  0 ≤ w + len ≤ 4096 → does (Write buf len (WStore w)) g (Write buf len WTerm) (set_writeInd (w + len) g).
Proof.
  intros. eexists. split; [done|]. unfold mbind, prog_bind, modify. by rewrite int32_small by lia.
Qed.

Lemma does_term g p :
  is_Some (cookiePot g) → bput (pot g) (writeInd g - 1) 0 = Ok p →
  does (Write buf len WTerm) g (Write buf len (WReturn len)) (set_pot p g).
Proof.
  intros [h Hh] Hb. eexists. split; [done|]. unfold mbind, prog_bind, get_st, pot_ptr, lift, modify.
  rewrite Hh, Hb. done.
Qed.
End Writer.

(** C37: what two writes at the same time can do. Each of them fits, but not both: the
    second, checked before the first has moved [writeInd], overruns the pot. Both fit:
    they store to the same place and add to the same [writeInd], both return their
    lengths, and only one of them is in the pot. *)
Theorem fortune_writes_race g a (b1 b2 : U) l1 l2 d1 d2 :
  pot_ok g a → 1 ≤ l1 ≤ 4096 - writeInd g → 1 ≤ l2 ≤ 4096 - writeInd g →
  copy_from_user b1 l1 = (d1, 0) → copy_from_user b2 l2 = (d2, 0) →
  (4096 < writeInd g + l1 + l2 →
    schedule [0; 1; 0; 0; 0; 1]%nat [Write b1 l1 WCheck; Write b2 l2 WCheck] g = Some (Crashed OutOfBounds)) ∧
  ∃ g', schedule [0; 1; 0; 1; 0; 1; 0; 1; 0; 1]%nat [Write b1 l1 WCheck; Write b2 l2 WCheck] g =
      Some (Calls [Write b1 l1 (WReturn l1); Write b2 l2 (WReturn l2)] g') ∧
    pot_ok g' (put_cookies d2 a).
Proof.
  intros Hok H1 H2 Hc1 Hc2.
  pose proof (copy_from_user_length b1 l1 ltac:(lia)) as Hd1. rewrite Hc1 in Hd1. simpl in Hd1.
  pose proof (copy_from_user_length b2 l2 ltac:(lia)) as Hd2. rewrite Hc2 in Hd2. simpl in Hd2.
  pose proof Hok as [Hptr Htmp (free & Hpot & Hplen) Hw Hr Hc Hclean].
  pose proof (length_pot_free _ _ _ Hpot Hplen Hw).
  assert (∃ p, bwrite (pot g) (writeInd g) d1 = Ok p ∧ length p = 4096%nat ∧
    ∃ e, p = encode (msgs a) ++ e) as (p & Hp & Hpl & e & He).
  { rewrite Hpot, <- (take_drop (length d1) free), (bwrite_app _ (take _ free)) by (rewrite ?length_take; lia).
    eexists. split; [done|]. split; [|by eexists]. rewrite !length_app, length_drop. rewrite Hpot, length_app in Hplen. lia. }
  split.
  - intros Hbig. do 2 erewrite schedule_step by (done || (apply does_check; lia)). simpl.
    erewrite schedule_step by (done || by eapply does_copy). simpl.
    erewrite schedule_step by (done || by eapply does_load). simpl.
    erewrite schedule_step by (done || by apply does_store; simpl; lia). simpl.
    destruct Hptr as [h Hh]. eapply schedule_fault; [done|done|]. simpl. unfold mbind, prog_bind, get_st.
    rewrite Hc2. unfold pot_ptr. simpl. rewrite Hh. unfold lift, bwrite. by rewrite decide_False by lia.
  - assert (∃ p2 p3 free', bwrite p (writeInd g) d2 = Ok p2 ∧ bput p2 (writeInd g + l2 - 1) 0 = Ok p3 ∧
      bput p3 (writeInd g + l2 - 1) 0 = Ok p3 ∧ p3 = encode (msgs a) ++ removelast d2 ++ 0 :: free' ∧
      length p3 = 4096%nat) as (p2 & p3 & free' & Hp2 & Hp3 & Hp4 & Hp5 & Hl3).
    { rewrite <- (take_drop (length d2) e) in He. subst p. rewrite !length_app, length_take, length_drop in Hpl.
      rewrite (bwrite_app _ (take _ e)) by (rewrite ?length_take; lia).
      assert (bput (encode (msgs a) ++ d2 ++ drop (length d2) e) (writeInd g + l2 - 1) 0 =
        Ok (encode (msgs a) ++ removelast d2 ++ 0 :: drop (length d2) e)) as Hput
        by (apply bput_last; [by intros ->; simpl in *; lia|lia]).
      eexists _, _, _. split; [done|]. split; [done|]. split; [by eapply bput_again|]. split; [done|].
      rewrite (length_bput _ _ _ _ Hput), !length_app, length_drop. lia. }
    do 2 erewrite schedule_step by (done || (apply does_check; lia)). simpl.
    erewrite schedule_step by (done || by eapply does_copy). simpl.
    erewrite schedule_step by (done || by eapply does_copy). simpl.
    do 2 erewrite schedule_step by (done || by eapply does_load). simpl.
    do 2 erewrite schedule_step by (done || by apply does_store; simpl; lia). simpl.
    do 2 erewrite schedule_step by (done || by eapply does_term). simpl.
    eexists. split; [done|]. eapply pot_ok_put; simpl; eauto; [by intros ->; simpl in *; lia|lia].
Qed.

Section Reader.
Context (fPos : Z) (buf : U).
Implicit Types g : fortune.

Lemma does_read_check g :
  fPos ≤ 0 → writeInd g ≠ 0 → does (Read fPos buf RCheck) g (Read fPos buf RWrap) g.
Proof.
  intros. eexists. split; [done|]. unfold mbind, prog_bind, get_st. simpl. by rewrite decide_False by lia.
Qed.

Lemma does_wrap g :
  readInd g < writeInd g → does (Read fPos buf RWrap) g (Read fPos buf RPrint) g.
Proof.
  intros. eexists. split; [done|]. unfold mbind, prog_bind, get_st. simpl. by rewrite decide_False by lia.
Qed.

Lemma does_print g a m :
  pot_ok g a → msgs a !! cursor a = Some m →
  ∃ t, does (Read fPos buf RPrint) g (Read fPos buf (RCopy (Z.of_nat (S (length m))))) (set_tmpBuf t g) ∧
    pot_ok (set_tmpBuf t g) a ∧ bread t 0 (Z.of_nat (S (length m))) = Ok (shown m).
Proof.
  intros Hok Hm. pose proof (pot_ok_short _ _ m Hok (list_elem_of_lookup_2 _ _ _ Hm)).
  pose proof Hok as [[h Hptr] Htmp (free & Hpot & Hplen) Hw Hr Hc Hclean].
  destruct (snprintf_shown (tmpBuf g) m Htmp ltac:(lia)) as (t & Hsn & Ht & Hbr).
  exists t. split; [|split; [split; simpl; eauto|done]].
  eexists. split; [done|]. unfold mbind, prog_bind, get_st, pot_ptr, lift, modify. rewrite Hptr.
  rewrite Hpot, Hr, (cstr_encode _ _ m) by done. by rewrite Hsn.
Qed.

Lemma does_read_copy g n d buf' :
  bread (tmpBuf g) 0 n = Ok d → copy_to_user buf d = (buf', 0) →
  does (Read fPos buf (RCopy n)) g (Read fPos buf' (RLoad n)) g.
Proof.
  intros Hb Hc. eexists. split; [done|]. unfold mbind, prog_bind, get_st, lift. by rewrite Hb, Hc.
Qed.

Lemma does_read_load g n : does (Read fPos buf (RLoad n)) g (Read fPos buf (RStore n (readInd g))) g.
Proof. by eexists. Qed.

Lemma does_read_store g n r :
  0 ≤ r + n ≤ 8192 →
  does (Read fPos buf (RStore n r)) g (Read fPos buf (RReturn n (fPos + n))) (set_readInd (r + n) g).
Proof.
  intros. eexists. split; [done|]. unfold mbind, prog_bind, modify. by rewrite int32_small by lia.
Qed.
End Reader.

(** Where the cookie at the cursor lies. *)
Lemma cookie_place g a m :
  pot_ok g a → msgs a !! cursor a = Some m →
  0 ≤ readInd g ∧ readInd g + Z.of_nat (S (length m)) ≤ writeInd g ≤ 4096 ∧
  (S (cursor a) = length (msgs a) → readInd g + Z.of_nat (S (length m)) = writeInd g) ∧
  pot_ok (set_readInd (readInd g + Z.of_nat (S (length m))) g) (Cookies (msgs a) (S (cursor a))).
Proof.
  intros [Hptr Htmp (free & Hpot & Hplen) Hw Hr Hc Hclean] Hm.
  pose proof (length_pot_free _ _ _ Hpot Hplen Hw). pose proof (encode_take_S _ _ _ Hm) as HS.
  pose proof (lookup_lt_Some _ _ _ Hm).
  assert (length (encode (take (S (cursor a)) (msgs a))) ≤ length (encode (msgs a)))%nat.
  { rewrite <- (take_drop (S (cursor a)) (msgs a)) at 2. rewrite encode_app, length_app. lia. }
  split_and!; [lia|lia|lia|intros He; rewrite He, firstn_all in HS; lia|].
  split; simpl; eauto. lia.
Qed.

Section Reads.
Context (g : fortune) (a : cookies) (b1 b2 b1' b2' : U) (f1 f2 : Z) (m : list Z).
Context (Hok : pot_ok g a) (Hm : msgs a !! cursor a = Some m) (Hf1 : f1 ≤ 0) (Hf2 : f2 ≤ 0).
Context (Hc1 : copy_to_user b1 (shown m) = (b1', 0)) (Hc2 : copy_to_user b2 (shown m) = (b2', 0)).

(** Both reads get as far as the copy to the user before [readInd] moves. *)
Lemma both_copied rest :
  ∃ t, pot_ok (set_tmpBuf t g) a ∧
    schedule ([0; 1; 0; 1; 0; 1; 0; 1]%nat ++ rest) [Read f1 b1 RCheck; Read f2 b2 RCheck] g =
    let n := Z.of_nat (S (length m)) in
    schedule rest [Read f1 b1' (RLoad n); Read f2 b2' (RLoad n)] (set_tmpBuf t g).
Proof.
  destruct (cookie_place _ _ _ Hok Hm) as (Hr & [Hw _] & _).
  destruct (does_print f1 b1 g a m Hok Hm) as (t1 & Hp1 & Hok1 & _).
  destruct (does_print f2 b2 (set_tmpBuf t1 g) a m Hok1 Hm) as (t2 & Hp2 & Hok2 & Hbr).
  exists t2. split; [done|]. simpl app.
  do 2 erewrite schedule_step by (done || by apply does_read_check; lia). simpl.
  do 2 erewrite schedule_step by (done || by apply does_wrap; lia). simpl.
  erewrite schedule_step by done. simpl. erewrite schedule_step by done. simpl.
  do 2 erewrite schedule_step by (done || by eapply does_read_copy). done.
Qed.

(** What two reads at the same time can do: both deliver the cookie at the cursor, and
    either it is read a second time, or the [readInd] they leave is the cookie's length
    twice further on, wherever in the pot that is. At the last cookie of a full pot one of
    them can run off the end of the pot. *)
Theorem fortune_reads_race :
  let n := Z.of_nat (S (length m)) in
  let calls := [Read f1 b1 RCheck; Read f2 b2 RCheck] in
  let returned := [Read f1 b1' (RReturn n (f1 + n)); Read f2 b2' (RReturn n (f2 + n))] in
  (∃ g', schedule [0; 1; 0; 1; 0; 1; 0; 1; 0; 1; 0; 1]%nat calls g = Some (Calls returned g') ∧
    pot_ok g' (Cookies (msgs a) (S (cursor a)))) ∧
  (∃ g', schedule [0; 1; 0; 1; 0; 1; 0; 1; 0; 0; 1; 1]%nat calls g = Some (Calls returned g') ∧
    readInd g' = readInd g + 2 * n ∧ writeInd g' = writeInd g ∧ pot g' = pot g) ∧
  (writeInd g = 4096 → S (cursor a) = length (msgs a) →
    schedule [0; 0; 1; 1; 1; 1; 1; 1; 0]%nat calls g = Some (Crashed OutOfBounds)).
Proof.
  destruct (cookie_place _ _ _ Hok Hm) as (Hr & [Hw Hw'] & Hlast & _). split_and!.
  - destruct (both_copied [0; 1; 0; 1]%nat) as (t & Hok1 & Hs). simpl app in Hs. rewrite Hs. clear Hs. simpl.
    do 2 erewrite schedule_step by (done || by eapply does_read_load). simpl.
    do 2 erewrite schedule_step by (done || by apply does_read_store; simpl; lia). simpl.
    eexists. split; [done|]. by destruct (cookie_place _ _ _ Hok1 Hm) as (_ & _ & _ & Hok2).
  - destruct (both_copied [0; 0; 1; 1]%nat) as (t & _ & Hs). simpl app in Hs. rewrite Hs. clear Hs. simpl.
    do 2 (erewrite schedule_step by (done || by eapply does_read_load); simpl;
      erewrite schedule_step by (done || by apply does_read_store; simpl; lia); simpl).
    eexists. split; [done|]. simpl. split; [lia|done].
  - intros Hfull Hl. destruct (does_print f2 b2 g a m Hok Hm) as (t & Hp & Hok1 & Hbr).
    erewrite schedule_step by (done || by apply does_read_check; lia). simpl.
    erewrite schedule_step by (done || by apply does_wrap; lia). simpl.
    erewrite schedule_step by (done || by apply does_read_check; lia). simpl.
    erewrite schedule_step by (done || by apply does_wrap; lia). simpl.
    erewrite schedule_step by done. simpl.
    erewrite schedule_step by (done || by eapply does_read_copy). simpl.
    erewrite schedule_step by (done || by eapply does_read_load). simpl.
    erewrite schedule_step by (done || by apply does_read_store; simpl; lia). simpl.
    destruct (po_ptr _ _ Hok) as [h Hh]. destruct (po_pot _ _ Hok) as (free & _ & Hplen).
    eapply schedule_fault; [done|done|]. simpl. unfold mbind, prog_bind, get_st, pot_ptr. simpl. rewrite Hh.
    unfold lift, cstr. rewrite decide_True by lia. by rewrite drop_ge by lia.
Qed.
End Reads.

End Race.

(** ** Examples *)

Definition three_calls : list (call (list Z)) :=
  [Write [65; 10] 2 WCheck; Read 0 [0; 0; 0; 0] RCheck; Write [66; 10] 2 WCheck].


Lemma fortune_writes_race_witness :
  schedule [0; 1; 0; 0; 0; 1]%nat
    [Write (replicate 3000 65) 3000 WCheck; Write (replicate 3000 66) 3000 WCheck] sample =
    Some (Crashed OutOfBounds) ∧
  ∃ g', schedule [0; 1; 0; 1; 0; 1; 0; 1; 0; 1]%nat
      [Write (replicate 3000 65) 3000 WCheck; Write (replicate 3000 66) 3000 WCheck] sample =
      Some (Calls [Write (replicate 3000 65) 3000 (WReturn 3000); Write (replicate 3000 66) 3000 (WReturn 3000)] g') ∧
    pot_ok g' (put_cookies (replicate 3000 66) (Cookies [hello] 0)).
Proof.
  destruct (fortune_writes_race sample (Cookies [hello] 0) (replicate 3000 65) (replicate 3000 66) 3000 3000
    (replicate 3000 65) (replicate 3000 66) fortune_sample_ok) as [H1 H2];
    [simpl; lia|simpl; lia|vm_compute; reflexivity|vm_compute; reflexivity|].
  split; [apply H1; reflexivity|exact H2].
Defined.

Lemma fortune_reads_race_witness :
  ∃ g', schedule [0; 1; 0; 1; 0; 1; 0; 1; 0; 0; 1; 1]%nat [Read 0 [0; 0; 0] RCheck; Read 0 [0; 0; 0; 7] RCheck] sample =
      Some (Calls [Read 0 [104; 105; 10] (RReturn 3 3); Read 0 [104; 105; 10; 7] (RReturn 3 3)] g') ∧
    readInd g' = 0 + 2 * 3 ∧ writeInd g' = 3 ∧ pot g' = pot sample.
Proof.
  apply (fortune_reads_race sample (Cookies [hello] 0) [0; 0; 0] [0; 0; 0; 7] [104; 105; 10] [104; 105; 10; 7] 0 0
    hello fortune_sample_ok eq_refl (Z.le_refl 0) (Z.le_refl 0)); vm_compute; reflexivity.
Defined.
