(* ===== verification/TaskInfo.v ===== *)
(** * What the modules print of a task

    The fields of [struct task_struct] that the modules of 6/seq_files and
    4/proc_info read, and the text their format strings make of them. *)

From S2P Require Import Prelude.
From stdpp Require Import options.
Local Open Scope Z_scope.

(** [t_root] and [t_pwd] are the names read through the task's [fs] pointer,
    which is NULL once the task has exited. *)
Record task_struct := Task {
  comm : list Z;
  pid : Z;
  parent_comm : list Z;
  parent_pid : Z;
  task_state : Z;
  on_cpu : Z;
  flags : Z;
  prio : Z;
  policy : Z;
  exit_state : Z;
  exit_code : Z;
  in_execve : Z;
  utime : Z;
  fs : option (list Z * list Z)
}.

(** "comm - %s\npid - %d\nparent comm - %s\nppid - %d\nstate - %d\non_cpu - %d\n
     flags - %x\nprio - %d\npolicy - %d\nexit_state - %d\nexit_code - %d\n
     in_execve - %x\nutime - %llu\n" *)
Definition field (name : string) (v : list Z) : list Z := bytes name ++ bytes " - " ++ v ++ [10].

Definition task_fields (t : task_struct) : list Z :=
  field "comm" (comm t) ++ field "pid" (dec (pid t)) ++
  field "parent comm" (parent_comm t) ++ field "ppid" (dec (parent_pid t)) ++
  field "state" (dec (int32 (task_state t))) ++ field "on_cpu" (dec (on_cpu t)) ++
  field "flags" (hex (flags t)) ++ field "prio" (dec (prio t)) ++
  field "policy" (dec (int32 (policy t))) ++ field "exit_state" (dec (exit_state t)) ++
  field "exit_code" (dec (exit_code t)) ++ field "in_execve" (hex (in_execve t)) ++
  field "utime" (dec (utime t)).

Definition init_task : task_struct :=
  Task (bytes "swapper/0") 0 (bytes "swapper/0") 0 0 1 0x200000 120 0 0 0 0 0
    (Some (bytes "/", bytes "/")).
