(* ===== verification/SingleFile.v ===== *)
(** * The single_file module (6/seq_files/single_file.c)

    A pid is written to /proc/seq_dir/seq_file; reading the file shows the task of
    that pid. *)

From S2P Require Import Prelude Kernel TaskInfo.
From stdpp Require Import options.
#[local] Set Default Proof Using "Type*".
Local Open Scope Z_scope.
#[local] Arguments replicate : simpl never.

Definition COOKIE_BUF_SIZE : Z := 4096.
Definition ENOMEM : Z := 12.
Definition EFAULT : Z := 14.
Definition ENOSPC : Z := 28.

(** ** The static data; [buf] is the memory [cookie_buf] points to *)

Record single := Single {
  seq_dir : option handle;
  seq_file : option handle;
  seq_symlink : option handle;
  cookie_buf : option handle;
  buf : list Z;
  write_index : Z
}.

Definition set_dir v g := Single v (seq_file g) (seq_symlink g) (cookie_buf g) (buf g) (write_index g).
Definition set_file v g := Single (seq_dir g) v (seq_symlink g) (cookie_buf g) (buf g) (write_index g).
Definition set_link v g := Single (seq_dir g) (seq_file g) v (cookie_buf g) (buf g) (write_index g).
Definition set_cookie_buf v g := Single (seq_dir g) (seq_file g) (seq_symlink g) v (buf g) (write_index g).
Definition set_buf v g := Single (seq_dir g) (seq_file g) (seq_symlink g) (cookie_buf g) v (write_index g).
Definition set_write_index v g := Single (seq_dir g) (seq_file g) (seq_symlink g) (cookie_buf g) (buf g) v.

Definition unloaded : single := Single None None None None [] 0.

(** ** The buffer always holds a string *)

Record buf_ok (g : single) : Prop := {
  bo_ptr : is_Some (cookie_buf g);
  bo_len : length (buf g) = 4096%nat;
  bo_nul : 0 ∈ buf g;
  bo_index : write_index g = 0
}.

(** The string a write of the bytes [d] leaves in the buffer. *)
Definition written (d : list Z) : list Z :=
  match until_nul (removelast d ++ [0]) with Some s => s | None => [] end.

Lemma cstr_written d r : cstr (removelast d ++ 0 :: r) 0 = Ok (written d).
Proof.
  unfold cstr, written. simpl. rewrite drop_0.
  destruct (until_nul_in (removelast d ++ [0])) as [s Hs]; [set_solver|].
  rewrite Hs. replace (removelast d ++ 0 :: r) with ((removelast d ++ [0]) ++ r)
    by (by rewrite <- (assoc app)).
  by rewrite (until_nul_prefix _ _ _ Hs).
Qed.

(** ** The operations *)

Section Module.
(** The kernel's number parser and its view of a task are code outside the
    repository. *)
Context {W : Type} `{!Kernel W} {U : Type} `{!UserMem U}
  (kstrtoint : list Z → option Z) (task_of : W → handle → task_struct).
Abbreviation M := (prog (kstate W single)).

Definition free_all : M unit :=
  g ← get_g;
  (match seq_symlink g with Some _ => remove_proc_entry "seq_symlink" None | None => mret tt end);;
  (match seq_file g with
   | Some _ => remove_proc_entry "seq_file" (seq_dir g) | None => mret tt end);;
  (match seq_dir g with Some _ => remove_proc_entry "seq_dir" None | None => mret tt end);;
  vfree (cookie_buf g).

(** Every access to [cookie_buf[..]] goes through the pointer. *)
Definition buf_ptr : M (list Z) := λ s,
  match cookie_buf (glob s) with Some _ => Ok (buf (glob s), s) | None => Fault NullDeref end.

(** [find_get_pid] takes a reference to the pid, [get_pid_task] one to the task. *)
Definition find_get_pid (p : Z) : M (option handle) := alloc (KPidRef p).
Definition get_pid_task (ref : option handle) (p : Z) : M (option handle) :=
  match ref with Some _ => alloc (KTaskRef p) | None => mret None end.

(** The text the function adds to the sequence file, and its result. *)
Definition ct_seq_show : M (list Z * Z) :=
  b ← buf_ptr;
  s ← lift (cstr b 0);
  match kstrtoint s with
  | None => mret (s ++ bytes ": pid must be an integer" ++ [10], 0)
  | Some p =>
      ref ← find_get_pid p;
      task ← get_pid_task ref p;
      match task with
      | None => mret (dec p ++ bytes ": no such task" ++ [10], 0)
      | Some h =>
          st ← get_st;
          mret (dec p ++ bytes ":" ++ [10] ++ task_fields (task_of (world st) h), 0)
      end
  end.

Definition ct_seq_write (u : U) (len : Z) : M Z :=
  g ← get_g;
  if decide (len > size_t (COOKIE_BUF_SIZE - write_index g + 1)) then mret (- ENOSPC)
  else
    let '(data, rest) := copy_from_user u len in
    b ← buf_ptr;
    b ← lift (bwrite b (write_index g) data);
    set_g (set_buf b);;
    if decide (rest ≠ 0) then mret (- EFAULT)
    else
      b ← lift (bput b (size_t (len - 1)) 0);
      set_g (set_buf b);;
      mret len.

Definition ct_init : M Z :=
  p ← vmalloc COOKIE_BUF_SIZE;
  set_g (set_cookie_buf p);;
  match p with
  | None => mret (- ENOMEM)
  | Some _ =>
      set_g (set_buf (replicate 4096 0));;
      d ← proc_mkdir "seq_dir" None;
      set_g (set_dir d);;
      match d with
      | None => free_all;; mret (- ENOMEM)
      | Some _ =>
          f ← proc_create "seq_file" 438 d;
          set_g (set_file f);;
          match f with
          | None => free_all;; mret (- ENOMEM)
          | Some _ =>
              l ← proc_symlink "seq_symlink" None "seq_dir/seq_file";
              set_g (set_link l);;
              match l with
              | None => free_all;; mret (- ENOMEM)
              | Some _ => set_g (set_write_index 0);; mret 0
              end
          end
      end
  end.

Definition ct_exit : M unit := free_all.

(** What [ct_seq_show] does when the buffer holds the string [str]. *)
Inductive show_result (w : W) (str : list Z) : list Z → W → Prop :=
  | show_not_int :
      kstrtoint str = None → show_result w str (str ++ bytes ": pid must be an integer" ++ [10]) w
  | show_no_pid p w' :
      kstrtoint str = Some p → held w' = held w →
      show_result w str (dec p ++ bytes ": no such task" ++ [10]) w'
  | show_no_task p hp w' :
      kstrtoint str = Some p → held w !! hp = None → held w' = <[hp := KPidRef p]> (held w) →
      show_result w str (dec p ++ bytes ": no such task" ++ [10]) w'
  | show_task p hp h w' :
      kstrtoint str = Some p → held w !! hp = None → <[hp := KPidRef p]> (held w) !! h = None →
      held w' = <[h := KTaskRef p]> (<[hp := KPidRef p]> (held w)) →
      show_result w str (dec p ++ bytes ":" ++ [10] ++ task_fields (task_of w' h)) w'.
End Module.
