(* ===== verification/SingleFileSpec.v ===== *)
(** * What the single_file module guarantees *)

From S2P Require Import Prelude Kernel TaskInfo SingleFile.
From stdpp Require Import options.
#[local] Set Default Proof Using "Type*".
Local Open Scope Z_scope.
#[local] Arguments replicate : simpl never.

(** The module's pointers to kernel objects. *)
Definition pointers (g : single) : list (option handle) :=
  [seq_file g; seq_dir g; seq_symlink g; cookie_buf g].

Section Write.
Context {W : Type} `{!Kernel W, !KernelLaws W} {U : Type} `{!UserMem U, !UserMemLaws U}.
Implicit Types (g : single) (w : W).

Lemma buf_ok_string g : buf_ok g → ∃ str, cstr (buf g) 0 = Ok str.
Proof.
  intros [_ _ Hnul _]. unfold cstr. simpl. rewrite drop_0.
  destruct (until_nul_in _ Hnul) as [s ->]. by exists s.
Qed.

Lemma ct_seq_write_enter w g (u : U) len :
  buf_ok g → 0 ≤ len ≤ 4097 →
  ct_seq_write u len (KState w g) =
    (let '(data, rest) := copy_from_user u len in
     match bwrite (buf g) 0 data with
     | Fault f => Fault f
     | Ok b =>
         if decide (rest ≠ 0) then Ok (- EFAULT, KState w (set_buf b g))
         else match bput b (size_t (len - 1)) 0 with
              | Fault f => Fault f
              | Ok b' => Ok (len, KState w (set_buf b' (set_buf b g)))
              end
     end).
Proof.
  intros [[h Hptr] _ _ Hi] Hlen. unfold ct_seq_write, mbind, prog_bind, get_g; simpl.
  rewrite Hi, (size_t_small (COOKIE_BUF_SIZE - 0 + 1)) by (unfold COOKIE_BUF_SIZE; lia).
  rewrite decide_False by (unfold COOKIE_BUF_SIZE; lia).
  destruct (copy_from_user u len) as [data rest]. unfold buf_ptr. simpl. rewrite Hptr.
  unfold lift. destruct (bwrite _ _ _); [|done]. simpl. case_decide; [done|].
  unfold mret, prog_ret. by destruct (bput _ _ _).
Qed.

(** A successful write. *)
Lemma ct_seq_write_ok w g (u : U) len d :
  buf_ok g → 1 ≤ len ≤ 4096 → copy_from_user u len = (d, 0) →
  ∃ g', ct_seq_write u len (KState w g) = Ok (len, KState w g') ∧ buf_ok g' ∧
    pointers g' = pointers g ∧ cstr (buf g') 0 = Ok (written d).
Proof.
  intros Hok Hlen Hcopy. rewrite ct_seq_write_enter by (done || lia).
  pose proof (copy_from_user_length u len ltac:(lia)) as Hd. rewrite Hcopy in *. simpl in Hd.
  destruct Hok as [Hptr Hl Hnul Hi].
  assert (buf g = [] ++ take (length d) (buf g) ++ drop (length d) (buf g)) as Hsplit
    by (by rewrite take_drop).
  rewrite Hsplit, (bwrite_app [] _ _ d 0) by (rewrite ?length_take; lia || done).
  rewrite decide_False by lia. rewrite size_t_small by lia.
  rewrite (bput_last []) by (try (simpl; lia); by intros ->; simpl in *; lia).
  eexists. split; [done|]. simpl. split; [|split_and!; try done; apply cstr_written].
  split; simpl; [done|..|set_solver|done].
  rewrite length_app. simpl. rewrite length_drop, removelast_length. lia.
Qed.

Lemma ct_seq_write_nospc w g (u : U) len :
  buf_ok g → 4097 < len → ct_seq_write u len (KState w g) = Ok (- ENOSPC, KState w g).
Proof.
  intros [_ _ _ Hi] Hlen. unfold ct_seq_write, mbind, prog_bind, get_g; simpl.
  rewrite Hi, (size_t_small (COOKIE_BUF_SIZE - 0 + 1)) by (unfold COOKIE_BUF_SIZE; lia).
  by rewrite decide_True by (unfold COOKIE_BUF_SIZE; lia).
Qed.

Lemma ct_seq_write_efault w g (u : U) len :
  buf_ok g → 1 ≤ len ≤ 4096 → (copy_from_user u len).2 ≠ 0 →
  ∃ g', ct_seq_write u len (KState w g) = Ok (- EFAULT, KState w g') ∧ buf_ok g' ∧
    pointers g' = pointers g.
Proof.
  intros Hok Hlen Hr. rewrite ct_seq_write_enter by (done || lia).
  pose proof (copy_from_user_length u len ltac:(lia)) as Hd.
  destruct Hok as [Hptr Hl Hnul Hi].
  destruct (copy_from_user u len) as [d r] eqn:Hcopy. simpl in Hd, Hr.
  apply copy_from_user_rest in Hcopy as [Hrest Hz]; [|lia].
  assert (buf g = [] ++ take (length d) (buf g) ++ drop (length d) (buf g)) as Hsplit
    by (by rewrite take_drop).
  rewrite Hsplit, (bwrite_app [] _ _ d 0) by (rewrite ?length_take; lia || done).
  rewrite decide_True by done. eexists. split; [done|]. split; [|done]. split; simpl; [done|..|done].
  + rewrite length_app, length_drop. lia.
  + apply elem_of_app. left. rewrite <- (take_drop (Z.to_nat (len - r)) d), Hz.
    apply elem_of_app. right. apply elem_of_replicate. lia.
Qed.

(** Writes that are neither empty nor one byte too long return. *)
Lemma ct_seq_write_proper w g (u : U) len :
  buf_ok g → 1 ≤ len ≤ 4096 ∨ 4097 < len →
  ∃ r g', ct_seq_write u len (KState w g) = Ok (r, KState w g') ∧ buf_ok g' ∧
    pointers g' = pointers g.
Proof.
  intros Hok [Hlen|Hlen]; [|eexists _, g; split; [by apply ct_seq_write_nospc|done]].
  destruct (decide ((copy_from_user u len).2 = 0)) as [H0|H0].
  - destruct (copy_from_user u len) as [d r] eqn:Hcopy. simpl in H0. subst r.
    destruct (ct_seq_write_ok w g u len d Hok Hlen Hcopy) as (g' & ? & ? & Hp & _).
    by exists len, g'.
  - destruct (ct_seq_write_efault w g u len Hok Hlen H0) as (g' & ? & ? & ?). by exists (- EFAULT), g'.
Qed.

(** The other branches of a write: more than 4097 bytes are refused; 4097 bytes
    overrun the buffer; an empty write stores out of bounds; after a failed copy
    the buffer still holds a string. *)
Theorem single_write_errors w g (u : U) len :
  buf_ok g → 0 ≤ len →
  (4097 < len → ct_seq_write u len (KState w g) = Ok (- ENOSPC, KState w g)) ∧
  (len = 4097 → ct_seq_write u len (KState w g) = Fault OutOfBounds) ∧
  (len = 0 → (copy_from_user u len).2 = 0 → ct_seq_write u len (KState w g) = Fault OutOfBounds) ∧
  (1 ≤ len ≤ 4096 → (copy_from_user u len).2 ≠ 0 →
    ∃ g', ct_seq_write u len (KState w g) = Ok (- EFAULT, KState w g') ∧ buf_ok g').
Proof.
  intros Hok Hlen. pose proof (copy_from_user_length u len Hlen) as Hd.
  pose proof Hok as [Hptr Hl Hnul Hi]. split_and!.
  - by apply ct_seq_write_nospc.
  - intros. rewrite ct_seq_write_enter by (done || lia).
    destruct (copy_from_user u len) as [d r]. simpl in Hd.
    unfold bwrite. by rewrite decide_False by lia.
  - intros -> Hr. rewrite ct_seq_write_enter by (done || lia).
    destruct (copy_from_user u 0) as [d r]. simpl in Hd, Hr. subst r.
    destruct (bwrite (buf g) 0 d) as [b|f] eqn:Hb.
    + rewrite decide_False by lia. unfold bput. change (size_t (0 - 1)) with (2 ^ 64 - 1).
      apply length_bwrite in Hb. by rewrite decide_False by lia.
    + unfold bwrite in Hb. case_decide; by simplify_eq.
  - intros ? Hr. destruct (ct_seq_write_efault w g u len) as (g' & ? & ? & _); [done..|].
    by exists g'.
Qed.
End Write.

Section Show.
Context {W : Type} `{!Kernel W, !KernelLaws W} {U : Type} `{!UserMem U, !UserMemLaws U}
  (kstrtoint : list Z → option Z) (task_of : W → handle → task_struct).
Implicit Types (g : single) (w : W).
Abbreviation ct_seq_show := (ct_seq_show kstrtoint task_of).
Abbreviation show_result := (show_result kstrtoint task_of).

(** Showing never faults while the buffer holds a string. *)
Lemma ct_seq_show_wp w g str :
  is_Some (cookie_buf g) → cstr (buf g) 0 = Ok str →
  wp ct_seq_show (λ r s, glob s = g ∧ r.2 = 0 ∧ show_result w str r.1 (world s)) (KState w g).
Proof.
  intros [h Hptr] Hstr. unfold SingleFile.ct_seq_show. apply wp_bind.
  eapply wp_Ok; [unfold buf_ptr; simpl; by rewrite Hptr|].
  apply wp_bind. eapply wp_lift; [done|].
  destruct (kstrtoint str) as [p|] eqn:Hp; [|apply wp_ret; simpl; by split_and!; [..|constructor]].
  unfold find_get_pid, get_pid_task. wp_steps; [| |simpl].
  - apply wp_get_st. wp_steps. simpl. split_and!; [done|done|].
    eapply show_task; [done|by eapply ff_new| |congruence].
    replace (<[h0 := _]> _) with (held w') by done. by eapply ff_new.
  - simpl. split_and!; [done|done|]. eapply show_no_task; [done|by eapply ff_new|done].
  - split_and!; [done|done|]. by eapply show_no_pid.
Qed.

(** C7: after a write of [len] bytes, a read shows what the written string asks
    for: the task of that pid, that there is none, or that it is not a number; a
    pid and a task that are found stay referenced. *)
Theorem single_write_then_show w g (u : U) len d :
  buf_ok g → 1 ≤ len ≤ 4096 → copy_from_user u len = (d, 0) →
  ∃ s1 text s2,
    ct_seq_write u len (KState w g) = Ok (len, s1) ∧ world s1 = w ∧
    ct_seq_show s1 = Ok ((text, 0), s2) ∧ glob s2 = glob s1 ∧ buf_ok (glob s2) ∧
    show_result w (written d) text (world s2).
Proof.
  intros Hok Hlen Hcopy.
  destruct (ct_seq_write_ok w g u len d Hok Hlen Hcopy) as (g' & Hw & Hok' & _ & Hs).
  destruct (ct_seq_show_wp w g' (written d)) as ([text r] & s2 & Hsh & Hg & Hr & Hres);
    [apply Hok'|done|]. simpl in *. subst r.
  exists (KState w g'), text, s2. by rewrite Hg.
Qed.

End Show.

(** ** The life cycle *)

Section Life.
Context {W : Type} `{!Kernel W, !KernelLaws W} {U : Type} `{!UserMem U, !UserMemLaws U}
  (kstrtoint : list Z → option Z) (task_of : W → handle → task_struct).
Implicit Types (g : single) (w : W).

Inductive file_op := OpWrite (u : U) (len : Z) | OpShow.

(** Writes that are neither empty nor one byte too long. *)
Definition proper (o : file_op) : Prop :=
  match o with OpWrite _ len => 1 ≤ len ≤ 4096 ∨ 4097 < len | OpShow => True end.

Definition run_op (o : file_op) : prog (kstate W single) unit :=
  match o with
  | OpWrite u len => ct_seq_write u len;; mret tt
  | OpShow => ct_seq_show kstrtoint task_of;; mret tt
  end.

Fixpoint run_ops (os : list file_op) : prog (kstate W single) unit :=
  match os with
  | [] => mret tt
  | o :: os => run_op o;; run_ops os
  end.

Definition is_ref (o : kobj) : Prop :=
  match o with KPidRef _ | KTaskRef _ => True | _ => False end.

Definition loaded (m : gmap handle kobj) g (mh : gmap handle kobj) : Prop :=
  ∃ hp hd hf hl, pointers g = [Some hf; Some hd; Some hl; Some hp] ∧ m !! hp = None ∧
    proc_tree "seq_dir" "seq_file" 438 "seq_symlink" "seq_dir/seq_file"
      (<[hp := KVmalloc COOKIE_BUF_SIZE]> m) hd hf hl mh.

(** The state between loading and unloading: besides the module's own objects,
    only references taken by reads have been added to [m]. *)
Definition live (m : gmap handle kobj) g (mh : gmap handle kobj) : Prop :=
  buf_ok g ∧ ∃ refs, map_Forall (λ _, is_ref) refs ∧ refs ##ₘ m ∧ loaded (refs ∪ m) g mh.

Lemma loaded_insert m g mh h o :
  loaded m g mh → mh !! h = None → standalone o →
  m !! h = None ∧ loaded (<[h := o]> m) g (<[h := o]> mh).
Proof.
  intros (hp & hd & hf & hl & Hp & Hm & Ht) Hh Ho.
  assert (m !! h = None ∧ hp ≠ h) as [Hmh Hne].
  { destruct Ht as (_ & _ & _ & Hheld). rewrite Hheld in Hh.
    do 4 apply lookup_insert_None in Hh as [Hh ?]. done. }
  split; [done|]. exists hp, hd, hf, hl. split; [done|].
  split; [by rewrite lookup_insert_ne|]. rewrite insert_insert_ne by done.
  by apply proc_tree_insert.
Qed.

Lemma live_ref m g mh h o :
  live m g mh → mh !! h = None → is_ref o → live m g (<[h := o]> mh).
Proof.
  intros (Hok & refs & Hrefs & Hdisj & Hl) Hh Href. split; [done|].
  assert (standalone o) as Ho by (by destruct o).
  destruct (loaded_insert _ _ _ _ _ Hl Hh Ho) as [[Hr Hm]%lookup_union_None Hl'].
  exists (<[h := o]> refs). split; [by apply map_Forall_insert_2|].
  split; [by apply map_disjoint_insert_l_2|]. by rewrite <- insert_union_l.
Qed.

Lemma live_pointers m g g' mh :
  live m g mh → buf_ok g' → pointers g' = pointers g → live m g' mh.
Proof.
  intros (_ & refs & Hrefs & Hdisj & hp & hd & hf & hl & Hp & Hl) Hok Hg.
  split; [done|]. exists refs. split; [done|]. split; [done|].
  exists hp, hd, hf, hl. by rewrite Hg.
Qed.

Lemma run_op_live m o w g :
  proper o → live m g (held w) →
  wp (run_op o) (λ _ s, live m (glob s) (held (world s))) (KState w g).
Proof.
  intros Hproper Hlive. pose proof (proj1 Hlive : buf_ok g) as Hok.
  destruct o as [u len|]; simpl; apply wp_bind.
  - destruct (ct_seq_write_proper w g u len Hok Hproper) as (r & g' & Hr & Hok' & Hp).
    eapply wp_Ok; [done|]. apply wp_ret. by eapply live_pointers.
  - destruct (buf_ok_string g Hok) as [str Hstr].
    eapply wp_mono; [by apply (ct_seq_show_wp kstrtoint task_of w g str); [apply Hok|]|].
    intros [text r] [w' g'] (Hg & _ & Hres). apply wp_ret. simpl in *. subst g'.
    destruct Hres as [|p w' _ ->|p hp w' _ Hn ->|p hp h w' _ Hn Hn' ->]; repeat (done || apply live_ref).
Qed.

Lemma run_ops_live m os w g :
  Forall proper os → live m g (held w) →
  wp (run_ops os) (λ _ s, live m (glob s) (held (world s))) (KState w g).
Proof.
  intros Hos. revert w g. induction Hos as [|o os Ho Hos IH]; intros w g Hl; simpl.
  - by apply wp_ret.
  - apply wp_bind. eapply wp_mono; [by apply run_op_live|]. intros [] [w' g'] Hl'. by apply IH.
Qed.

Lemma single_init_wp w :
  wp ct_init (λ r s,
    (r = 0 ∧ live (held w) (glob s) (held (world s))) ∨
    (r = - ENOMEM ∧ held (world s) = held w)) (KState w unloaded).
Proof.
  unfold ct_init, vmalloc, proc_mkdir, proc_create, proc_symlink, free_all.
  wp_steps; simpl in *; try (by right; split).
  left. split; [done|]. split.
  - split; simpl; try done. apply elem_of_replicate. lia.
  - exists ∅. split; [apply map_Forall_empty|]. split; [apply map_disjoint_empty_l|].
    rewrite map_empty_union. eexists _, _, _, _. simpl. split; [done|].
    split; [by eapply ff_new|]. split_and!; congruence.
Qed.

Lemma single_exit_wp m w g :
  live m g (held w) →
  wp ct_exit (λ _ s, ∃ refs, map_Forall (λ _, is_ref) refs ∧ refs ##ₘ m ∧
    held (world s) = refs ∪ m) (KState w g).
Proof.
  intros (_ & refs & Hrefs & Hdisj & hp & hd & hf & hl & Hp & Hm & Hd & Hf & Hl & Hheld).
  unfold pointers in Hp. injection Hp as Hgf Hgd Hgl Hgp.
  unfold ct_exit, free_all. apply wp_bind, wp_get_g. rewrite Hgf, Hgd, Hgl, Hgp.
  wp_steps. eapply wp_release_last; [eassumption|done|done|]. intros. by exists refs.
Qed.
End Life.

(** Loading fails with -ENOMEM leaving nothing behind, or succeeds; then any
    sequence of reads and proper writes runs without a fault, and unloading
    leaves what was held before and only references to pids and tasks that reads
    have taken. *)
Theorem single_life_cycle
    {W : Type} `{!Kernel W, !KernelLaws W} {U : Type} `{!UserMem U, !UserMemLaws U}
    (kstrtoint : list Z → option Z) (task_of : W → handle → task_struct) (w : W) :
  ∃ r s, ct_init (KState w unloaded) = Ok (r, s) ∧
    (r = - ENOMEM ∧ held (world s) = held w ∨
     r = 0 ∧ ∀ os : list (@file_op U), Forall proper os →
       ∃ s1 s2 refs, run_ops kstrtoint task_of os s = Ok (tt, s1) ∧
         ct_exit s1 = Ok (tt, s2) ∧
         held (world s2) = refs ∪ held w ∧ map_Forall (λ _, is_ref) refs).
Proof.
  destruct (single_init_wp task_of w) as (r & s & Hi & Hr). exists r, s. split; [done|].
  destruct Hr as [[-> Hl]|Hr]; [right|by left]. split; [done|]. intros os Hos.
  destruct s as [w1 g1].
  destruct (run_ops_live kstrtoint task_of _ os _ _ Hos Hl) as ([] & [w2 g2] & Hrun & Hl2).
  destruct (single_exit_wp task_of _ _ _ Hl2) as ([] & s3 & He & refs & Hrefs & _ & Hh).
  by exists (KState w2 g2), s3, refs.
Qed.

(** ** The theorems at work *)

(** A parser of one decimal digit, and a kernel whose only task is [init_task]. *)
Definition parse_digit (l : list Z) : option Z :=
  match l with [d] => if decide (48 ≤ d < 58) then Some (d - 48) else None | _ => None end.
Definition some_task (w : ledger) (h : handle) : task_struct := init_task.

Definition sample : single :=
  Single (Some 2%positive) (Some 3%positive) (Some 4%positive) (Some 1%positive)
    (replicate 4096 0) 0.

Lemma single_sample_ok : buf_ok sample.
Proof. split; simpl; try done. apply elem_of_replicate. lia. Qed.

Lemma single_write_then_show_witness :
  ∃ s1 text s2,
    ct_seq_write [55; 10] 2 (KState (Ledger ∅ 0 []) sample) = Ok (2, s1) ∧ 
    ct_seq_show parse_digit some_task s1 = Ok ((text, 0), s2) ∧
    written [55; 10] = [55].
Proof.
  assert (copy_from_user [55; 10] 2 = ([55; 10], 0)) as Hcopy by reflexivity.
  destruct (single_write_then_show parse_digit some_task (Ledger ∅ 0 []) sample [55; 10] 2 [55; 10]
    single_sample_ok ltac:(lia) Hcopy) as (s1 & text & s2 & Hw & _ & Hs & _).
  exists s1, text, s2. by split_and!.
Defined.

Lemma single_write_errors_witness :
  ct_seq_write (replicate 5000 1) 4097 (KState (Ledger ∅ 0 []) sample) = Fault OutOfBounds ∧
  ct_seq_write [1] 0 (KState (Ledger ∅ 0 []) sample) = Fault OutOfBounds.
Proof.
  split.
  - exact (proj1 (proj2 (single_write_errors (Ledger ∅ 0 []) sample (replicate 5000 1) 4097
      single_sample_ok ltac:(lia))) eq_refl).
  - exact (proj1 (proj2 (proj2 (single_write_errors (Ledger ∅ 0 []) sample [1] 0
      single_sample_ok ltac:(lia)))) eq_refl eq_refl).
Defined.

Lemma single_life_cycle_witness :
  ∃ r s, ct_init (KState (Ledger ∅ 0 []) unloaded) = Ok (r, s) ∧
    (r = - ENOMEM ∧ l_held (world s) = ∅ ∨
     r = 0 ∧ ∀ os : list (@file_op (list Z)), Forall proper os →
       ∃ s1 s2 refs, run_ops parse_digit some_task os s = Ok (tt, s1) ∧
         ct_exit s1 = Ok (tt, s2) ∧
         l_held (world s2) = refs ∪ ∅ ∧ map_Forall (λ _, is_ref) refs).
Proof. exact (single_life_cycle parse_digit some_task (Ledger ∅ 0 [])). Defined.

(** A read that finds its task leaves two references behind. *)
Example single_leaks :
  (λ x : outcome (Z * kstate ledger single), match x with
     | Ok (_, s) => match (run_ops parse_digit some_task [OpWrite [55; 10] 2; OpShow];; ct_exit) s with
                    | Ok (_, s) => Some (snd <$> map_to_list (l_held (world s)))
                    | _ => None end
     | _ => None end) (ct_init (KState (Ledger ∅ 0 []) unloaded))
  = Some [KPidRef 7; KTaskRef 7].
Proof. vm_compute. reflexivity. Qed.
