(* ===== verification/SingleRace.v ===== *)
(** * The handlers of the single_file module, running at the same time (6/seq_files/single_file.c)

    Two processes can be inside [ct_seq_write] and [ct_seq_show] at once: the actions are
    the accesses to the module's buffer and the calls of the kernel. *)

From S2P Require Import Prelude Interleave Kernel TaskInfo SingleFile SingleFileSpec.
From stdpp Require Import options.
#[local] Set Default Proof Using "Type*".
Local Open Scope Z_scope.
#[local] Arguments replicate : simpl never.
#[local] Arguments size_t : simpl never.
#[local] Arguments cstr : simpl never.
#[local] Arguments bwrite : simpl never.
#[local] Arguments bput : simpl never.
#[local] Arguments bytes : simpl never.
#[local] Arguments task_fields : simpl never.
#[local] Arguments dec : simpl never.

(** Where a call of [ct_seq_write] is. *)
Inductive wpc :=
  | WCheck                (* if (len > COOKIE_BUF_SIZE - write_index + 1) *)
  | WCopy                 (* copy_from_user(&cookie_buf[write_index], buf, len) *)
  | WTerm                 (* cookie_buf[len - 1] = 0 *)
  | WReturn (r : Z).

(** Where a call of [ct_seq_show] is. *)
Inductive spc :=
  | SParse                                    (* kstrtoint(cookie_buf, 0, &pid) *)
  | SNotInt                                   (* seq_printf(s, "%s: ..", cookie_buf) *)
  | SFind (p : Z)                             (* find_get_pid((pid_t)pid) *)
  | STask (p : Z) (ref : option handle)       (* get_pid_task(.., PIDTYPE_PID) *)
  | SFields (p : Z) (task : handle)           (* seq_printf(s, "%d:\n..", pid, ..) *)
  | SReturn (text : list Z).

Section Calls.
Context {W : Type} `{!Kernel W} {U : Type} `{!UserMem U}
  (kstrtoint : list Z → option Z) (task_of : W → handle → task_struct).
Abbreviation M := (prog (kstate W single)).

Definition write_step (u : U) (len : Z) (pc : wpc) : option (M wpc) :=
  match pc with
  | WCheck => Some (
      g ← get_g;
      mret (if decide (len > size_t (COOKIE_BUF_SIZE - write_index g + 1)) then WReturn (- ENOSPC) else WCopy))
  | WCopy => Some (
      g ← get_g;
      let '(data, rest) := copy_from_user u len in
      b ← buf_ptr;
      b ← lift (bwrite b (write_index g) data);
      set_g (set_buf b);;
      mret (if decide (rest ≠ 0) then WReturn (- EFAULT) else WTerm))
  | WTerm => Some (
      b ← buf_ptr;
      b ← lift (bput b (size_t (len - 1)) 0);
      set_g (set_buf b);;
      mret (WReturn len))
  | WReturn _ => None
  end.

Definition show_step (pc : spc) : option (M spc) :=
  match pc with
  | SParse => Some (
      b ← buf_ptr;
      s ← lift (cstr b 0);
      mret (match kstrtoint s with None => SNotInt | Some p => SFind p end))
  | SNotInt => Some (
      b ← buf_ptr;
      s ← lift (cstr b 0);
      mret (SReturn (s ++ bytes ": pid must be an integer" ++ [10])))
  | SFind p => Some (ref ← find_get_pid p; mret (STask p ref))
  | STask p ref => Some (
      task ← get_pid_task ref p;
      mret (match task with
            | None => SReturn (dec p ++ bytes ": no such task" ++ [10])
            | Some h => SFields p h
            end))
  | SFields p h => Some (
      st ← get_st;
      mret (SReturn (dec p ++ bytes ":" ++ [10] ++ task_fields (task_of (world st) h))))
  | SReturn _ => None
  end.
End Calls.

(** A call in progress. *)
Inductive call (U : Type) := Write (u : U) (len : Z) (pc : wpc) | Show (pc : spc).
Arguments Write {U} _ _ _.
Arguments Show {U} _.

Ltac run_calls :=
  repeat (progress (simpl; unfold call_step, mbind, option_bind, prog_bind, get_g, set_g, get_st, lift, mret, prog_ret; simpl)).

Section Race.
Context {W : Type} `{!Kernel W, !KernelLaws W} {U : Type} `{!UserMem U, !UserMemLaws U}
  (kstrtoint : list Z → option Z) (task_of : W → handle → task_struct).
Implicit Types (g : single) (w : W) (c : call U).

Definition single_step c : option (prog (kstate W single) (call U)) :=
  match c with
  | Write u len pc => m ← write_step u len pc; Some (pc' ← m; mret (Write u len pc'))
  | Show pc => m ← show_step kstrtoint task_of pc; Some (pc' ← m; mret (Show pc'))
  end.
#[local] Instance single_actions : Actions (call U) (kstate W single) := single_step.

(** ** One call alone *)

(** When nobody else runs, a call does what its handler does, faults included. *)
Theorem single_calls_alone (u : U) len s :
  alone 3 (Write u len WCheck : call U) s =
    match SingleFile.ct_seq_write u len s with
    | Ok (r, s') => Ok (Write u len (WReturn r), s') | Fault f => Fault f end ∧
  alone 4 (Show SParse : call U) s =
    match SingleFile.ct_seq_show kstrtoint task_of s with
    | Ok ((text, _), s') => Ok (Show (SReturn text), s') | Fault f => Fault f end.
Proof.
  split.
  - unfold SingleFile.ct_seq_write.
    repeat (simpl; unfold call_step, single_actions, mbind, prog_bind, get_g, set_g, lift, buf_ptr, mret, prog_ret;
      simpl; try case_match; simplify_eq/=); done.
  - unfold SingleFile.ct_seq_show. run_calls. unfold buf_ptr.
    destruct (cookie_buf (glob s)) eqn:Hb; [|done]. run_calls. destruct (cstr (buf (glob s)) 0) eqn:Hc; [|done]. run_calls.
    destruct (kstrtoint _) as [p|]; run_calls.
    + destruct (find_get_pid p s) as [[ref s1]|]; [|done]. run_calls.
      by destruct (get_pid_task ref p s1) as [[[t|] s2]|]; run_calls.
    + unfold buf_ptr. by rewrite Hb; run_calls; rewrite Hc.
Qed.

(** ** Any number of calls *)

(** The last byte of the buffer is never written: a string in it always ends. *)
Record buf_sound g : Prop := {
  bs_ptr : is_Some (cookie_buf g);
  bs_len : length (buf g) = 4096%nat;
  bs_last : buf g !! 4095%nat = Some 0;
  bs_index : write_index g = 0
}.

Definition remaining c : nat :=
  match c with
  | Write _ _ WCheck => 3 | Write _ _ WCopy => 2 | Write _ _ WTerm => 1 | Write _ _ (WReturn _) => 0
  | Show SParse => 4 | Show (SFind _) => 3 | Show (STask _ _) => 2
  | Show SNotInt | Show (SFields _ _) => 1 | Show (SReturn _) => 0
  end.

(** Neither empty nor longer than 4095 bytes, unless it is refused. *)
Definition short (len : Z) : Prop := 1 ≤ len ≤ 4095 ∨ 4097 < len.

Definition starting c : Prop :=
  match c with Write _ len pc => pc = WCheck ∧ short len | Show pc => pc = SParse end.

Definition call_ok c : Prop :=
  match c with
  | Write _ len pc => short len ∧
      match pc with
      | WCheck => True
      | WCopy | WTerm => len ≤ 4095
      | WReturn r => r = len ∨ r = - EFAULT ∨ (r = - ENOSPC ∧ 4097 < len)
      end
  | Show _ => True
  end.

Lemma single_wp_buf_ptr w g (Q : list Z → kstate W single → Prop) :
  is_Some (cookie_buf g) → Q (buf g) (KState w g) → wp buf_ptr Q (KState w g).
Proof. intros [h Hh] HQ. eapply wp_Ok; [|exact HQ]. unfold buf_ptr. simpl. by rewrite Hh. Qed.

Lemma single_write_action u len pc m w g :
  buf_sound g → call_ok (Write u len pc) → write_step u len pc = Some m →
  wp m (λ pc' s, buf_sound (glob s) ∧ call_ok (Write u len pc') ∧
    (remaining (Write u len pc') < remaining (Write u len pc))%nat) (KState w g).
Proof.
  intros Hs [Hshort Hpc] Hm. pose proof Hs as [Hptr Hlen Hlast Hi].
  destruct pc as [| | |r]; simpl in Hm, Hpc |- *; unfold short in *; simplify_eq.
  - apply wp_bind, wp_get_g, wp_ret. rewrite Hi, size_t_small by (unfold COOKIE_BUF_SIZE; lia).
    unfold COOKIE_BUF_SIZE. case_decide; split_and!; auto; lia.
  - apply wp_bind, wp_get_g. pose proof (copy_from_user_length u len ltac:(lia)) as Hd.
    destruct (copy_from_user u len) as [d rest]. simpl in Hd. apply wp_bind, single_wp_buf_ptr; [done|].
    destruct (bwrite_below (buf g) (write_index g) d 4095) as (b & Hb & Hl & Hk); [lia..|].
    apply wp_bind. eapply wp_lift; [exact Hb|]. apply wp_bind, wp_set_g, wp_ret.
    case_decide; split_and!; try split; simpl; auto; try congruence; lia.
  - apply wp_bind, single_wp_buf_ptr; [done|]. rewrite size_t_small by lia.
    apply wp_bind. unfold bput. rewrite decide_True by lia. eapply wp_lift; [done|].
    apply wp_bind, wp_set_g, wp_ret. split_and!; try split; simpl; rewrite ?length_insert; auto; try lia.
    by rewrite list_lookup_insert_ne by lia.
Qed.

Lemma single_show_action pc m w g :
  buf_sound g → show_step kstrtoint task_of pc = Some m →
  wp m (λ pc' s, buf_sound (glob s) ∧ (remaining (Show pc') < remaining (Show pc))%nat) (KState w g).
Proof.
  intros Hs Hm. pose proof Hs as [Hptr Hlen Hlast Hi].
  destruct (cstr_zero (buf g) 4095 0 Hlast ltac:(lia)) as (str & Hstr & _).
  destruct pc as [| |p|p ref|p h|text]; simpl in Hm; simplify_eq; apply wp_bind.
  - apply single_wp_buf_ptr; [done|]. apply wp_bind. eapply wp_lift; [exact Hstr|]. apply wp_ret.
    destruct (kstrtoint str); split; simpl; (done || lia).
  - apply single_wp_buf_ptr; [done|]. apply wp_bind. eapply wp_lift; [exact Hstr|]. apply wp_ret.
    split; simpl; (done || lia).
  - unfold find_get_pid. apply wp_alloc; intros; apply wp_ret; split; simpl; (done || lia).
  - unfold get_pid_task. destruct ref; [apply wp_alloc; intros|apply wp_ret]; apply wp_ret; split; simpl; (done || lia).
  - apply wp_get_st, wp_ret. split; simpl; (done || lia).
Qed.

Lemma single_kept :
  kept remaining (λ (cs : list (call U)) (s : kstate W single), buf_sound (glob s) ∧ Forall call_ok cs).
Proof.
  intros i cs [w g] c m [Hs Hcs] Hi Hm. pose proof (Forall_lookup_1 _ _ _ _ Hcs Hi) as Hc.
  destruct c as [u len pc|pc]; unfold call_step, single_actions, single_step in Hm.
  - destruct (write_step u len pc) as [m'|] eqn:Hstep; [|done]. simpl in Hm. simplify_eq. apply wp_bind.
    eapply wp_mono; [by eapply single_write_action|]. intros pc' s (Hs' & Hc' & Hr). apply wp_ret.
    split_and!; [done|by apply Forall_insert|done].
  - destruct (show_step kstrtoint task_of pc) as [m'|] eqn:Hstep; [|done]. simpl in Hm. simplify_eq. apply wp_bind.
    eapply wp_mono; [by eapply single_show_action|]. intros pc' s (Hs' & Hr). apply wp_ret.
    split_and!; [done|by apply Forall_insert|done].
Qed.

(** Any number of writes and shows running at the same time, no write being empty or
    4096 or 4097 bytes long: in no interleaving does an action fault, a write returns its
    length, -EFAULT or, when it is too long, -ENOSPC, and within four actions per call all of
    them have returned. *)
Theorem single_calls_safe cs w g n x :
  Forall starting cs → buf_sound g → nsteps step n (Calls cs (KState w g)) x →
  ∃ cs' s', x = Calls cs' s' ∧ (n ≤ 4 * length cs)%nat ∧ buf_sound (glob s') ∧
    (∀ i u len r, cs' !! i = Some (Write u len (WReturn r)) →
      r = len ∨ r = - EFAULT ∨ (r = - ENOSPC ∧ 4097 < len)) ∧
    ((∀ y, ¬ step x y) → Forall (λ c, call_step c = None) cs').
Proof.
  intros Hst Hs Hsteps. assert (work remaining cs ≤ 4 * length cs)%nat as Hwork
    by (apply work_bound; intros [? ? []|[]]; simpl; lia).
  assert (Forall call_ok cs) as Hcs.
  { eapply Forall_impl; [exact Hst|]. intros [u len pc|pc]; simpl; [|done]. by intros [-> ?]. }
  destruct (kept_steps remaining _ n cs (KState w g) x single_kept (conj Hs Hcs) Hsteps)
    as (cs' & s' & -> & [Hs' Hcs'] & Hn & Hend).
  exists cs', s'. split_and!; [done|lia|done| |done]. intros i u len r Hi.
  by apply (Forall_lookup_1 _ _ _ _ Hcs') in Hi as [_ ?].
Qed.

(** ** What may happen otherwise *)

Section Writer.
Context (u : U) (len : Z).

Lemma single_does_check w g :
  write_index g = 0 → 0 ≤ len ≤ 4096 →
  does (Write u len WCheck) (KState w g) (Write u len WCopy) (KState w g).
Proof.
  intros Hi Hlen. eexists. split; [done|]. unfold mbind, prog_bind, get_g. simpl. rewrite Hi.
  rewrite size_t_small by (unfold COOKIE_BUF_SIZE; lia). by rewrite decide_False by (unfold COOKIE_BUF_SIZE; lia).
Qed.

Lemma single_does_copy w g d b :
  is_Some (cookie_buf g) → copy_from_user u len = (d, 0) → bwrite (buf g) (write_index g) d = Ok b →
  does (Write u len WCopy) (KState w g) (Write u len WTerm) (KState w (set_buf b g)).
Proof.
  intros [h Hh] Hc Hb. eexists. split; [done|]. unfold mbind, prog_bind, get_g, buf_ptr, lift, set_g. simpl.
  rewrite Hc. simpl. rewrite Hh. simpl. by rewrite Hb.
Qed.

Lemma single_does_term w g b :
  is_Some (cookie_buf g) → bput (buf g) (size_t (len - 1)) 0 = Ok b →
  does (Write u len WTerm) (KState w g) (Write u len (WReturn len)) (KState w (set_buf b g)).
Proof.
  intros [h Hh] Hb. eexists. split; [done|]. unfold mbind, prog_bind, buf_ptr, lift, set_g. simpl.
  rewrite Hh. simpl. by rewrite Hb.
Qed.
End Writer.

(** The bytes of two writes on top of each other, both of them terminated. *)
Lemma two_texts b d1 d2 :
  length b = 4096%nat → (0 < length d2 < length d1)%nat → (length d1 ≤ 4096)%nat →
  ∃ b1 b2 b3 b4, bwrite b 0 d2 = Ok b1 ∧ bwrite b1 0 d1 = Ok b2 ∧
    bput b2 (Z.of_nat (length d1) - 1) 0 = Ok b3 ∧ bput b3 (Z.of_nat (length d2) - 1) 0 = Ok b4 ∧
    cstr b4 0 = Ok (written (take (length d2) d1)).
Proof.
  intros Hb Hd Hd1. set (l := length d2) in *.
  assert (∀ b d, length b = 4096%nat → (length d ≤ 4096)%nat → ∃ b', bwrite b 0 d = Ok b' ∧
    b' = [] ++ d ++ drop (length d) b ∧ length b' = 4096%nat) as Hwrite.
  { intros c d Hc Hle. exists ([] ++ d ++ drop (length d) c). split.
    - pose proof (take_drop (length d) c) as Ht. rewrite <- Ht at 1.
      apply (bwrite_app [] (take (length d) c) _ d 0); [done|rewrite length_take; lia].
    - split; [done|]. rewrite !length_app, length_drop. simpl. lia. }
  destruct (Hwrite b d2) as (b1 & Hb1 & _ & Hl1); [done|unfold l in *; lia|].
  destruct (Hwrite b1 d1) as (b2 & Hb2 & E & _); [done..|].
  exists b1, b2. do 2 eexists. split; [done|]. split; [done|]. subst b2.
  split; [apply bput_last; [by intros ->; simpl in *; lia|simpl; lia]|].
  assert (drop l d1 ≠ []) as Hne by (intros He; apply (f_equal length) in He; rewrite length_drop in He; simpl in He; lia).
  assert (removelast d1 = take l d1 ++ removelast (drop l d1)) as ->
    by (rewrite <- (removelast_app _ Hne); by rewrite take_drop).
  rewrite <- (assoc app). split.
  - apply bput_last; [|rewrite length_take; simpl; lia].
    intros He; apply (f_equal length) in He; rewrite length_take in He; simpl in He; lia.
  - apply cstr_written.
Qed.

(** C31: what calls at the same time can do otherwise. A show that comes between the two
    stores of a write of 4096 bytes runs off the end of the buffer. Two writes leave a text that
    neither of them wrote: the start of the longer one, cut where the shorter one ends. *)
Theorem single_calls_race w g (u1 u2 : U) l1 l2 d1 d2 :
  buf_ok g → copy_from_user u1 l1 = (d1, 0) → copy_from_user u2 l2 = (d2, 0) → 1 ≤ l2 < l1 → l1 ≤ 4096 →
  (l1 = 4096 → Forall (λ x, x ≠ 0) d1 →
    schedule [0; 0; 1]%nat [Write u1 l1 WCheck; Show SParse] (KState w g) = Some (Crashed OutOfBounds)) ∧
  ∃ g', schedule [0; 1; 1; 0; 0; 1]%nat [Write u1 l1 WCheck; Write u2 l2 WCheck] (KState w g) =
      Some (Calls [Write u1 l1 (WReturn l1); Write u2 l2 (WReturn l2)] (KState w g')) ∧
    cstr (buf g') 0 = Ok (written (take (Z.to_nat l2) d1)).
Proof.
  intros [Hptr Hlen _ Hi] Hc1 Hc2 Hl2 Hl1.
  pose proof (copy_from_user_length u1 l1 ltac:(lia)) as Hd1. rewrite Hc1 in Hd1. simpl in Hd1.
  pose proof (copy_from_user_length u2 l2 ltac:(lia)) as Hd2. rewrite Hc2 in Hd2. simpl in Hd2.
  split.
  - intros Hfull Hnz. assert (bwrite (buf g) (write_index g) d1 = Ok d1) as Hb.
    { rewrite Hi. replace (buf g) with ([] ++ buf g ++ []) by (by rewrite app_nil_r).
      rewrite (bwrite_app [] (buf g) [] d1 0) by (done || lia). by rewrite app_nil_r. }
    erewrite schedule_step by (done || by apply single_does_check; [|lia]). simpl list_insert.
    erewrite schedule_step by (done || by eapply single_does_copy). destruct Hptr as [h Hh].
    eapply schedule_fault; [done|done|]. unfold mbind, prog_bind, buf_ptr, lift. simpl. rewrite Hh. simpl.
    assert (until_nul d1 = None) as Hn by (clear - Hnz; induction Hnz as [|x d Hx _ IH]; simpl; [done|by rewrite decide_False, IH]).
    unfold cstr. simpl. by rewrite drop_0, Hn.
  - destruct (two_texts (buf g) d1 d2 Hlen ltac:(lia) ltac:(lia)) as (b1 & b2 & b3 & b4 & H1 & H2 & H3 & H4 & Hs).
    replace (Z.of_nat (length d1) - 1) with (size_t (l1 - 1)) in H3 by (rewrite size_t_small; lia).
    replace (Z.of_nat (length d2) - 1) with (size_t (l2 - 1)) in H4 by (rewrite size_t_small; lia).
    rewrite Hd2 in Hs.
    do 2 erewrite schedule_step by (done || by apply single_does_check; [|lia]).
    erewrite schedule_step by (done || by eapply single_does_copy; [..|rewrite Hi; exact H1]).
    erewrite schedule_step by (done || by eapply single_does_copy; [..|simpl; rewrite Hi; exact H2]).
    erewrite schedule_step by (done || by eapply single_does_term; [|exact H3]).
    erewrite schedule_step by (done || by eapply single_does_term; [|exact H4]).
    eexists. split; [done|]. exact Hs.
Qed.
End Race.

(** ** The theorems at work *)

(** "12" and "3" are written at the same time, and the file shows the task of pid 1. *)
Lemma single_calls_race_witness :
  ∃ g', schedule (Actions0 := single_actions parse_digit some_task) [0; 1; 1; 0; 0; 1]%nat
      [Write [49; 50; 10] 3 WCheck; Write [51; 10] 2 WCheck] (KState (Ledger ∅ 0 []) sample) =
      Some (Calls [Write [49; 50; 10] 3 (WReturn 3); Write [51; 10] 2 (WReturn 2)] (KState (Ledger ∅ 0 []) g')) ∧
    cstr (buf g') 0 = Ok [49].
Proof.
  exact (proj2 (single_calls_race parse_digit some_task (Ledger ∅ 0 []) sample [49; 50; 10] [51; 10] 3 2
    [49; 50; 10] [51; 10] single_sample_ok eq_refl eq_refl ltac:(lia) ltac:(lia))).
Defined.

Definition three_calls : list (call (list Z)) :=
  [Write [49; 50; 10] 3 WCheck; Show SParse; Write [51; 10] 2 WCheck].

Lemma single_calls_safe_witness :
  let _ : Actions (call (list Z)) (kstate ledger single) := single_actions parse_digit some_task in
  ∃ x, schedule [0; 1; 2; 0; 1; 2; 0; 2]%nat three_calls (KState (Ledger ∅ 0 []) sample) = Some x ∧
  ∃ cs' s', x = Calls cs' s' ∧ (8 ≤ 4 * 3)%nat ∧ buf_sound (glob s') ∧
    (∀ i u len r, cs' !! i = Some (Write u len (WReturn r)) →
      r = len ∨ r = - EFAULT ∨ (r = - ENOSPC ∧ 4097 < len)) ∧
    ((∀ y, ¬ step x y) → Forall (λ c, call_step c = None) cs').
Proof.
  intros H.
  destruct (schedule [0; 1; 2; 0; 1; 2; 0; 2]%nat three_calls (KState (Ledger ∅ 0 []) sample)) as [x|] eqn:Hx;
    [|exfalso; revert Hx; vm_compute; discriminate].
  exists x. split; [reflexivity|].
  apply (single_calls_safe parse_digit some_task three_calls (Ledger ∅ 0 []) sample 8 x);
    [|split; [by eexists|..]; vm_compute; reflexivity|by apply schedule_nsteps in Hx].
  clear Hx. repeat constructor; simpl; unfold short; lia.
Defined.
