(* ===== verification/SeqFile.v ===== *)
(** * The seq_file module (6/seq_files/seq_file.c)

    /proc/seq_dir/seq_file shows the current task through an iterator of one
    element, whose position lives in a kmalloc'ed cell. *)

From S2P Require Import Prelude Kernel TaskInfo.
From stdpp Require Import options.
#[local] Set Default Proof Using "Type*".
Local Open Scope Z_scope.

Definition ENOMEM : Z := 12.
Definition limit : Z := 1.

(** [cells] is the memory of the allocated positions. *)
Record seqst := SeqSt {
  seq_dir : option handle;
  seq_file : option handle;
  seq_symlink : option handle;
  cells : gmap handle Z
}.

Definition set_dir v g := SeqSt v (seq_file g) (seq_symlink g) (cells g).
Definition set_file v g := SeqSt (seq_dir g) v (seq_symlink g) (cells g).
Definition set_link v g := SeqSt (seq_dir g) (seq_file g) v (cells g).
Definition set_cell h v g := SeqSt (seq_dir g) (seq_file g) (seq_symlink g) (<[h := v]> (cells g)).

Definition unloaded : seqst := SeqSt None None None ∅.

Section Module.
Context {W : Type} `{!Kernel W} (current : W → task_struct).
Abbreviation M := (prog (kstate W seqst)).

(** Loading the position behind a pointer to a cell. *)
Definition load (v : option handle) : M Z := λ s,
  match v with
  | None => Fault NullDeref
  | Some h =>
      match held (world s) !! h, cells (glob s) !! h with
      | Some (KKmalloc _), Some x => Ok (x, s)
      | _, _ => Fault UseAfterFree
      end
  end.

Definition free_all : M unit :=
  g ← get_g;
  (match seq_symlink g with Some _ => remove_proc_entry "seq_symlink" None | None => mret tt end);;
  (match seq_file g with
   | Some _ => remove_proc_entry "seq_file" (seq_dir g) | None => mret tt end);;
  (match seq_dir g with Some _ => remove_proc_entry "seq_dir" None | None => mret tt end).

Definition ct_seq_start (pos : Z) : M (option handle) :=
  if decide (pos >= limit) then mret None
  else
    spos ← kmalloc 8;
    match spos with
    | None => mret None
    | Some h => set_g (set_cell h pos);; mret (Some h)
    end.

(** The text added to the sequence file, and the result. *)
Definition ct_seq_show (v : option handle) : M (list Z * Z) :=
  spos ← load v;
  st ← get_st;
  mret (dec spos ++ bytes " " ++ [10] ++ bytes "current:" ++ [10] ++
        task_fields (current (world st)), 0).

(** The pointer returned, and the position afterwards. *)
Definition ct_seq_next (v : option handle) : M (option handle * Z) :=
  spos ← load v;
  (match v with Some h => set_g (set_cell h (spos + 1)) | None => mret tt end);;
  if decide (spos + 1 >= limit) then mret (None, spos + 1) else mret (v, spos + 1).

Definition ct_seq_stop (v : option handle) : M unit := kfree v.

Definition ct_init : M Z :=
  d ← proc_mkdir "seq_dir" None;
  set_g (set_dir d);;
  match d with
  | None => free_all;; mret (- ENOMEM)
  | Some _ =>
      f ← proc_create "seq_file" 438 d;
      set_g (set_file f);;
      match f with
      | None => free_all;; mret (- ENOMEM)
      | Some _ =>
          l ← proc_symlink "seq_symlink" None "seq_dir/seq_file";
          set_g (set_link l);;
          match l with
          | None => free_all;; mret (- ENOMEM)
          | Some _ => mret 0
          end
      end
  end.

Definition ct_exit : M unit := free_all.

(** ** One read of the whole file

    The calls the kernel makes for it, as documented for sequence files: [start];
    [show] and [next] while there is an element; [stop] with what [start] or
    [next] returned last. [fuel] bounds the number of elements. *)
Fixpoint elements (fuel : nat) (v : option handle) (pos : Z) : M (list Z * option handle * Z) :=
  match fuel, v with
  | S fuel, Some _ =>
      '(text, _) ← ct_seq_show v;
      '(v', pos') ← ct_seq_next v;
      '(texts, v'', pos'') ← elements fuel v' pos';
      mret (text ++ texts, v'', pos'')
  | _, _ => mret ([], v, pos)
  end.

Definition read_all (fuel : nat) (pos : Z) : M (list Z * Z) :=
  v ← ct_seq_start pos;
  '(text, v', pos') ← elements fuel v pos;
  ct_seq_stop v';;
  mret (text, pos').

Fixpoint reads (n : nat) : M (list (list Z)) :=
  match n with
  | O => mret []
  | S n => '(text, _) ← read_all 2 0; texts ← reads n; mret (text :: texts)
  end.

(** What a read shows of the current task. *)
Definition shown (w : W) : list Z :=
  dec 0 ++ bytes " " ++ [10] ++ bytes "current:" ++ [10] ++ task_fields (current w).
End Module.

Section Spec.
Context {W : Type} `{!Kernel W, !KernelLaws W} (current : W → task_struct).
Implicit Types (g : seqst) (w : W).

Lemma wp_load h n x (Q : Z → kstate W seqst → Prop) w g :
  held w !! h = Some (KKmalloc n) → cells g !! h = Some x → Q x (KState w g) →
  wp (load (Some h)) Q (KState w g).
Proof. intros Hh Hx HQ. eapply wp_Ok; [|done]. simpl. by rewrite Hh, Hx. Qed.

(** A read from position 0. *)
Lemma read_all_wp fuel w g :
  (2 ≤ fuel)%nat →
  wp (read_all current fuel 0) (λ r s,
    (r = ([], 0) ∧ glob s = g ∧ held (world s) = held w) ∨
    (∃ h, r = (shown current (world s), 1) ∧ glob s = set_cell h 1 (set_cell h 0 g) ∧
      held w !! h = None ∧ held (world s) = <[h := KKmalloc 8]> (held w))) (KState w g).
Proof.
  intros Hfuel. destruct fuel as [|[|fuel]]; [lia..|].
  unfold read_all, ct_seq_start. apply wp_bind. rewrite decide_False by (unfold limit; lia).
  unfold kmalloc. wp_steps; [|apply wp_ret; wp_steps; do 2 apply wp_ret; by left].
  unfold ct_seq_show, ct_seq_next. apply wp_bind.
  eapply wp_load; [by rewrite H0, lookup_insert_eq|apply lookup_insert_eq|].
  apply wp_bind, wp_get_st, wp_ret, wp_bind, wp_bind.
  eapply wp_load; [by rewrite H0, lookup_insert_eq|apply lookup_insert_eq|].
  apply wp_bind, wp_set_g. rewrite decide_True by (unfold limit; lia).
  do 2 apply wp_ret. apply wp_bind, wp_ret, wp_ret.
  right. exists h. split_and!; [|done|by eapply ff_new|done].
  rewrite app_nil_r. done.
Qed.

(** A read from the start of the file shows the current task once and ends at
    position 1, or nothing when there is no memory; a read from position 1 on
    shows nothing. The 8 bytes of the position are never given back. *)
Theorem seq_file_read w g fuel :
  (2 ≤ fuel)%nat →
  (∃ r s, read_all current fuel 0 (KState w g) = Ok (r, s) ∧
    (r = ([], 0) ∧ held (world s) = held w ∨
     ∃ h, r = (shown current (world s), 1) ∧ held w !! h = None ∧
       held (world s) = <[h := KKmalloc 8]> (held w))) ∧
  (∀ pos, 1 ≤ pos → read_all current fuel pos (KState w g) = Ok (([], pos), KState w g)).
Proof.
  intros Hfuel. split.
  - destruct (read_all_wp fuel w g Hfuel) as (r & s & Hr & Hs). exists r, s. split; [done|].
    destruct Hs as [(? & ? & ?)|(h & ? & _ & ? & ?)]; [by left|]. right. by exists h.
  - intros pos Hpos. unfold read_all, ct_seq_start, mbind, prog_bind.
    rewrite decide_True by (unfold limit; lia). by destruct fuel.
Qed.

Definition pointers (g : seqst) : list (option handle) := [seq_file g; seq_dir g; seq_symlink g].

Definition loaded (m : gmap handle kobj) g (mh : gmap handle kobj) : Prop :=
  ∃ hd hf hl, pointers g = [Some hf; Some hd; Some hl] ∧
    proc_tree "seq_dir" "seq_file" 438 "seq_symlink" "seq_dir/seq_file" m hd hf hl mh.

Definition is_cell (o : kobj) : Prop := o = KKmalloc 8.

(** Besides the entries, [k] cells have been added to [m]. *)
Definition live (m : gmap handle kobj) (k : nat) g (mh : gmap handle kobj) : Prop :=
  ∃ extra, map_Forall (λ _, is_cell) extra ∧ extra ##ₘ m ∧ size extra = k ∧
    loaded (extra ∪ m) g mh.

Lemma live_cell m k g g' mh h :
  live m k g mh → mh !! h = None → pointers g' = pointers g →
  live m (S k) g' (<[h := KKmalloc 8]> mh).
Proof.
  intros (extra & Hx & Hdisj & Hk & hd & hf & hl & Hp & Ht) Hh Hg.
  assert ((extra ∪ m) !! h = None) as Hn.
  { destruct Ht as (_ & _ & _ & Hheld). rewrite Hheld in Hh.
    do 3 apply lookup_insert_None in Hh as [Hh ?]. done. }
  pose proof Hn as [Hn1 Hn2]%lookup_union_None.
  exists (<[h := KKmalloc 8]> extra). split; [by apply map_Forall_insert_2|].
  split; [by apply map_disjoint_insert_l_2|]. split; [by rewrite map_size_insert_None, Hk|].
  exists hd, hf, hl. split; [congruence|]. rewrite <- insert_union_l. by apply proc_tree_insert.
Qed.

(** A read shows nothing, or the task that is current then. *)
Definition shows_task (t : list Z) : Prop := t = [] ∨ ∃ w, t = shown current w.

(** How many of the reads showed something. *)
Definition printed (texts : list (list Z)) : nat := length (filter (λ t, t ≠ []) texts).

Lemma shown_nonempty w : shown current w ≠ [].
Proof. unfold shown. by destruct (dec 0) eqn:E; vm_compute in E; simplify_eq. Qed.

Lemma reads_live m n k w g :
  live m k g (held w) →
  wp (reads current n) (λ texts s,
    length texts = n ∧ Forall shows_task texts ∧
    live m (k + printed texts) (glob s) (held (world s))) (KState w g).
Proof.
  revert k w g. induction n as [|n IH]; intros k w g Hl; simpl.
  - apply wp_ret. rewrite Nat.add_0_r. split; [done|]. by split.
  - apply wp_bind. eapply wp_mono; [by apply read_all_wp|].
    intros [text pos] [w' g'] Hr. apply wp_bind. simpl in *.
    assert (live m (k + (if decide (text ≠ []) then 1 else 0)) g' (held w')) as Hl'.
    { destruct Hr as [(? & -> & ->)|(h & ? & -> & Hn & ->)]; simplify_eq.
      - by rewrite Nat.add_0_r.
      - rewrite decide_True by apply shown_nonempty. rewrite Nat.add_1_r. by eapply live_cell. }
    eapply wp_mono; [by apply (IH _ w' g' Hl')|]. intros texts [w2 g2] (Hlen & Hall & Hl2).
    apply wp_ret. simpl in *. split; [by rewrite Hlen|].
    split; [constructor; [|done]; destruct Hr as [[? _]|(h & ? & _)]; simplify_eq; [by left|right; by eexists]|].
    unfold printed in *. rewrite filter_cons. case_decide; simpl.
    + by rewrite <- Nat.add_assoc in Hl2.
    + by rewrite Nat.add_0_r in Hl2.
Qed.

Lemma seq_init_wp w :
  wp ct_init (λ r s,
    (r = 0 ∧ live (held w) 0 (glob s) (held (world s))) ∨
    (r = - ENOMEM ∧ held (world s) = held w)) (KState w unloaded).
Proof.
  unfold ct_init, proc_mkdir, proc_create, proc_symlink, free_all.
  wp_steps; simpl in *; try (by right; split).
  left. split; [done|]. exists ∅. split; [apply map_Forall_empty|].
  split; [apply map_disjoint_empty_l|]. split; [apply map_size_empty|].
  rewrite map_empty_union. eexists _, _, _. simpl. split; [done|]. split_and!; congruence.
Qed.

Lemma seq_exit_wp m k w g :
  live m k g (held w) →
  wp ct_exit (λ _ s, ∃ extra, map_Forall (λ _, is_cell) extra ∧ extra ##ₘ m ∧ size extra = k ∧
    held (world s) = extra ∪ m) (KState w g).
Proof.
  intros (extra & Hx & Hdisj & Hk & hd & hf & hl & Hp & Hd & Hf & Hl & Hheld).
  unfold pointers in Hp. injection Hp as Hgf Hgd Hgl.
  unfold ct_exit, free_all. apply wp_bind, wp_get_g. rewrite Hgf, Hgd, Hgl.
  wp_steps. by exists extra.
Qed.
End Spec.


(** ** The theorems at work *)

Definition the_task (w : ledger) : task_struct := init_task.

Lemma seq_file_read_witness :
  read_all the_task 2 1 (KState (Ledger ∅ 0 []) unloaded) =
    Ok (([], 1), KState (Ledger ∅ 0 []) unloaded) ∧
  ∃ r s, read_all the_task 2 0 (KState (Ledger ∅ 0 []) unloaded) = Ok (r, s).
Proof.
  destruct (seq_file_read the_task (Ledger ∅ 0 []) unloaded 2 (le_n 2)) as [(r & s & Hr & _) Hn].
  split; [exact (Hn 1 (Z.le_refl 1))|by exists r, s].
Defined.


(** Two reads leave two cells behind. *)
Example seq_file_leaks :
  (λ x : outcome (Z * kstate ledger seqst), match x with
     | Ok (_, s) => match (reads the_task 2;; ct_exit) s with
                    | Ok (_, s) => Some (snd <$> map_to_list (l_held (world s)))
                    | _ => None end
     | _ => None end) (ct_init (KState (Ledger ∅ 0 []) unloaded))
  = Some [KKmalloc 8; KKmalloc 8].
Proof. vm_compute. reflexivity. Qed.
