(* ===== verification/KernelFs.v ===== *)
(** * File systems, slab caches, inodes and dentries

    The further kernel calls the modules of 7/vfs make, on top of the interface of
    [Kernel], and their weakest preconditions. *)

From S2P Require Import Prelude Kernel.
From stdpp Require Import options.
#[local] Set Default Proof Using "Type*".
Local Open Scope Z_scope.

Definition EINVAL : Z := 22.

Section Calls.
Context {W : Type} `{!Kernel W} {G : Type}.
Abbreviation M := (prog (kstate W G)).

Definition register_filesystem (name : string) : M Z := register (KFilesystem name).

(** 0, or -EINVAL when no such file system is registered. *)
Definition unregister_filesystem (name : string) : M Z := λ s,
  match find_obj (λ o, bool_decide (o = KFilesystem name)) (held (world s)) with
  | Some h => Ok (0, KState (forget h (world s)) (glob s))
  | None => Ok (- EINVAL, s)
  end.

Definition kmem_cache_create (name : string) (size : Z) : M (option handle) :=
  alloc (KCache name size).

Definition kmem_cache_alloc (cache : option handle) : M (option handle) :=
  match cache with None => crash NullDeref | Some c => alloc (KCacheObj c) end.

(** The object must have been allocated from the cache; NULL is not allowed. *)
Definition kmem_cache_free (cache obj : option handle) : M unit :=
  match cache, obj with
  | Some c, Some h => release (λ o, bool_decide (o = KCacheObj c)) h
  | _, _ => crash BadFree
  end.

(** NULL is ignored; the cache must have no objects left. *)
Definition kmem_cache_destroy (cache : option handle) : M unit :=
  match cache with
  | None => mret tt
  | Some c => λ s,
      match find_obj (λ o, bool_decide (o = KCacheObj c)) (held (world s)) with
      | Some _ => Fault BadFree
      | None => release (λ o, match o with KCache _ _ => true | _ => false end) c s
      end
  end.

Definition new_inode : M (option handle) := alloc KInode.

Definition iput (inode : handle) : M unit := release (λ o, bool_decide (o = KInode)) inode.

(** The root dentry takes over the inode; on failure the inode is put. *)
Definition d_make_root (inode : handle) : M (option handle) :=
  root ← alloc (KDentry inode);
  match root with
  | None => iput inode;; mret None
  | Some d => mret (Some d)
  end.

(** [d_genocide] and [shrink_dcache_parent] walk the tree below a dentry: a NULL
    argument is dereferenced. *)
Definition walk_dentry (d : option handle) : M unit :=
  match d with None => crash NullDeref | Some _ => mret tt end.
Definition d_genocide := walk_dentry.
Definition shrink_dcache_parent := walk_dentry.

(** [dput(NULL)] does nothing. *)
Definition dput (d : option handle) : M unit :=
  match d with
  | None => mret tt
  | Some h => release (λ o, match o with KDentry _ => true | _ => false end) h
  end.
End Calls.

Section Wp.
Context {W : Type} `{!Kernel W, !KernelLaws W} {G : Type}.
Implicit Types (w : W) (g : G) (m : gmap handle kobj).

Lemma find_obj_eq_None o m : (∀ h, m !! h ≠ Some o) → find_obj (λ o', bool_decide (o' = o)) m = None.
Proof.
  intros Hn. destruct (find_obj _ _) as [h|] eqn:Hf; [|done].
  apply find_obj_Some in Hf as (o' & Ho' & ->%bool_decide_eq_true_1). by destruct (Hn h).
Qed.

Lemma wp_kmem_cache_free c h (Q : unit → kstate W G → Prop) w g :
  held w !! h = Some (KCacheObj c) →
  (∀ w', held w' = delete h (held w) → Q tt (KState w' g)) →
  wp (kmem_cache_free (Some c) (Some h)) Q (KState w g).
Proof. intros Hh HQ. eapply wp_release; [done|by apply bool_decide_eq_true_2|done]. Qed.

Lemma wp_kmem_cache_destroy c name size m (Q : unit → kstate W G → Prop) w g :
  held w = <[c := KCache name size]> m → m !! c = None → (∀ h, m !! h ≠ Some (KCacheObj c)) →
  (∀ w', held w' = m → Q tt (KState w' g)) →
  wp (kmem_cache_destroy (Some c)) Q (KState w g).
Proof.
  intros Hw Hc Hno HQ. unfold kmem_cache_destroy, wp. simpl.
  rewrite Hw, find_obj_eq_None.
  - by eapply wp_release_last.
  - intros h. rewrite lookup_insert_Some. intros [[_ ?]|[_ Hh]]; [done|by destruct (Hno h)].
Qed.

(** The registration to be removed is the one of that name. *)
Lemma wp_unregister_filesystem h name m (Q : Z → kstate W G → Prop) w g :
  held w = <[h := KFilesystem name]> m → m !! h = None →
  (∀ h', m !! h' ≠ Some (KFilesystem name)) →
  (∀ w', held w' = m → Q 0 (KState w' g)) →
  wp (unregister_filesystem name) Q (KState w g).
Proof.
  intros Hw Hm Hno HQ. unfold unregister_filesystem, wp. simpl.
  rewrite Hw, (find_obj_unique _ _ h (KFilesystem name)).
  - eexists _, _. split; [done|]. apply HQ. by rewrite held_forget, Hw, delete_insert_id.
  - apply lookup_insert_eq.
  - by apply bool_decide_eq_true_2.
  - intros h' o' Ho' ->%bool_decide_eq_true_1. apply lookup_insert_Some in Ho' as [[-> _]|[_ ?]]; [done|].
    by destruct (Hno h').
Qed.

Lemma wp_d_make_root i m (Q : option handle → kstate W G → Prop) w g :
  held w = <[i := KInode]> m → m !! i = None →
  (∀ d w', held w !! d = None → held w' = <[d := KDentry i]> (held w) → Q (Some d) (KState w' g)) →
  (∀ w', held w' = m → Q None (KState w' g)) →
  wp (d_make_root i) Q (KState w g).
Proof.
  intros Hw Hi HS HN. unfold d_make_root, iput. wp_steps.
  - apply HS; [by eapply ff_new|congruence].
  - eapply wp_release_last; [done|done|done|]. intros w2 Hw2. apply wp_ret. by apply HN.
Qed.
End Wp.

(** ** Mounting *)

Section Mount.
Context {W : Type} `{!Kernel W} {G : Type}.
Abbreviation M := (prog (kstate W G)).
(** Where the module's state has [s_root] of the super block. *)
Context (get_root : G → option handle) (put_root : option handle → G → G).

(** The root dentry of a file system of one directory is given back with its inode. *)
Definition shrink_dcache_for_umount (d : handle) : M unit := λ s,
  match held (world s) !! d with
  | Some (KDentry i) => (release (λ o, bool_decide (o = KDentry i)) d;; iput i) s
  | _ => Fault BadFree
  end.

(** A super block that has a root gives it back and is told so; then it is released. *)
Definition kill_anon_super (put_super : M unit) (sb : handle) : M unit :=
  g ← get_g;
  (match get_root g with
   | Some d => shrink_dcache_for_umount d;; put_super
   | None => mret tt
   end);;
  set_g (put_root None);;
  release (λ o, bool_decide (o = KSuper)) sb.

(** [kill_litter_super] drops the references that [d_instantiate] keeps, of which an
    empty directory has none. *)
Definition kill_litter_super (put_super : M unit) (sb : handle) : M unit := kill_anon_super put_super sb.

(** The super block whose root is returned, or an error code; a super block that cannot
    be filled is killed. *)
Definition mount_nodev (fill_super : M Z) (kill_sb : handle → M unit) : M (handle + Z) :=
  s ← alloc KSuper;
  match s with
  | None => mret (inr (-12))
  | Some sb =>
      set_g (put_root None);;
      error ← fill_super;
      if decide (error ≠ 0) then kill_sb sb;; mret (inr error) else mret (inl sb)
  end.
End Mount.

(** When there is an inode but no memory for the root dentry: while filling a super block,
    and while mounting. *)
Definition root_fails {W} `{!Kernel W} (w : W) : bool :=
  match acquire KInode w with
  | (inl i, w) => match acquire (KDentry i) w with (inl _, _) => false | (inr _, _) => true end
  | (inr _, _) => false
  end.
Definition no_root {W} `{!Kernel W} (w : W) : bool :=
  match acquire KSuper w with (inl _, w) => root_fails w | (inr _, _) => false end.

(** What a module owes to [mount_nodev], and what it gets. *)
Section MountSpec.
Context {W : Type} `{!Kernel W, !KernelLaws W} {G : Type}.
Context (get_root : G → option handle) (put_root : option handle → G → G).
Context (get_put : ∀ r g, get_root (put_root r g) = r).

(** A super block was filled: it has a root directory with an inode, or nothing was
    acquired and there is an error. *)
Definition fills (w : W) (r : Z) (s : kstate W G) : Prop :=
  (r < 0 ∧ held (world s) = held w ∧ get_root (glob s) = None) ∨
  (r = 0 ∧ ∃ i d, held w !! i = None ∧ <[i := KInode]> (held w) !! d = None ∧
     held (world s) = <[d := KDentry i]> (<[i := KInode]> (held w)) ∧ get_root (glob s) = Some d).

Definition silent (put_super : prog (kstate W G) unit) : Prop := ∀ s, put_super s = Ok (tt, s).

(** Killing a super block gives back what filling it acquired. *)
Lemma kill_empty put_super sb m w g :
  held w = <[sb := KSuper]> m → m !! sb = None → get_root g = None →
  ∃ s, kill_anon_super get_root put_root put_super sb (KState w g) = Ok (tt, s) ∧ held (world s) = m.
Proof.
  intros Hw Hm Hg. unfold kill_anon_super, mbind, prog_bind, get_g, set_g. simpl. rewrite Hg. unfold mret, prog_ret.
  edestruct (release_last (λ o, bool_decide (o = KSuper)) sb KSuper m (KState w (put_root None g)))
    as (s & Hs & _ & Hh); [done|done|done|]. by exists s.
Qed.

Lemma kill_filled put_super sb i d m w g :
  silent put_super → held w = <[d := KDentry i]> (<[i := KInode]> (<[sb := KSuper]> m)) →
  m !! sb = None → <[sb := KSuper]> m !! i = None → <[i := KInode]> (<[sb := KSuper]> m) !! d = None →
  get_root g = Some d →
  ∃ s, kill_anon_super get_root put_root put_super sb (KState w g) = Ok (tt, s) ∧ held (world s) = m.
Proof.
  intros Hput Hw Hm Hi Hd Hg. unfold kill_anon_super, shrink_dcache_for_umount, mbind, prog_bind, get_g, set_g. simpl.
  rewrite Hg. cbn [world]. rewrite Hw, lookup_insert_eq.
  edestruct (release_last (λ o, bool_decide (o = KDentry i)) d (KDentry i) (<[i := KInode]> (<[sb := KSuper]> m)) (KState w g)) as (s1 & -> & Hg1 & Hh1);
    [done|done|by apply bool_decide_eq_true_2|].
  edestruct (release_last (λ o, bool_decide (o = KInode)) i KInode (<[sb := KSuper]> m) s1) as (s2 & Hr2 & Hg2 & Hh2); [done|done|done|].
  unfold iput. rewrite Hr2, Hput. cbn [glob world].
  edestruct (release_last (λ o, bool_decide (o = KSuper)) sb KSuper m (KState (world s2) (put_root None (glob s2))))
    as (s3 & Hs3 & _ & Hh3); [done|done|done|]. by exists s3.
Qed.

(** Mounting a file system and unmounting it, which needs only what is held. *)
Lemma mount_cycle f fill_super put_super w g :
  silent put_super →
  (∀ w' g', get_root g' = None →
    if root_fails w' then fill_super (KState w' g') = Fault f else wp fill_super (fills w') (KState w' g')) →
  let kill_sb := kill_anon_super get_root put_root put_super in
  if no_root w then mount_nodev put_root fill_super kill_sb (KState w g) = Fault f
  else ∃ r s, mount_nodev put_root fill_super kill_sb (KState w g) = Ok (r, s) ∧
    match r with
    | inr e => e < 0 ∧ held (world s) = held w
    | inl sb => (∃ d, get_root (glob s) = Some d ∧ is_Some (held (world s) !! d)) ∧
        ∀ w', held w' = held (world s) →
          ∃ s', kill_sb sb (KState w' (glob s)) = Ok (tt, s') ∧ held (world s') = held w
    end.
Proof.
  intros Hput Hfill kill_sb. unfold no_root, mount_nodev, alloc, mbind, prog_bind. simpl.
  destruct (acquire KSuper w) as [[sb|e] w1] eqn:Ha.
  2: { destruct (acquire_err _ _ _ _ Ha). eexists _, _. split; [done|]. simpl. split; [lia|done]. }
  destruct (acquire_ok _ _ _ _ Ha) as [Hsb Hw1]. pose proof (ff_new _ _ _ Hsb) as Hsbn. simpl.
  specialize (Hfill w1 (put_root None g) (get_put _ _)). destruct (root_fails w1); [by rewrite Hfill|].
  destruct Hfill as (r & [w2 g2] & -> & [(He & Hh & Hroot)|(-> & i & d & Hi & Hd & Hh & Hroot)]); simpl in *.
  - rewrite decide_True by lia. destruct (kill_empty put_super sb (held w) w2 g2) as (s & Hs & Hm); [congruence|done|done|].
    subst kill_sb. rewrite Hs. eexists _, _. split; [done|]. done.
  - eexists _, _. split; [done|]. simpl. split.
    + exists d. split; [done|]. rewrite Hh, lookup_insert_eq. by eexists.
    + intros w' Hw'. rewrite Hh, Hw1 in *. by eapply kill_filled.
Qed.
End MountSpec.
