(* ===== verification/Myfs.v ===== *)
(** * The myfs module (7/vfs/main.c)

    A file system of one empty directory, and a slab cache of 128 objects. *)

From S2P Require Import Prelude Kernel KernelFs.
From stdpp Require Import options.
#[local] Set Default Proof Using "Type*".
Local Open Scope Z_scope.

Definition ENOMEM : Z := 12.
Definition MYFS_MAGIC_NUMBER : Z := 0x13131313.
Definition SLABNAME : string := "myfs_slab".
Definition number : nat := 128.
Definition S_IFDIR : Z := 0x4000.
Definition sizeof_myfs_inode : Z := 16.

(** ** Data *)

Record inode := Inode { i_ino : Z; i_mode : Z; i_time : Z; i_nlink : Z }.

Record super_block := SuperBlock {
  s_blocksize : Z;
  s_blocksize_bits : Z;
  s_magic : Z;
  s_time_gran : Z;
  s_root : option handle
}.

(** The module's static data: [slab_mem] is the array [slab] points to; [inodes]
    is the memory of the inodes, [sb] the super block being filled. *)
Record myfs := Myfs {
  slab : option handle;
  slab_mem : list (option handle);
  cache : option handle;
  inodes : gmap handle inode;
  sb : super_block
}.

Definition set_slab v g := Myfs v (slab_mem g) (cache g) (inodes g) (sb g).
Definition set_slab_mem v g := Myfs (slab g) v (cache g) (inodes g) (sb g).
Definition set_cache v g := Myfs (slab g) (slab_mem g) v (inodes g) (sb g).
Definition set_inode h v g := Myfs (slab g) (slab_mem g) (cache g) (<[h := v]> (inodes g)) (sb g).
Definition set_sb v g := Myfs (slab g) (slab_mem g) (cache g) (inodes g) v.
Definition set_root r b := SuperBlock (s_blocksize b) (s_blocksize_bits b) (s_magic b) (s_time_gran b) r.

Definition unloaded (b : super_block) : myfs := Myfs None [] None ∅ b.

Section Module.
Context {W : Type} `{!Kernel W}.
Abbreviation M := (prog (kstate W myfs)).

(** ** Mounting *)

(** [now] is the time at which the inode is made. *)
Definition my_simple_fill_super (now : Z) : M Z :=
  set_g (set_sb (SuperBlock 4096 12 MYFS_MAGIC_NUMBER 1 None));;
  i ← new_inode;
  match i with
  | None => mret (- ENOMEM)
  | Some i =>
      set_g (set_inode i (Inode 1 (Z.lor S_IFDIR 493) now 2));;
      root ← d_make_root i;
      match root with
      | None =>
          d_genocide root;;
          shrink_dcache_parent root;;
          dput root;;
          mret (- ENOMEM)
      | Some d =>
          g ← get_g;
          set_g (set_sb (set_root (Some d) (sb g)));;
          mret 0
      end
  end.

(** The handlers of the file system type; they print, and leave the rest to the kernel. *)
Definition myfs_put_super : M unit := mret tt.
Definition root_of (g : myfs) : option handle := s_root (sb g).
Definition put_root (r : option handle) (g : myfs) : myfs := set_sb (set_root r (sb g)) g.
Definition my_kill_block_super (s : handle) : M unit := kill_anon_super root_of put_root myfs_put_super s.
Definition myfs_mount (now : Z) : M (handle + Z) :=
  entry ← mount_nodev put_root (my_simple_fill_super now) my_kill_block_super;
  mret entry.

(** ** Loading and unloading *)

(** [slab[i] = v] and [slab[i]]. *)
Definition slab_store (i : nat) (v : option handle) : M unit := λ s,
  match slab (glob s) with
  | None => Fault NullDeref
  | Some _ =>
      if decide (i < length (slab_mem (glob s)))%nat
      then Ok (tt, KState (world s) (set_slab_mem (<[i := v]> (slab_mem (glob s))) (glob s)))
      else Fault OutOfBounds
  end.

Definition slab_load (i : nat) : M (option handle) := λ s,
  match slab (glob s) with
  | None => Fault NullDeref
  | Some _ => match slab_mem (glob s) !! i with Some v => Ok (v, s) | None => Fault OutOfBounds end
  end.

(** [for (j = j0; j < j0 + n; j++) kmem_cache_free(cache, slab[j])]. *)
Fixpoint free_objs (n j : nat) : M unit :=
  match n with
  | O => mret tt
  | S n => g ← get_g; o ← slab_load j; kmem_cache_free (cache g) o;; free_objs n (S j)
  end.

(** [n] more objects are to be allocated, from index [i] on. *)
Fixpoint fill_slab (n i : nat) : M Z :=
  match n with
  | O => mret 0
  | S n =>
      g ← get_g;
      o ← kmem_cache_alloc (cache g);
      slab_store i o;;
      match o with
      | Some _ => fill_slab n (S i)
      | None =>
          free_objs i 0;;
          kmem_cache_destroy (cache g);;
          kfree (slab g);;
          mret (- ENOMEM)
      end
  end.

Definition myfs_init : M Z :=
  ret ← register_filesystem "myfs";
  if decide (ret ≠ 0) then mret ret
  else
    p ← kmalloc (8 * Z.of_nat number);
    set_g (set_slab p);;
    match p with
    | None => kfree p;; mret (- ENOMEM)
    | Some _ =>
        set_g (set_slab_mem (replicate number None));;
        c ← kmem_cache_create SLABNAME sizeof_myfs_inode;
        set_g (set_cache c);;
        match c with
        | None => kmem_cache_destroy c;; kfree p;; mret (- ENOMEM)
        | Some _ => fill_slab number 0
        end
    end.

Definition myfs_exit : M unit :=
  free_objs number 0;;
  g ← get_g;
  kmem_cache_destroy (cache g);;
  kfree (slab g);;
  unregister_filesystem "myfs";;
  mret tt.
End Module.
