(* ===== verification/MyfsSpec.v ===== *)
(** * What the myfs module guarantees *)

From S2P Require Import Prelude Kernel KernelFs Myfs.
From stdpp Require Import options.
#[local] Set Default Proof Using "Type*".
Local Open Scope Z_scope.
#[local] Arguments replicate : simpl never.

(** The objects [hs] of the cache [c], the first one outermost, over [base]. *)
Definition with_objs (c : handle) (hs : list handle) (base : gmap handle kobj) :=
  foldr (λ h m, (<[h := KCacheObj c]> m)) base hs.

Lemma lookup_with_objs_None c hs base h :
  with_objs c hs base !! h = None ↔ (h ∉ hs) ∧ base !! h = None.
Proof.
  unfold with_objs. induction hs as [|h' hs IH]; simpl; [set_solver|].
  rewrite lookup_insert_None, IH. set_solver.
Qed.

Lemma with_objs_snoc c hs base h :
  h ∉ hs → with_objs c (hs ++ [h]) base = <[h := KCacheObj c]> (with_objs c hs base).
Proof.
  unfold with_objs. induction hs as [|h' hs IH]; simpl; [done|]. intros Hh.
  rewrite IH by set_solver. apply insert_insert_ne. set_solver.
Qed.

Section Spec.
Context {W : Type} `{!Kernel W, !KernelLaws W}.
Implicit Types (w : W) (g : myfs) (m base : gmap handle kobj).

(** The first elements of the array are the allocated objects. *)
Record slab_ok (c p : handle) (hs : list handle) g : Prop := {
  so_slab : slab g = Some p;
  so_cache : cache g = Some c;
  so_len : length (slab_mem g) = number;
  so_objs : ∀ k h, hs !! k = Some h → slab_mem g !! k = Some (Some h);
  so_nodup : NoDup hs
}.

Lemma free_objs_wp c p hs j base w g (Q : unit → kstate W myfs → Prop) :
  slab g = Some p → cache g = Some c →
  (∀ k h, hs !! k = Some h → slab_mem g !! (j + k)%nat = Some (Some h)) →
  NoDup hs → (∀ h, h ∈ hs → base !! h = None) → held w = with_objs c hs base →
  (∀ w', held w' = base → Q tt (KState w' g)) →
  wp (free_objs (length hs) j) Q (KState w g).
Proof.
  intros Hp Hc. revert j w. induction hs as [|h hs IH]; intros j w Hk Hnd Hb Hw HQ; simpl.
  { apply wp_ret. by apply HQ. }
  apply NoDup_cons in Hnd as [Hh Hnd]. apply wp_bind, wp_get_g, wp_bind.
  eapply wp_Ok; [unfold slab_load; simpl; rewrite Hp|].
  { pose proof (Hk 0%nat h eq_refl) as Hj. rewrite Nat.add_0_r in Hj. by rewrite Hj. }
  rewrite Hc. apply wp_bind, wp_kmem_cache_free; [by rewrite Hw; simpl; rewrite lookup_insert_eq|].
  intros w' Hw'. apply IH; [|done|set_solver|..|done].
  - intros k h' Hh'. rewrite Nat.add_succ_comm. by apply (Hk (S k)).
  - rewrite Hw', Hw. simpl. apply delete_insert_id.
    apply lookup_with_objs_None. set_solver.
Qed.

(** What lies under the objects: the cache, the array, the rest. *)
Definition with_cache (c p : handle) m : gmap handle kobj :=
  <[c := KCache SLABNAME sizeof_myfs_inode]> (<[p := KKmalloc (8 * Z.of_nat number)]> m).

Record base_ok (c p : handle) m : Prop := {
  bk_c : <[p := KKmalloc (8 * Z.of_nat number)]> m !! c = None;
  bk_p : m !! p = None;
  bk_objs : ∀ h, <[p := KKmalloc (8 * Z.of_nat number)]> m !! h ≠ Some (KCacheObj c)
}.

(** Giving back the cache and the array. *)
Lemma free_cache_wp c p m w g (Q : unit → kstate W myfs → Prop) :
  base_ok c p m → held w = with_cache c p m → (∀ w', held w' = m → Q tt (KState w' g)) →
  wp (kmem_cache_destroy (Some c);; kfree (Some p)) Q (KState w g).
Proof.
  intros [Hc Hp Ho] Hw HQ. apply wp_bind.
  eapply wp_kmem_cache_destroy; [done|done|done|]. intros w' Hw'.
  by eapply wp_release_last.
Qed.

Lemma fill_slab_wp c p m n hs w g :
  (length hs + n = number)%nat → base_ok c p m → slab_ok c p hs g →
  (∀ h, h ∈ hs → with_cache c p m !! h = None) → held w = with_objs c hs (with_cache c p m) →
  wp (fill_slab n (length hs)) (λ r s,
    (r = - ENOMEM ∧ held (world s) = m) ∨
    (∃ hs', r = 0 ∧ length hs' = number ∧ slab_ok c p hs' (glob s) ∧
      (∀ h, h ∈ hs' → with_cache c p m !! h = None) ∧
      held (world s) = with_objs c hs' (with_cache c p m))) (KState w g).
Proof.
  intros Hn Hb. revert hs w g Hn. induction n as [|n IH]; intros hs w g Hn [Hp Hc Hl Ho Hnd] Hf Hw; simpl.
  { apply wp_ret. right. exists hs. split_and!; [done|lia|by split|done|done]. }
  apply wp_bind, wp_get_g, wp_bind. rewrite Hc. apply wp_alloc.
  - intros h w' Hfresh Hw'. apply wp_bind.
    eapply wp_Ok; [unfold slab_store; simpl; by rewrite Hp, decide_True by lia|].
    pose proof (ff_new _ _ _ Hfresh) as Hh. rewrite Hw in Hh.
    apply lookup_with_objs_None in Hh as [Hh Hh'].
    replace (S (length hs)) with (length (hs ++ [h])) by (rewrite length_app; simpl; lia).
    apply IH; [rewrite length_app; simpl; lia| |set_solver|by rewrite with_objs_snoc, <- Hw].
    split; simpl; [done|done|by rewrite length_insert|..].
    + intros k h0. rewrite lookup_app_Some. intros [Hk|[Hk1 Hk2]].
      * rewrite list_lookup_insert_ne; [by apply Ho|]. apply lookup_lt_Some in Hk. lia.
      * apply list_lookup_singleton_Some in Hk2 as [Hk2 <-].
        replace k with (length hs) by lia. apply list_lookup_insert_eq. lia.
    + apply NoDup_app. split_and!; [done|set_solver|apply NoDup_singleton].
  - intros w' Hw'. apply wp_bind.
    eapply wp_Ok; [unfold slab_store; simpl; by rewrite Hp, decide_True by lia|].
    apply wp_bind. rewrite Hp.
    eapply (free_objs_wp c p hs 0); simpl; [done|done| |done|done|by rewrite Hw'|].
    + intros k h Hk. rewrite list_lookup_insert_ne; [by apply Ho|]. apply lookup_lt_Some in Hk. lia.
    + intros w2 Hw2. eapply (wp_bind (kmem_cache_destroy (Some c))).
      destruct Hb as [Hbc Hbp Hbo]. eapply wp_kmem_cache_destroy; [done..|]. intros w3 Hw3.
      apply wp_bind. eapply wp_release_last; [done..|]. intros w4 Hw4. apply wp_ret. by left.
Qed.

(** The state between loading and unloading. *)
Definition loaded m (s : kstate W myfs) : Prop :=
  ∃ f p c hs, m !! f = None ∧ base_ok c p (<[f := KFilesystem "myfs"]> m) ∧
    length hs = number ∧ slab_ok c p hs (glob s) ∧
    (∀ h, h ∈ hs → with_cache c p (<[f := KFilesystem "myfs"]> m) !! h = None) ∧
    held (world s) = with_objs c hs (with_cache c p (<[f := KFilesystem "myfs"]> m)).

Lemma base_ok_fresh c p m name size x :
  fresh_for m p (KKmalloc size) →
  fresh_for (<[p := KKmalloc (8 * Z.of_nat number)]> m) c (KCache name x) → base_ok c p m.
Proof.
  intros Hp Hc. split; [by eapply ff_new|by eapply ff_new|].
  intros h Hh. by apply (ff_child _ _ _ Hc _ _ Hh).
Qed.

#[local] Opaque number.
Lemma myfs_init_wp w b :
  wp myfs_init (λ r s,
    (r < 0 ∧ held (world s) = held w) ∨
    (∃ f, r = - ENOMEM ∧ held w !! f = None ∧
      held (world s) = <[f := KFilesystem "myfs"]> (held w)) ∨
    (r = 0 ∧ loaded (held w) s)) (KState w (unloaded b)).
Proof.
  unfold myfs_init, register_filesystem. apply wp_bind, wp_register.
  2: { intros e w' He Hw'. rewrite decide_True by lia. apply wp_ret. by left. }
  intros f w1 Hf Hw1. rewrite decide_False by lia. pose proof (ff_new _ _ _ Hf) as Hfn.
  unfold kmalloc. wp_steps.
  2: { right. left. exists f. split_and!; [done|done|]. simpl. congruence. }
  - rename h into p. unfold kmem_cache_create. wp_steps.
    2: { simpl. wp_steps. right. left. exists f. split_and!; [done|done|].
         simpl. congruence. }
    rename h into c. rewrite Hw1 in H, H0. rewrite H0 in H1, H2.
    pose proof (base_ok_fresh _ _ _ _ _ _ H H1) as Hb.
    eapply wp_mono.
    + apply (fill_slab_wp c p (<[f := KFilesystem "myfs"]> (held w)) number []); [done|done| |set_solver|done].
      split; simpl; [done|done|apply length_replicate|done|constructor].
    + intros r s [[-> Hs]|(hs & -> & Hlen & Hok & Hfr & Hs)].
      * right. left. by exists f.
      * right. right. split; [done|]. by exists f, p, c, hs.
Qed.

Lemma myfs_exit_wp m w g :
  (∀ h, m !! h ≠ Some (KFilesystem "myfs")) → loaded m (KState w g) →
  wp myfs_exit (λ _ s, held (world s) = m) (KState w g).
Proof.
  intros Hno (f & p & c & hs & Hf & [Hbc Hbp Hbo] & Hlen & [Hp Hc Hl Ho Hnd] & Hfr & Hheld).
  simpl in *. unfold myfs_exit. apply wp_bind. rewrite <- Hlen.
  eapply (free_objs_wp c p hs 0); [done|done|done|done|done|done|].
  intros w1 Hw1. apply wp_bind, wp_get_g. rewrite Hp, Hc. apply wp_bind.
  eapply wp_kmem_cache_destroy; [done..|]. intros w2 Hw2.
  apply wp_bind. eapply wp_release_last; [done..|]. intros w3 Hw3.
  apply wp_bind. eapply wp_unregister_filesystem; [done..|]. intros w4 Hw4. by apply wp_ret.
Qed.

(** C18: loading the module fails when the file system cannot be registered, leaving
    nothing behind; or runs out of memory at any later point, giving back all but
    the registration, which stays; or succeeds, and then unloading gives back
    everything. *)
Theorem myfs_load_unload w b :
  (∀ h, held w !! h ≠ Some (KFilesystem "myfs")) →
  ∃ r s, myfs_init (KState w (unloaded b)) = Ok (r, s) ∧
    ((r < 0 ∧ held (world s) = held w) ∨
     (∃ f, r = - ENOMEM ∧ held w !! f = None ∧
       held (world s) = <[f := KFilesystem "myfs"]> (held w)) ∨
     (r = 0 ∧ ∃ s', myfs_exit s = Ok (tt, s') ∧ held (world s') = held w)).
Proof.
  intros Hno. destruct (myfs_init_wp w b) as (r & s & Hi & Hr). exists r, s. split; [done|].
  destruct Hr as [Hr|[Hr|[-> Hl]]]; [by left|by right; left|]. right. right. split; [done|].
  destruct s as [w1 g1]. destruct (myfs_exit_wp _ _ _ Hno Hl) as ([] & s' & He & Hs').
  by exists s'.
Qed.

(** Mounting fills the super block with a root directory owning its inode, or
    fails with -ENOMEM when there is no inode; when there is no memory for the
    root, its error path dereferences the NULL root. *)
Theorem myfs_fill_super now w g :
  (∃ s, my_simple_fill_super now (KState w g) = Ok (- ENOMEM, s) ∧ held (world s) = held w ∧ s_root (sb (glob s)) = None) ∨
  (∃ s i d, my_simple_fill_super now (KState w g) = Ok (0, s) ∧
    held w !! i = None ∧ <[i := KInode]> (held w) !! d = None ∧
    held (world s) = <[d := KDentry i]> (<[i := KInode]> (held w)) ∧
    inodes (glob s) !! i = Some (Inode 1 (S_IFDIR + 493) now 2) ∧
    sb (glob s) = SuperBlock 4096 12 MYFS_MAGIC_NUMBER 1 (Some d)) ∨
  my_simple_fill_super now (KState w g) = Fault NullDeref.
Proof.
  unfold my_simple_fill_super, new_inode, d_make_root, mbind, prog_bind, set_g. simpl.
  destruct (alloc_spec KInode (KState w (set_sb (SuperBlock 4096 12 MYFS_MAGIC_NUMBER 1 None) g)))
    as ([i|] & [w1 g1] & -> & Hg & Ha); simpl in *; subst g1; [destruct Ha as [Hi Hw1]|left; by eexists].
  pose proof (ff_new _ _ _ Hi) as Hin.
  destruct (alloc_spec (KDentry i) (KState w1 (set_inode i (Inode 1 (Z.lor S_IFDIR 493) now 2)
    (set_sb (SuperBlock 4096 12 MYFS_MAGIC_NUMBER 1 None) g))))
    as ([d|] & [w2 g2] & -> & Hg & Ha); simpl in *; subst g2; right.
  - destruct Ha as [Hd Hw2]. pose proof (ff_new _ _ _ Hd) as Hdn. left. eexists _, i, d. split; [done|].
    simpl. split_and!; [done|congruence|congruence|apply lookup_insert_eq|done].
  - right. unfold iput, release. simpl. by rewrite Ha, Hw1, lookup_insert_eq.
Qed.

Lemma myfs_fills now w g :
  if root_fails w then my_simple_fill_super now (KState w g) = Fault NullDeref
  else wp (my_simple_fill_super now) (fills root_of w) (KState w g).
Proof.
  unfold root_fails, fills, root_of, wp, my_simple_fill_super, new_inode, d_make_root, alloc, mbind, prog_bind, set_g. simpl.
  destruct (acquire KInode w) as [[i|e] w1] eqn:E1; simpl.
  2: { destruct (acquire_err _ _ _ _ E1) as [Hw1 _]. eexists _, _. split; [done|]. left. done. }
  destruct (acquire_ok _ _ _ _ E1) as [Hi Hw1]. pose proof (ff_new _ _ _ Hi) as Hin.
  destruct (acquire (KDentry i) w1) as [[d|e] w2] eqn:E2; simpl.
  - destruct (acquire_ok _ _ _ _ E2) as [Hd Hw2]. pose proof (ff_new _ _ _ Hd) as Hdn.
    eexists _, _. split; [done|]. right. split; [done|]. exists i, d. simpl. split_and!; congruence.
  - destruct (acquire_err _ _ _ _ E2) as [Hw2 _]. unfold iput, release. simpl. by rewrite Hw2, Hw1, lookup_insert_eq.
Qed.

Lemma myfs_mounted now w g :
  if no_root w then myfs_mount now (KState w g) = Fault NullDeref
  else ∃ r s, myfs_mount now (KState w g) = Ok (r, s) ∧
    match r with
    | inr e => e < 0 ∧ held (world s) = held w
    | inl sb => (∃ d, root_of (glob s) = Some d ∧ is_Some (held (world s) !! d)) ∧
        ∀ w', held w' = held (world s) →
          ∃ s', my_kill_block_super sb (KState w' (glob s)) = Ok (tt, s') ∧ held (world s') = held w
    end.
Proof.
  unfold myfs_mount, mbind, prog_bind.
  change my_kill_block_super with (kill_anon_super root_of put_root myfs_put_super (W:=W)).
  pose proof (mount_cycle root_of put_root (λ _ _, eq_refl) NullDeref (my_simple_fill_super now) myfs_put_super w g) as H. simpl in H.
  destruct (no_root w).
  - by rewrite H; [|done|intros w' g' _; apply myfs_fills].
  - destruct H as (r & s & -> & H); [done|intros w' g' _; apply myfs_fills|]. by exists r, s.
Qed.

(** Mounting fails leaving nothing behind, or gives a super block with a root directory
    that unmounting gives back with everything else; when there is no memory for the root
    it dereferences the NULL root. *)
Theorem myfs_mount_umount now w g :
  myfs_mount now (KState w g) = Fault NullDeref ∨
  ∃ r s, myfs_mount now (KState w g) = Ok (r, s) ∧
    match r with
    | inr e => e < 0 ∧ held (world s) = held w
    | inl sb => (∃ d, root_of (glob s) = Some d ∧ is_Some (held (world s) !! d)) ∧
        ∃ s', my_kill_block_super sb s = Ok (tt, s') ∧ held (world s') = held w
    end.
Proof.
  pose proof (myfs_mounted now w g) as H. destruct (no_root w); [by left|right].
  destruct H as (r & s & Hr & H). exists r, s. split; [exact Hr|].
  destruct r as [sb|e]; [|exact H]. destruct H as [Hd Hk]. split; [exact Hd|]. destruct s. by apply Hk.
Qed.
End Spec.

#[local] Transparent number.

(** ** The theorems at work *)

Definition no_sb : super_block := SuperBlock 0 0 0 0 None.

Lemma myfs_load_unload_witness :
  ∃ r s, myfs_init (KState (Ledger ∅ 0 [5%nat]) (unloaded no_sb)) = Ok (r, s) ∧
    ((r < 0 ∧ l_held (world s) = ∅) ∨
     (∃ f, r = - ENOMEM ∧ (∅ : gmap handle kobj) !! f = None ∧
       l_held (world s) = <[f := KFilesystem "myfs"]> ∅) ∨
     (r = 0 ∧ ∃ s', myfs_exit s = Ok (tt, s') ∧ l_held (world s') = ∅)).
Proof.
  refine (myfs_load_unload (Ledger ∅ 0 [5%nat]) no_sb _). exact (λ h, lookup_empty_Some h _).
Defined.

Lemma myfs_fill_super_witness :
  (∃ s, my_simple_fill_super 5 (KState (Ledger ∅ 0 [1%nat]) (unloaded no_sb)) = Ok (- ENOMEM, s) ∧
    l_held (world s) = ∅ ∧ s_root (sb (glob s)) = None) ∨
  (∃ s i d, my_simple_fill_super 5 (KState (Ledger ∅ 0 [1%nat]) (unloaded no_sb)) = Ok (0, s) ∧
    (∅ : gmap handle kobj) !! i = None ∧ <[i := KInode]> (∅ : gmap handle kobj) !! d = None ∧
    l_held (world s) = <[d := KDentry i]> (<[i := KInode]> ∅) ∧
    inodes (glob s) !! i = Some (Inode 1 (S_IFDIR + 493) 5 2) ∧
    sb (glob s) = SuperBlock 4096 12 MYFS_MAGIC_NUMBER 1 (Some d)) ∨
  my_simple_fill_super 5 (KState (Ledger ∅ 0 [1%nat]) (unloaded no_sb)) = Fault NullDeref.
Proof. exact (myfs_fill_super 5 (Ledger ∅ 0 [1%nat]) (unloaded no_sb)). Defined.

Lemma myfs_mount_umount_witness :
  ∃ r s, myfs_mount 5 (KState (Ledger ∅ 0 []) (unloaded no_sb)) = Ok (r, s) ∧
    match r with
    | inr e => e < 0 ∧ l_held (world s) = ∅
    | inl sb => (∃ d, root_of (glob s) = Some d ∧ is_Some (l_held (world s) !! d)) ∧
        ∃ s', my_kill_block_super sb s = Ok (tt, s') ∧ l_held (world s') = ∅
    end.
Proof.
  destruct (myfs_mount_umount 5 (Ledger ∅ 0 []) (unloaded no_sb)) as [H|H]; [|exact H].
  exfalso. revert H. vm_compute. congruence.
Defined.

(** The failing root is a NULL dereference; the failing fifth object leaves the
    registration; a complete load and unload leaves nothing. *)
Example myfs_no_root :
  my_simple_fill_super 5 (KState (Ledger ∅ 0 [1%nat]) (unloaded no_sb)) = Fault NullDeref.
Proof. vm_compute. reflexivity. Qed.
Example myfs_leaks :
  (λ x : outcome (Z * kstate ledger myfs), match x with
     | Ok (r, s) => Some (r, snd <$> map_to_list (l_held (world s)))
     | _ => None end) (myfs_init (KState (Ledger ∅ 0 [7%nat]) (unloaded no_sb)))
  = Some (- ENOMEM, [KFilesystem "myfs"]).
Proof. vm_compute. reflexivity. Qed.
