(* ===== verification/Myvfs.v ===== *)
(** * The MyVFS module (7/vfs/myvfs.c)

    A second file system of one empty directory, with a slab cache of one object. *)

From S2P Require Import Prelude Kernel KernelFs.
From stdpp Require Import options.
#[local] Set Default Proof Using "Type*".
Local Open Scope Z_scope.

Definition ENOMEM : Z := 12.
Definition MYVFS_MAGIC_NUMBER : Z := 0xAAAABBBB.
Definition SLAB_NAME : string := "MyVFSCache".
Definition S_IFDIR : Z := 0x4000.

(** ** Data *)

Record inode := Inode { i_ino : Z; i_mode : Z; i_size : Z; i_time : Z }.

Record super_block := SuperBlock {
  s_blocksize : Z;
  s_blocksize_bits : Z;
  s_magic : Z;
  s_root : option handle
}.

(** [area] is the word [cache_mem_area] points to; [inodes] is the memory of the
    inodes, [sb] the super block being filled. *)
Record myvfs := Myvfs {
  cache_mem_area : option handle;
  area : option handle;
  cache : option handle;
  inodes : gmap handle inode;
  sb : super_block
}.

Definition set_area_ptr v g := Myvfs v (area g) (cache g) (inodes g) (sb g).
Definition set_area v g := Myvfs (cache_mem_area g) v (cache g) (inodes g) (sb g).
Definition set_cache v g := Myvfs (cache_mem_area g) (area g) v (inodes g) (sb g).
Definition set_inode h v g := Myvfs (cache_mem_area g) (area g) (cache g) (<[h := v]> (inodes g)) (sb g).
Definition set_sb v g := Myvfs (cache_mem_area g) (area g) (cache g) (inodes g) v.
Definition set_root r b := SuperBlock (s_blocksize b) (s_blocksize_bits b) (s_magic b) r.

Definition unloaded (b : super_block) : myvfs := Myvfs None None None ∅ b.

Section Module.
Context {W : Type} `{!Kernel W}.
Abbreviation M := (prog (kstate W myvfs)).

(** ** Mounting *)

(** [now] is the time at which the inode is made. *)
Definition my_vfs_make_inode (now mode : Z) : M (option handle) :=
  ret ← new_inode;
  match ret with
  | Some i => set_g (set_inode i (Inode 1 mode 4096 now));; mret (Some i)
  | None => mret None
  end.

Definition my_vfs_fill_sb (now : Z) : M Z :=
  set_g (set_sb (SuperBlock 4096 12 MYVFS_MAGIC_NUMBER None));;
  root_inode ← my_vfs_make_inode now (Z.lor S_IFDIR 493);
  match root_inode with
  | None => mret (- ENOMEM)
  | Some i =>
      root ← d_make_root i;
      g ← get_g;
      set_g (set_sb (set_root root (sb g)));;
      match root with
      | None => iput i;; mret (- ENOMEM)
      | Some _ => mret 0
      end
  end.

(** The handlers of the file system type; they print, and leave the rest to the kernel. *)
Definition my_vfs_put_super : M unit := mret tt.
Definition root_of (g : myvfs) : option handle := s_root (sb g).
Definition put_root (r : option handle) (g : myvfs) : myvfs := set_sb (set_root r (sb g)) g.
Definition my_kill_litter_super (s : handle) : M unit := kill_litter_super root_of put_root my_vfs_put_super s.
Definition my_vfs_mount (now : Z) : M (handle + Z) :=
  root ← mount_nodev put_root (my_vfs_fill_sb now) my_kill_litter_super;
  mret root.

(** ** Loading and unloading *)

Definition my_vfs_init : M Z :=
  ret ← register_filesystem "MyVFS";
  if decide (ret ≠ 0) then mret ret
  else
    p ← kmalloc 8;
    set_g (set_area_ptr p);;
    match p with
    | None => kfree p;; mret (- ENOMEM)
    | Some _ =>
        c ← kmem_cache_create SLAB_NAME 8;
        set_g (set_cache c);;
        match c with
        | None => kmem_cache_destroy c;; kfree p;; mret (- ENOMEM)
        | Some _ =>
            o ← kmem_cache_alloc c;
            set_g (set_area o);;
            match o with
            | None =>
                kmem_cache_free c o;;
                kmem_cache_destroy c;;
                kfree p;;
                mret (- ENOMEM)
            | Some _ => mret 0
            end
        end
    end.

(** [*cache_mem_area]. *)
Definition area_load : M (option handle) := λ s,
  match cache_mem_area (glob s) with
  | None => Fault NullDeref
  | Some _ => Ok (area (glob s), s)
  end.

Definition my_vfs_exit : M unit :=
  g ← get_g;
  o ← area_load;
  kmem_cache_free (cache g) o;;
  kmem_cache_destroy (cache g);;
  kfree (cache_mem_area g);;
  unregister_filesystem "MyVFS";;
  mret tt.
End Module.

Section Spec.
Context {W : Type} `{!Kernel W, !KernelLaws W}.
Implicit Types (w : W) (g : myvfs) (m : gmap handle kobj).

Definition loaded m (s : kstate W myvfs) : Prop :=
  ∃ f p c o,
    let m1 := <[f := KFilesystem "MyVFS"]> m in
    let m2 := <[p := KKmalloc 8]> m1 in
    let m3 := <[c := KCache SLAB_NAME 8]> m2 in
    cache_mem_area (glob s) = Some p ∧ cache (glob s) = Some c ∧ area (glob s) = Some o ∧
    m !! f = None ∧ m1 !! p = None ∧ fresh_for m2 c (KCache SLAB_NAME 8) ∧ m3 !! o = None ∧
    held (world s) = <[o := KCacheObj c]> m3.

Lemma my_vfs_exit_wp m w g :
  (∀ h, m !! h ≠ Some (KFilesystem "MyVFS")) → loaded m (KState w g) →
  wp my_vfs_exit (λ _ s, held (world s) = m) (KState w g).
Proof.
  intros Hno (f & p & c & o & Hp & Hc & Ho & Hf & Hpn & Hcf & Hon & Hheld). simpl in *.
  unfold my_vfs_exit. apply wp_bind, wp_get_g, wp_bind.
  eapply wp_Ok; [unfold area_load; simpl; by rewrite Hp|]. rewrite Hc, Ho, Hp.
  apply wp_bind, wp_kmem_cache_free; [by rewrite Hheld, lookup_insert_eq|].
  intros w1 Hw1. rewrite Hheld, delete_insert_id in Hw1 by done.
  apply wp_bind. eapply wp_kmem_cache_destroy; [done|by eapply ff_new| |].
  { intros h Hh. by apply (ff_child _ _ _ Hcf _ _ Hh). }
  intros w2 Hw2. apply wp_bind. eapply wp_release_last; [done..|]. intros w3 Hw3.
  apply wp_bind. eapply wp_unregister_filesystem; [done..|]. intros w4 Hw4. by apply wp_ret.
Qed.

(** Which of the four acquisitions of [my_vfs_init] is the first that fails. *)
Inductive init_case := NoFs (e : Z) | NoArea | NoCache | NoObject | Loads.

Definition my_vfs_case (w : W) : init_case :=
  match acquire (KFilesystem "MyVFS") w with
  | (inr e, _) => NoFs e
  | (inl _, w) =>
      match acquire (KKmalloc 8) w with
      | (inr _, _) => NoArea
      | (inl _, w) =>
          match acquire (KCache SLAB_NAME 8) w with
          | (inr _, _) => NoCache
          | (inl c, w) => match acquire (KCacheObj c) w with (inr _, _) => NoObject | (inl _, _) => Loads end
          end
      end
  end.

Lemma my_vfs_init_cases w b :
  match my_vfs_case w with
  | NoFs e => e < 0 ∧ wp my_vfs_init (λ r s, r = e ∧ held (world s) = held w) (KState w (unloaded b))
  | NoArea | NoCache => wp my_vfs_init (λ r s, r = - ENOMEM ∧ ∃ f, held w !! f = None ∧
      held (world s) = <[f := KFilesystem "MyVFS"]> (held w)) (KState w (unloaded b))
  | NoObject => my_vfs_init (KState w (unloaded b)) = Fault BadFree
  | Loads => wp my_vfs_init (λ r s, r = 0 ∧ loaded (held w) s) (KState w (unloaded b))
  end.
Proof.
  unfold my_vfs_case, wp, my_vfs_init, register_filesystem, register, kmalloc, kmem_cache_create, kmem_cache_alloc,
    alloc, set_g, mbind, prog_bind. simpl.
  destruct (acquire (KFilesystem "MyVFS") w) as [[f|e] w1] eqn:E1.
  2: { destruct (acquire_err _ _ _ _ E1) as [Hw1 He]. split; [done|]. rewrite decide_True by lia. by eexists _, _. }
  destruct (acquire_ok _ _ _ _ E1) as [Hf Hw1]. pose proof (ff_new _ _ _ Hf) as Hfn. simpl.
  destruct (acquire (KKmalloc 8) w1) as [[p|e] w2] eqn:E2.
  2: { destruct (acquire_err _ _ _ _ E2) as [Hw2 _]. eexists _, _. split; [done|]. split; [done|]. exists f. simpl. split; [done|congruence]. }
  destruct (acquire_ok _ _ _ _ E2) as [Hp Hw2]. pose proof (ff_new _ _ _ Hp) as Hpn. rewrite Hw1 in Hpn. simpl.
  destruct (acquire (KCache SLAB_NAME 8) w2) as [[c|e] w3] eqn:E3; simpl.
  2: { destruct (acquire_err _ _ _ _ E3) as [Hw3 _]. unfold release. simpl. rewrite Hw3, Hw2, lookup_insert_eq. simpl.
       eexists _, _. split; [done|]. split; [done|]. exists f. split; [done|]. simpl.
       by rewrite held_forget, Hw3, Hw2, Hw1, delete_insert_id. }
  destruct (acquire_ok _ _ _ _ E3) as [Hc Hw3].
  destruct (acquire (KCacheObj c) w3) as [[o|e] w4] eqn:E4; simpl; [|done].
  destruct (acquire_ok _ _ _ _ E4) as [Ho Hw4]. eexists _, _. split; [done|]. split; [done|].
  rewrite Hw2, Hw1 in Hc. pose proof (ff_new _ _ _ Ho) as Hon. rewrite Hw3, Hw2, Hw1 in Hon.
  exists f, p, c, o. simpl. split_and!; [done..|congruence].
Qed.

(** C36: loading, by the first acquisition that fails: without the registration it
    returns that error and leaves nothing behind; without the array or the cache it
    returns -ENOMEM and leaves exactly the registration; without the object, and only
    then, it faults, as [kmem_cache_free] gets NULL; if none fails it returns 0, and
    then unloading gives back everything. *)
Theorem myvfs_load_unload w b :
  (∀ h, held w !! h ≠ Some (KFilesystem "MyVFS")) →
  match my_vfs_case w with
  | NoFs e => e < 0 ∧ wp my_vfs_init (λ r s, r = e ∧ held (world s) = held w) (KState w (unloaded b))
  | NoArea | NoCache => wp my_vfs_init (λ r s, r = - ENOMEM ∧ ∃ f, held w !! f = None ∧
      held (world s) = <[f := KFilesystem "MyVFS"]> (held w)) (KState w (unloaded b))
  | NoObject => my_vfs_init (KState w (unloaded b)) = Fault BadFree
  | Loads => wp my_vfs_init (λ r s, r = 0 ∧ wp my_vfs_exit (λ _ s', held (world s') = held w) s) (KState w (unloaded b))
  end.
Proof.
  intros Hno. pose proof (my_vfs_init_cases w b) as H. destruct (my_vfs_case w); [exact H..|].
  eapply wp_mono; [exact H|]. intros r [w' g] [-> Hl]. split; [done|]. by apply my_vfs_exit_wp.
Qed.

(** Mounting makes a root directory owning its inode, or fails with -ENOMEM
    when there is no inode; when there is no memory for the root, its error path
    puts the inode a second time. *)
Theorem myvfs_fill_sb now w g :
  (∃ s, my_vfs_fill_sb now (KState w g) = Ok (- ENOMEM, s) ∧ held (world s) = held w ∧ s_root (sb (glob s)) = None) ∨
  (∃ s i d, my_vfs_fill_sb now (KState w g) = Ok (0, s) ∧
    held w !! i = None ∧ <[i := KInode]> (held w) !! d = None ∧
    held (world s) = <[d := KDentry i]> (<[i := KInode]> (held w)) ∧
    inodes (glob s) !! i = Some (Inode 1 (S_IFDIR + 493) 4096 now) ∧
    sb (glob s) = SuperBlock 4096 12 MYVFS_MAGIC_NUMBER (Some d)) ∨
  my_vfs_fill_sb now (KState w g) = Fault BadFree.
Proof.
  unfold my_vfs_fill_sb, my_vfs_make_inode, new_inode, d_make_root, mbind, prog_bind, set_g. simpl.
  destruct (alloc_spec KInode (KState w (set_sb (SuperBlock 4096 12 MYVFS_MAGIC_NUMBER None) g)))
    as ([i|] & [w1 g1] & -> & Hg & Ha); simpl in *; subst g1; [destruct Ha as [Hi Hw1]|left; by eexists].
  pose proof (ff_new _ _ _ Hi) as Hin.
  destruct (alloc_spec (KDentry i) (KState w1 (set_inode i (Inode 1 (Z.lor S_IFDIR 493) 4096 now)
    (set_sb (SuperBlock 4096 12 MYVFS_MAGIC_NUMBER None) g))))
    as ([d|] & [w2 g2] & -> & Hg & Ha); simpl in *; subst g2; right.
  - destruct Ha as [Hd Hw2]. pose proof (ff_new _ _ _ Hd) as Hdn. left. eexists _, i, d. split; [done|].
    simpl. split_and!; [done|congruence|congruence|apply lookup_insert_eq|done].
  - right. unfold iput, release. simpl. rewrite Ha, Hw1, lookup_insert_eq. simpl.
    by rewrite held_forget, Ha, Hw1, lookup_delete_eq.
Qed.

Lemma myvfs_fills now w g :
  if root_fails w then my_vfs_fill_sb now (KState w g) = Fault BadFree
  else wp (my_vfs_fill_sb now) (fills root_of w) (KState w g).
Proof.
  unfold root_fails, fills, root_of, wp, my_vfs_fill_sb, my_vfs_make_inode, new_inode, d_make_root, alloc, mbind, prog_bind, set_g. simpl.
  destruct (acquire KInode w) as [[i|e] w1] eqn:E1; simpl.
  2: { destruct (acquire_err _ _ _ _ E1) as [Hw1 _]. eexists _, _. split; [done|]. left. done. }
  destruct (acquire_ok _ _ _ _ E1) as [Hi Hw1]. pose proof (ff_new _ _ _ Hi) as Hin.
  destruct (acquire (KDentry i) w1) as [[d|e] w2] eqn:E2; simpl.
  - destruct (acquire_ok _ _ _ _ E2) as [Hd Hw2]. pose proof (ff_new _ _ _ Hd) as Hdn.
    eexists _, _. split; [done|]. right. split; [done|]. exists i, d. simpl. split_and!; congruence.
  - destruct (acquire_err _ _ _ _ E2) as [Hw2 _]. unfold iput, release. simpl. rewrite Hw2, Hw1, lookup_insert_eq. simpl.
    by rewrite held_forget, Hw2, Hw1, lookup_delete_eq.
Qed.

Lemma myvfs_mounted now w g :
  if no_root w then my_vfs_mount now (KState w g) = Fault BadFree
  else ∃ r s, my_vfs_mount now (KState w g) = Ok (r, s) ∧
    match r with
    | inr e => e < 0 ∧ held (world s) = held w
    | inl sb => (∃ d, root_of (glob s) = Some d ∧ is_Some (held (world s) !! d)) ∧
        ∀ w', held w' = held (world s) →
          ∃ s', my_kill_litter_super sb (KState w' (glob s)) = Ok (tt, s') ∧ held (world s') = held w
    end.
Proof.
  unfold my_vfs_mount, mbind, prog_bind.
  change my_kill_litter_super with (kill_anon_super root_of put_root my_vfs_put_super (W:=W)).
  pose proof (mount_cycle root_of put_root (λ _ _, eq_refl) BadFree (my_vfs_fill_sb now) my_vfs_put_super w g) as H. simpl in H.
  destruct (no_root w).
  - by rewrite H; [|done|intros w' g' _; apply myvfs_fills].
  - destruct H as (r & s & -> & H); [done|intros w' g' _; apply myvfs_fills|]. by exists r, s.
Qed.

(** Mounting fails leaving nothing behind, or gives a super block with a root directory
    that unmounting gives back with everything else; when there is no memory for the root
    the inode is put twice. *)
Theorem myvfs_mount_umount now w g :
  my_vfs_mount now (KState w g) = Fault BadFree ∨
  ∃ r s, my_vfs_mount now (KState w g) = Ok (r, s) ∧
    match r with
    | inr e => e < 0 ∧ held (world s) = held w
    | inl sb => (∃ d, root_of (glob s) = Some d ∧ is_Some (held (world s) !! d)) ∧
        ∃ s', my_kill_litter_super sb s = Ok (tt, s') ∧ held (world s') = held w
    end.
Proof.
  pose proof (myvfs_mounted now w g) as H. destruct (no_root w); [by left|right].
  destruct H as (r & s & Hr & H). exists r, s. split; [exact Hr|].
  destruct r as [sb|e]; [|exact H]. destruct H as [Hd Hk]. split; [exact Hd|]. destruct s. by apply Hk.
Qed.
End Spec.

(** ** The theorems at work *)

Definition no_sb : super_block := SuperBlock 0 0 0 None.

Lemma myvfs_load_unload_witness :
  my_vfs_case (Ledger ∅ 0 []) = Loads ∧
  wp my_vfs_init (λ r s, r = 0 ∧ wp my_vfs_exit (λ _ s', l_held (world s') = ∅) s)
    (KState (Ledger ∅ 0 []) (unloaded no_sb)).
Proof.
  split; [vm_compute; reflexivity|].
  refine (myvfs_load_unload (Ledger ∅ 0 []) no_sb _). exact (λ h, lookup_empty_Some h _).
Defined.

Lemma myvfs_fill_sb_witness :
  (∃ s, my_vfs_fill_sb 5 (KState (Ledger ∅ 0 []) (unloaded no_sb)) = Ok (- ENOMEM, s) ∧
    l_held (world s) = ∅ ∧ s_root (sb (glob s)) = None) ∨
  (∃ s i d, my_vfs_fill_sb 5 (KState (Ledger ∅ 0 []) (unloaded no_sb)) = Ok (0, s) ∧
    (∅ : gmap handle kobj) !! i = None ∧ <[i := KInode]> (∅ : gmap handle kobj) !! d = None ∧
    l_held (world s) = <[d := KDentry i]> (<[i := KInode]> ∅) ∧
    inodes (glob s) !! i = Some (Inode 1 (S_IFDIR + 493) 4096 5) ∧
    sb (glob s) = SuperBlock 4096 12 MYVFS_MAGIC_NUMBER (Some d)) ∨
  my_vfs_fill_sb 5 (KState (Ledger ∅ 0 []) (unloaded no_sb)) = Fault BadFree.
Proof. exact (myvfs_fill_sb 5 (Ledger ∅ 0 []) (unloaded no_sb)). Defined.

Example myvfs_frees_null :
  my_vfs_init (KState (Ledger ∅ 0 [3%nat]) (unloaded no_sb)) = Fault BadFree.
Proof. vm_compute. reflexivity. Qed.
Example myvfs_puts_twice :
  my_vfs_fill_sb 5 (KState (Ledger ∅ 0 [1%nat]) (unloaded no_sb)) = Fault BadFree.
Proof. vm_compute. reflexivity. Qed.

Lemma myvfs_mount_umount_witness :
  ∃ r s, my_vfs_mount 5 (KState (Ledger ∅ 0 []) (unloaded no_sb)) = Ok (r, s) ∧
    match r with
    | inr e => e < 0 ∧ l_held (world s) = ∅
    | inl sb => (∃ d, root_of (glob s) = Some d ∧ is_Some (l_held (world s) !! d)) ∧
        ∃ s', my_kill_litter_super sb s = Ok (tt, s') ∧ l_held (world s') = ∅
    end.
Proof.
  destruct (myvfs_mount_umount 5 (Ledger ∅ 0 []) (unloaded no_sb)) as [H|H]; [|exact H].
  exfalso. revert H. vm_compute. congruence.
Defined.
