(* ===== verification/Slab.v ===== *)
(** * The constructors of the slab caches (7/vfs/main.c, 7/vfs/myvfs.c)

    A cache constructs every object of a new slab before it hands the first one out.
    Memory is a map from addresses to bytes; an address that is not in it does not
    belong to the slab. *)

From S2P Require Import Prelude.
From stdpp Require Import options.
Local Open Scope Z_scope.

Abbreviation memory := (gmap Z Z).

(** ** Little-endian integers of 32 bits *)

Definition byte_of (v k : Z) : Z := Z.shiftr (v mod 2 ^ 32) (8 * k) mod 256.

(** Storing the [int] [v] at the address [p], one byte after the other. *)
Fixpoint store_bytes (n : nat) (p v k : Z) (m : memory) : outcome memory :=
  match n with
  | O => Ok m
  | S n =>
      match m !! (p + k) with
      | None => Fault OutOfBounds
      | Some _ => store_bytes n p v (k + 1) (<[p + k := byte_of v k]> m)
      end
  end.

Definition store_int (p v : Z) : memory → outcome memory := store_bytes 4 p v 0.

(** The [int] at the address [p]. *)
Definition load_int (p : Z) (m : memory) : outcome Z :=
  match m !! p, m !! (p + 1), m !! (p + 2), m !! (p + 3) with
  | Some b0, Some b1, Some b2, Some b3 => Ok (int32 (b0 + 256 * (b1 + 256 * (b2 + 256 * b3))))
  | _, _, _, _ => Fault OutOfBounds
  end.

(** ** The constructors *)

(** The address, as an [int], is stored in the object itself: in main.c .. *)
Definition ctor (p : Z) : memory → outcome memory := store_int p (int32 p).

(** .. and in myvfs.c. *)
Definition func_init (p : Z) : memory → outcome memory := store_int p (int32 p).

(** What the cache does with the constructor: [n] objects of [size] bytes from [p] on. *)
Fixpoint construct (c : Z → memory → outcome memory) (size : Z) (n : nat) (p : Z) (m : memory) :
    outcome memory :=
  match n with
  | O => Ok m
  | S n => m ← c p m; construct c size n (p + size) m
  end.

(** ** Lemmas *)

Lemma int32_mod v : int32 (v mod 2 ^ 32) = int32 v.
Proof. unfold int32. by rewrite Zplus_mod_idemp_l. Qed.

Lemma int32_idemp v : int32 (int32 v) = int32 v.
Proof.
  unfold int32 at 1. replace (int32 v + 2 ^ 31) with ((v + 2 ^ 31) mod 2 ^ 32) by (unfold int32; lia).
  rewrite Z.mod_mod by lia. done.
Qed.

Lemma bytes_of_int v :
  byte_of v 0 + 256 * (byte_of v 1 + 256 * (byte_of v 2 + 256 * byte_of v 3)) = v mod 2 ^ 32.
Proof.
  unfold byte_of. set (u := v mod 2 ^ 32).
  pose proof (Z.mod_pos_bound v (2 ^ 32) ltac:(lia)) as Hu. fold u in Hu.
  rewrite !Z.shiftr_div_pow2 by lia. change (2 ^ (8 * 0)) with 1. change (2 ^ (8 * 1)) with 256.
  change (2 ^ (8 * 2)) with (256 * 256). change (2 ^ (8 * 3)) with (256 * 256 * 256).
  rewrite Z.div_1_r, <- !Z.div_div by lia.
  pose proof (Z.div_mod u 256). pose proof (Z.div_mod (u / 256) 256).
  pose proof (Z.div_mod (u / 256 / 256) 256). rewrite (Z.mod_small (u / 256 / 256 / 256)); [lia|].
  rewrite !Z.div_div by lia. split; [apply Z.div_pos; lia|apply Z.div_lt_upper_bound; lia].
Qed.

(** All of [p], .., [p + n - 1] belong to the slab. *)
Definition owned (m : memory) (p n : Z) : Prop := ∀ a, p ≤ a < p + n → is_Some (m !! a).

Lemma store_int_spec p v m :
  owned m p 4 →
  ∃ m', store_int p v m = Ok m' ∧ load_int p m' = Ok (int32 v) ∧
    (∀ a, a < p ∨ p + 4 ≤ a → m' !! a = m !! a) ∧ (∀ a, is_Some (m !! a) → is_Some (m' !! a)).
Proof.
  intros Ho. unfold store_int. cbn [store_bytes].
  assert (∀ k, 0 ≤ k < 4 → ∃ b, m !! (p + k) = Some b) as Hb by (intros k Hk; apply Ho; lia).
  destruct (Hb 0 ltac:(lia)) as [b0 H0], (Hb 1 ltac:(lia)) as [b1 H1],
    (Hb 2 ltac:(lia)) as [b2 H2], (Hb 3 ltac:(lia)) as [b3 H3].
  change (0 + 1) with 1. change (1 + 1) with 2. change (2 + 1) with 3.
  rewrite H0, !lookup_insert_ne, H1, H2, H3 by lia.
  eexists. split; [done|]. split_and!.
  - unfold load_int. rewrite Z.add_0_r.
    repeat first [rewrite lookup_insert_eq|rewrite lookup_insert_ne by lia].
    by rewrite bytes_of_int, int32_mod.
  - intros a Ha. by rewrite !lookup_insert_ne by lia.
  - intros a Ha. by rewrite !lookup_insert_is_Some'; eauto 6.
Qed.

(** ** Theorem *)

(** When a slab of [n] objects of at least four bytes is constructed, no byte
    outside it is touched, every object starts with the low 32 bits of its own
    address, and the bytes after these are left alone. *)
Theorem slab_constructed c size n p m :
  c = ctor ∨ c = func_init → 4 ≤ size → owned m p (Z.of_nat n * size) →
  ∃ m', construct c size n p m = Ok m' ∧
    (∀ i, 0 ≤ i < Z.of_nat n → load_int (p + i * size) m' = Ok (int32 (p + i * size))) ∧
    (∀ a, (∀ i, 0 ≤ i < Z.of_nat n → a < p + i * size ∨ p + i * size + 4 ≤ a) → m' !! a = m !! a).
Proof.
  intros Hc Hs. assert (c = λ p, store_int p (int32 p)) as -> by (by destruct Hc). clear Hc.
  revert p m. induction n as [|n IH]; intros p m Ho; [exists m; split; [done|]; split; [lia|done]|].
  destruct (store_int_spec p (int32 p) m) as (m1 & H1 & Hl & Hout & Hown).
  { intros a Ha. apply Ho. nia. }
  destruct (IH (p + size) m1) as (m2 & H2 & Hi & Hm2).
  { intros a Ha. apply Hown, Ho. nia. }
  exists m2. simpl. rewrite H1. simpl. split; [done|]. split.
  - intros i Hn. destruct (decide (i = 0)) as [->|].
    + rewrite Z.mul_0_l, Z.add_0_r. rewrite <- int32_idemp, <- Hl. unfold load_int.
      assert (∀ a, p ≤ a < p + 4 → m2 !! a = m1 !! a) as He
        by (intros a Ha; apply Hm2; intros j Hj; left; nia).
      by rewrite !He by lia.
    + specialize (Hi (i - 1) ltac:(lia)). by replace (p + size + (i - 1) * size) with (p + i * size) in Hi by lia.
  - intros a Ha. rewrite Hm2.
    + apply Hout. specialize (Ha 0 ltac:(lia)). lia.
    + intros j Hj. specialize (Ha (j + 1) ltac:(lia)). lia.
Qed.

(** Two objects whose addresses differ by 4 GiB carry the same mark. *)
Lemma marks_collide p : int32 (p + 2 ^ 32) = int32 p.
Proof.
  unfold int32. replace (p + 2 ^ 32 + 2 ^ 31) with (p + 2 ^ 31 + 1 * 2 ^ 32) by lia.
  by rewrite Z.mod_add by lia.
Qed.

Definition zeros (p : Z) (n : nat) : memory :=
  list_to_map ((λ a, (a, 0)) <$> seqZ p (Z.of_nat n)).

Lemma zeros_lookup p n a : p ≤ a < p + Z.of_nat n → zeros p n !! a = Some 0.
Proof.
  intros Ha. unfold zeros. apply elem_of_list_to_map_1.
  - rewrite <- list_fmap_compose. simpl. rewrite list_fmap_id. apply NoDup_seqZ.
  - apply (list_elem_of_fmap_2 (λ a, (a, 0)) _ a). apply elem_of_seqZ. lia.
Qed.

Lemma slab_constructed_witness :
  ∃ m', construct ctor 16 2 0x7f12345600 (zeros 0x7f12345600 32) = Ok m' ∧
    load_int 0x7f12345610 m' = Ok 0x12345610.
Proof.
  destruct (slab_constructed ctor 16 2 0x7f12345600 (zeros 0x7f12345600 32)) as (m' & Hc & Hi & _).
  - by left.
  - lia.
  - intros a Ha. exists 0. apply zeros_lookup. lia.
  - exists m'. split; [exact Hc|]. exact (Hi 1 ltac:(lia)).
Defined.
