(* ===== verification/FsTypes.v ===== *)
(** * The file systems as the kernel uses them (7/vfs)

    Both modules hand the kernel tables: the type, with which it mounts and unmounts, the
    operations of a super block, and those of the root directory. Their other entries are
    functions of the kernel: a type class, with what is documented of them as laws. *)

From S2P Require Import Prelude Kernel KernelFs Myfs MyfsSpec Myvfs.
From stdpp Require Import options.
#[local] Set Default Proof Using "Type*".
Local Open Scope Z_scope.

Definition ENOTDIR : Z := 20.
Definition ENODEV : Z := 19.

(** ** Tables *)

Record file_system_type (W G : Type) := FileSystemType {
  name : string;
  mount : Z → prog (kstate W G) (handle + Z);   (* at a given time *)
  kill_sb : handle → prog (kstate W G) unit
}.
Record super_operations (W G : Type) := SuperOperations {
  put_super : prog (kstate W G) unit;
  statfs : handle → prog (kstate W G) Z;
  drop_inode : handle → prog (kstate W G) Z
}.
Record inode_operations (W G : Type) := InodeOperations {
  lookup : handle → string → prog (kstate W G) Z
}.
(** An entry that is not set is [None]. *)
Record file_operations (W G : Type) := FileOperations {
  iterate : option (handle → prog (kstate W G) Z)
}.
Arguments FileSystemType {W G} _ _ _.
Arguments SuperOperations {W G} _ _ _.
Arguments InodeOperations {W G} _.
Arguments FileOperations {W G} _.
Arguments name {W G} _.
Arguments mount {W G} _ _.
Arguments kill_sb {W G} _ _.
Arguments put_super {W G} _.
Arguments statfs {W G} _ _.
Arguments drop_inode {W G} _ _.
Arguments lookup {W G} _ _ _.
Arguments iterate {W G} _.

(** What filling a super block makes it point to, and where its root is. *)
Record tables (W G : Type) := Tables {
  t_type : file_system_type W G;
  s_op : super_operations W G;
  i_op : inode_operations W G;
  i_fop : file_operations W G;
  t_root : G → option handle
}.
Arguments Tables {W G} _ _ _ _ _.
Arguments t_type {W G} _.
Arguments s_op {W G} _.
Arguments i_op {W G} _.
Arguments i_fop {W G} _.
Arguments t_root {W G} _ _.

(** The kernel's simple file systems, on a root dentry (an inode for the second). *)
Class FsLib (W : Type) := {
  simple_statfs {G} : handle → prog (kstate W G) Z;
  generic_delete_inode {G} : handle → prog (kstate W G) Z;
  simple_lookup {G} : handle → string → prog (kstate W G) Z;
  simple_dir_inode_operations {G} : inode_operations W G;
  simple_dir_operations {G} : file_operations W G
}.

(** Whatever the result, the module's data and the objects held stay as they are. *)
Definition harmless {W G A} `{!Kernel W} (m : prog (kstate W G) A) : Prop := ∀ w g,
  wp m (λ _ s, glob s = g ∧ held (world s) = held w) (KState w g).

Class FsLibLaws (W : Type) `{!Kernel W, !FsLib W} := {
  simple_statfs_ok {G} d : harmless (simple_statfs (G := G) d);
  generic_delete_inode_ok {G} d : harmless (generic_delete_inode (G := G) d);
  simple_lookup_ok {G} d n : harmless (simple_lookup (G := G) d n);
  simple_dir_lookup_ok {G} d n : harmless (lookup (simple_dir_inode_operations (G := G)) d n);
  simple_dir_iterate_ok {G} f d : iterate (simple_dir_operations (G := G)) = Some f → harmless (f d)
}.

(** ** The tables of the two modules *)

(** 7/vfs/main.c *)
Module MyfsTables.
Section Tables.
Context {W : Type} `{!Kernel W, !FsLib W}.
Definition myfs_inode_ops : inode_operations W myfs := InodeOperations simple_lookup.
Definition myfs_fops : file_operations W myfs := FileOperations None.
Definition myfs_sup_ops : super_operations W myfs :=
  SuperOperations Myfs.myfs_put_super simple_statfs generic_delete_inode.
Definition myfs_type : file_system_type W myfs :=
  FileSystemType "myfs" Myfs.myfs_mount Myfs.my_kill_block_super.
Definition mounted : tables W myfs := Tables myfs_type myfs_sup_ops myfs_inode_ops myfs_fops Myfs.root_of.
End Tables.
End MyfsTables.

(** 7/vfs/myvfs.c *)
Module MyvfsTables.
Section Tables.
Context {W : Type} `{!Kernel W, !FsLib W}.
Definition my_vfs_sup_ops : super_operations W myvfs :=
  SuperOperations Myvfs.my_vfs_put_super simple_statfs generic_delete_inode.
Definition my_vfs_type : file_system_type W myvfs :=
  FileSystemType "MyVFS" Myvfs.my_vfs_mount Myvfs.my_kill_litter_super.
Definition mounted : tables W myvfs :=
  Tables my_vfs_type my_vfs_sup_ops simple_dir_inode_operations simple_dir_operations Myvfs.root_of.
End Tables.
End MyvfsTables.

(** ** Mounting, using and unmounting *)

Section Sessions.
Context {W : Type} `{!Kernel W} {G : Type} (t : tables W G).
Abbreviation M := (prog (kstate W G)).

(** System calls on the mounted root. *)
Inductive fs_access := Statfs | Lookup (n : string) | Readdir.

Definition run_fs_access (a : fs_access) : M Z :=
  g ← get_g;
  match t_root t g with
  | None => crash NullDeref
  | Some d =>
      match a with
      | Statfs => statfs (s_op t) d
      | Lookup n => lookup (i_op t) d n
      | Readdir => match iterate (i_fop t) with Some f => f d | None => mret (- ENOTDIR) end
      end
  end.

Fixpoint run_fs_accesses (l : list fs_access) : M (list Z) :=
  match l with
  | [] => mret []
  | a :: l => r ← run_fs_access a; rs ← run_fs_accesses l; mret (r :: rs)
  end.

(** [mount] of the system: the type must be registered. *)
Definition sys_mount (now : Z) : M (handle + Z) := λ s,
  match find_obj (λ o, bool_decide (o = KFilesystem (name (t_type t)))) (held (world s)) with
  | Some _ => mount (t_type t) now s
  | None => Ok (inr (- ENODEV), s)
  end.

(** The file system is mounted, used and unmounted, again and again; the result has what
    the calls have returned each time it could be mounted. *)
Fixpoint fs_sessions (ls : list (Z * list fs_access)) : M (list (list Z)) :=
  match ls with
  | [] => mret []
  | (now, l) :: ls =>
      r ← sys_mount now;
      match r with
      | inl sb =>
          rs ← run_fs_accesses l;
          kill_sb (t_type t) sb;;
          rss ← fs_sessions ls;
          mret (rs :: rss)
      | inr _ => fs_sessions ls
      end
  end.
End Sessions.

(** ** Parts of the module's data that a call leaves alone *)

Class Keeps {W G B A} (f : G → B) (m : prog (kstate W G) A) : Prop :=
  keeps_ok s a s' : m s = Ok (a, s') → f (glob s') = f (glob s).

Section Keeps.
Context {W : Type} `{!Kernel W} {G B : Type} (f : G → B).

#[export] Instance keeps_ret {A} (a : A) : Keeps f (mret (M := prog (kstate W G)) a).
Proof. by intros s a' s' [= _ <-]. Qed.
#[export] Instance keeps_crash {A} e : Keeps f (crash e : prog (kstate W G) A).
Proof. by intros s a' s'. Qed.
#[export] Instance keeps_get : Keeps f (get_g : prog (kstate W G) G).
Proof. by intros s a' s' [= _ <-]. Qed.
#[export] Instance keeps_alloc o : Keeps f (alloc o : prog (kstate W G) _).
Proof. intros s a' s'. unfold alloc. by destruct (acquire o (world s)) as [[]] => - [= _ <-]. Qed.
#[export] Instance keeps_release P h : Keeps f (release P h : prog (kstate W G) unit).
Proof. intros s a' s'. unfold release. by repeat case_match; try done; intros [= _ <-]. Qed.

Lemma keeps_bind {A C} (m : prog (kstate W G) A) (k : A → prog (kstate W G) C) :
  Keeps f m → (∀ a, Keeps f (k a)) → Keeps f (m ≫= k).
Proof.
  intros Hm Hk s c s'. unfold mbind, prog_bind. destruct (m s) as [[a s1]|] eqn:E; [|done].
  intros Hs'. by rewrite (Hk _ _ _ _ Hs'), (Hm _ _ _ E).
Qed.

Lemma keeps_set h : (∀ g, f (h g) = f g) → Keeps f (set_g h : prog (kstate W G) unit).
Proof. intros Hh s a s' [= _ <-]. apply Hh. Qed.
End Keeps.

#[export] Instance keeps_shrink {W} `{!Kernel W} {G B} (f : G → B) d :
  Keeps f (shrink_dcache_for_umount d : prog (kstate W G) unit).
Proof.
  intros s a s'. unfold shrink_dcache_for_umount, iput. destruct (held (world s) !! d) as [[]|]; try done.
  intros H. assert (∀ P Q i, Keeps f (release P d;; release Q i : prog (kstate W G) unit)) as Hk
    by (intros; apply keeps_bind; [|intros _]; apply _).
  exact (Hk _ _ _ _ _ _ H).
Qed.

Ltac keeps := repeat first
  [ apply keeps_bind; [|intros] | apply keeps_set; done | case_match | apply _ ].

(** ** Sessions keep the module *)

Section SessionSpec.
Context {W : Type} `{!Kernel W, !KernelLaws W} {G B : Type} (t : tables W G) (data : G → B) (flt : fault).
Implicit Types (s : kstate W G) (w : W) (g : G).

(** What a module owes: its entries of the tables, and what mounting may fault with. *)
Record tables_ok : Prop := {
  tb_mount now w g :
    if no_root w then mount (t_type t) now (KState w g) = Fault flt
    else ∃ r s, mount (t_type t) now (KState w g) = Ok (r, s) ∧
      match r with
      | inr e => e < 0 ∧ held (world s) = held w
      | inl sb => (∃ d, t_root t (glob s) = Some d ∧ is_Some (held (world s) !! d)) ∧
          ∀ w', held w' = held (world s) →
            ∃ s', kill_sb (t_type t) sb (KState w' (glob s)) = Ok (tt, s') ∧ held (world s') = held w
      end;
  tb_mount_keeps now : Keeps data (mount (t_type t) now);
  tb_kill_keeps sb : Keeps data (kill_sb (t_type t) sb);
  tb_statfs d : harmless (statfs (s_op t) d);
  tb_lookup d n : harmless (lookup (i_op t) d n);
  tb_iterate f d : iterate (i_fop t) = Some f → harmless (f d)
}.
Context (Ht : tables_ok).

Lemma wp_harmless {A} (m : prog (kstate W G) A) (Q : A → kstate W G → Prop) w g :
  harmless m → (∀ a w', held w' = held w → Q a (KState w' g)) → wp m Q (KState w g).
Proof. intros Hm HQ. eapply wp_mono; [apply Hm|]. intros a [w' g'] [Hg Hw]. simpl in *. subst g'. by apply HQ. Qed.

Lemma run_fs_access_ok a w g d (Q : Z → kstate W G → Prop) :
  t_root t g = Some d → (∀ r w', held w' = held w → Q r (KState w' g)) →
  wp (run_fs_access t a) Q (KState w g).
Proof.
  intros Hd HQ. apply wp_bind, wp_get_g. rewrite Hd. destruct a.
  - apply wp_harmless; [by apply tb_statfs|done].
  - apply wp_harmless; [by apply tb_lookup|done].
  - destruct (iterate (i_fop t)) as [f|] eqn:Hf; [|by apply wp_ret, HQ].
    apply wp_harmless; [by apply tb_iterate|done].
Qed.

Lemma run_fs_accesses_ok l w g d (Q : list Z → kstate W G → Prop) :
  t_root t g = Some d → (∀ rs w', length rs = length l → held w' = held w → Q rs (KState w' g)) →
  wp (run_fs_accesses t l) Q (KState w g).
Proof.
  intros Hd. revert w Q. induction l as [|a l IH]; intros w Q HQ; simpl; [by apply wp_ret, HQ|].
  apply wp_bind. eapply run_fs_access_ok; [done|]. intros r w1 Hw1. apply wp_bind.
  apply IH. intros rs w2 Hl Hw2. apply wp_ret, HQ; [simpl; congruence|congruence].
Qed.

Lemma fs_sessions_cons now l ls s :
  fs_sessions t ((now, l) :: ls) s =
    match sys_mount t now s with
    | Ok (inl sb, s1) =>
        (rs ← run_fs_accesses t l; kill_sb (t_type t) sb;; rss ← fs_sessions t ls; mret (rs :: rss)) s1
    | Ok (inr _, s1) => fs_sessions t ls s1
    | Fault f => Fault f
    end.
Proof using Type. cbn [fs_sessions]. unfold mbind at 1, prog_bind at 1. by destruct (sys_mount t now s) as [[[] ?]|]. Qed.

(** Sessions that fault do so in mounting without memory for the root directory. *)
Definition no_root_in ls s : Prop :=
  ∃ l1 now l l2 rss s1, ls = l1 ++ (now, l) :: l2 ∧ fs_sessions t l1 s = Ok (rss, s1) ∧
    no_root (world s1) = true ∧ fs_sessions t ls s = Fault flt.

Lemma no_root_later now l ls s s1 (f : list (list Z) → list (list Z)) :
  (∀ ls', fs_sessions t ((now, l) :: ls') s = match fs_sessions t ls' s1 with
     | Ok (rss, s2) => Ok (f rss, s2) | Fault e => Fault e end) →
  no_root_in ls s1 → no_root_in ((now, l) :: ls) s.
Proof using Type.
  intros Hcons (l1 & now' & l' & l2 & rss & s2 & -> & Hr & Hno & Hf).
  exists ((now, l) :: l1), now', l', l2, (f rss), s2. split; [done|]. by rewrite !Hcons, Hr, Hf.
Qed.

(** A property of what is held and of [data] lasts over any number of mounts. *)
Lemma fs_sessions_ok (P : gmap handle kobj → B → Prop) ls w g :
  P (held w) (data g) →
  no_root_in ls (KState w g) ∨
  wp (fs_sessions t ls) (λ rss s, sublist (length <$> rss) (length ∘ snd <$> ls) ∧ P (held (world s)) (data (glob s)))
    (KState w g).
Proof.
  revert w g. induction ls as [|[now l] ls IH]; intros w g HP; [right; by apply wp_ret|].
  assert (∀ s1 f, (∀ ls', fs_sessions t ((now, l) :: ls') (KState w g) = match fs_sessions t ls' s1 with
      | Ok (rss, s2) => Ok (f rss, s2) | Fault e => Fault e end) →
    P (held (world s1)) (data (glob s1)) → (∀ rss, length <$> f rss = length <$> rss ∨ length <$> f rss = length l :: (length <$> rss)) →
    no_root_in ((now, l) :: ls) (KState w g) ∨ wp (fs_sessions t ((now, l) :: ls)) (λ rss s,
      sublist (length <$> rss) (length ∘ snd <$> (now, l) :: ls) ∧ P (held (world s)) (data (glob s))) (KState w g)) as Hnext.
  { intros [w1 g1] f Hcons HP1 Hf. destruct (IH w1 g1 HP1) as [Hno|(rss & s & Hs & Hl & HP')].
    - left. by eapply no_root_later.
    - right. exists (f rss), s. rewrite Hcons, Hs. split; [done|]. split; [|done].
      destruct (Hf rss) as [->| ->]; simpl; [by apply sublist_cons|by apply sublist_skip]. }
  clear IH. pose proof (λ ls', fs_sessions_cons now l ls' (KState w g)) as Hcons. unfold sys_mount in Hcons. cbn [world] in Hcons.
  destruct (find_obj _ _) as [h|].
  2: { apply (Hnext (KState w g) id); [|done|by left]. intros ls'. rewrite Hcons. by destruct (fs_sessions t ls' _) as [[]|]. }
  pose proof (tb_mount Ht now w g) as Hm. destruct (no_root w) eqn:Hno.
  { left. exists [], now, l, ls, [], (KState w g). split_and!; [done|done|done|]. by rewrite Hcons, Hm. }
  destruct Hm as (r & [w1 g1] & Hr & Hres).
  pose proof (tb_mount_keeps Ht now _ _ _ Hr) as Hk1. simpl in Hk1. rewrite Hr in Hcons. destruct r as [sb|e]; simpl in Hres.
  - destruct Hres as [(d & Hd & _) Hkill].
    assert (wp (run_fs_accesses t l ≫= λ rs, kill_sb (t_type t) sb;; mret rs)
      (λ rs s, length rs = length l ∧ P (held (world s)) (data (glob s))) (KState w1 g1))
      as (rs & s2 & Hrun & Hlen & HP2).
    { apply wp_bind. eapply run_fs_accesses_ok; [done|]. intros rs w2 Hl Hw2.
      destruct (Hkill w2 Hw2) as (s3 & Hs3 & Hh3). apply wp_bind. eapply wp_Ok; [exact Hs3|]. apply wp_ret.
      split; [done|]. rewrite Hh3, (tb_kill_keeps Ht sb _ _ _ Hs3). simpl. by rewrite Hk1. }
    apply (Hnext s2 (cons rs)); [|done|intros rss; right; simpl; by rewrite Hlen]. intros ls'. rewrite Hcons.
    revert Hrun. unfold mbind, prog_bind, mret, prog_ret. destruct (run_fs_accesses t l _) as [[rs1 s1]|]; [|done].
    destruct (kill_sb _ sb s1) as [[[] s3]|]; [|done]. by intros [= -> ->].
  - destruct Hres as [_ Hw1]. apply (Hnext (KState w1 g1) id); [|simpl; by rewrite Hw1, Hk1|by left].
    intros ls'. rewrite Hcons. by destruct (fs_sessions t ls' _) as [[]|].
Qed.
End SessionSpec.

(** ** The two file systems *)

Section Modules.
Context {W : Type} `{!Kernel W, !KernelLaws W, !FsLib W, !FsLibLaws W}.
Implicit Types (w : W) (m : gmap handle kobj).

Definition myfs_data (g : myfs) := (Myfs.slab g, Myfs.slab_mem g, Myfs.cache g).
Definition myvfs_data (g : myvfs) := (Myvfs.cache_mem_area g, Myvfs.area g, Myvfs.cache g).

Lemma myfs_tables_ok : tables_ok (MyfsTables.mounted (W := W)) myfs_data NullDeref.
Proof.
  split; simpl.
  - intros now w g. apply MyfsSpec.myfs_mounted.
  - intros now. unfold Myfs.myfs_mount, mount_nodev, Myfs.my_simple_fill_super, Myfs.my_kill_block_super, kill_anon_super,
      Myfs.myfs_put_super, new_inode, d_make_root, d_genocide, shrink_dcache_parent, walk_dentry, dput, iput. keeps.
  - intros sb. unfold Myfs.my_kill_block_super, kill_anon_super, Myfs.myfs_put_super. keeps.
  - apply simple_statfs_ok.
  - apply simple_lookup_ok.
  - done.
Qed.

Lemma myvfs_tables_ok : tables_ok (MyvfsTables.mounted (W := W)) myvfs_data BadFree.
Proof.
  split; simpl.
  - intros now w g. apply Myvfs.myvfs_mounted.
  - intros now. unfold Myvfs.my_vfs_mount, mount_nodev, Myvfs.my_vfs_fill_sb, Myvfs.my_vfs_make_inode, Myvfs.my_kill_litter_super,
      kill_litter_super, kill_anon_super, Myvfs.my_vfs_put_super, new_inode, d_make_root, iput. keeps.
  - intros sb. unfold Myvfs.my_kill_litter_super, kill_litter_super, kill_anon_super, Myvfs.my_vfs_put_super. keeps.
  - apply simple_statfs_ok.
  - apply simple_dir_lookup_ok.
  - apply simple_dir_iterate_ok.
Qed.

(** Being loaded is a property of what is held and of that data. *)
Lemma myfs_loaded_ext m w g w' g' :
  MyfsSpec.loaded m (KState w g) → held w' = held w → myfs_data g' = myfs_data g → MyfsSpec.loaded m (KState w' g').
Proof.
  intros (f & p & c & hs & Hf & Hb & Hlen & [] & Hfr & Hheld) Hw [= E1 E2 E3]. exists f, p, c, hs. simpl in *.
  split_and!; try done; [|congruence]. split; try congruence. intros k h Hk. rewrite E2. eauto.
Qed.

Lemma myvfs_loaded_ext m w g w' g' :
  Myvfs.loaded m (KState w g) → held w' = held w → myvfs_data g' = myvfs_data g → Myvfs.loaded m (KState w' g').
Proof.
  intros (f & p & c & o & Hp & Hc & Ho & Hf & Hpn & Hcf & Hon & Hheld) Hw [= E1 E2 E3]. exists f, p, c, o. simpl in *.
  split_and!; try done; congruence.
Qed.

(** C19: the file systems from loading to unloading. After init has succeeded, the file
    system can be mounted, used and unmounted any number of times, which gives an answer
    to every call, and then exit gives back everything - unless one of the mounts gets
    a super block and an inode but no memory for the root directory: there, and only
    there, it faults, after the sessions before it have ended. The root of myfs cannot
    be listed. *)
Theorem file_systems_life ls w :
  (∀ b s, (∀ h, held w !! h ≠ Some (KFilesystem "myfs")) → Myfs.myfs_init (KState w (Myfs.unloaded b)) = Ok (0, s) →
    no_root_in MyfsTables.mounted NullDeref ls s ∨
    wp (fs_sessions MyfsTables.mounted ls) (λ rss s', sublist (length <$> rss) (length ∘ snd <$> ls) ∧
      wp Myfs.myfs_exit (λ _ s'', held (world s'') = held w) s') s) ∧
  (∀ b s, (∀ h, held w !! h ≠ Some (KFilesystem "MyVFS")) → Myvfs.my_vfs_init (KState w (Myvfs.unloaded b)) = Ok (0, s) →
    no_root_in MyvfsTables.mounted BadFree ls s ∨
    wp (fs_sessions MyvfsTables.mounted ls) (λ rss s', sublist (length <$> rss) (length ∘ snd <$> ls) ∧
      wp Myvfs.my_vfs_exit (λ _ s'', held (world s'') = held w) s') s) ∧
  (∀ (s : kstate W myfs) d, Myfs.root_of (glob s) = Some d →
    run_fs_access MyfsTables.mounted Readdir s = Ok (- ENOTDIR, s)).
Proof.
  split_and!; [| |by intros s d Hd; unfold run_fs_access, mbind, prog_bind, get_g; simpl; rewrite Hd].
  - intros b [w1 g1] Hno Hinit. destruct (MyfsSpec.myfs_init_wp w b) as (r & s & Hi & Hr).
    rewrite Hinit in Hi. injection Hi as <- <-. destruct Hr as [[? _]|[(f & ? & _)|[_ Hl]]]; [lia|done|].
    destruct (fs_sessions_ok _ _ _ myfs_tables_ok
      (λ h d, ∀ w' g', held w' = h → myfs_data g' = d → MyfsSpec.loaded (held w) (KState w' g')) ls w1 g1) as [Hf|Hs];
      [intros w' g' Hw' Hg'; by eapply myfs_loaded_ext|by left|right].
    eapply wp_mono; [exact Hs|]. intros rss [w2 g2] [Hlen HP]. split; [done|].
    apply MyfsSpec.myfs_exit_wp; [done|by apply HP].
  - intros b [w1 g1] Hno Hinit.
    assert (Myvfs.loaded (held w) (KState w1 g1)) as Hl.
    { pose proof (Myvfs.my_vfs_init_cases w b) as H. destruct (Myvfs.my_vfs_case w); unfold wp in H; rewrite Hinit in H;
        [destruct H as [? H]|..]; try done; destruct H as (? & ? & [= <- <-] & Hr & Hl); try done; lia. }
    destruct (fs_sessions_ok _ _ _ myvfs_tables_ok
      (λ h d, ∀ w' g', held w' = h → myvfs_data g' = d → Myvfs.loaded (held w) (KState w' g')) ls w1 g1) as [Hf|Hs];
      [intros w' g' Hw' Hg'; by eapply myvfs_loaded_ext|by left|right].
    eapply wp_mono; [exact Hs|]. intros rss [w2 g2] [Hlen HP]. split; [done|].
    apply Myvfs.my_vfs_exit_wp; [done|by apply HP].
Qed.
End Modules.

(** ** The laws can hold, and the theorem at work *)

#[export] Instance some_fs_lib W : FsLib W := {|
  simple_statfs G d := mret 0;
  generic_delete_inode G i := mret 1;
  simple_lookup G d n := mret 0;
  simple_dir_inode_operations G := InodeOperations (λ d n, mret 0);
  simple_dir_operations G := FileOperations (Some (λ d, mret 0))
|}.

#[export] Instance some_fs_lib_laws W `{!Kernel W} : FsLibLaws W.
Proof. split; simpl; [..|intros G f d [= <-]]; intros; intros w g; by apply wp_ret. Qed.

(** The state of the MyVFS module once it has been loaded. *)
Definition vfs_loaded : kstate ledger myvfs :=
  match Myvfs.my_vfs_init (KState (Ledger ∅ 0 []) (Myvfs.unloaded Myvfs.no_sb)) with
  | Ok (_, s) => s
  | Fault _ => KState (Ledger ∅ 0 []) (Myvfs.unloaded Myvfs.no_sb)
  end.
Definition two_mounts : list (Z * list fs_access) := [(5, [Statfs; Lookup "a"; Readdir]); (6, [Readdir])].

Lemma file_systems_life_witness :
  wp (fs_sessions MyvfsTables.mounted two_mounts) (λ rss s', sublist (length <$> rss) [3; 1]%nat ∧
    wp Myvfs.my_vfs_exit (λ _ s'', l_held (world s'') = ∅) s') vfs_loaded.
Proof.
  destruct (proj1 (proj2 (file_systems_life two_mounts (Ledger ∅ 0 []))) Myvfs.no_sb vfs_loaded) as [H|H].
  - exact (λ h, lookup_empty_Some h _).
  - vm_compute. reflexivity.
  - exfalso. destruct H as (? & ? & ? & ? & ? & ? & _ & _ & _ & H). revert H. vm_compute. congruence.
  - exact H.
Defined.

(** A file system that has been unloaded cannot be mounted. *)
Example no_such_device :
  sys_mount MyvfsTables.mounted 5 (KState (Ledger ∅ 0 []) (Myvfs.unloaded Myvfs.no_sb)) =
    Ok (inr (- ENODEV), KState (Ledger ∅ 0 []) (Myvfs.unloaded Myvfs.no_sb)).
Proof. vm_compute. reflexivity. Qed.
