(* ===== verification/Threads.v ===== *)
(** * Code that can be interrupted

    A thread is a sequence of atomic actions; between two of them an interrupt may
    run. Loading and unloading of the modules of 9/interrupts are threads. *)

From S2P Require Import Prelude.
From stdpp Require Import options.
Local Open Scope Z_scope.

Section Threads.
Context {S : Type}.

Inductive thread (A : Type) : Type :=
  | Done (a : A)
  | Step (X : Type) (m : prog S X) (k : X → thread A).
#[global] Arguments Done {A} a.
#[global] Arguments Step {A X} m k.

Definition atomic {A} (m : prog S A) : thread A := Step m Done.

Fixpoint bind_thread {A B} (f : A → thread B) (t : thread A) : thread B :=
  match t with
  | Done a => f a
  | Step m k => Step m (λ x, bind_thread f (k x))
  end.

#[global] Instance thread_ret : MRet thread := @Done.
#[global] Instance thread_bind : MBind thread := @bind_thread.

(** Running a thread to its end without an interrupt. *)
Fixpoint run_thread {A} (t : thread A) : prog S A :=
  match t with
  | Done a => mret a
  | Step m k => x ← m; run_thread (k x)
  end.

Lemma wp_run_bind {A B} (t : thread A) (f : A → thread B) (Q : B → S → Prop) (s : S) :
  wp (run_thread t) (λ a, wp (run_thread (f a)) Q) s → wp (run_thread (t ≫= f)) Q s.
Proof.
  revert s. induction t as [a|X m k IH]; intros s; simpl.
  - intros (a' & s' & [= -> ->] & HQ). done.
  - intros (a & s' & (x & s1 & Hm & Hk)%prog_bind_Ok & HQ).
    apply wp_bind. eapply wp_Ok; [done|]. apply IH. by eapply wp_Ok.
Qed.

Lemma wp_run_atomic {A} (m : prog S A) (Q : A → S → Prop) (s : S) :
  wp m Q s → wp (run_thread (atomic m)) Q s.
Proof. intros (a & s' & Hm & HQ). simpl. apply wp_bind. eapply wp_Ok; [done|]. by apply wp_ret. Qed.

(** ** Interrupts *)

(** [intr s i]: in the state [s] the interrupt [i] may run. *)
Context (intr : S → prog S unit → Prop).

Inductive config (A : Type) : Type :=
  | Running (t : thread A) (s : S)
  | Crashed (f : fault).
#[global] Arguments Running {A} t s.
#[global] Arguments Crashed {A} f.

Inductive step {A} : config A → config A → Prop :=
  | step_thread X (m : prog S X) k s x s' :
      m s = Ok (x, s') → step (Running (Step m k) s) (Running (k x) s')
  | step_thread_fault X (m : prog S X) k s f :
      m s = Fault f → step (Running (Step m k) s) (Crashed f)
  | step_intr i t s s' : intr s i → i s = Ok (tt, s') → step (Running t s) (Running t s')
  | step_intr_fault i t s f : intr s i → i s = Fault f → step (Running t s) (Crashed f).

(** Without interrupts, a thread runs up to any point of it. *)
Lemma rtc_run_bind {A B} (t : thread A) (f : A → thread B) s a s' :
  run_thread t s = Ok (a, s') → rtc step (Running (t ≫= f) s) (Running (f a) s').
Proof.
  revert s. induction t as [a0|X m k IH]; intros s; simpl.
  - intros [= -> ->]. done.
  - intros (x & s1 & Hm & Hk)%prog_bind_Ok. eapply rtc_l; [by apply step_thread|]. by apply IH.
Qed.
End Threads.
#[global] Arguments thread : clear implicits.
#[global] Arguments config : clear implicits.
