(* ===== verification/KernelIrq.v ===== *)
(** * Interrupt lines, entries of /proc, and the keyboard

    The further kernel calls the modules of 9/interrupts make, and the table of key
    names both of them have. *)

From S2P Require Import Prelude Kernel Threads.
From stdpp Require Import options.
#[local] Set Default Proof Using "Type*".
Local Open Scope Z_scope.

(** [char *ascii[84]] *)
Definition ascii : list string :=
  [ " "; "Esc"; "1"; "2"; "3"; "4"; "5"; "6"; "7"; "8"; "9"; "0"; "-"; "+"; "Backspace";
    "Tab"; "Q"; "W"; "E"; "R"; "T"; "Y"; "U"; "I"; "O"; "P"; "["; "]"; "Enter"; "Ctrl";
    "A"; "S"; "D"; "F"; "G"; "H"; "J"; "K"; "L"; ";"; String.String (Ascii.ascii_of_nat 34) EmptyString; "'";
    "Shift (left)"; "|";
    "Z"; "X"; "C"; "V"; "B"; "N"; "M"; "<"; ">"; "?"; "Shift (right)";
    "*"; "Alt"; "Space"; "CapsLock";
    "F1"; "F2"; "F3"; "F4"; "F5"; "F6"; "F7"; "F8"; "F9"; "F10";
    "NumLock"; "ScrollLock"; "Home"; "Up"; "Page-Up"; "-"; "Left";
    " "; "Right"; "+"; "End"; "Down"; "Page-Down"; "Insert"; "Delete" ].

Definition IRQ_NO : Z := 1.
Definition ENOMEM : Z := 12.

Definition is_irq (irq : Z) (name : string) (o : kobj) : bool := bool_decide (o = KIrq irq name).

Section Calls.
Context {W : Type} `{!Kernel W} {G : Type}.
Abbreviation M := (prog (kstate W G)).

Definition request_irq (irq : Z) (name : string) : M Z := register (KIrq irq name).

(** The handler is looked up by its line and device; freeing an unknown one only
    warns. *)
Definition free_irq (irq : Z) (name : string) : M unit := λ s,
  match find_obj (is_irq irq name) (held (world s)) with
  | Some h => Ok (tt, KState (forget h (world s)) (glob s))
  | None => Ok (tt, s)
  end.

(** [proc_remove(NULL)] does nothing. *)
Definition proc_remove (e : option handle) : M unit :=
  match e with
  | None => mret tt
  | Some h => release (λ o, match proc_key o with Some _ => true | None => false end) h
  end.

(** An access through a pointer to allocated memory with contents [mem]. *)
Definition deref {A} (p : option handle) (mem : gmap handle A) : M A := λ s,
  match p with
  | None => Fault NullDeref
  | Some h =>
      match held (world s) !! h with
      | Some (KKmalloc _) => match mem !! h with Some a => Ok (a, s) | None => Fault Uninit end
      | _ => Fault UseAfterFree
      end
  end.

Lemma deref_ok {A} h n (mem : gmap handle A) a (s : kstate W G) :
  held (world s) !! h = Some (KKmalloc n) → mem !! h = Some a → deref (Some h) mem s = Ok (a, s).
Proof. intros Hh Ha. unfold deref. by rewrite Hh, Ha. Qed.
End Calls.

Lemma lookup_ascii i : 0 ≤ i < 84 → ∃ name, ascii !! Z.to_nat i = Some name.
Proof. intros Hi. apply lookup_lt_is_Some_2. change (length ascii) with 84%nat. lia. Qed.

Section Wp.
Context {W : Type} `{!Kernel W, !KernelLaws W} {G : Type}.
Implicit Types (w : W) (g : G).

Lemma wp_free_irq h irq name (Q : unit → kstate W G → Prop) w g :
  held w !! h = Some (KIrq irq name) →
  (∀ h', held w !! h' = Some (KIrq irq name) → h' = h) →
  (∀ w', held w' = delete h (held w) → Q tt (KState w' g)) →
  wp (free_irq irq name) Q (KState w g).
Proof.
  intros Hh Hu HQ. unfold free_irq, wp. simpl.
  rewrite (find_obj_unique _ _ h _ Hh).
  - eexists _, _. split; [done|]. apply HQ, held_forget.
  - by apply bool_decide_eq_true_2.
  - intros h' o Ho ->%bool_decide_eq_true_1. by apply Hu.
Qed.

Lemma wp_proc_remove h o (Q : unit → kstate W G → Prop) w g :
  held w !! h = Some o → is_Some (proc_key o) →
  (∀ w', held w' = delete h (held w) → Q tt (KState w' g)) →
  wp (proc_remove (Some h)) Q (KState w g).
Proof. intros Hh [k Hk] HQ. eapply wp_release; [done|by rewrite Hk|done]. Qed.

End Wp.

(** A fresh object leaves the others in place. *)
Lemma lookup_insert_keep {A} (m : gmap handle A) h x i o :
  m !! i = Some o → m !! h = None → <[h := x]> m !! i = Some o.
Proof. intros Hi Hh. rewrite lookup_insert_ne; [done|]. by intros ->; simplify_eq. Qed.

(** Lookups and equality in maps built by insertions and deletions, when the keys
    are known to be different. *)
Ltac map_lookup :=
  rewrite ?lookup_delete, ?lookup_insert, ?lookup_delete, ?lookup_insert;
  repeat (case_decide; try congruence); try congruence; try done.
Ltac map_equal := apply map_eq; intros ?; map_lookup.

(** The disequalities that lookups of missing keys contain. *)
Ltac split_fresh :=
  repeat match goal with
    | H : <[_ := _]> _ !! _ = None |- _ => apply lookup_insert_None in H as [H ?]
    end.

(** Steps of a thread that runs without interrupts. *)
Ltac t_step :=
  lazymatch goal with
  | |- wp (run_thread (mbind _ _)) _ _ => apply wp_run_bind
  | |- wp (run_thread (atomic _)) _ _ => apply wp_run_atomic
  | |- wp (run_thread (mret _)) _ _ => apply wp_ret
  | |- wp (mbind _ _) _ _ => apply wp_bind
  | |- wp (mret _) _ _ => apply wp_ret
  | |- wp (set_g _) _ _ => apply wp_set_g
  | |- wp get_g _ _ => apply wp_get_g
  | |- wp (run_thread (match _ with _ => _ end)) _ _ => progress cbn beta iota
  end.
Ltac t_steps := repeat t_step.

(** [mh] is [m] with further objects, all of which satisfy [P]. *)
Inductive over (P : kobj → Prop) (m : gmap handle kobj) : gmap handle kobj → Prop :=
  | over_nil : over P m m
  | over_cons mh h o : over P m mh → mh !! h = None → P o → over P m (<[h := o]> mh).

Lemma over_lookup P m mh h o : over P m mh → m !! h = Some o → mh !! h = Some o.
Proof. induction 1 as [|mh h' o' _ IH Hh _]; intros Hm; [done|]. apply lookup_insert_keep; auto. Qed.

(** Objects that do not satisfy [P] come from below. *)
Lemma over_other P m mh h o : over P m mh → mh !! h = Some o → ¬ P o → m !! h = Some o.
Proof.
  induction 1 as [|mh h' o' _ IH Hh HP]; intros Hm Ho; [done|].
  apply lookup_insert_Some in Hm as [[_ ->]|[_ Hm]]; [done|auto].
Qed.

Lemma over_delete P m mh q o :
  over P (<[q := o]> m) mh → m !! q = None → over P m (delete q mh).
Proof.
  induction 1 as [|mh h' o' Hov IH Hh HP]; intros Hq.
  - rewrite delete_insert_id by done. constructor.
  - assert (h' ≠ q) as Hne.
    { intros ->. pose proof (over_lookup _ _ _ q o Hov) as Hl.
      rewrite lookup_insert_eq in Hl. rewrite (Hl eq_refl) in Hh. done. }
    rewrite delete_insert_ne by done. constructor; [auto|by rewrite lookup_delete_ne|done].
Qed.

Lemma over_mono (P P' : kobj → Prop) m mh : (∀ o, P o → P' o) → over P m mh → over P' m mh.
Proof. intros HP. induction 1; constructor; auto. Qed.
