(* ===== verification/Tasklet.v ===== *)
(** * The tasklet module (9/interrupts/tasklet/tasklet.c)

    The interrupt handler of the keyboard stores the scan code in a tasklet and
    schedules it; the tasklet prints the name of the key. *)

From S2P Require Import Prelude Kernel Threads KernelIrq.
From stdpp Require Import options.
#[local] Set Default Proof Using "Type*".
Local Open Scope Z_scope.

Definition BUF_SIZE : Z := 4096.
Definition sizeof_tasklet_struct : Z := 40.
Definition HANDLER : string := "my_irq_handler".

(** ** Data *)

(** [struct tasklet_struct]; bit 0 of the state says that it is scheduled. *)
Record tasklet_struct := TaskletStruct { t_state : Z; t_count : Z; t_data : Z }.

(** The static data; [mem] is the memory of tasklets, [log] what the tasklet has
    printed: its state and the name of the key. *)
Record tstate := TState {
  tasklet : option handle;
  buffer : option handle;
  proc_file : option handle;
  proc_dir : option handle;
  proc_link : option handle;
  mem : gmap handle tasklet_struct;
  log : list string
}.

Definition set_tasklet v g := TState v (buffer g) (proc_file g) (proc_dir g) (proc_link g) (mem g) (log g).
Definition set_buffer v g := TState (tasklet g) v (proc_file g) (proc_dir g) (proc_link g) (mem g) (log g).
Definition set_file v g := TState (tasklet g) (buffer g) v (proc_dir g) (proc_link g) (mem g) (log g).
Definition set_dir v g := TState (tasklet g) (buffer g) (proc_file g) v (proc_link g) (mem g) (log g).
Definition set_link v g := TState (tasklet g) (buffer g) (proc_file g) (proc_dir g) v (mem g) (log g).
Definition set_mem h v g := TState (tasklet g) (buffer g) (proc_file g) (proc_dir g) (proc_link g) (<[h := v]> (mem g)) (log g).
Definition add_log l g := TState (tasklet g) (buffer g) (proc_file g) (proc_dir g) (proc_link g) (mem g) (log g ++ [l]).

Definition unloaded : tstate := TState None None None None None ∅ [].

Section Module.
Context {W : Type} `{!Kernel W}.
Abbreviation S := (kstate W tstate).
Abbreviation M := (prog S).

(** [*tasklet], and a store to it. *)
Definition get_tasklet : M tasklet_struct := g ← get_g; deref (tasklet g) (mem g).
Definition put_tasklet (v : tasklet_struct) : M unit :=
  g ← get_g;
  match tasklet g with None => crash NullDeref | Some h => set_g (set_mem h v) end.

(** ** The tasklet interface of the kernel *)

Definition tasklet_init : M unit := put_tasklet (TaskletStruct 0 0 0).

(** A tasklet that is scheduled already is not scheduled again. *)
Definition tasklet_schedule : M unit :=
  t ← get_tasklet;
  if Z.testbit (t_state t) 0 then mret tt
  else put_tasklet (TaskletStruct (Z.lor (t_state t) 1) (t_count t) (t_data t)).

(** ** The module's functions *)

Definition my_tasklet_fun (data : Z) : M unit :=
  if decide (data < 84) then
    get_tasklet;;
    match ascii !! Z.to_nat data with
    | Some name => set_g (add_log name)
    | None => crash OutOfBounds
    end
  else mret tt.

(** [code] is what [inb(0x60)] reads. The result is IRQ_HANDLED = 1 or IRQ_NONE = 0. *)
Definition my_irq_handler (code irq : Z) : M Z :=
  if decide (irq = IRQ_NO) then
    t ← get_tasklet;
    put_tasklet (TaskletStruct (t_state t) (t_count t) code);;
    tasklet_schedule;;
    get_tasklet;;
    mret 1
  else mret 0.

(** The kernel runs a scheduled tasklet: it clears the bit and calls the function. *)
Definition run_tasklet : M unit :=
  t ← get_tasklet;
  if Z.testbit (t_state t) 0 then
    put_tasklet (TaskletStruct (Z.ldiff (t_state t) 1) (t_count t) (t_data t));;
    my_tasklet_fun (t_data t)
  else mret tt.

(** [tasklet_kill] waits for a scheduled tasklet to run. *)
Definition tasklet_kill : M unit := run_tasklet.

(** The text of /proc/tasklet. *)
Definition my_show : M (list Z * Z) :=
  t ← get_tasklet;
  mret (bytes "tasklet:" ++ [10] ++ bytes "state - " ++ dec (t_state t) ++ [10] ++
        bytes "count - " ++ dec (t_count t) ++ [10] ++ bytes "use_callback - 0" ++ [10] ++
        bytes "data - " ++ dec (t_data t) ++ [10], 0).

Abbreviation T := (thread S).

Definition my_init : T Z :=
  ret ← atomic (request_irq IRQ_NO HANDLER);
  if decide (ret ≠ 0) then mret ret
  else
    t ← atomic (t ← kmalloc sizeof_tasklet_struct; set_g (set_tasklet t);; mret t);
    match t with
    | None => atomic (free_irq IRQ_NO HANDLER);; mret (- ENOMEM)
    | Some _ =>
        atomic tasklet_init;;
        b ← atomic (b ← vmalloc BUF_SIZE; set_g (set_buffer b);; mret b);
        match b with
        | None => mret (- ENOMEM)
        | Some _ =>
            f ← atomic (f ← proc_create "tasklet" 292 None; set_g (set_file f);; mret f);
            match f with
            | None => atomic (vfree b);; mret (- ENOMEM)
            | Some _ =>
                d ← atomic (d ← proc_mkdir "tasklet_dir" None; set_g (set_dir d);; mret d);
                l ← atomic (l ← proc_symlink "tasklet_symlink" None "/proc/tasklet";
                            set_g (set_link l);; mret l);
                match d, l with
                | Some _, Some _ => mret 0
                | _, _ => atomic (vfree b);; mret (- ENOMEM)
                end
            end
        end
    end.

Definition my_exit : T unit :=
  atomic (g ← get_g; proc_remove (proc_file g));;
  atomic (g ← get_g; proc_remove (proc_dir g));;
  atomic (g ← get_g; proc_remove (proc_link g));;
  atomic tasklet_kill;;
  atomic (g ← get_g; kfree (tasklet g));;
  atomic (free_irq IRQ_NO HANDLER).

(** The interrupts that may run: the handler, while it is registered for its line,
    with any byte from the keyboard; a scheduled tasklet. *)
Inductive tasklet_intr (s : S) : M unit → Prop :=
  | intr_irq h code :
      held (world s) !! h = Some (KIrq IRQ_NO HANDLER) → 0 ≤ code < 256 →
      tasklet_intr s (my_irq_handler code IRQ_NO;; mret tt)
  | intr_tasklet h t :
      tasklet (glob s) = Some h → mem (glob s) !! h = Some t → Z.testbit (t_state t) 0 = true →
      tasklet_intr s run_tasklet.
End Module.
