(* ===== verification/TaskletSpec.v ===== *)
(** * What the tasklet module guarantees *)

From S2P Require Import Prelude Kernel Threads KernelIrq Tasklet.
From stdpp Require Import options.
#[local] Set Default Proof Using "Type*".
Local Open Scope Z_scope.

(** ** Keys *)

Inductive event := Key (code : Z) | Soft.

(** What the tasklet prints for a scan code: releases have codes from 128 on. *)
Definition key_name (p : option Z) : list string :=
  match p with
  | Some c => if decide (c < 84) then option_list (ascii !! Z.to_nat c) else []
  | None => []
  end.

(** What a sequence of interrupts and tasklet runs prints, [p] being the scan code
    that waits: a code read before the tasklet has run replaces the waiting one. *)
Fixpoint printed (p : option Z) (evs : list event) : list string :=
  match evs with
  | [] => []
  | Key c :: evs => printed (Some c) evs
  | Soft :: evs => key_name p ++ printed None evs
  end.

Definition is_byte (e : event) : Prop := match e with Key c => 0 ≤ c < 256 | Soft => True end.

Section Keys.
Context {W : Type} `{!Kernel W}.
Abbreviation S := (kstate W tstate).

Definition run_event (e : event) : prog S unit :=
  match e with
  | Key c => my_irq_handler c IRQ_NO;; mret tt
  | Soft => run_tasklet
  end.

Fixpoint run_events (evs : list event) : prog S unit :=
  match evs with
  | [] => mret tt
  | e :: evs => run_event e;; run_events evs
  end.

(** The tasklet is allocated, initialised, and holds the waiting scan code. *)
Definition waiting (h : handle) (p : option Z) (s : S) : Prop :=
  tasklet (glob s) = Some h ∧ (∃ n, held (world s) !! h = Some (KKmalloc n)) ∧
  ∃ t, mem (glob s) !! h = Some t ∧
    match p with
    | Some c => t_state t = 1 ∧ t_data t = c ∧ 0 ≤ c
    | None => t_state t = 0
    end.

(** Only the memory of the tasklet and the log change. *)
Definition same_but_log (s s' : S) (l : list string) : Prop :=
  world s' = world s ∧ log (glob s') = log (glob s) ++ l.

Lemma get_tasklet_ok h n t (w : W) g :
  tasklet g = Some h → held w !! h = Some (KKmalloc n) → mem g !! h = Some t →
  get_tasklet (KState w g) = Ok (t, KState w g).
Proof.
  intros Hh Hn Ht. unfold get_tasklet, mbind, prog_bind, get_g. simpl. rewrite Hh. by eapply deref_ok.
Qed.

Lemma put_tasklet_ok h v (w : W) g :
  tasklet g = Some h → put_tasklet v (KState w g) = Ok (tt, KState w (set_mem h v g)).
Proof. intros Hh. unfold put_tasklet, mbind, prog_bind, get_g. simpl. by rewrite Hh. Qed.

Lemma tasklet_schedule_ok h n t (w : W) g :
  tasklet g = Some h → held w !! h = Some (KKmalloc n) → mem g !! h = Some t →
  t_state t = 0 ∨ t_state t = 1 →
  ∃ g', tasklet_schedule (KState w g) = Ok (tt, KState w g') ∧ tasklet g' = Some h ∧
    mem g' !! h = Some (TaskletStruct 1 (t_count t) (t_data t)) ∧ log g' = log g.
Proof.
  intros Hh Hn Ht Hs. unfold tasklet_schedule, mbind, prog_bind.
  rewrite (get_tasklet_ok h n t) by done. destruct Hs as [Hs|Hs]; rewrite Hs; simpl.
  - rewrite (put_tasklet_ok h) by done. eexists. split; [done|]. simpl. by rewrite lookup_insert_eq.
  - exists g. split; [done|]. split; [done|]. split; [|done]. rewrite Ht. destruct t; simpl in *; by subst.
Qed.

Lemma my_irq_handler_waiting h p c s :
  waiting h p s → 0 ≤ c →
  ∃ s', my_irq_handler c IRQ_NO s = Ok (1, s') ∧ waiting h (Some c) s' ∧ same_but_log s s' [].
Proof.
  intros (Hh & (n & Hn) & t & Ht & Hp) Hc. destruct s as [w g]. simpl in *.
  assert (t_state t = 0 ∨ t_state t = 1) as Hs by (destruct p; naive_solver).
  unfold my_irq_handler, mbind, prog_bind. rewrite decide_True by done.
  rewrite (get_tasklet_ok h n t), (put_tasklet_ok h) by done.
  set (g1 := set_mem h _ g).
  destruct (tasklet_schedule_ok h n (TaskletStruct (t_state t) (t_count t) c) w g1)
    as (g2 & Hsch & Hh2 & Ht2 & Hl2); [done|done|apply lookup_insert_eq|done|].
  rewrite Hsch, (get_tasklet_ok h n _ _ _ Hh2 Hn Ht2). eexists. split; [done|]. split.
  - split; [done|]. split; [by exists n|]. by eexists.
  - split; [done|]. simpl. by rewrite Hl2, app_nil_r.
Qed.

Lemma my_tasklet_fun_ok h n t c (w : W) g :
  tasklet g = Some h → held w !! h = Some (KKmalloc n) → mem g !! h = Some t → 0 ≤ c →
  ∃ g', my_tasklet_fun c (KState w g) = Ok (tt, KState w g') ∧ tasklet g' = tasklet g ∧
    mem g' = mem g ∧ log g' = log g ++ key_name (Some c).
Proof.
  intros Hh Hn Ht Hc. unfold my_tasklet_fun, key_name. case_decide as Hc84.
  - destruct (lookup_ascii c ltac:(lia)) as [name Hname].
    unfold mbind, prog_bind. rewrite (get_tasklet_ok h n t), Hname by done. by eexists.
  - exists g. by rewrite app_nil_r.
Qed.

Lemma run_tasklet_waiting h p s :
  waiting h p s →
  ∃ s', run_tasklet s = Ok (tt, s') ∧ waiting h None s' ∧ same_but_log s s' (key_name p).
Proof.
  intros (Hh & (n & Hn) & t & Ht & Hp). destruct s as [w g]. simpl in *.
  unfold run_tasklet, mbind, prog_bind. rewrite (get_tasklet_ok h n t) by done. destruct p as [c|].
  - destruct Hp as (Hs & Hd & Hc). rewrite Hs. simpl. rewrite (put_tasklet_ok h) by done.
    set (g1 := set_mem h _ g).
    destruct (my_tasklet_fun_ok h n (TaskletStruct 0 (t_count t) (t_data t)) c w g1)
      as (g2 & Hf & Hh2 & Hm2 & Hl2); [done|done|apply lookup_insert_eq|done|].
    rewrite Hd, Hf. eexists. split; [done|]. split; [|done]. split; simpl; [by rewrite Hh2|].
    split; [by exists n|]. rewrite Hm2. simpl. rewrite lookup_insert_eq. by eexists.
  - rewrite Hp. simpl. eexists. split; [done|]. split; [|split; [done|by rewrite app_nil_r]].
    split; [done|]. split; [by exists n|]. by exists t.
Qed.

(** C5: once the tasklet is initialised and as long as it is not freed, every
    sequence of keyboard interrupts and tasklet runs is free of faults and prints,
    for every run, the name of the key of the last scan code read before it. *)
Theorem tasklet_keys h p evs s :
  waiting h p s → Forall is_byte evs →
  ∃ s', run_events evs s = Ok (tt, s') ∧ world s' = world s ∧
    log (glob s') = log (glob s) ++ printed p evs.
Proof.
  intros Hw Hevs. revert p s Hw. induction Hevs as [|[c|] evs He Hevs IH]; intros p s Hw; simpl.
  - exists s. by rewrite app_nil_r.
  - destruct (my_irq_handler_waiting h p c s Hw (proj1 He)) as (s1 & H1 & Hw1 & Hs1 & Hl1).
    destruct (IH _ _ Hw1) as (s2 & H2 & Hs2 & Hl2). exists s2.
    unfold mbind, prog_bind. rewrite H1. simpl. rewrite H2. split; [done|].
    split; [congruence|]. by rewrite Hl2, Hl1, app_nil_r.
  - destruct (run_tasklet_waiting h p s Hw) as (s1 & H1 & Hw1 & Hs1 & Hl1).
    destruct (IH _ _ Hw1) as (s2 & H2 & Hs2 & Hl2). exists s2.
    unfold mbind, prog_bind. rewrite H1, H2. split; [done|].
    split; [congruence|]. by rewrite Hl2, Hl1, <- (assoc app).
Qed.
End Keys.

(** ** Loading and unloading *)

Section Load.
Context {W : Type} `{!Kernel W, !KernelLaws W}.
Implicit Types (w : W) (g : tstate) (m : gmap handle kobj).
Abbreviation S := (kstate W tstate).

Definition irq_obj : kobj := KIrq IRQ_NO HANDLER.
Definition tasklet_obj : kobj := KKmalloc sizeof_tasklet_struct.
Definition is_entry (o : kobj) : Prop := is_Some (proc_key o).

(** The state between loading and unloading, over what was held before. *)
Definition loaded m (s : S) : Prop :=
  ∃ q t b f d l,
    let m1 := <[q := irq_obj]> m in
    let m2 := <[t := tasklet_obj]> m1 in
    let m3 := <[b := KVmalloc BUF_SIZE]> m2 in
    let m4 := <[f := KProcFile "tasklet" 292 None]> m3 in
    let m5 := <[d := KProcDir "tasklet_dir" None]> m4 in
    m !! q = None ∧ m1 !! t = None ∧ m2 !! b = None ∧ m3 !! f = None ∧ m4 !! d = None ∧
    m5 !! l = None ∧
    held (world s) = <[l := KProcLink "tasklet_symlink" None "/proc/tasklet"]> m5 ∧
    waiting t None s ∧ buffer (glob s) = Some b ∧ proc_file (glob s) = Some f ∧
    proc_dir (glob s) = Some d ∧ proc_link (glob s) = Some l.

(** What the failing branches after the allocation of the tasklet leave behind. *)
Definition left_behind m (mh : gmap handle kobj) : Prop :=
  ∃ q t entries, m !! q = None ∧ <[q := irq_obj]> m !! t = None ∧
    map_Forall (λ _, is_entry) entries ∧ entries ##ₘ <[t := tasklet_obj]> (<[q := irq_obj]> m) ∧
    mh = entries ∪ <[t := tasklet_obj]> (<[q := irq_obj]> m).

Lemma left_behind_insert m mh h o :
  left_behind m mh → mh !! h = None → is_entry o → left_behind m (<[h := o]> mh).
Proof.
  intros (q & t & es & Hq & Ht & He & Hd & ->) [Hh1 Hh2]%lookup_union_None Ho.
  exists q, t, (<[h := o]> es). split_and!; [done|done|by apply map_Forall_insert_2| |].
  - by apply map_disjoint_insert_l_2.
  - by rewrite insert_union_l.
Qed.

(** A buffer acquired on top of [m2] can be given back from below the entries. *)
Lemma wp_vfree_below b n mh w g (Q : unit → S → Prop) :
  mh !! b = None → held w = <[b := KVmalloc n]> mh →
  (∀ w', held w' = mh → Q tt (KState w' g)) → wp (vfree (Some b)) Q (KState w g).
Proof. intros Hb Hw HQ. by eapply wp_release_last. Qed.

(** The failing branches end by giving back the buffer, below entries or not. *)
Lemma fail_wp m b mh w g :
  left_behind m mh → mh !! b = None → held w = <[b := KVmalloc BUF_SIZE]> mh →
  wp (vfree (Some b)) (λ _, wp (run_thread (mret (- ENOMEM))) (λ r s,
    (r < 0 ∧ held (world s) = m) ∨ (r = - ENOMEM ∧ left_behind m (held (world s))) ∨
    (r = 0 ∧ loaded m s))) (KState w g).
Proof.
  intros Hl Hb Hw. eapply wp_vfree_below; [exact Hb|done|]. intros w' Hw'. t_steps.
  right. left. by rewrite <- Hw' in Hl.
Qed.

Lemma fail_entry_wp m b mh h o w g :
  left_behind m mh → mh !! b = None → is_entry o → <[b := KVmalloc BUF_SIZE]> mh !! h = None →
  held w = <[h := o]> (<[b := KVmalloc BUF_SIZE]> mh) →
  wp (vfree (Some b)) (λ _, wp (run_thread (mret (- ENOMEM))) (λ r s,
    (r < 0 ∧ held (world s) = m) ∨ (r = - ENOMEM ∧ left_behind m (held (world s))) ∨
    (r = 0 ∧ loaded m s))) (KState w g).
Proof.
  intros Hl Hb Ho [Hh Hhb]%lookup_insert_None Hw. eapply (fail_wp _ b (<[h := o]> mh)).
  - by apply left_behind_insert.
  - by rewrite lookup_insert_ne.
  - by rewrite Hw, insert_insert_ne.
Qed.

Lemma my_init_wp w :
  (∀ h, held w !! h ≠ Some irq_obj) →
  wp (run_thread my_init) (λ r s,
    (r < 0 ∧ held (world s) = held w) ∨
    (r = - ENOMEM ∧ left_behind (held w) (held (world s))) ∨
    (r = 0 ∧ loaded (held w) s)) (KState w unloaded).
Proof.
  intros Hno. unfold my_init, request_irq, kmalloc, vmalloc, proc_create, proc_mkdir, proc_symlink.
  t_steps. apply wp_register; [intros q w1 Hq Hw1|intros e w1 He Hw1].
  2: { rewrite decide_True by lia. t_steps. by left. }
  rewrite decide_False by lia. pose proof (ff_new _ _ _ Hq) as Hqn.
  t_steps. apply wp_alloc; [intros t w2 Ht Hw2|intros w2 Hw2]; t_steps.
  2: { eapply (wp_free_irq q); [by rewrite Hw2, Hw1, lookup_insert_eq|..].
       - intros h'. rewrite Hw2, Hw1, lookup_insert_Some. intros [[]|[_ Hh]]; [done|by destruct (Hno h')].
       - intros w3 Hw3. t_steps. left. split; [done|]. simpl.
         rewrite Hw3, Hw2, Hw1. by apply delete_insert_id. }
  pose proof (ff_new _ _ _ Ht) as Htn. rewrite Hw1 in Htn.
  assert (left_behind (held w) (held w2)) as Hlb.
  { exists q, t, ∅. split_and!; [done|done|apply map_Forall_empty|apply map_disjoint_empty_l|].
    by rewrite map_empty_union, Hw2, Hw1. }
  eapply wp_Ok; [by apply (put_tasklet_ok t)|]. t_steps.
  apply wp_alloc; [intros b w3 Hb Hw3|intros w3 Hw3]; t_steps.
  2: { right. left. split; [done|]. simpl. by rewrite Hw3. }
  pose proof (ff_new _ _ _ Hb) as Hbn.
  apply wp_alloc; [intros f w4 Hf Hw4|intros w4 Hw4]; t_steps.
  2: { eapply fail_wp; [exact Hlb|exact Hbn|by rewrite Hw4]. }
  pose proof (ff_new _ _ _ Hf) as Hfn. rewrite Hw3 in Hfn.
  pose proof Hfn as [Hfn2 Hfb]%lookup_insert_None.
  assert (left_behind (held w) (<[f := KProcFile "tasklet" 292 None]> (held w2))) as Hlbf
    by (apply left_behind_insert; [done|done|by eexists]).
  assert (<[f := KProcFile "tasklet" 292 None]> (held w2) !! b = None) as Hbf by (by rewrite lookup_insert_ne).
  assert (held w4 = <[b := KVmalloc BUF_SIZE]> (<[f := KProcFile "tasklet" 292 None]> (held w2))) as Hw4b
    by (by rewrite Hw4, Hw3, insert_insert_ne).
  apply wp_alloc; [intros d w5 Hd Hw5|intros w5 Hw5]; t_steps;
    (apply wp_alloc; [intros l w6 Hl Hw6|intros w6 Hw6]); t_steps.
  - right. right. split; [done|].
    pose proof (ff_new _ _ _ Hd) as Hdn. pose proof (ff_new _ _ _ Hl) as Hln.
    rewrite Hw5, Hw4, Hw3, Hw2, Hw1 in Hln. rewrite Hw4, Hw3, Hw2, Hw1 in Hdn.
    rewrite Hw2, Hw1 in Hfn, Hbn. exists q, t, b, f, d, l. simpl. split_and!; try done.
    + by rewrite Hw6, Hw5, Hw4, Hw3, Hw2, Hw1.
    + split; [done|]. split; [|exists (TaskletStruct 0 0 0); split; [apply lookup_insert_eq|done]].
      exists sizeof_tasklet_struct. simpl. rewrite Hw6, Hw5, Hw4, Hw3, Hw2, Hw1.
      do 4 (apply lookup_insert_keep; [|done]). apply lookup_insert_eq.
  - eapply fail_entry_wp; [exact Hlbf|exact Hbf| | |by rewrite Hw6, Hw5, Hw4b]; [by eexists|].
    rewrite <- Hw4b. by apply ff_new in Hd.
  - eapply fail_entry_wp; [exact Hlbf|exact Hbf| | |by rewrite Hw6, Hw5, Hw4b]; [by eexists|].
    rewrite <- Hw4b, <- Hw5. by apply ff_new in Hl.
  - eapply fail_wp; [exact Hlbf|exact Hbf|by rewrite Hw6, Hw5, Hw4b].
Qed.

(** [my_exit] up to the release of the tasklet, while the handler is registered. *)
Definition exit_prefix : thread S unit :=
  atomic (g ← get_g; proc_remove (proc_file g));;
  atomic (g ← get_g; proc_remove (proc_dir g));;
  atomic (g ← get_g; proc_remove (proc_link g));;
  atomic tasklet_kill;;
  atomic (g ← get_g; kfree (tasklet g)).

Lemma my_exit_prefix : my_exit = exit_prefix ≫= λ _, atomic (free_irq IRQ_NO HANDLER).
Proof. reflexivity. Qed.

Lemma tasklet_exit_prefix_wp m w g :
  loaded m (KState w g) →
  wp (run_thread exit_prefix) (λ _ s, ∃ b q t, m !! b = None ∧ m !! q = None ∧ q ≠ b ∧ q ≠ t ∧
    held (world s) = <[b := KVmalloc BUF_SIZE]> (<[q := irq_obj]> m) ∧
    held (world s) !! t = None ∧ tasklet (glob s) = Some t) (KState w g).
Proof.
  intros (q & t & b & f & d & l & Hq & Ht & Hb & Hf & Hd & Hl & Hheld & Hwait & Hgb & Hgf & Hgd & Hgl).
  simpl in *. split_fresh. unfold exit_prefix. t_steps. rewrite Hgf.
  eapply (wp_proc_remove f (KProcFile "tasklet" 292 None)); [rewrite Hheld; map_lookup|by eexists|].
  intros w1 Hw1. t_steps. rewrite Hgd.
  eapply (wp_proc_remove d (KProcDir "tasklet_dir" None));
    [rewrite Hw1, Hheld; map_lookup|by eexists|].
  intros w2 Hw2. t_steps. rewrite Hgl.
  eapply (wp_proc_remove l (KProcLink "tasklet_symlink" None "/proc/tasklet"));
    [rewrite Hw2, Hw1, Hheld; map_lookup|by eexists|].
  intros w3 Hw3. t_steps.
  assert (held w3 = <[b := KVmalloc BUF_SIZE]> (<[t := tasklet_obj]> (<[q := irq_obj]> m))) as Hw3'
    by (rewrite Hw3, Hw2, Hw1, Hheld; map_equal).
  destruct (run_tasklet_waiting t None (KState w3 g)) as ([w4 g4] & Hrun & Hwait4 & Hsame & _).
  { destruct Hwait as (Ht1 & _ & Ht2). split; [done|]. split; [|done].
    exists sizeof_tasklet_struct. simpl. rewrite Hw3'. map_lookup. }
  simpl in Hsame. subst w4. eapply wp_Ok; [exact Hrun|]. t_steps.
  destruct Hwait4 as (Hg4 & _). simpl in Hg4. rewrite Hg4. simpl.
  eapply (wp_release _ _ tasklet_obj); [rewrite Hw3'; map_lookup|done|]. intros w5 Hw5. t_steps.
  exists b, q, t. simpl. rewrite Hw5, Hw3'. split_and!; try done.
  - map_equal.
  - map_lookup.
Qed.

Lemma my_exit_wp m w g :
  (∀ h, m !! h ≠ Some irq_obj) → loaded m (KState w g) →
  wp (run_thread my_exit) (λ _ s, ∃ b, m !! b = None ∧
    held (world s) = <[b := KVmalloc BUF_SIZE]> m) (KState w g).
Proof.
  intros Hno Hl. rewrite my_exit_prefix. apply wp_run_bind.
  eapply wp_mono; [by apply tasklet_exit_prefix_wp|].
  intros [] [w1 g1] (b & q & t & Hb & Hq & Hqb & _ & Hw1 & _). simpl in *. t_steps.
  eapply (wp_free_irq q).
  - rewrite Hw1. map_lookup.
  - intros h'. rewrite Hw1, !lookup_insert.
    repeat case_decide; try done. intros Hh. exfalso. by eapply Hno.
  - intros w6 Hw6. t_steps. exists b. split; [done|]. simpl. rewrite Hw6, Hw1. map_equal.
Qed.
End Load.

(** Without interrupts, loading fails leaving nothing behind, or fails with
    -ENOMEM later on and leaves at least the interrupt handler registered and the
    tasklet allocated; or it succeeds, and unloading gives back all but the page
    of the buffer. *)
Theorem tasklet_load_unload {W : Type} `{!Kernel W, !KernelLaws W} (w : W) :
  (∀ h, held w !! h ≠ Some irq_obj) →
  ∃ r s, run_thread my_init (KState w unloaded) = Ok (r, s) ∧
    ((r < 0 ∧ held (world s) = held w) ∨
     (r = - ENOMEM ∧ left_behind (held w) (held (world s))) ∨
     (r = 0 ∧ ∃ s' b, run_thread my_exit s = Ok (tt, s') ∧ held w !! b = None ∧
       held (world s') = <[b := KVmalloc BUF_SIZE]> (held w))).
Proof.
  intros Hno. destruct (my_init_wp w Hno) as (r & s & Hi & Hr). exists r, s. split; [done|].
  destruct Hr as [Hr|[Hr|[-> Hl]]]; [by left|by right; left|]. right. right. split; [done|].
  destruct s as [w1 g1]. destruct (my_exit_wp _ _ _ Hno Hl) as ([] & s' & He & b & Hb & Hs').
  by exists s', b.
Qed.

(** C33: a key pressed while the module is being loaded, between the registration of
    the handler and the allocation of the tasklet, makes the handler dereference
    NULL; one pressed while it is being unloaded, between the release of the
    tasklet and of the handler, makes it use the released tasklet. *)
Theorem tasklet_races {W : Type} `{!Kernel W, !KernelLaws W} (w : W) :
  (∀ h w', acquire irq_obj w = (inl h, w') →
    rtc (step tasklet_intr) (Running my_init (KState w unloaded)) (Crashed NullDeref)) ∧
  (∀ m g, loaded m (KState w g) →
    rtc (step tasklet_intr) (Running my_exit (KState w g)) (Crashed UseAfterFree)).
Proof.
  split.
  - intros h w' Ha. eapply rtc_l.
    { apply step_thread. unfold request_irq, register. simpl. fold irq_obj. by rewrite Ha. }
    apply rtc_once. eapply step_intr_fault.
    + apply (intr_irq _ h 30); [|lia]. simpl. destruct (acquire_ok _ _ _ _ Ha) as [_ Hh].
      rewrite Hh. apply lookup_insert_eq.
    + done.
  - intros m g Hl. destruct (tasklet_exit_prefix_wp m w g Hl) as ([] & [w1 g1] & Hrun & b & q & t & Hb & Hq & Hqb & Hqt & Hw1 & Hnt & Ht).
    simpl in *. rewrite my_exit_prefix. eapply rtc_r; [by eapply rtc_run_bind|].
    eapply step_intr_fault.
    + apply (intr_irq _ q 30); [|lia]. simpl. rewrite Hw1. map_lookup.
    + unfold my_irq_handler, get_tasklet, mbind, prog_bind, get_g. simpl. rewrite Ht. simpl. by rewrite Hnt.
Qed.

(** ** The theorems at work *)

(** A loaded module, over an empty ledger. *)
Definition sample_held : gmap handle kobj :=
  <[6%positive := KProcLink "tasklet_symlink" None "/proc/tasklet"]>
  (<[5%positive := KProcDir "tasklet_dir" None]>
  (<[4%positive := KProcFile "tasklet" 292 None]>
  (<[3%positive := KVmalloc BUF_SIZE]>
  (<[2%positive := tasklet_obj]> (<[1%positive := irq_obj]> ∅))))).
Definition sample_w : ledger := Ledger sample_held 6 [].
Definition sample : tstate :=
  TState (Some 2%positive) (Some 3%positive) (Some 4%positive) (Some 5%positive) (Some 6%positive)
    {[2%positive := TaskletStruct 0 0 0]} [].

Lemma sample_waiting : waiting 2%positive None (KState sample_w sample).
Proof. split; [done|]. split; [by exists sizeof_tasklet_struct|]. by eexists. Qed.

Lemma tasklet_sample_loaded : loaded ∅ (KState sample_w sample).
Proof.
  exists 1%positive, 2%positive, 3%positive, 4%positive, 5%positive, 6%positive. simpl.
  split_and!; try done. exact sample_waiting.
Qed.

Lemma tasklet_keys_witness :
  ∃ s', run_events [Key 30; Key 31; Soft; Key 158; Soft] (KState sample_w sample) = Ok (tt, s') ∧
    log (glob s') = ["S"].
Proof.
  destruct (tasklet_keys 2%positive None [Key 30; Key 31; Soft; Key 158; Soft] (KState sample_w sample)
    sample_waiting) as (s' & Hr & _ & Hl); [repeat constructor; simpl; lia|].
  exists s'. split; [exact Hr|exact Hl].
Defined.

Lemma tasklet_load_unload_witness :
  ∃ r s, run_thread my_init (KState (Ledger ∅ 0 []) unloaded) = Ok (r, s) ∧
    ((r < 0 ∧ l_held (world s) = ∅) ∨
     (r = - ENOMEM ∧ left_behind ∅ (l_held (world s))) ∨
     (r = 0 ∧ ∃ s' b, run_thread my_exit s = Ok (tt, s') ∧ (∅ : gmap handle kobj) !! b = None ∧
       l_held (world s') = <[b := KVmalloc BUF_SIZE]> ∅)).
Proof. refine (tasklet_load_unload (Ledger ∅ 0 []) _). exact (λ h, lookup_empty_Some h _). Defined.

Lemma tasklet_races_witness :
  rtc (step tasklet_intr) (Running my_init (KState (Ledger ∅ 0 []) unloaded)) (Crashed NullDeref) ∧
  rtc (step tasklet_intr) (Running my_exit (KState sample_w sample)) (Crashed UseAfterFree).
Proof.
  split.
  - exact (proj1 (tasklet_races (Ledger ∅ 0 [])) _ _ eq_refl).
  - exact (proj2 (tasklet_races sample_w) ∅ sample tasklet_sample_loaded).
Defined.

(** A page that cannot be had leaves the handler registered after the failure. *)
Example tasklet_leaks :
  (λ x : outcome (Z * kstate ledger tstate), match x with
     | Ok (r, s) => Some (r, snd <$> map_to_list (l_held (world s)))
     | _ => None end) (run_thread my_init (KState (Ledger ∅ 0 [2%nat]) unloaded))
  = Some (- ENOMEM, [tasklet_obj; irq_obj]).
Proof. vm_compute. reflexivity. Qed.
