(* ===== verification/Workqueue.v ===== *)
(** * The workqueue module (9/interrupts/workqueue/mywq.c)

    The interrupt handler of the keyboard stores the scan code in two work items and
    queues them on two workqueues; the work functions print it. *)

From S2P Require Import Prelude Kernel Threads KernelIrq.
From stdpp Require Import options.
#[local] Set Default Proof Using "Type*".
Local Open Scope Z_scope.

Definition sizeof_my_work : Z := 40.
Definition HANDLER : string := "my_irq_handler".

(** ** Data *)

(** [my_work_t]: the function set by INIT_WORK (1 or 2), the queue the item waits
    on, and the scan code. *)
Record my_work := MyWork { w_func : option nat; w_on : option handle; code : option Z }.

(** What the work functions print. *)
Inductive message :=
  | Msg1 (name : option string) (c : Z)
  | Msg2Delay
  | Msg2 (c : Z).

Record wstate := WState {
  mywq1 : option handle;
  mywq2 : option handle;
  work_1 : option handle;
  work_2 : option handle;
  proc_file : option handle;
  proc_dir : option handle;
  proc_link : option handle;
  mem : gmap handle my_work;
  log : list message
}.

Definition set_wq1 v g := WState v (mywq2 g) (work_1 g) (work_2 g) (proc_file g) (proc_dir g) (proc_link g) (mem g) (log g).
Definition set_wq2 v g := WState (mywq1 g) v (work_1 g) (work_2 g) (proc_file g) (proc_dir g) (proc_link g) (mem g) (log g).
Definition set_work1 v g := WState (mywq1 g) (mywq2 g) v (work_2 g) (proc_file g) (proc_dir g) (proc_link g) (mem g) (log g).
Definition set_work2 v g := WState (mywq1 g) (mywq2 g) (work_1 g) v (proc_file g) (proc_dir g) (proc_link g) (mem g) (log g).
Definition set_file v g := WState (mywq1 g) (mywq2 g) (work_1 g) (work_2 g) v (proc_dir g) (proc_link g) (mem g) (log g).
Definition set_dir v g := WState (mywq1 g) (mywq2 g) (work_1 g) (work_2 g) (proc_file g) v (proc_link g) (mem g) (log g).
Definition set_link v g := WState (mywq1 g) (mywq2 g) (work_1 g) (work_2 g) (proc_file g) (proc_dir g) v (mem g) (log g).
Definition set_mem h v g := WState (mywq1 g) (mywq2 g) (work_1 g) (work_2 g) (proc_file g) (proc_dir g) (proc_link g) (<[h := v]> (mem g)) (log g).
Definition add_log l g := WState (mywq1 g) (mywq2 g) (work_1 g) (work_2 g) (proc_file g) (proc_dir g) (proc_link g) (mem g) (log g ++ [l]).

Definition unloaded : wstate := WState None None None None None None None ∅ [].

Section Module.
Context {W : Type} `{!Kernel W}.
Abbreviation S := (kstate W wstate).
Abbreviation M := (prog S).

(** [*p] for a pointer to a work item, and a store to it. *)
Definition get_work (p : option handle) : M my_work := g ← get_g; deref p (mem g).
Definition put_work (p : option handle) (v : my_work) : M unit :=
  match p with None => crash NullDeref | Some h => set_g (set_mem h v) end.

(** ** The workqueue interface of the kernel *)

Definition alloc_workqueue (name : string) : M (option handle) := alloc (KWorkqueue name).

(** A use of a workqueue. *)
Definition need_wq (wq : option handle) : M handle := λ s,
  match wq with
  | None => Fault NullDeref
  | Some q =>
      match held (world s) !! q with
      | Some (KWorkqueue _) => Ok (q, s)
      | _ => Fault UseAfterFree
      end
  end.

Definition INIT_WORK (p : option handle) (f : nat) : M unit :=
  w ← get_work p; put_work p (MyWork (Some f) None (code w)).

(** An item that waits on a queue already is not queued again. *)
Definition queue_work (wq p : option handle) : M unit :=
  q ← need_wq wq;
  w ← get_work p;
  match w_func w, w_on w with
  | None, _ => crash Uninit
  | Some _, Some _ => mret tt
  | Some f, None => put_work p (MyWork (Some f) (Some q) (code w))
  end.

(** ** The work functions *)

Definition get_code (p : option handle) : M Z :=
  w ← get_work p; match code w with Some c => mret c | None => crash Uninit end.

Definition mywq_fun_1 (work : option handle) : M unit :=
  c ← get_code work;
  if decide (c < 84) then
    if decide (0 ≤ c) then
      match ascii !! Z.to_nat c with
      | Some name => set_g (add_log (Msg1 (Some name) c))
      | None => crash OutOfBounds
      end
    else crash OutOfBounds
  else set_g (add_log (Msg1 None c)).

(** It sleeps between the two messages, so an interrupt may come in between. *)
Definition mywq_fun_2 (work : option handle) : thread S unit :=
  atomic (set_g (add_log Msg2Delay));;
  atomic (c ← get_code work; set_g (add_log (Msg2 c))).

(** The kernel takes a waiting item off its queue and calls its function. *)
Definition run_work (h : handle) : M unit :=
  w ← get_work (Some h);
  put_work (Some h) (MyWork (w_func w) None (code w));;
  match w_func w with
  | Some 1%nat => mywq_fun_1 (Some h)
  | Some 2%nat => run_thread (mywq_fun_2 (Some h))
  | _ => crash Uninit
  end.

(** The items that wait on a queue. *)
Definition waiting_on (q : handle) (g : wstate) : list handle :=
  (filter (λ hw, w_on hw.2 = Some q) (map_to_list (mem g))).*1.

Fixpoint run_works (hs : list handle) : M unit :=
  match hs with
  | [] => mret tt
  | h :: hs => run_work h;; run_works hs
  end.

Definition flush_workqueue (wq : option handle) : M unit :=
  q ← need_wq wq; g ← get_g; run_works (waiting_on q g).

Definition destroy_workqueue (wq : option handle) : M unit :=
  flush_workqueue wq;;
  match wq with
  | None => crash NullDeref
  | Some q => release (λ o, match o with KWorkqueue _ => true | _ => false end) q
  end.

(** ** The module's functions *)

(** [c] is what [inb(0x60)] reads. The result is IRQ_HANDLED = 1 or IRQ_NONE = 0. *)
Definition my_irq_handler (c irq : Z) : M Z :=
  g ← get_g;
  w1 ← get_work (work_1 g);
  put_work (work_1 g) (MyWork (w_func w1) (w_on w1) (Some c));;
  w2 ← get_work (work_2 g);
  put_work (work_2 g) (MyWork (w_func w2) (w_on w2) (Some c));;
  if decide (irq = IRQ_NO) then
    queue_work (mywq1 g) (work_1 g);;
    queue_work (mywq2 g) (work_2 g);;
    mret 1
  else mret 0.

Abbreviation T := (thread S).

(** The allocation of a work item: its memory is not initialised. *)
Definition kmalloc_work (set : option handle → wstate → wstate) : M (option handle) :=
  p ← kmalloc sizeof_my_work;
  set_g (set p);;
  match p with
  | Some h => set_g (set_mem h (MyWork None None None));; mret p
  | None => mret p
  end.

Definition mywq_init : T Z :=
  ret ← atomic (request_irq IRQ_NO HANDLER);
  if decide (ret ≠ 0) then mret ret
  else
    q1 ← atomic (q ← alloc_workqueue "my_queue1"; set_g (set_wq1 q);; mret q);
    match q1 with
    | None => atomic (free_irq IRQ_NO HANDLER);; mret (- ENOMEM)
    | Some _ =>
        q2 ← atomic (q ← alloc_workqueue "my_queue2"; set_g (set_wq2 q);; mret q);
        match q2 with
        | None => atomic (free_irq IRQ_NO HANDLER);; mret (- ENOMEM)
        | Some _ =>
            p1 ← atomic (kmalloc_work set_work1);
            match p1 with
            | None => atomic (free_irq IRQ_NO HANDLER);; mret (- ENOMEM)
            | Some _ =>
                atomic (INIT_WORK p1 1);;
                p2 ← atomic (kmalloc_work set_work2);
                match p2 with
                | None =>
                    atomic (free_irq IRQ_NO HANDLER);;
                    atomic (kfree p1);;
                    mret (- ENOMEM)
                | Some _ =>
                    atomic (INIT_WORK p2 2);;
                    f ← atomic (f ← proc_create "tasklet" 292 None; set_g (set_file f);; mret f);
                    match f with
                    | None => mret (- ENOMEM)
                    | Some _ =>
                        d ← atomic (d ← proc_mkdir "tasklet_dir" None; set_g (set_dir d);; mret d);
                        l ← atomic (l ← proc_symlink "tasklet_symlink" None "/proc/tasklet";
                                    set_g (set_link l);; mret l);
                        match d, l with
                        | Some _, Some _ => mret 0
                        | _, _ => mret (- ENOMEM)
                        end
                    end
                end
            end
        end
    end.

Definition mywq_exit : T unit :=
  atomic (g ← get_g; proc_remove (proc_file g));;
  atomic (g ← get_g; proc_remove (proc_dir g));;
  atomic (g ← get_g; proc_remove (proc_link g));;
  atomic (g ← get_g; flush_workqueue (mywq1 g));;
  atomic (g ← get_g; flush_workqueue (mywq2 g));;
  atomic (g ← get_g; destroy_workqueue (mywq1 g));;
  atomic (g ← get_g; destroy_workqueue (mywq2 g));;
  atomic (free_irq IRQ_NO HANDLER);;
  atomic (g ← get_g; kfree (work_1 g));;
  atomic (g ← get_g; kfree (work_2 g)).

(** The interrupts that may run: the handler, while it is registered; the function
    of a waiting item. *)
Inductive mywq_intr (s : S) : M unit → Prop :=
  | intr_irq h c :
      held (world s) !! h = Some (KIrq IRQ_NO HANDLER) → 0 ≤ c < 256 →
      mywq_intr s (my_irq_handler c IRQ_NO;; mret tt)
  | intr_work h q w :
      mem (glob s) !! h = Some w → w_on w = Some q → mywq_intr s (run_work h).
End Module.
