(* ===== verification/WorkqueueSpec.v ===== *)
(** * What the workqueue module guarantees *)

From S2P Require Import Prelude Kernel Threads KernelIrq Workqueue.
From stdpp Require Import options.
#[local] Set Default Proof Using "Type*".
Local Open Scope Z_scope.

Definition irq_obj : kobj := KIrq IRQ_NO HANDLER.
Definition wq1_obj : kobj := KWorkqueue "my_queue1".
Definition wq2_obj : kobj := KWorkqueue "my_queue2".
Definition work_obj : kobj := KKmalloc sizeof_my_work.
Definition file_obj : kobj := KProcFile "tasklet" 292 None.
Definition dir_obj : kobj := KProcDir "tasklet_dir" None.
Definition link_obj : kobj := KProcLink "tasklet_symlink" None "/proc/tasklet".

Definition is_wq (o : kobj) : Prop := match o with KWorkqueue _ => True | _ => False end.
Definition is_owned (o : kobj) : Prop :=
  match o with KWorkqueue _ | KKmalloc _ | KProcFile _ _ _ | KProcDir _ _ | KProcLink _ _ _ => True
  | _ => False end.

Lemma waiting_on_none q (g : wstate) : (∀ h v, mem g !! h = Some v → w_on v = None) → waiting_on q g = [].
Proof.
  intros Hn. unfold waiting_on. destruct (filter _ _) as [|[h v] l] eqn:Hf; [done|].
  assert ((h, v) ∈ filter (λ hw : handle * my_work, w_on hw.2 = Some q) (map_to_list (mem g)))
    as Hin by (rewrite Hf; set_solver).
  apply list_elem_of_filter in Hin as [Hq Hin%elem_of_map_to_list]. simpl in Hq.
  by rewrite (Hn _ _ Hin) in Hq.
Qed.

Section Spec.
Context {W : Type} `{!Kernel W, !KernelLaws W}.
Implicit Types (w : W) (g : wstate) (m : gmap handle kobj).
Abbreviation S := (kstate W wstate).

(** The state between loading and unloading when no item waits. *)
Definition loaded m (s : S) : Prop :=
  ∃ q a b x y f d l : handle,
    let m1 := <[q := irq_obj]> m in
    let m2 := <[a := wq1_obj]> m1 in
    let m3 := <[b := wq2_obj]> m2 in
    let m4 := <[x := work_obj]> m3 in
    let m5 := <[y := work_obj]> m4 in
    let m6 := <[f := file_obj]> m5 in
    let m7 := <[d := dir_obj]> m6 in
    m !! q = None ∧ m1 !! a = None ∧ m2 !! b = None ∧ m3 !! x = None ∧ m4 !! y = None ∧
    m5 !! f = None ∧ m6 !! d = None ∧ m7 !! l = None ∧
    held (world s) = <[l := link_obj]> m7 ∧
    mywq1 (glob s) = Some a ∧ mywq2 (glob s) = Some b ∧
    work_1 (glob s) = Some x ∧ work_2 (glob s) = Some y ∧
    proc_file (glob s) = Some f ∧ proc_dir (glob s) = Some d ∧ proc_link (glob s) = Some l ∧
    mem (glob s) !! x = Some (MyWork (Some 1%nat) None None) ∧
    mem (glob s) !! y = Some (MyWork (Some 2%nat) None None) ∧
    (∀ h v, mem (glob s) !! h = Some v → w_on v = None).

(** The failing branches: the handler freed, but queues left; or all left. *)
Definition failed m (r : Z) (mh : gmap handle kobj) : Prop :=
  (r < 0 ∧ over is_wq m mh) ∨
  (r = - ENOMEM ∧ ∃ q, m !! q = None ∧ over is_owned (<[q := irq_obj]> m) mh).

Lemma get_work_ok h n v w g :
  held w !! h = Some (KKmalloc n) → mem g !! h = Some v →
  get_work (Some h) (KState w g) = Ok (v, KState w g).
Proof. intros Hh Hv. unfold get_work, mbind, prog_bind, get_g. simpl. by rewrite Hh, Hv. Qed.

Lemma wp_INIT_WORK h n f v (Q : unit → S → Prop) w g :
  held w !! h = Some (KKmalloc n) → mem g !! h = Some v →
  Q tt (KState w (set_mem h (MyWork (Some f) None (code v)) g)) → wp (INIT_WORK (Some h) f) Q (KState w g).
Proof.
  intros Hh Hv HQ. unfold INIT_WORK. apply wp_bind. eapply wp_Ok; [by eapply get_work_ok|].
  by apply wp_set_g.
Qed.

(** The handler is given back from below the queues. *)
Lemma free_irq_over q m (Q : unit → S → Prop) w g :
  (∀ h, m !! h ≠ Some irq_obj) → m !! q = None → over is_wq (<[q := irq_obj]> m) (held w) →
  (∀ w', over is_wq m (held w') → (∀ h n, held w !! h = Some (KKmalloc n) →
    held w' !! h = Some (KKmalloc n)) → Q tt (KState w' g)) →
  wp (free_irq IRQ_NO HANDLER) Q (KState w g).
Proof.
  intros Hno Hq Hov HQ.
  assert (held w !! q = Some irq_obj) as Hl by (eapply over_lookup; [done|apply lookup_insert_eq]).
  eapply wp_free_irq; [exact Hl| |].
  - intros h Hh. pose proof (over_other _ _ _ _ _ Hov Hh (λ H, H)) as Hh'. clear Hh. rename Hh' into Hh.
    apply lookup_insert_Some in Hh as [[-> _]|[_ Hh]]; [done|]. exfalso. by eapply Hno.
  - intros w' Hw'. apply HQ; rewrite Hw'; [by eapply over_delete|].
    intros h n Hh. rewrite lookup_delete_ne; [done|]. intros ->. by rewrite Hl in Hh.
Qed.

(** The same from below a work item, which is the last acquisition. *)
Lemma free_irq_under_work q x m mh (Q : unit → S → Prop) w g :
  (∀ h, m !! h ≠ Some irq_obj) → m !! q = None → over is_wq (<[q := irq_obj]> m) mh →
  mh !! x = None → held w = <[x := work_obj]> mh →
  (∀ w', held w' = <[x := work_obj]> (delete q mh) → delete q mh !! x = None →
    over is_wq m (delete q mh) → Q tt (KState w' g)) →
  wp (free_irq IRQ_NO HANDLER) Q (KState w g).
Proof.
  intros Hno Hq Hov Hx Hw HQ.
  assert (mh !! q = Some irq_obj) as Hq3 by (eapply over_lookup; [done|apply lookup_insert_eq]).
  eapply (wp_free_irq q); [by rewrite Hw; apply lookup_insert_keep| |].
  - intros h. rewrite Hw, lookup_insert. case_decide; [done|]. intros Hh.
    pose proof (over_other _ _ _ _ _ Hov Hh (λ H, H)) as Hh'.
    apply lookup_insert_Some in Hh' as [[-> _]|[_ Hh']]; [done|]. exfalso. by eapply Hno.
  - intros w' Hw'. apply HQ.
    + rewrite Hw', Hw, delete_insert_ne; [done|]. intros ->. by rewrite Hq3 in Hx.
    + by apply lookup_delete_None; right.
    + by eapply over_delete.
Qed.

Lemma mywq_init_wp w :
  (∀ h, held w !! h ≠ Some irq_obj) →
  wp (run_thread mywq_init) (λ r s,
    failed (held w) r (held (world s)) ∨ (r = 0 ∧ loaded (held w) s)) (KState w unloaded).
Proof.
  intros Hno. unfold mywq_init, request_irq, alloc_workqueue, kmalloc_work, kmalloc, proc_create,
    proc_mkdir, proc_symlink.
  t_steps. apply wp_register; [intros q w1 Hq%ff_new Hw1|intros e w1 He Hw1].
  2: { rewrite decide_True by lia. t_steps. left. left. split; [done|]. simpl. rewrite Hw1. constructor. }
  rewrite decide_False by lia.
  assert (over is_wq (<[q := irq_obj]> (held w)) (held w1)) as Ho1 by (rewrite Hw1; constructor).
  t_steps. apply wp_alloc; [intros a w2 Ha%ff_new Hw2|intros w2 Hw2]; t_steps.
  2: { eapply (free_irq_over q); [done|done|by rewrite Hw2|]. intros w3 Hw3 _. t_steps. by left; left. }
  assert (over is_wq (<[q := irq_obj]> (held w)) (held w2)) as Ho2 by (rewrite Hw2; by constructor).
  apply wp_alloc; [intros b w3 Hb%ff_new Hw3|intros w3 Hw3]; t_steps.
  2: { eapply (free_irq_over q); [done|done|by rewrite Hw3|]. intros w4 Hw4 _. t_steps. by left; left. }
  assert (over is_wq (<[q := irq_obj]> (held w)) (held w3)) as Ho3 by (rewrite Hw3; by constructor).
  apply wp_alloc; [intros x w4 Hx%ff_new Hw4|intros w4 Hw4]; t_steps.
  2: { eapply (free_irq_over q); [done|done|by rewrite Hw4|]. intros w5 Hw5 _. t_steps. by left; left. }
  eapply wp_INIT_WORK; [rewrite Hw4; apply lookup_insert_eq|apply lookup_insert_eq|]. t_steps.
  pose proof Hx as Hx3. apply wp_alloc; [intros y w5 Hy%ff_new Hw5|intros w5 Hw5]; t_steps.
  2: { eapply (free_irq_under_work q x); [done|done|exact Ho3|exact Hx|by rewrite Hw5, Hw4|].
       intros w6 Hw6 Hx6 Ho6. t_steps. eapply wp_release_last; [exact Hw6|exact Hx6|done|].
       intros w7 Hw7. t_steps. left. left. split; [done|]. simpl. by rewrite Hw7. }
  assert (over is_owned (<[q := irq_obj]> (held w)) (held w5)) as Ho5.
  { rewrite Hw5. constructor; [|done|done]. rewrite Hw4. constructor; [|done|done].
    eapply over_mono; [|done]. by intros []. }
  eapply wp_INIT_WORK; [rewrite Hw5; apply lookup_insert_eq|apply lookup_insert_eq|]. t_steps.
  apply wp_alloc; [intros f w6 Hf%ff_new Hw6|intros w6 Hw6]; t_steps.
  2: { left. right. split; [done|]. exists q. simpl. by rewrite Hw6. }
  assert (over is_owned (<[q := irq_obj]> (held w)) (held w6)) as Ho6 by (rewrite Hw6; by constructor).
  apply wp_alloc; [intros d w7 Hd%ff_new Hw7|intros w7 Hw7]; t_steps;
    (apply wp_alloc; [intros l w8 Hl%ff_new Hw8|intros w8 Hw8]); t_steps.
  2,3,4: left; right; split; [done|]; exists q; split; [done|]; simpl; rewrite Hw8.
  2: by rewrite Hw7; constructor.
  2: by rewrite Hw7 in *; constructor.
  2: by rewrite Hw7.
  right. split; [done|]. exists q, a, b, x, y, f, d, l. simpl.
  rewrite Hw7, Hw6, Hw5, Hw4, Hw3, Hw2, Hw1 in Hl. rewrite Hw6, Hw5, Hw4, Hw3, Hw2, Hw1 in Hd.
  rewrite Hw5, Hw4, Hw3, Hw2, Hw1 in Hf. rewrite Hw4, Hw3, Hw2, Hw1 in Hy.
  rewrite Hw3, Hw2, Hw1 in Hx. rewrite Hw2, Hw1 in Hb. rewrite Hw1 in Ha.
  split_and!; try done.
  - by rewrite Hw8, Hw7, Hw6, Hw5, Hw4, Hw3, Hw2, Hw1.
  - clear Hf Hd Hl. split_fresh. map_lookup.
  - map_lookup.
  - intros h v. rewrite !lookup_insert. repeat case_decide; intros; by simplify_eq.
Qed.

(** [mywq_exit] up to the destruction of the queues, while the handler is
    registered. *)
Definition exit_prefix : thread S unit :=
  atomic (g ← get_g; proc_remove (proc_file g));;
  atomic (g ← get_g; proc_remove (proc_dir g));;
  atomic (g ← get_g; proc_remove (proc_link g));;
  atomic (g ← get_g; flush_workqueue (mywq1 g));;
  atomic (g ← get_g; flush_workqueue (mywq2 g));;
  atomic (g ← get_g; destroy_workqueue (mywq1 g));;
  atomic (g ← get_g; destroy_workqueue (mywq2 g)).

Definition exit_suffix : thread S unit :=
  atomic (free_irq IRQ_NO HANDLER);;
  atomic (g ← get_g; kfree (work_1 g));;
  atomic (g ← get_g; kfree (work_2 g)).

Lemma mywq_exit_split : mywq_exit = exit_prefix ≫= λ _, exit_suffix.
Proof. reflexivity. Qed.

(** Flushing a queue on which nothing waits. *)
Lemma wp_flush q name (Q : unit → S → Prop) w g :
  held w !! q = Some (KWorkqueue name) → (∀ h v, mem g !! h = Some v → w_on v = None) →
  Q tt (KState w g) → wp (flush_workqueue (Some q)) Q (KState w g).
Proof.
  intros Hq Hn HQ. unfold flush_workqueue. apply wp_bind.
  eapply wp_Ok; [unfold need_wq; simpl; by rewrite Hq|]. apply wp_bind, wp_get_g.
  rewrite waiting_on_none by done. by apply wp_ret.
Qed.

Lemma wp_destroy q name (Q : unit → S → Prop) w g :
  held w !! q = Some (KWorkqueue name) → (∀ h v, mem g !! h = Some v → w_on v = None) →
  (∀ w', held w' = delete q (held w) → Q tt (KState w' g)) →
  wp (destroy_workqueue (Some q)) Q (KState w g).
Proof.
  intros Hq Hn HQ. unfold destroy_workqueue. apply wp_bind. eapply wp_flush; [done|done|].
  by eapply wp_release.
Qed.

Lemma mywq_exit_prefix_wp m w g :
  loaded m (KState w g) →
  wp (run_thread exit_prefix) (λ _ s, glob s = g ∧ ∃ q a x y : handle,
    m !! q = None ∧ m !! x = None ∧ m !! y = None ∧ q ≠ x ∧ q ≠ y ∧ x ≠ y ∧
    held (world s) = <[y := work_obj]> (<[x := work_obj]> (<[q := irq_obj]> m)) ∧
    mywq1 g = Some a ∧ held (world s) !! a = None ∧ work_1 g = Some x ∧ work_2 g = Some y ∧
    (∃ v, mem g !! x = Some v ∧ w_func v = Some 1%nat ∧ w_on v = None) ∧
    (∃ v, mem g !! y = Some v)) (KState w g).
Proof.
  intros (q & a & b & x & y & f & d & l & Hq & Ha & Hb & Hx & Hy & Hf & Hd & Hl & Hheld &
    Hg1 & Hg2 & Hgx & Hgy & Hgf & Hgd & Hgl & Hmx & Hmy & Hn). simpl in *. split_fresh.
  unfold exit_prefix. t_steps. rewrite Hgf.
  eapply (wp_proc_remove f file_obj); [rewrite Hheld; map_lookup|by eexists|].
  intros w1 Hw1. t_steps. rewrite Hgd.
  eapply (wp_proc_remove d dir_obj); [rewrite Hw1, Hheld; map_lookup|by eexists|].
  intros w2 Hw2. t_steps. rewrite Hgl.
  eapply (wp_proc_remove l link_obj); [rewrite Hw2, Hw1, Hheld; map_lookup|by eexists|].
  intros w3 Hw3. t_steps.
  assert (held w3 = <[y := work_obj]> (<[x := work_obj]> (<[b := wq2_obj]> (<[a := wq1_obj]>
    (<[q := irq_obj]> m))))) as Hw3' by (rewrite Hw3, Hw2, Hw1, Hheld; map_equal).
  clear Hw1 Hw2 Hw3 Hheld. rewrite Hg1. eapply wp_flush; [rewrite Hw3'; map_lookup|done|]. t_steps.
  rewrite Hg2. eapply wp_flush; [rewrite Hw3'; map_lookup|done|]. t_steps.
  rewrite Hg1. eapply wp_destroy; [rewrite Hw3'; map_lookup|done|]. intros w4 Hw4. t_steps.
  rewrite Hg2. eapply wp_destroy; [rewrite Hw4, Hw3'; map_lookup|done|]. intros w5 Hw5. t_steps.
  split; [done|]. exists q, a, x, y. simpl. rewrite Hw5, Hw4, Hw3'. split_and!; try done.
  - map_equal.
  - map_lookup.
  - by eexists.
  - by eexists.
Qed.

Lemma mywq_exit_wp m w g :
  (∀ h, m !! h ≠ Some irq_obj) → loaded m (KState w g) →
  wp (run_thread mywq_exit) (λ _ s, held (world s) = m) (KState w g).
Proof.
  intros Hno Hl. rewrite mywq_exit_split. apply wp_run_bind.
  eapply wp_mono; [by apply mywq_exit_prefix_wp|].
  intros [] [w1 g1] (Hg & q & a & x & y & Hq & Hx & Hy & Hqx & Hqy & Hxy & Hw1 & _ & _ & Hgx & Hgy & _).
  simpl in *. subst g1. unfold exit_suffix. t_steps. eapply (wp_free_irq q).
  - rewrite Hw1. map_lookup.
  - intros h'. rewrite Hw1, !lookup_insert.
    repeat case_decide; try done. intros Hh. exfalso. by eapply Hno.
  - intros w2 Hw2. t_steps. rewrite Hgx.
    eapply (wp_release _ x work_obj); [rewrite Hw2, Hw1; map_lookup|done|]. intros w3 Hw3. t_steps.
    rewrite Hgy. eapply (wp_release _ y work_obj); [rewrite Hw3, Hw2, Hw1; map_lookup|done|].
    intros w4 Hw4. t_steps. simpl. rewrite Hw4, Hw3, Hw2, Hw1. map_equal.
Qed.
End Spec.

(** Without interrupts, loading fails and gives back the handler but not the
    queues, or fails at the entries of /proc with the handler still registered; or
    it succeeds, and unloading gives back everything. *)
Theorem mywq_load_unload {W : Type} `{!Kernel W, !KernelLaws W} (w : W) :
  (∀ h, held w !! h ≠ Some irq_obj) →
  ∃ r s, run_thread mywq_init (KState w unloaded) = Ok (r, s) ∧
    (failed (held w) r (held (world s)) ∨
     (r = 0 ∧ ∃ s', run_thread mywq_exit s = Ok (tt, s') ∧ held (world s') = held w)).
Proof.
  intros Hno. destruct (mywq_init_wp w Hno) as (r & s & Hi & Hr). exists r, s. split; [done|].
  destruct Hr as [Hr|[-> Hl]]; [by left|]. right. split; [done|].
  destruct s as [w1 g1]. destruct (mywq_exit_wp _ _ _ Hno Hl) as ([] & s' & He & Hs'). by exists s'.
Qed.

(** C34: a key pressed while the module is being loaded, after the registration of
    the handler, makes the handler dereference NULL; one pressed while it is being
    unloaded, after the destruction of the queues, makes it use a destroyed queue. *)
Theorem mywq_races {W : Type} `{!Kernel W, !KernelLaws W} (w : W) :
  (∀ h w', acquire irq_obj w = (inl h, w') →
    rtc (step mywq_intr) (Running mywq_init (KState w unloaded)) (Crashed NullDeref)) ∧
  (∀ m g, loaded m (KState w g) →
    rtc (step mywq_intr) (Running mywq_exit (KState w g)) (Crashed UseAfterFree)).
Proof.
  split.
  - intros h w' Ha. eapply rtc_l.
    { apply step_thread. unfold request_irq, register. simpl. fold irq_obj. by rewrite Ha. }
    apply rtc_once. eapply step_intr_fault.
    + apply (intr_irq _ h 30); [|lia]. simpl. destruct (acquire_ok _ _ _ _ Ha) as [_ Hh].
      rewrite Hh. apply lookup_insert_eq.
    + done.
  - intros m g Hl. destruct (mywq_exit_prefix_wp m w g Hl) as ([] & [w1 g1] & Hrun & Hg & q & a & x & y &
      Hq & Hx & Hy & Hqx & Hqy & Hxy & Hw1 & Hga & Ha & Hgx & Hgy & (v & Hmx & Hf & Hon) & v2 & Hmy).
    simpl in *. subst g1. rewrite mywq_exit_split. eapply rtc_r; [by eapply rtc_run_bind|].
    eapply step_intr_fault.
    + apply (intr_irq _ q 30); [|lia]. simpl. rewrite Hw1. map_lookup.
    + unfold my_irq_handler, mbind, prog_bind, get_g. simpl. rewrite Hgx, Hgy, Hga.
      rewrite (get_work_ok x sizeof_my_work v); [|rewrite Hw1; map_lookup|done]. simpl.
      unfold set_g. rewrite (get_work_ok y sizeof_my_work v2); [|rewrite Hw1; map_lookup|].
      * simpl. unfold queue_work, need_wq, mbind, prog_bind. simpl. by rewrite Ha.
      * simpl. by rewrite lookup_insert_ne.
Qed.

(** ** The theorems at work *)

Definition sample_held : gmap handle kobj :=
  <[8%positive := link_obj]> (<[7%positive := dir_obj]> (<[6%positive := file_obj]>
  (<[5%positive := work_obj]> (<[4%positive := work_obj]> (<[3%positive := wq2_obj]>
  (<[2%positive := wq1_obj]> (<[1%positive := irq_obj]> ∅))))))).
Definition sample_w : ledger := Ledger sample_held 8 [].
Definition sample : wstate :=
  WState (Some 2%positive) (Some 3%positive) (Some 4%positive) (Some 5%positive)
    (Some 6%positive) (Some 7%positive) (Some 8%positive)
    (<[5%positive := MyWork (Some 2%nat) None None]> {[4%positive := MyWork (Some 1%nat) None None]}) [].

Lemma mywq_sample_loaded : loaded ∅ (KState sample_w sample).
Proof.
  exists 1%positive, 2%positive, 3%positive, 4%positive, 5%positive, 6%positive, 7%positive, 8%positive.
  simpl. split_and!; try done. intros h v.
  rewrite lookup_insert_Some, lookup_singleton_Some. intros [[_ <-]|[_ [_ <-]]]; done.
Qed.

Lemma mywq_load_unload_witness :
  ∃ r s, run_thread mywq_init (KState (Ledger ∅ 0 []) unloaded) = Ok (r, s) ∧
    (failed ∅ r (l_held (world s)) ∨
     (r = 0 ∧ ∃ s', run_thread mywq_exit s = Ok (tt, s') ∧ l_held (world s') = ∅)).
Proof. refine (mywq_load_unload (Ledger ∅ 0 []) _). exact (λ h, lookup_empty_Some h _). Defined.

Lemma mywq_races_witness :
  rtc (step mywq_intr) (Running mywq_init (KState (Ledger ∅ 0 []) unloaded)) (Crashed NullDeref) ∧
  rtc (step mywq_intr) (Running mywq_exit (KState sample_w sample)) (Crashed UseAfterFree).
Proof.
  split.
  - exact (proj1 (mywq_races (Ledger ∅ 0 [])) _ _ eq_refl).
  - exact (proj2 (mywq_races sample_w) ∅ sample mywq_sample_loaded).
Defined.

(** Two keys before the items run: both functions see the second one. *)
Example mywq_keys :
  (λ x : outcome (unit * kstate ledger wstate), match x with
     | Ok (_, s) => Some (log (glob s))
     | _ => None end)
    ((my_irq_handler 30 IRQ_NO;; my_irq_handler 158 IRQ_NO;; flush_workqueue (Some 2%positive);;
      flush_workqueue (Some 3%positive)) (KState sample_w sample))
  = Some [Msg1 None 158; Msg2Delay; Msg2 158].
Proof. vm_compute. reflexivity. Qed.
