(* ===== verification/WorkqueueRace.v ===== *)
(** * The workqueue module while it runs (9/interrupts/workqueue/mywq.c)

    The keyboard interrupts, and a worker thread for each of the two queues, on different
    processors: an action is one access to a work item or one call of the kernel. An
    interrupt handler does not interrupt itself, and a queue runs one item at a time
    ([max_active] is 1). *)

From S2P Require Import Prelude Kernel Threads KernelIrq Workqueue.
From stdpp Require Import options.
#[local] Set Default Proof Using "Type*".
Local Open Scope Z_scope.

(** Where [my_irq_handler] is; [c] is what [inb(0x60)] has read. *)
Inductive ipc :=
  | INone                 (* no interrupt *)
  | IStore1 (c : Z)       (* work_1->code = code *)
  | IStore2 (c : Z)       (* work_2->code = code *)
  | IQueue1               (* queue_work(mywq1, work_1) *)
  | IQueue2.              (* queue_work(mywq2, work_2) *)

(** Where the worker of the first queue is in [mywq_fun_1]. *)
Inductive pc1 :=
  | Idle1
  | Check1                          (* if (mywork->code < 84) *)
  | Name1                           (* .. ascii[mywork->code] .. *)
  | Code1 (name : option string).   (* printk(.., mywork->code) *)

(** Where the worker of the second queue is in [mywq_fun_2]. *)
Inductive pc2 :=
  | Idle2
  | Delay2                (* printk(.., "delay = 1000"), msleep(1000) *)
  | Code2.                (* printk(.., mywork->code) *)

Section Running.
Context {W : Type} `{!Kernel W}.
Abbreviation S := (kstate W wstate).
Abbreviation M := (prog S).

(** The interrupt is on the line of the module. *)
Definition irq_step (pc : ipc) : option (M ipc) :=
  match pc with
  | INone => None
  | IStore1 c => Some (
      g ← get_g;
      w ← get_work (work_1 g);
      put_work (work_1 g) (MyWork (w_func w) (w_on w) (Some c));;
      mret (IStore2 c))
  | IStore2 c => Some (
      g ← get_g;
      w ← get_work (work_2 g);
      put_work (work_2 g) (MyWork (w_func w) (w_on w) (Some c));;
      mret IQueue1)
  | IQueue1 => Some (g ← get_g; queue_work (mywq1 g) (work_1 g);; mret IQueue2)
  | IQueue2 => Some (g ← get_g; queue_work (mywq2 g) (work_2 g);; mret INone)
  end.

(** A worker takes the item [h] off the queue and calls its function. *)
Definition take_work (h : handle) : M (option nat) :=
  w ← get_work (Some h);
  put_work (Some h) (MyWork (w_func w) None (code w));;
  mret (w_func w).

Definition fun1_step (work : option handle) (pc : pc1) : option (M pc1) :=
  match pc with
  | Idle1 => None
  | Check1 => Some (c ← get_code work; mret (if decide (c < 84) then Name1 else Code1 None))
  | Name1 => Some (
      c ← get_code work;
      if decide (0 ≤ c) then
        match ascii !! Z.to_nat c with
        | Some name => mret (Code1 (Some name))
        | None => crash OutOfBounds
        end
      else crash OutOfBounds)
  | Code1 name => Some (c ← get_code work; set_g (add_log (Msg1 name c));; mret Idle1)
  end.

Definition fun2_step (work : option handle) (pc : pc2) : option (M pc2) :=
  match pc with
  | Idle2 => None
  | Delay2 => Some (set_g (add_log Msg2Delay);; mret Code2)
  | Code2 => Some (c ← get_code work; set_g (add_log (Msg2 c));; mret Idle2)
  end.

(** One of them alone, for a number of actions. *)

Fixpoint irq_run (n : nat) (pc : ipc) : M ipc :=
  match n with
  | O => mret pc
  | Datatypes.S n => match irq_step pc with Some m => pc ← m; irq_run n pc | None => mret pc end
  end.

Fixpoint fun2_run (n : nat) (work : option handle) (pc : pc2) : M pc2 :=
  match n with
  | O => mret pc
  | Datatypes.S n => match fun2_step work pc with Some m => pc ← m; fun2_run n work pc | None => mret pc end
  end.

Fixpoint fun1_run (n : nat) (work : option handle) (pc : pc1) : M pc1 :=
  match n with
  | O => mret pc
  | Datatypes.S n => match fun1_step work pc with Some m => pc ← m; fun1_run n work pc | None => mret pc end
  end.

(** ** Everything together *)

(** [keys] are the scan codes delivered so far. *)
Record running := Running {
  shared : S;
  irq : ipc;
  fun1 : pc1;
  fun2 : pc2;
  keys : list Z
}.

Inductive move :=
  | Key (c : Z)           (* an interrupt comes in *)
  | Irq                   (* the handler goes on *)
  | Take1 | Fun1          (* the worker of the first queue starts, goes on *)
  | Take2 | Fun2.         (* the worker of the second queue *)

(** Does the item wait on a queue? *)
Definition waits (work : option handle) (g : wstate) : bool :=
  match work with
  | Some h => match mem g !! h with Some w => bool_decide (w_on w ≠ None) | None => false end
  | None => false
  end.

Definition run {A} (m : M A) (s : S) (k : A → S → running) : outcome running :=
  match m s with Ok (a, s') => Ok (k a s') | Fault f => Fault f end.

(** [None]: the move is not possible in this state. *)
Definition do_move (mv : move) (x : running) : option (outcome running) :=
  let 'Running s i p1 p2 ks := x in
  let g := glob s in
  match mv with
  | Key c =>
      match i with
      | INone => if decide (0 ≤ c < 256) then Some (Ok (Running s (IStore1 c) p1 p2 (ks ++ [c]))) else None
      | _ => None
      end
  | Irq => m ← irq_step i; Some (run m s (λ i s, Running s i p1 p2 ks))
  | Fun1 => m ← fun1_step (work_1 g) p1; Some (run m s (λ p1 s, Running s i p1 p2 ks))
  | Fun2 => m ← fun2_step (work_2 g) p2; Some (run m s (λ p2 s, Running s i p1 p2 ks))
  | Take1 =>
      match p1, work_1 g with
      | Idle1, Some h =>
          if waits (work_1 g) g then
            Some (run (f ← take_work h; match f with Some 1%nat => mret Check1 | _ => crash Uninit end) s
              (λ p1 s, Running s i p1 p2 ks))
          else None
      | _, _ => None
      end
  | Take2 =>
      match p2, work_2 g with
      | Idle2, Some h =>
          if waits (work_2 g) g then
            Some (run (f ← take_work h; match f with Some 2%nat => mret Delay2 | _ => crash Uninit end) s
              (λ p2 s, Running s i p1 p2 ks))
          else None
      | _, _ => None
      end
  end.

Definition wq_step (x : running) (y : outcome running) : Prop := ∃ mv, do_move mv x = Some y.

(** The states a run without a fault reaches. *)
Inductive wq_reach (x : running) : running → Prop :=
  | wq_refl : wq_reach x x
  | wq_more y z : wq_reach x y → wq_step y (Ok z) → wq_reach x z.

Fixpoint do_moves (mvs : list move) (x : running) : option (outcome running) :=
  match mvs with
  | [] => Some (Ok x)
  | mv :: mvs =>
      match do_move mv x with
      | Some (Ok y) => do_moves mvs y
      | Some (Fault f) => match mvs with [] => Some (Fault f) | _ => None end
      | None => None
      end
  end.

(** Nothing is going on and nothing waits. *)
Definition quiet (x : running) : Prop :=
  irq x = INone ∧ fun1 x = Idle1 ∧ fun2 x = Idle2 ∧
  waits (work_1 (glob (shared x))) (glob (shared x)) = false ∧
  waits (work_2 (glob (shared x))) (glob (shared x)) = false.

Definition start (s : S) : running := Running s INone Idle1 Idle2 [].
End Running.
Arguments running : clear implicits.
