(* ===== verification/WorkqueueRaceSpec.v ===== *)
(** * What the workqueue module guarantees while it runs *)

From S2P Require Import Prelude Kernel Threads KernelIrq Workqueue WorkqueueSpec WorkqueueRace.
From stdpp Require Import options.
#[local] Set Default Proof Using "All".
Local Open Scope Z_scope.

(** The name printed for a scan code. *)
Definition name_of (c : Z) : option string := if decide (c < 84) then ascii !! Z.to_nat c else None.

(** What each of the functions has printed. *)
Definition printed1 (l : list message) : list (option string * Z) :=
  omap (λ m, match m with Msg1 n c => Some (n, c) | _ => None end) l.
Definition printed2 (l : list message) : list Z :=
  omap (λ m, match m with Msg2 c => Some c | _ => None end) l.

(** The moves of the machine without the keyboard. *)
Definition rests {W : Type} `{!Kernel W} (r r' : running W) : Prop :=
  ∃ mv, (∀ c, mv ≠ Key c) ∧ do_move mv r = Some (Ok r').

Section Spec.
Context {W : Type} `{!Kernel W, !KernelLaws W} (w : W) (a b x y : handle) (n1 n2 : Z) (q1 q2 : string).
Context (Ha : held w !! a = Some (KWorkqueue q1)) (Hb : held w !! b = Some (KWorkqueue q2))
  (Hx : held w !! x = Some (KKmalloc n1)) (Hy : held w !! y = Some (KKmalloc n2)) (Hxy : x ≠ y).
Implicit Types (g : wstate) (l : list message).
Abbreviation S := (kstate W wstate).

(** The module's state: what it points to stays; the two items and the log change. *)
Record at_ g (on1 : option handle) (c1 : option Z) (on2 : option handle) (c2 : option Z) l : Prop := {
  at_q1 : mywq1 g = Some a;
  at_q2 : mywq2 g = Some b;
  at_w1 : work_1 g = Some x;
  at_w2 : work_2 g = Some y;
  at_m1 : mem g !! x = Some (MyWork (Some 1%nat) on1 c1);
  at_m2 : mem g !! y = Some (MyWork (Some 2%nat) on2 c2);
  at_log : log g = l
}.

Lemma at_set1 g on1 c1 on2 c2 l on1' c1' :
  at_ g on1 c1 on2 c2 l → at_ (set_mem x (MyWork (Some 1%nat) on1' c1') g) on1' c1' on2 c2 l.
Proof. intros []. split; simpl; try done; [apply lookup_insert_eq|by rewrite lookup_insert_ne]. Qed.

Lemma at_set2 g on1 c1 on2 c2 l on2' c2' :
  at_ g on1 c1 on2 c2 l → at_ (set_mem y (MyWork (Some 2%nat) on2' c2') g) on1 c1 on2' c2' l.
Proof. intros []. split; simpl; try done; [by rewrite lookup_insert_ne|apply lookup_insert_eq]. Qed.

Lemma at_add g on1 c1 on2 c2 l m :
  at_ g on1 c1 on2 c2 l → at_ (add_log m g) on1 c1 on2 c2 (l ++ [m]).
Proof. intros []. split; simpl; congruence. Qed.

Lemma wp_work1 g on1 c1 on2 c2 l (Q : my_work → S → Prop) :
  at_ g on1 c1 on2 c2 l → Q (MyWork (Some 1%nat) on1 c1) (KState w g) → wp (get_work (Some x)) Q (KState w g).
Proof. intros [] HQ. eapply wp_Ok; [|exact HQ]. by eapply get_work_ok. Qed.

Lemma wp_work2 g on1 c1 on2 c2 l (Q : my_work → S → Prop) :
  at_ g on1 c1 on2 c2 l → Q (MyWork (Some 2%nat) on2 c2) (KState w g) → wp (get_work (Some y)) Q (KState w g).
Proof. intros [] HQ. eapply wp_Ok; [|exact HQ]. by eapply get_work_ok. Qed.

Lemma wp_code1 g on1 c on2 c2 l (Q : Z → S → Prop) :
  at_ g on1 (Some c) on2 c2 l → Q c (KState w g) → wp (get_code (Some x)) Q (KState w g).
Proof. intros Hat HQ. apply wp_bind. eapply wp_work1; [done|]. by apply wp_ret. Qed.

Lemma wp_code2 g on1 c1 on2 c l (Q : Z → S → Prop) :
  at_ g on1 c1 on2 (Some c) l → Q c (KState w g) → wp (get_code (Some y)) Q (KState w g).
Proof. intros Hat HQ. apply wp_bind. eapply wp_work2; [done|]. by apply wp_ret. Qed.

Lemma wp_queue1 g on1 c1 on2 c2 l (Q : unit → S → Prop) :
  at_ g on1 c1 on2 c2 l →
  (∀ g' on, at_ g' on c1 on2 c2 l → on ≠ None → Q tt (KState w g')) →
  wp (queue_work (mywq1 g) (work_1 g)) Q (KState w g).
Proof.
  intros Hat HQ. pose proof Hat as [Hq _ Hw _ _ _ _]. rewrite Hq, Hw. unfold queue_work. apply wp_bind.
  eapply wp_Ok; [unfold need_wq; simpl; by rewrite Ha|]. apply wp_bind. eapply wp_work1; [done|]. simpl.
  destruct on1 as [q|]; [apply wp_ret; by eapply HQ|]. apply wp_set_g. eapply HQ; [by eapply at_set1|done].
Qed.

Lemma wp_queue2 g on1 c1 on2 c2 l (Q : unit → S → Prop) :
  at_ g on1 c1 on2 c2 l →
  (∀ g' on, at_ g' on1 c1 on c2 l → on ≠ None → Q tt (KState w g')) →
  wp (queue_work (mywq2 g) (work_2 g)) Q (KState w g).
Proof.
  intros Hat HQ. pose proof Hat as [_ Hq _ Hw _ _ _]. rewrite Hq, Hw. unfold queue_work. apply wp_bind.
  eapply wp_Ok; [unfold need_wq; simpl; by rewrite Hb|]. apply wp_bind. eapply wp_work2; [done|]. simpl.
  destruct on2 as [q|]; [apply wp_ret; by eapply HQ|]. apply wp_set_g. eapply HQ; [by eapply at_set2|done].
Qed.

(** ** The invariant *)

(** The handler has not queued the first item yet for the last key; the second item. *)
Definition before1 (i : ipc) : bool := match i with IStore1 _ | IStore2 _ | IQueue1 => true | _ => false end.
Definition before2 (i : ipc) : bool := match i with INone => false | _ => true end.

(** How far the last key has got. *)
Definition stored (i : ipc) (c1 c2 : option Z) (ks : list Z) : Prop :=
  match i with
  | IStore1 c => last ks = Some c
  | IStore2 c => last ks = Some c ∧ c1 = Some c
  | IQueue1 | IQueue2 => ∃ c, last ks = Some c ∧ c1 = Some c ∧ c2 = Some c
  | INone => c1 = last ks ∧ c2 = last ks
  end.

(** The key in the first item is going to be printed, or has been. *)
Definition fresh1 (p : pc1) (c : Z) l : Prop :=
  match p with
  | Check1 => True
  | Name1 => c < 84
  | Code1 name => name = name_of c
  | Idle1 => last (printed1 l) = Some (name_of c, c)
  end.
Definition fresh2 (p : pc2) (c : Z) l : Prop :=
  match p with Idle2 => last (printed2 l) = Some c | _ => True end.

Definition from_keys (ks : list Z) (l : list message) : Prop :=
  (∀ name c, (name, c) ∈ printed1 l → c ∈ ks ∧ ∃ c', c' ∈ ks ∧ name = name_of c') ∧
  (∀ c, c ∈ printed2 l → c ∈ ks).

Record inv (r : running W) : Prop := Inv {
  inv_world : world (shared r) = w;
  inv_state : ∃ on1 c1 on2 c2 l, at_ (glob (shared r)) on1 c1 on2 c2 l ∧
    stored (irq r) c1 c2 (keys r) ∧
    (∀ c, c1 = Some c → c ∈ keys r) ∧ (∀ c, c2 = Some c → c ∈ keys r) ∧
    (on1 ≠ None ∨ fun1 r ≠ Idle1 → c1 ≠ None) ∧ (on2 ≠ None ∨ fun2 r ≠ Idle2 → c2 ≠ None) ∧
    (before1 (irq r) = false → on1 = None → ∀ c, c1 = Some c → fresh1 (fun1 r) c l) ∧
    (before2 (irq r) = false → on2 = None → ∀ c, c2 = Some c → fresh2 (fun2 r) c l) ∧
    (∀ name, fun1 r = Code1 name → ∃ c', c' ∈ keys r ∧ name = name_of c') ∧
    from_keys (keys r) l;
  inv_keys : Forall (λ c, 0 ≤ c < 256) (keys r)
}.

(** ** Every move keeps it *)

(** What the moves that are not keys use up. *)
Definition left1 (p : pc1) : nat := match p with Idle1 => 0 | Check1 => 3 | Name1 => 2 | Code1 _ => 1 end.
Definition left2 (p : pc2) : nat := match p with Idle2 => 0 | Delay2 => 2 | Code2 => 1 end.
Definition left_irq (i : ipc) : nat :=
  match i with INone => 0 | IQueue2 => 10 | IQueue1 => 20 | IStore2 _ => 21 | IStore1 _ => 22 end.
Definition to_do (r : running W) : nat :=
  let g := glob (shared r) in
  left_irq (irq r) + left1 (fun1 r) + left2 (fun2 r) +
  (if waits (work_1 g) g then 5 else 0) + (if waits (work_2 g) g then 5 else 0).

Lemma waits1 g on1 c1 on2 c2 l : at_ g on1 c1 on2 c2 l → waits (work_1 g) g = bool_decide (on1 ≠ None).
Proof. intros [_ _ Hw _ Hm _ _]. unfold waits. by rewrite Hw, Hm. Qed.
Lemma waits2 g on1 c1 on2 c2 l : at_ g on1 c1 on2 c2 l → waits (work_2 g) g = bool_decide (on2 ≠ None).
Proof. intros [_ _ _ Hw _ Hm _]. unfold waits. by rewrite Hw, Hm. Qed.

Lemma run_wp {A} (m : prog S A) (Q : A → S → Prop) s k :
  wp m Q s → ∃ a s', run m s k = Ok (k a s') ∧ Q a s'.
Proof. intros (a' & s' & Hm & HQ). exists a', s'. unfold run. by rewrite Hm. Qed.

Lemma inv_key c s p1 p2 ks :
  inv (Running s INone p1 p2 ks) → 0 ≤ c < 256 → inv (Running s (IStore1 c) p1 p2 (ks ++ [c])).
Proof.
  intros [Hw (on1 & c1 & on2 & c2 & l & Hat & Hst & Hk1 & Hk2 & Hs1 & Hs2 & _ & _ & Hn & Hf1 & Hf2) Hks] Hc.
  simpl in *. split; simpl; [done| |apply Forall_app; split; [done|by apply Forall_singleton]].
  exists on1, c1, on2, c2, l. split_and!; try done.
  - by rewrite last_snoc.
  - intros c' Hc'. apply elem_of_app. eauto.
  - intros c' Hc'. apply elem_of_app. eauto.
  - intros name Hname. destruct (Hn _ Hname) as (c' & ? & ?). exists c'. rewrite elem_of_app. eauto.
  - split.
    + intros name c' Hin. destruct (Hf1 _ _ Hin) as (? & c'' & ? & ?). rewrite elem_of_app. split; [by left|].
      exists c''. rewrite elem_of_app. eauto.
    + intros c' Hin. apply elem_of_app. eauto.
Qed.

Definition progress (r r' : running W) : Prop := inv r' ∧ keys r' = keys r ∧ (to_do r' < to_do r)%nat.

Lemma to_do_at g i p1 p2 ks on1 c1 on2 c2 l :
  at_ g on1 c1 on2 c2 l →
  to_do (Running (KState w g) i p1 p2 ks) =
    (left_irq i + left1 p1 + left2 p2 + (if bool_decide (on1 ≠ None) then 5 else 0) +
     (if bool_decide (on2 ≠ None) then 5 else 0))%nat.
Proof. intros Hat. unfold to_do. simpl. by rewrite (waits1 _ _ _ _ _ _ Hat), (waits2 _ _ _ _ _ _ Hat). Qed.

(** The parts of the invariant for a new state of the items. *)
Lemma progress_at g g' i i' p1 p1' p2 p2' ks on1 c1 on2 c2 l on1' c1' on2' c2' l' :
  Forall (λ c, 0 ≤ c < 256) ks → at_ g on1 c1 on2 c2 l → at_ g' on1' c1' on2' c2' l' →
  stored i' c1' c2' ks →
  (∀ c, c1' = Some c → c ∈ ks) → (∀ c, c2' = Some c → c ∈ ks) →
  (on1' ≠ None ∨ p1' ≠ Idle1 → c1' ≠ None) → (on2' ≠ None ∨ p2' ≠ Idle2 → c2' ≠ None) →
  (before1 i' = false → on1' = None → ∀ c, c1' = Some c → fresh1 p1' c l') →
  (before2 i' = false → on2' = None → ∀ c, c2' = Some c → fresh2 p2' c l') →
  (∀ name, p1' = Code1 name → ∃ c', c' ∈ ks ∧ name = name_of c') → from_keys ks l' →
  (left_irq i' + left1 p1' + left2 p2' + (if bool_decide (on1' ≠ None) then 5 else 0) +
     (if bool_decide (on2' ≠ None) then 5 else 0) <
   left_irq i + left1 p1 + left2 p2 + (if bool_decide (on1 ≠ None) then 5 else 0) +
     (if bool_decide (on2 ≠ None) then 5 else 0))%nat →
  progress (Running (KState w g) i p1 p2 ks) (Running (KState w g') i' p1' p2' ks).
Proof.
  intros Hks Hat Hat' Hst H1 H2 H3 H4 H5 H6 H7 H8 Hlt. split_and!; [|done|].
  - split; simpl; [done| |done]. exists on1', c1', on2', c2', l'. by split_and!.
  - by rewrite (to_do_at _ _ _ _ _ _ _ _ _ _ Hat), (to_do_at _ _ _ _ _ _ _ _ _ _ Hat').
Qed.

Lemma last_in (ks : list Z) c : last ks = Some c → c ∈ ks.
Proof. intros (l & ->)%last_Some. set_solver. Qed.

Ltac counts := simpl; repeat case_bool_decide; simplify_eq; try done; lia.

Lemma inv_irq i p1 p2 ks m g :
  inv (Running (KState w g) i p1 p2 ks) → irq_step i = Some m →
  wp m (λ i' s', world s' = w ∧ progress (Running (KState w g) i p1 p2 ks) (Running s' i' p1 p2 ks)) (KState w g).
Proof.
  intros [_ (on1 & c1 & on2 & c2 & l & Hat & Hst & Hk1 & Hk2 & Hs1 & Hs2 & Hf1 & Hf2 & Hn & Hfr) Hks] Hm.
  simpl in *. pose proof Hat as [_ _ Hw1 Hw2 _ _ _].
  destruct i as [|c|c| |]; simpl in Hm, Hst; simplify_eq; apply wp_bind, wp_get_g.
  - rewrite Hw1. apply wp_bind. eapply wp_work1; [done|]. apply wp_bind, wp_set_g, wp_ret. split; [done|].
    eapply (progress_at g); [done|done|by eapply at_set1|..]; simpl; try done; [|counts].
    intros ? [= <-]. by apply last_in.
  - destruct Hst as [Hl ->]. rewrite Hw2. apply wp_bind. eapply wp_work2; [done|]. apply wp_bind, wp_set_g, wp_ret. split; [done|].
    eapply (progress_at g); [done|done|by eapply at_set2|..]; simpl; try done; [|counts].
    by exists c.
  - apply wp_bind. eapply wp_queue1; [done|]. intros g' on Hat' Hon. apply wp_ret. split; [done|].
    eapply (progress_at g); [done|done|exact Hat'|..]; simpl; try done; [|counts].
    by destruct Hst as (c & _ & -> & _).
  - apply wp_bind. eapply wp_queue2; [done|]. intros g' on Hat' Hon. apply wp_ret. split; [done|].
    destruct Hst as (c & Hl & -> & ->).
    eapply (progress_at g); [done|done|exact Hat'|..]; simpl; try done; counts.
Qed.

Lemma inv_take1 i p2 ks g :
  inv (Running (KState w g) i Idle1 p2 ks) → waits (work_1 g) g = true →
  wp (f ← take_work x; match f with Some 1%nat => mret Check1 | _ => crash Uninit end)
    (λ p1 s', world s' = w ∧ progress (Running (KState w g) i Idle1 p2 ks) (Running s' i p1 p2 ks)) (KState w g).
Proof.
  intros [_ (on1 & c1 & on2 & c2 & l & Hat & Hst & Hk1 & Hk2 & Hs1 & Hs2 & Hf1 & Hf2 & Hn & Hfr) Hks] Hwait.
  simpl in *. rewrite (waits1 _ _ _ _ _ _ Hat) in Hwait. apply bool_decide_eq_true in Hwait.
  apply wp_bind. unfold take_work. apply wp_bind. eapply wp_work1; [done|]. apply wp_bind, wp_set_g, wp_ret, wp_ret.
  split; [done|]. eapply (progress_at g); [done|done|by eapply at_set1|..]; simpl; try done; [by intros; apply Hs1; left|counts].
Qed.

Lemma inv_take2 i p1 ks g :
  inv (Running (KState w g) i p1 Idle2 ks) → waits (work_2 g) g = true →
  wp (f ← take_work y; match f with Some 2%nat => mret Delay2 | _ => crash Uninit end)
    (λ p2 s', world s' = w ∧ progress (Running (KState w g) i p1 Idle2 ks) (Running s' i p1 p2 ks)) (KState w g).
Proof.
  intros [_ (on1 & c1 & on2 & c2 & l & Hat & Hst & Hk1 & Hk2 & Hs1 & Hs2 & Hf1 & Hf2 & Hn & Hfr) Hks] Hwait.
  simpl in *. rewrite (waits2 _ _ _ _ _ _ Hat) in Hwait. apply bool_decide_eq_true in Hwait.
  apply wp_bind. unfold take_work. apply wp_bind. eapply wp_work2; [done|]. apply wp_bind, wp_set_g, wp_ret, wp_ret.
  split; [done|]. eapply (progress_at g); [done|done|by eapply at_set2|..]; simpl; try done; [by intros; apply Hs2; left|counts].
Qed.

Lemma printed1_snoc l m : printed1 (l ++ [m]) = printed1 l ++ (match m with Msg1 n c => [(n, c)] | _ => [] end).
Proof. unfold printed1. rewrite omap_app. by destruct m. Qed.
Lemma printed2_snoc l m : printed2 (l ++ [m]) = printed2 l ++ (match m with Msg2 c => [c] | _ => [] end).
Proof. unfold printed2. rewrite omap_app. by destruct m. Qed.

(** The second function never faults; the first one only where it looks up the name. *)
Lemma inv_fun2 i p1 p2 ks m g :
  inv (Running (KState w g) i p1 p2 ks) → fun2_step (work_2 g) p2 = Some m →
  wp m (λ p2' s', world s' = w ∧ progress (Running (KState w g) i p1 p2 ks) (Running s' i p1 p2' ks)) (KState w g).
Proof.
  intros [_ (on1 & c1 & on2 & c2 & l & Hat & Hst & Hk1 & Hk2 & Hs1 & Hs2 & Hf1 & Hf2 & Hn & Hfr1 & Hfr2) Hks] Hm.
  simpl in *. pose proof Hat as [_ _ _ Hw2 _ _ _]. rewrite Hw2 in Hm.
  destruct p2; simpl in Hm; simplify_eq.
  - apply wp_bind, wp_set_g, wp_ret. split; [done|].
    eapply (progress_at g); [done|done|by eapply at_add|..]; simpl; try done; [by intros; apply Hs2; right| | |counts].
    + intros Hb1 Ho c Hc. specialize (Hf1 Hb1 Ho c Hc). destruct p1; simpl in *; try done. by rewrite printed1_snoc, app_nil_r.
    + unfold from_keys. by rewrite printed1_snoc, printed2_snoc, !app_nil_r.
  - destruct c2 as [c|]; [|by destruct Hs2; [right|]]. apply wp_bind. eapply wp_code2; [done|].
    apply wp_bind, wp_set_g, wp_ret. split; [done|].
    eapply (progress_at g); [done|done|by eapply at_add|..]; simpl; try done; [| | |counts].
    + intros Hb1 Ho c' Hc. specialize (Hf1 Hb1 Ho c' Hc). destruct p1; simpl in *; try done. by rewrite printed1_snoc, app_nil_r.
    + intros _ _ c' [= <-]. by rewrite printed2_snoc, last_snoc.
    + unfold from_keys. rewrite printed1_snoc, printed2_snoc, app_nil_r. split; [done|].
      intros c' [?|Hc]%elem_of_app; [by apply Hfr2|]. apply list_elem_of_singleton in Hc as ->. by apply Hk2.
Qed.

Lemma inv_fun1 i p1 p2 ks m g :
  inv (Running (KState w g) i p1 p2 ks) → fun1_step (work_1 g) p1 = Some m →
  wp m (λ p1' s', world s' = w ∧ progress (Running (KState w g) i p1 p2 ks) (Running s' i p1' p2 ks)) (KState w g) ∨
  (p1 = Name1 ∧ m (KState w g) = Fault OutOfBounds ∧ ∃ c, c ∈ ks ∧ 84 ≤ c).
Proof.
  intros [_ (on1 & c1 & on2 & c2 & l & Hat & Hst & Hk1 & Hk2 & Hs1 & Hs2 & Hf1 & Hf2 & Hn & Hfr1 & Hfr2) Hks] Hm.
  simpl in *. pose proof Hat as [_ _ Hw1 _ _ _ _]. rewrite Hw1 in Hm.
  destruct p1 as [| | |name]; simpl in Hm; simplify_eq; (destruct c1 as [c|]; [|by destruct Hs1; [right|]]);
    pose proof (Hk1 c eq_refl) as Hin; pose proof (proj1 (Forall_forall _ _) Hks c Hin) as Hc; cbn beta in Hc.
  - left. apply wp_bind. eapply wp_code1; [done|]. apply wp_ret. split; [done|].
    eapply (progress_at g); [done|done|exact Hat|..]; simpl; try done; [| |case_decide; counts].
    + intros _ _ c' [= <-]. case_decide as Hlt; [done|]. simpl. unfold name_of. by rewrite decide_False.
    + intros name. case_decide as Hlt; [done|]. intros [= <-]. exists c. split; [done|]. unfold name_of. by rewrite decide_False.
  - destruct (decide (c < 84)) as [Hlt|Hge].
    + left. destruct (lookup_ascii c ltac:(lia)) as [name Hname].
      apply wp_bind. eapply wp_code1; [done|]. rewrite decide_True by lia. rewrite Hname. apply wp_ret. split; [done|].
      assert (Some name = name_of c) as Hnm by (unfold name_of; by rewrite decide_True).
      eapply (progress_at g); [done|done|exact Hat|..]; simpl; try done; [| |counts].
      * by intros _ _ c' [= <-].
      * intros name' [= <-]. by exists c.
    + right. split; [done|]. split; [|exists c; split; [done|lia]]. unfold mbind, prog_bind at 1.
      destruct (wp_code1 g on1 c on2 c2 l (λ c' s', c' = c ∧ s' = KState w g) Hat (conj eq_refl eq_refl))
        as (c' & s' & Hcode & -> & ->). rewrite Hcode.
      rewrite decide_True by lia. by rewrite lookup_ge_None_2 by (change (length ascii) with 84%nat; lia).
  - left. apply wp_bind. eapply wp_code1; [done|]. apply wp_bind, wp_set_g, wp_ret. split; [done|].
    destruct (Hn name eq_refl) as (c0 & Hc0 & Hname).
    eapply (progress_at g); [done|done|by eapply at_add|..]; simpl; try done; [| | |counts].
    + intros Hb1 Ho c' [= <-]. specialize (Hf1 Hb1 Ho c eq_refl). by rewrite printed1_snoc, last_snoc, Hf1.
    + intros Hb2 Ho c' Hc'. specialize (Hf2 Hb2 Ho c' Hc'). destruct p2; simpl in *; try done. by rewrite printed2_snoc, app_nil_r.
    + unfold from_keys. rewrite printed1_snoc, printed2_snoc, app_nil_r. split; [|done].
      intros name' c' [?|Hc']%elem_of_app; [by apply Hfr1|]. apply list_elem_of_singleton in Hc' as [= -> ->].
      split; [done|]. by exists c0.
Qed.

(** A move leads to a state of the invariant, and uses up something unless it is a key; or it
    is the lookup of a name for a code that has none. *)
Lemma move_ok mv r o :
  inv r → do_move mv r = Some o →
  (∃ r', o = Ok r' ∧ inv r' ∧ match mv with Key c => keys r' = keys r ++ [c] | _ => progress r r' end) ∨
  (o = Fault OutOfBounds ∧ mv = Fun1 ∧ ∃ c, c ∈ keys r ∧ 84 ≤ c).
Proof.
  intros Hinv Hmv. destruct r as [[w0 g] i p1 p2 ks]. pose proof (inv_world _ Hinv) as Hw0. simpl in Hw0. subst w0.
  pose proof Hinv as [_ (on1 & c1 & on2 & c2 & l & [_ _ Hw1 Hw2 _ _ _] & _) _]. simpl in Hw1, Hw2.
  assert (∀ A (m : prog S A) k, wp m (λ v s', world s' = w ∧ progress (Running (KState w g) i p1 p2 ks) (k v s')) (KState w g) →
    ∃ r', run m (KState w g) k = Ok r' ∧ inv r' ∧ progress (Running (KState w g) i p1 p2 ks) r') as Hrun.
  { intros A m k Hm. destruct (run_wp m _ _ k Hm) as (v & s' & -> & _ & Hp). eexists. split; [done|]. split; [apply Hp|done]. }
  destruct mv as [c| | | | |]; simpl in Hmv.
  - left. destruct i; try done. case_decide as Hc; simplify_eq. eexists. split; [done|]. split; [by apply inv_key|done].
  - left. destruct (irq_step i) as [m|] eqn:Hm; [|done]. simpl in Hmv. simplify_eq. apply Hrun. by apply inv_irq.
  - left. rewrite Hw1 in Hmv. destruct p1; try done. destruct (waits (Some x) g) eqn:Hwt; simplify_eq. apply Hrun.
    apply inv_take1; [done|by rewrite Hw1].
  - destruct (fun1_step (work_1 g) p1) as [m|] eqn:Hm; [|done]. simpl in Hmv. simplify_eq.
    destruct (inv_fun1 i p1 p2 ks m g Hinv Hm) as [Hwp|(-> & Hf & Hc)]; [left; by apply Hrun|right].
    split; [unfold run; by rewrite Hf|done].
  - left. rewrite Hw2 in Hmv. destruct p2; try done. destruct (waits (Some y) g) eqn:Hwt; simplify_eq. apply Hrun.
    apply inv_take2; [done|by rewrite Hw2].
  - left. destruct (fun2_step (work_2 g) p2) as [m|] eqn:Hm; [|done]. simpl in Hmv. simplify_eq. apply Hrun. by apply inv_fun2.
Qed.

Lemma reach_inv r r' : inv r → wq_reach r r' → inv r'.
Proof.
  intros Hr. induction 1 as [|r1 r2 _ IH [mv Hmv]]; [done|].
  destruct (move_ok mv r1 _ IH Hmv) as [(r' & [= <-] & ? & _)|[? _]]; done.
Qed.

Lemma inv_loaded g : at_ g None None None None [] → inv (start (KState w g)).
Proof.
  intros Hat. split; simpl; [done| |constructor]. exists None, None, None, None, [].
  split_and!; try done; try (by intros [|]). split; [intros ? ? []%not_elem_of_nil|intros ? []%not_elem_of_nil].
Qed.

Lemma quiet_printed r c :
  inv r → quiet r → last (keys r) = Some c →
  last (printed1 (log (glob (shared r)))) = Some (name_of c, c) ∧ last (printed2 (log (glob (shared r)))) = Some c.
Proof.
  intros [_ (on1 & c1 & on2 & c2 & l & Hat & Hst & Hk1 & Hk2 & Hs1 & Hs2 & Hf1 & Hf2 & _) _] (Hi & Hp1 & Hp2 & Hn1 & Hn2) Hc.
  rewrite (waits1 _ _ _ _ _ _ Hat) in Hn1. rewrite (waits2 _ _ _ _ _ _ Hat) in Hn2.
  rewrite (at_log _ _ _ _ _ _ Hat). rewrite Hi in *. rewrite Hp1 in Hf1. rewrite Hp2 in Hf2. simpl in *.
  apply bool_decide_eq_false in Hn1, Hn2. destruct Hst as [-> ->].
  split; [apply Hf1|apply Hf2]; try done; by apply dec_stable.
Qed.

(** Where no move without the keyboard succeeds. *)
Lemma stuck_states r :
  inv r → (∀ r'', ¬ rests r r'') →
  quiet r ∨
  (irq r = INone ∧ fun2 r = Idle2 ∧ fun1 r = Name1 ∧ do_move Fun1 r = Some (Fault OutOfBounds) ∧
    ∃ c, c ∈ keys r ∧ 84 ≤ c).
Proof.
  intros Hinv Hstuck.
  assert (∀ mv, (∀ c, mv ≠ Key c) → do_move mv r = None ∨
    (mv = Fun1 ∧ do_move mv r = Some (Fault OutOfBounds) ∧ ∃ c, c ∈ keys r ∧ 84 ≤ c)) as Hmv.
  { intros mv Hnk. destruct (do_move mv r) as [o|] eqn:E; [right|by left].
    destruct (move_ok mv r o Hinv E) as [(r2 & -> & _)|(-> & -> & Hc)]; [|done]. by destruct (Hstuck r2); exists mv. }
  pose proof Hinv as Hinv0. destruct Hinv as [Hw (on1 & c1 & on2 & c2 & l & [_ _ Hw1 Hw2 _ _ _] & _) _].
  destruct r as [s i p1 p2 ks]. simpl in *.
  destruct (Hmv Irq ltac:(done)) as [H1|[? _]]; [|done]. destruct (Hmv Fun2 ltac:(done)) as [H3|[? _]]; [|done].
  destruct (Hmv Take1 ltac:(done)) as [H4|[? _]]; [|done]. destruct (Hmv Take2 ltac:(done)) as [H5|[? _]]; [|done].
  destruct i; try done. destruct p2; try done. clear H1 H3.
  destruct (Hmv Fun1 ltac:(done)) as [H2|(_ & Hf & Hc)].
  - left. destruct p1; try done. simpl in H4, H5. rewrite Hw1 in H4. rewrite Hw2 in H5.
    destruct (waits (Some x) (glob s)) eqn:E1; [done|]. destruct (waits (Some y) (glob s)) eqn:E2; [done|].
    split_and!; try done; simpl; by rewrite ?Hw1, ?Hw2.
  - right. split_and!; try done. destruct s as [w0 g]. simpl in Hw, Hf. subst w0.
    destruct (fun1_step (work_1 g) p1) as [m|] eqn:Hm; [|done].
    destruct (inv_fun1 _ _ _ _ _ _ Hinv0 Hm) as [(v & s' & E & _)|(-> & _)]; [|done].
    simpl in Hf. unfold run in Hf. by rewrite E in Hf.
Qed.

(** ** Runs of particular moves *)

Lemma do_moves_cons mv mvs r r' : do_move mv r = Some (Ok r') → do_moves (mv :: mvs) r = do_moves mvs r'.
Proof using Type. intros Hmv. simpl. by rewrite Hmv. Qed.

Lemma do_moves_app m1 m2 r r' : do_moves m1 r = Some (Ok r') → do_moves (m1 ++ m2) r = do_moves m2 r'.
Proof using Type.
  revert r. induction m1 as [|mv m1 IH]; intros r; simpl; [by intros [= ->]|].
  destruct (do_move mv r) as [[r1|f]|]; [apply IH|by destruct m1|done].
Qed.

Section Moves.
Context (ks : list Z).

Lemma do_irq i m p1 p2 (Q : ipc → S → Prop) s :
  irq_step i = Some m → wp m Q s →
  ∃ i' s', do_move Irq (Running s i p1 p2 ks) = Some (Ok (Running s' i' p1 p2 ks)) ∧ Q i' s'.
Proof. intros Hm (i' & s' & Hms & HQ). exists i', s'. simpl. rewrite Hm. simpl. unfold run. by rewrite Hms. Qed.

Lemma do_fun1 i m p1 p2 (Q : pc1 → S → Prop) s :
  fun1_step (work_1 (glob s)) p1 = Some m → wp m Q s →
  ∃ p1' s', do_move Fun1 (Running s i p1 p2 ks) = Some (Ok (Running s' i p1' p2 ks)) ∧ Q p1' s'.
Proof. intros Hm (i' & s' & Hms & HQ). exists i', s'. simpl. rewrite Hm. simpl. unfold run. by rewrite Hms. Qed.

Lemma store1 g c p1 p2 on1 c1 on2 c2 l :
  at_ g on1 c1 on2 c2 l → ∃ g', at_ g' on1 (Some c) on2 c2 l ∧
    do_move Irq (Running (KState w g) (IStore1 c) p1 p2 ks) = Some (Ok (Running (KState w g') (IStore2 c) p1 p2 ks)).
Proof.
  intros Hat. pose proof Hat as [_ _ Hw1 _ _ _ _].
  edestruct (do_irq (IStore1 c) _ p1 p2 (λ i s, i = IStore2 c ∧ ∃ g', s = KState w g' ∧ at_ g' on1 (Some c) on2 c2 l) (KState w g) eq_refl)
    as (? & ? & Hmv & -> & g' & -> & Hat'); [|by exists g'].
  apply wp_bind, wp_get_g. rewrite Hw1. apply wp_bind. eapply wp_work1; [done|].
  apply wp_bind, wp_set_g, wp_ret. split; [done|]. eexists. split; [done|]. by eapply at_set1.
Qed.

Lemma store2 g c p1 p2 on1 c1 on2 c2 l :
  at_ g on1 c1 on2 c2 l → ∃ g', at_ g' on1 c1 on2 (Some c) l ∧
    do_move Irq (Running (KState w g) (IStore2 c) p1 p2 ks) = Some (Ok (Running (KState w g') IQueue1 p1 p2 ks)).
Proof.
  intros Hat. pose proof Hat as [_ _ _ Hw2 _ _ _].
  edestruct (do_irq (IStore2 c) _ p1 p2 (λ i s, i = IQueue1 ∧ ∃ g', s = KState w g' ∧ at_ g' on1 c1 on2 (Some c) l) (KState w g) eq_refl)
    as (? & ? & Hmv & -> & g' & -> & Hat'); [|by exists g'].
  apply wp_bind, wp_get_g. rewrite Hw2. apply wp_bind. eapply wp_work2; [done|].
  apply wp_bind, wp_set_g, wp_ret. split; [done|]. eexists. split; [done|]. by eapply at_set2.
Qed.

Lemma queue1 g p1 p2 on1 c1 on2 c2 l :
  at_ g on1 c1 on2 c2 l → ∃ g' on1', at_ g' on1' c1 on2 c2 l ∧ on1' ≠ None ∧
    do_move Irq (Running (KState w g) IQueue1 p1 p2 ks) = Some (Ok (Running (KState w g') IQueue2 p1 p2 ks)).
Proof.
  intros Hat. edestruct (do_irq IQueue1 _ p1 p2 (λ i s, i = IQueue2 ∧ ∃ g' on1', s = KState w g' ∧ at_ g' on1' c1 on2 c2 l ∧ on1' ≠ None) (KState w g) eq_refl)
    as (? & ? & Hmv & -> & g' & on1' & -> & Hat' & Hon); [|by exists g', on1'].
  apply wp_bind, wp_get_g, wp_bind. eapply wp_queue1; [done|]. intros g' on Hat' Hon.
  apply wp_ret. split; [done|]. by exists g', on.
Qed.

Lemma queue2 g p1 p2 on1 c1 on2 c2 l :
  at_ g on1 c1 on2 c2 l → ∃ g' on2', at_ g' on1 c1 on2' c2 l ∧
    do_move Irq (Running (KState w g) IQueue2 p1 p2 ks) = Some (Ok (Running (KState w g') INone p1 p2 ks)).
Proof.
  intros Hat. edestruct (do_irq IQueue2 _ p1 p2 (λ i s, i = INone ∧ ∃ g' on2', s = KState w g' ∧ at_ g' on1 c1 on2' c2 l) (KState w g) eq_refl)
    as (? & ? & Hmv & -> & g' & on2' & -> & Hat'); [|by exists g', on2'].
  apply wp_bind, wp_get_g, wp_bind. eapply wp_queue2; [done|]. intros g' on Hat' Hon.
  apply wp_ret. split; [done|]. by exists g', on.
Qed.

Lemma take1 g p2 on1 c1 on2 c2 l :
  at_ g on1 c1 on2 c2 l → on1 ≠ None → ∃ g', at_ g' None c1 on2 c2 l ∧
    do_move Take1 (Running (KState w g) INone Idle1 p2 ks) = Some (Ok (Running (KState w g') INone Check1 p2 ks)).
Proof.
  intros Hat Hon. pose proof Hat as [_ _ Hw1 _ Hm1 _ _]. eexists. split; [by eapply (at_set1 _ _ _ _ _ _ None c1)|].
  unfold do_move. simpl. rewrite Hw1. unfold waits. rewrite Hm1, bool_decide_eq_true_2 by done. unfold run, take_work.
  unfold mbind at 1 2, prog_bind at 1 2. by rewrite (get_work_ok x n1 _ w g Hx Hm1).
Qed.

Lemma check1 g i p2 on1 c on2 c2 l :
  at_ g on1 (Some c) on2 c2 l → c < 84 →
  do_move Fun1 (Running (KState w g) i Check1 p2 ks) = Some (Ok (Running (KState w g) i Name1 p2 ks)).
Proof.
  intros Hat Hc. pose proof Hat as [_ _ Hw1 _ _ _ _]. unfold do_move. simpl. rewrite Hw1. unfold run.
  edestruct (wp_code1 g on1 c on2 c2 l (λ c' s', c' = c ∧ s' = KState w g) Hat (conj eq_refl eq_refl)) as (? & ? & Hcode & -> & ->).
  unfold mbind, prog_bind. rewrite Hcode. by rewrite decide_True by done.
Qed.

Lemma name1 g i p2 on1 c on2 c2 l :
  at_ g on1 (Some c) on2 c2 l → 0 ≤ c →
  do_move Fun1 (Running (KState w g) i Name1 p2 ks) =
    Some (if decide (c < 84) then Ok (Running (KState w g) i (Code1 (name_of c)) p2 ks) else Fault OutOfBounds).
Proof.
  intros Hat Hc. pose proof Hat as [_ _ Hw1 _ _ _ _]. unfold do_move. simpl. rewrite Hw1. unfold run.
  edestruct (wp_code1 g on1 c on2 c2 l (λ c' s', c' = c ∧ s' = KState w g) Hat (conj eq_refl eq_refl)) as (? & ? & Hcode & -> & ->).
  unfold mbind, prog_bind. rewrite Hcode. rewrite decide_True by done. unfold name_of. case_decide as Hlt.
  - by destruct (lookup_ascii c ltac:(lia)) as [name ->].
  - by rewrite lookup_ge_None_2 by (change (length ascii) with 84%nat; lia).
Qed.

Lemma code1 g i name p2 on1 c on2 c2 l :
  at_ g on1 (Some c) on2 c2 l →
  do_move Fun1 (Running (KState w g) i (Code1 name) p2 ks) =
    Some (Ok (Running (KState w (add_log (Msg1 name c) g)) i Idle1 p2 ks)).
Proof.
  intros Hat. pose proof Hat as [_ _ Hw1 _ _ _ _]. unfold do_move. simpl. rewrite Hw1. unfold run.
  edestruct (wp_code1 g on1 c on2 c2 l (λ c' s', c' = c ∧ s' = KState w g) Hat (conj eq_refl eq_refl)) as (? & ? & Hcode & -> & ->).
  unfold mbind, prog_bind. by rewrite Hcode.
Qed.
End Moves.

(** A key is pressed, and the first worker has tested its code. *)
Lemma pressed g k1 l :
  at_ g None None None None l → 0 ≤ k1 < 84 →
  ∃ g' on2, at_ g' None (Some k1) on2 (Some k1) l ∧
    do_moves [Key k1; Irq; Irq; Irq; Irq; Take1; Fun1] (start (KState w g)) =
      Some (Ok (Running (KState w g') INone Name1 Idle2 [k1])).
Proof.
  intros Hat Hk.
  destruct (store1 [k1] g k1 Idle1 Idle2 _ _ _ _ _ Hat) as (g1 & Hat1 & E1).
  destruct (store2 [k1] g1 k1 Idle1 Idle2 _ _ _ _ _ Hat1) as (g2 & Hat2 & E2).
  destruct (queue1 [k1] g2 Idle1 Idle2 _ _ _ _ _ Hat2) as (g3 & on1 & Hat3 & Hon & E3).
  destruct (queue2 [k1] g3 Idle1 Idle2 _ _ _ _ _ Hat3) as (g4 & on2 & Hat4 & E4).
  destruct (take1 [k1] g4 Idle2 _ _ _ _ _ Hat4 Hon) as (g5 & Hat5 & E5).
  exists g5, on2. split; [exact Hat5|].
  erewrite do_moves_cons; [|unfold do_move, start; by rewrite decide_True by lia].
  rewrite (do_moves_cons _ _ _ _ E1), (do_moves_cons _ _ _ _ E2), (do_moves_cons _ _ _ _ E3), (do_moves_cons _ _ _ _ E4),
    (do_moves_cons _ _ _ _ E5). by rewrite (do_moves_cons _ _ _ _ (check1 [k1] g5 INone Idle2 _ _ _ _ _ Hat5 (proj2 Hk))).
Qed.
End Spec.

(** ** From the loaded module *)

Lemma loaded_at {W : Type} `{!Kernel W} m (w : W) g :
  loaded m (KState w g) → log g = [] →
  ∃ a b x y, held w !! a = Some (KWorkqueue "my_queue1") ∧ held w !! b = Some (KWorkqueue "my_queue2") ∧
    held w !! x = Some (KKmalloc sizeof_my_work) ∧ held w !! y = Some (KKmalloc sizeof_my_work) ∧ x ≠ y ∧
    at_ a b x y g None None None None [].
Proof.
  intros (q & a & b & x & y & f & d & l & Hq & Ha & Hb & Hx & Hy & Hf & Hd & Hl & Hheld & Hga & Hgb & Hgx & Hgy &
    _ & _ & _ & Hmx & Hmy & _) Hlog. simpl in *.
  exists a, b, x, y. split_fresh. rewrite Hheld. split_and!; [map_lookup..|congruence|by split].
Qed.

(** Every state that is reached satisfies the invariant. *)
Lemma reachable {W : Type} `{!Kernel W, !KernelLaws W} m (w : W) g r :
  loaded m (KState w g) → log g = [] → wq_reach (start (KState w g)) r →
  ∃ a b x y q1 q2 n1 n2, held w !! a = Some (KWorkqueue q1) ∧ held w !! b = Some (KWorkqueue q2) ∧
    held w !! x = Some (KKmalloc n1) ∧ held w !! y = Some (KKmalloc n2) ∧ x ≠ y ∧ inv w a b x y r.
Proof.
  intros Hl Hlog Hr. destruct (loaded_at _ _ _ Hl Hlog) as (a & b & x & y & Ha & Hb & Hx & Hy & Hxy & Hat).
  eexists a, b, x, y, _, _, _, _. repeat (split; [eassumption|]).
  exact (reach_inv w a b x y _ _ _ _ Ha Hb Hx Hy Hxy _ _ (inv_loaded w a b x y _ _ _ _ Ha Hb Hx Hy Hxy g Hat) Hr).
Qed.

(** C10: whatever the order in which interrupts and workers move, what is printed are codes of
    pressed keys with names of pressed keys; and when everything has come to rest, the
    last thing both functions have printed is the last key, with its own name. *)
Theorem mywq_last_key {W : Type} `{!Kernel W, !KernelLaws W} m (w : W) g r :
  loaded m (KState w g) → log g = [] → wq_reach (start (KState w g)) r →
  let l := log (glob (shared r)) in
  (∀ name c, (name, c) ∈ printed1 l → c ∈ keys r ∧ ∃ c', c' ∈ keys r ∧ name = name_of c') ∧
  (∀ c, c ∈ printed2 l → c ∈ keys r) ∧
  (quiet r → ∀ c, last (keys r) = Some c → last (printed1 l) = Some (name_of c, c) ∧ last (printed2 l) = Some c).
Proof.
  intros Hl Hlog Hr l. subst l.
  destruct (reachable _ _ _ _ Hl Hlog Hr) as (a & b & x & y & q1 & q2 & n1 & n2 & Ha & Hb & Hx & Hy & Hxy & Hinv).
  pose proof Hinv as [_ (on1 & c1 & on2 & c2 & l & Hatr & _ & _ & _ & _ & _ & _ & _ & _ & Hf1 & Hf2) _].
  pose proof (at_log _ _ _ _ _ _ _ _ _ _ Hatr) as El. split_and!; [by rewrite El..|].
  intros Hq c Hc. by apply (quiet_printed w a b x y _ _ _ _ Ha Hb Hx Hy Hxy r c Hinv Hq).
Qed.

(** C28: without new keys the module makes at most 40 moves, wherever it has got; when no
    move is left that succeeds, it is at rest, or the work function of the first queue
    stands at the lookup of a name for a code of 84 or more, which faults, and everything
    else is done. If all keys have codes below 84 it always comes to rest. *)
Theorem mywq_settles {W : Type} `{!Kernel W, !KernelLaws W} m (w : W) g r n r' :
  loaded m (KState w g) → log g = [] → wq_reach (start (KState w g)) r → nsteps rests n r r' →
  (n ≤ 40)%nat ∧
  ((∀ r'', ¬ rests r' r'') →
    quiet r' ∨
    (irq r' = INone ∧ fun2 r' = Idle2 ∧ fun1 r' = Name1 ∧ do_move Fun1 r' = Some (Fault OutOfBounds) ∧
      ∃ c, c ∈ keys r ∧ 84 ≤ c)) ∧
  ((∀ r'', ¬ rests r' r'') → Forall (λ c, c < 84) (keys r) → quiet r').
Proof.
  intros Hl Hlog Hr Hn.
  destruct (reachable _ _ _ _ Hl Hlog Hr) as (a & b & x & y & q1 & q2 & n1 & n2 & Ha & Hb & Hx & Hy & Hxy & Hinv).
  destruct (nsteps_measure rests (λ r', inv w a b x y r' ∧ keys r' = keys r) to_do) with (n := n) (x := r) (y := r')
    as [[Hinv' Hks] Hto]; [|done|done|].
  { clear Hinv Hn Hr. intros r1 r2 [Hinv Hk] (mv & Hnk & Hmv).
    destruct (move_ok w a b x y _ _ _ _ Ha Hb Hx Hy Hxy mv r1 _ Hinv Hmv) as [(r3 & [= <-] & Hinv3 & Hp)|[? _]]; [|done].
    destruct mv; [by destruct (Hnk c)|..]; destruct Hp as (_ & Hk' & Hlt); (split; [split; [done|congruence]|done]). }
  assert (to_do r ≤ 40)%nat.
  { unfold to_do. destruct (irq r), (fun1 r), (fun2 r); simpl; repeat case_match; lia. }
  split; [lia|]. pose proof (stuck_states w a b x y _ _ _ _ Ha Hb Hx Hy Hxy r' Hinv') as Hstuck. rewrite Hks in Hstuck.
  split; [exact Hstuck|]. intros Hno Hlow. destruct (Hstuck Hno) as [Hq|(_ & _ & _ & _ & c & Hc & Hge)]; [done|].
  rewrite Forall_forall in Hlow. specialize (Hlow c Hc). simpl in Hlow. lia.
Qed.

(** C27: the only fault is the lookup of a name for a code that has none, so that a run with
    codes below 84 never faults; it happens when a key is released after its code was
    tested. Two keys in that place are printed as one, the name of the first with the
    code of the second. *)
Theorem mywq_running_faults {W : Type} `{!Kernel W, !KernelLaws W} m (w : W) g :
  loaded m (KState w g) → log g = [] →
  (∀ r mv f, wq_reach (start (KState w g)) r → do_move mv r = Some (Fault f) →
    f = OutOfBounds ∧ mv = Fun1 ∧ ∃ c, c ∈ keys r ∧ 84 ≤ c) ∧
  (∀ k1 k2, 0 ≤ k1 < 84 → 84 ≤ k2 < 256 →
    do_moves [Key k1; Irq; Irq; Irq; Irq; Take1; Fun1; Key k2; Irq; Fun1] (start (KState w g)) =
      Some (Fault OutOfBounds)) ∧
  (∀ k1 k2, 0 ≤ k1 < 84 → 0 ≤ k2 < 256 → ∃ r,
    do_moves [Key k1; Irq; Irq; Irq; Irq; Take1; Fun1; Fun1; Key k2; Irq; Fun1] (start (KState w g)) = Some (Ok r) ∧
    printed1 (log (glob (shared r))) = [(name_of k1, k2)]).
Proof.
  intros Hl Hlog. destruct (loaded_at _ _ _ Hl Hlog) as (a & b & x & y & Ha & Hb & Hx & Hy & Hxy & Hat). split_and!.
  - clear a b x y Ha Hb Hx Hy Hxy Hat. intros r mv f Hr Hmv.
    destruct (reachable _ _ _ _ Hl Hlog Hr) as (a & b & x & y & q1 & q2 & n1 & n2 & Ha & Hb & Hx & Hy & Hxy & Hinv).
    by destruct (move_ok w a b x y _ _ _ _ Ha Hb Hx Hy Hxy mv r _ Hinv Hmv) as [(r2 & [=] & _)|([= ->] & -> & Hc)].
  - intros k1 k2 H1 H2.
    destruct (pressed w a b x y _ _ _ _ Ha Hb Hx Hy Hxy g k1 [] Hat H1) as (g1 & on2 & Hat1 & E1).
    destruct (store1 w a b x y _ _ _ _ Ha Hb Hx Hy Hxy [k1; k2] g1 k2 Name1 Idle2 _ _ _ _ _ Hat1) as (g2 & Hat2 & E2).
    etrans; [exact (do_moves_app [_; _; _; _; _; _; _] [Key k2; Irq; Fun1] _ _ E1)|].
    erewrite do_moves_cons; [|unfold do_move; by rewrite decide_True by lia].
    rewrite (do_moves_cons _ _ _ _ E2). unfold do_moves.
    rewrite (name1 w a b x y _ _ _ _ Ha Hb Hx Hy Hxy [k1; k2] g2 _ Idle2 _ _ _ _ _ Hat2) by lia.
    by rewrite decide_False by lia.
  - intros k1 k2 H1 H2.
    destruct (pressed w a b x y _ _ _ _ Ha Hb Hx Hy Hxy g k1 [] Hat H1) as (g1 & on2 & Hat1 & E1).
    destruct (store1 w a b x y _ _ _ _ Ha Hb Hx Hy Hxy [k1; k2] g1 k2 (Code1 (name_of k1)) Idle2 _ _ _ _ _ Hat1) as (g2 & Hat2 & E2).
    eexists. split; [etrans; [exact (do_moves_app [_; _; _; _; _; _; _] [Fun1; Key k2; Irq; Fun1] _ _ E1)|]|].
    + erewrite do_moves_cons.
      2: { rewrite (name1 w a b x y _ _ _ _ Ha Hb Hx Hy Hxy [k1] g1 _ Idle2 _ _ _ _ _ Hat1) by lia. by rewrite decide_True by lia. }
      erewrite do_moves_cons; [|unfold do_move; by rewrite decide_True by lia].
      rewrite (do_moves_cons _ _ _ _ E2).
      by erewrite do_moves_cons; [|by apply (code1 w a b x y _ _ _ _ Ha Hb Hx Hy Hxy [k1; k2] g2 _ _ _ _ _ _ _ _ Hat2)].
    + simpl. by rewrite (at_log _ _ _ _ _ _ _ _ _ _ Hat2).
Qed.

Lemma get_code_same {W : Type} `{!Kernel W} p (s : kstate W wstate) c s' : get_code p s = Ok (c, s') → s' = s.
Proof.
  unfold get_code, get_work, deref, mbind, prog_bind, get_g, mret, prog_ret, crash.
  repeat case_match; naive_solver.
Qed.

Ltac run_acts := repeat (progress (simpl; unfold mbind, prog_bind, get_g, set_g, mret, prog_ret; simpl)).

Lemma get_work_same {W : Type} `{!Kernel W} p (s : kstate W wstate) v s' : get_work p s = Ok (v, s') → s' = s.
Proof. unfold get_work, deref, mbind, prog_bind, get_g. repeat case_match; naive_solver. Qed.

Lemma queue_work_same {W : Type} `{!Kernel W} q p (s s' : kstate W wstate) u :
  queue_work q p s = Ok (u, s') → mywq2 (glob s') = mywq2 (glob s) ∧ work_2 (glob s') = work_2 (glob s).
Proof.
  unfold queue_work, need_wq, mbind, prog_bind. destruct q as [q|]; [|done].
  destruct (held _ !! q) as [[]|]; try done. destruct (get_work p s) as [[v s1]|] eqn:E; [|done].
  apply get_work_same in E as ->. destruct p as [h|]; unfold put_work, set_g, mret, prog_ret, crash; repeat case_match; naive_solver.
Qed.

(** The actions are the functions of the module cut into pieces: alone, they do what the
    handler and the work functions do, faults included. *)
Theorem mywq_actions {W : Type} `{!Kernel W} (s : kstate W wstate) c h :
  irq_run 4 (IStore1 c) s =
    match my_irq_handler c IRQ_NO s with Ok (_, s') => Ok (INone, s') | Fault f => Fault f end ∧
  fun1_run 3 (Some h) Check1 s =
    match mywq_fun_1 (Some h) s with Ok (_, s') => Ok (Idle1, s') | Fault f => Fault f end ∧
  fun2_run 2 (Some h) Delay2 s =
    match run_thread (mywq_fun_2 (Some h)) s with Ok (_, s') => Ok (Idle2, s') | Fault f => Fault f end.
Proof.
  split_and!.
  - unfold my_irq_handler. run_acts.
    destruct (get_work (work_1 (glob s)) s) as [[v1 s1]|f] eqn:E1; [apply get_work_same in E1 as ->|done].
    destruct (work_1 (glob s)) as [h1|] eqn:Hw1; [|done]. run_acts.
    destruct (get_work (work_2 (glob s)) _) as [[v2 s2]|f] eqn:E2; [apply get_work_same in E2 as ->|done]. run_acts.
    destruct (work_2 (glob s)) as [h2|] eqn:Hw2; [|done]. run_acts. rewrite Hw1.
    destruct (queue_work _ (Some h1) _) as [[[] s3]|f] eqn:E3; [|done]. run_acts.
    apply queue_work_same in E3 as [Hq Hw]. simpl in *. rewrite Hq, Hw, Hw2.
    by destruct (queue_work _ _ s3) as [[[] s4]|f].
  - unfold mywq_fun_1. run_acts.
    destruct (get_code (Some h) s) as [[c1 s1]|f] eqn:E; [apply get_code_same in E as Hs; subst s1|done].
    run_acts. destruct (decide (c1 < 84)); run_acts; rewrite E; [|done].
    destruct (decide (0 ≤ c1)); [|done]. destruct (ascii !! Z.to_nat c1); [|done]. run_acts. by rewrite E.
  - run_acts. by destruct (get_code _ _) as [[c1 s1]|].
Qed.

(** ** The theorems at work *)

Lemma do_moves_reach {W : Type} `{!Kernel W} mvs (r r1 r' : running W) :
  wq_reach r r1 → do_moves mvs r1 = Some (Ok r') → wq_reach r r'.
Proof.
  revert r1. induction mvs as [|mv mvs IH]; intros r1 Hr; simpl; [by intros [= <-]|].
  destruct (do_move mv r1) as [[r2|f]|] eqn:Hmv; [|by destruct mvs|done]. apply IH. eapply wq_more; [exact Hr|]. by exists mv.
Qed.

(** A key is pressed and released, the first function runs in between. *)
Definition two_keys : list move :=
  [Key 30; Irq; Irq; Irq; Irq; Take1; Fun1; Take2; Fun1; Key 31; Irq; Fun1; Irq; Fun2; Irq; Irq;
   Take1; Fun1; Fun2; Fun1; Take2; Fun1; Fun2; Fun2].
Definition after_keys : running ledger :=
  match do_moves two_keys (start (KState sample_w sample)) with Some (Ok r) => r | _ => start (KState sample_w sample) end.

Lemma after_keys_reach : wq_reach (start (KState sample_w sample)) after_keys.
Proof.
  apply (do_moves_reach two_keys _ _ _ (wq_refl _)). vm_compute. reflexivity.
Qed.

Lemma mywq_last_key_witness :
  quiet after_keys ∧ keys after_keys = [30; 31] ∧
  last (printed1 (log (glob (shared after_keys)))) = Some (Some "S", 31) ∧
  last (printed2 (log (glob (shared after_keys)))) = Some 31.
Proof.
  assert (quiet after_keys) as Hq by (split_and!; vm_compute; reflexivity).
  assert (keys after_keys = [30; 31]) as Hk by (vm_compute; reflexivity).
  split; [exact Hq|]. split; [exact Hk|].
  apply (proj2 (proj2 (mywq_last_key ∅ sample_w sample after_keys mywq_sample_loaded eq_refl after_keys_reach)) Hq 31).
  rewrite Hk. reflexivity.
Defined.

(** What the two functions have printed there: the name of the first key with the code of
    the second, then the second. *)
Example two_keys_log :
  log (glob (shared after_keys)) =
    [Msg1 (Some "A") 31; Msg2Delay; Msg2 31; Msg1 (Some "S") 31; Msg2Delay; Msg2 31].
Proof. vm_compute. reflexivity. Qed.

Lemma rests_moves {W : Type} `{!Kernel W} mvs (r r' : running W) :
  Forall (λ mv, ∀ c, mv ≠ Key c) mvs → do_moves mvs r = Some (Ok r') → nsteps rests (length mvs) r r'.
Proof.
  intros Hmvs. revert r. induction Hmvs as [|mv mvs Hmv _ IH]; intros r; simpl; [intros [= <-]; constructor|].
  destruct (do_move mv r) as [[r1|f]|] eqn:E; [|by destruct mvs|done]. intros H.
  eapply nsteps_l; [by exists mv|by apply IH].
Qed.

(** A key has come in; eleven moves later everything is done. *)
Definition run_moves (mvs : list move) (r : running ledger) : running ledger :=
  match do_moves mvs r with Some (Ok r') => r' | _ => r end.
Definition one_key : running ledger := run_moves [Key 30] (start (KState sample_w sample)).
Definition drain : list move := [Irq; Irq; Irq; Irq; Take2; Take1; Fun2; Fun1; Fun1; Fun1; Fun2].

Lemma mywq_settles_witness : (length drain ≤ 40)%nat ∧ quiet (run_moves drain one_key).
Proof.
  destruct (mywq_settles ∅ sample_w sample one_key (length drain) (run_moves drain one_key)
    mywq_sample_loaded eq_refl) as (Hn & _ & Hq).
  - apply (do_moves_reach [Key 30] _ _ _ (wq_refl _)). vm_compute. reflexivity.
  - apply rests_moves; [by repeat constructor|vm_compute; reflexivity].
  - split; [exact Hn|]. apply Hq; [|apply (bool_decide_unpack _); vm_compute; exact I].
    intros r'' (mv & Hnk & Hmv). assert (do_move mv (run_moves drain one_key) = None) as Hnone
      by (destruct mv as [c| | | | |]; [by destruct (Hnk c)|vm_compute; reflexivity..]). congruence.
Defined.

Lemma mywq_running_faults_witness :
  do_moves [Key 30; Irq; Irq; Irq; Irq; Take1; Fun1; Key 158; Irq; Fun1] (start (KState sample_w sample)) =
    Some (Fault OutOfBounds).
Proof.
  exact (proj1 (proj2 (mywq_running_faults ∅ sample_w sample mywq_sample_loaded eq_refl)) 30 158
    ltac:(lia) ltac:(lia)).
Defined.
