(* ===== verification/Letters.v ===== *)
(** * What the two bakery servers share

    The letters they hand out, and arrays of 32 elements. *)

From S2P Require Import Prelude.
From stdpp Require Import options.
Local Open Scope Z_scope.

(** The letter handed out to the [n]-th client served. *)
Definition letter (n : Z) : Z := 97 + n mod 26.

Lemma letter_next n : 0 ≤ n →
  letter (n + 1) = if decide (letter n + 1 > 122) then 97 else letter n + 1.
Proof.
  intros. unfold letter. case_decide as H1;
    pose proof (Z.mod_pos_bound n 26 ltac:(lia));
    rewrite (Z.add_mod n 1 26) by lia; change (1 mod 26) with 1.
  - replace (n mod 26) with 25 by lia. reflexivity.
  - rewrite (Z.mod_small (n mod 26 + 1)) by lia. lia.
Qed.

Lemma letter_bounds n : 97 ≤ letter n ≤ 122.
Proof. unfold letter. pose proof (Z.mod_pos_bound n 26 ltac:(lia)). lia. Qed.

(** The indices of a 32-element array. *)
Definition arr32 {A} (a : gmap Z A) : Prop := ∀ i, is_Some (a !! i) ↔ 0 ≤ i < 32.

Lemma arr32_make {A} (v : A) : arr32 (carray_make 32 v).
Proof.
  intros i. rewrite lookup_carray_make. change (Z.of_nat 32) with 32.
  case_decide; split; [by eauto..|by intros [? ?]|done].
Qed.

Lemma arr32_insert {A} (a : gmap Z A) i v :
  arr32 a → is_Some (a !! i) → arr32 (<[i:=v]> a).
Proof.
  intros Ha Hi j. destruct (decide (i = j)) as [->|]; simplify_map_eq; [|apply Ha].
  split; [|eauto]. intros _. by apply Ha.
Qed.

Lemma arr32_lookup {A} (a : gmap Z A) i : arr32 a → 0 ≤ i < 32 → ∃ v, a !! i = Some v.
Proof. intros Ha Hi. by apply Ha. Qed.
