(* ===== verification/Bakery1.v ===== *)
(** * The multi-threaded bakery server (3/proc/bakery1)

    The RPC dispatcher thread, the service threads it creates and the clients,
    as one labelled transition system whose steps are single memory accesses;
    mutual exclusion, service order, bounds and the join deadlock. *)

From S2P Require Import Prelude.
From stdpp Require Import options.
Local Open Scope Z_scope.


(** ** Data *)

(** [struct thread_arg]. *)
Record thread_arg := ThreadArg { ta_pid : Z; ta_num : Z; ta_res : Z }.

#[export] Instance thread_arg_eq_dec : EqDecision thread_arg.
Proof. solve_decision. Defined.

(** Program counter of a [bakery_service] thread. [i] is the thread's local
    variable, [j] the loop counter; the condition of the second spin loop reads
    [number[j]] up to three times, each read is a step of its own. *)
Inductive tpc :=
  | TStart                 (* targ = arg; i = targ->pid *)
  | TSleep (i : Z)         (* sleep(10) *)
  | TChoosing (i j : Z)    (* j < 32; while (choosing[j]) *)
  | TNonzero (i j : Z)     (* number[j] != 0 *)
  | TLess (i j : Z)        (* number[j] < number[i] *)
  | TEqual (i j : Z)       (* number[j] == number[i] && j < i *)
  | TLoad (i : Z)          (* read c *)
  | TStore (i tmp : Z)     (* c = tmp + 1; targ->res = tmp *)
  | TWrap (i : Z)          (* if (c > 'z') c = 'a' *)
  | TPrint (i : Z)         (* printf *)
  | TReset (i : Z)         (* number[i] = 0 *)
  | TExit.                 (* return 0 *)

#[export] Instance tpc_eq_dec : EqDecision tpc.
Proof. solve_decision. Defined.

(** A thread runs on the argument [&res[t_arg]]. *)
Record thread := Thread { t_arg : Z; t_pc : tpc }.

(** The server's static data. *)
Record globals := Globals {
  attr : gmap Z bool;          (* pthread_attr_t attr[32]: initialised? *)
  thr : gmap Z (option nat);   (* pthread_t thr[32] *)
  res : gmap Z thread_arg;     (* struct thread_arg res[32] *)
  choosing : gmap Z Z;
  number : gmap Z Z;
  num : Z;
  cc : Z                       (* char c *)
}.

Definition set_attr v g := Globals v (thr g) (res g) (choosing g) (number g) (num g) (cc g).
Definition set_thr v g := Globals (attr g) v (res g) (choosing g) (number g) (num g) (cc g).
Definition set_res v g := Globals (attr g) (thr g) v (choosing g) (number g) (num g) (cc g).
Definition set_choosing v g := Globals (attr g) (thr g) (res g) v (number g) (num g) (cc g).
Definition set_number v g := Globals (attr g) (thr g) (res g) (choosing g) v (num g) (cc g).
Definition set_num v g := Globals (attr g) (thr g) (res g) (choosing g) (number g) v (cc g).
Definition set_cc v g := Globals (attr g) (thr g) (res g) (choosing g) (number g) (num g) v.

(** What is being executed by the dispatcher thread ([svc_run] is single
    threaded, so one handler at a time). *)
Inductive dpc :=
  | DIdle
  (* get_number_1_svc, after [int ind = num++, max = 0] *)
  | DChoose (ind : Z)          (* choosing[ind] = 1 *)
  | DScan (ind i max : Z)      (* i < 32; if (number[i] > max) *)
  | DTake (ind i : Z)          (* max = number[i] *)
  | DNumber (ind max : Z)      (* number[ind] = max + 1 *)
  | DArgNum (ind : Z)          (* argp->num = number[ind] *)
  | DUnchoose (ind : Z)        (* choosing[ind] = 0 *)
  | DResult (ind : Z)          (* result = { number[ind], ind }; reply *)
  (* bakery_wait_1_svc *)
  | DAttrInit (pid n : Z)      (* pthread_attr_init *)
  | DFill (pid n : Z)          (* res[pid].pid = .., res[pid].num = .. *)
  | DCreate (pid n : Z)        (* pthread_create; reply *)
  (* bakery_service_1_svc *)
  | DAttrDestroy (pid n : Z)   (* pthread_attr_destroy *)
  | DJoin (pid n : Z)          (* pthread_join; result.res; reply *)
  | DExited (status : Z).      (* exit(1) *)

(** A client ([bakery_prog_1] of bakery_client.c): what its next call is. *)
Inductive cpc :=
  | CStart                       (* get_number_1 *)
  | CTicket (pid n : Z)          (* bakery_wait_1 *)
  | CWaiting (pid n : Z)         (* bakery_service_1 *)
  | CServed (pid n ch : Z).      (* received [ch] *)

#[export] Instance cpc_eq_dec : EqDecision cpc.
Proof. solve_decision. Defined.

(** Lines of the server's standard output: id, num, res. *)
Definition line : Type := Z * Z * Z.

Record sys := Sys {
  glob : globals;
  threads : gmap nat thread;     (* live threads by thread id *)
  next_tid : nat;
  disp : dpc;
  cur : nat;                     (* the client whose call is being handled *)
  clients : list cpc;
  out : list line
}.

Definition set_glob v s := Sys v (threads s) (next_tid s) (disp s) (cur s) (clients s) (out s).
Definition set_disp v s := Sys (glob s) (threads s) (next_tid s) v (cur s) (clients s) (out s).
Definition set_clients v s := Sys (glob s) (threads s) (next_tid s) (disp s) (cur s) v (out s).

Definition init (nclients : nat) : sys := {|
  glob := {|
    attr := carray_make 32 false;
    thr := carray_make 32 None;
    res := carray_make 32 (ThreadArg 0 0 0);
    choosing := carray_make 32 0;
    number := carray_make 32 0;
    num := 0;
    cc := 97
  |};
  threads := ∅; next_tid := 0%nat; disp := DIdle; cur := 0%nat;
  clients := replicate nclients CStart; out := []
|}.

(** ** Array accesses: an index outside 0..31 is a fault *)

Definition rd {A} (a : gmap Z A) (i : Z) : outcome A :=
  match a !! i with Some v => Ok v | None => Fault OutOfBounds end.
Definition wr {A} (a : gmap Z A) (i : Z) (v : A) : outcome (gmap Z A) :=
  match a !! i with Some _ => Ok (<[i:=v]> a) | None => Fault OutOfBounds end.

(** ** The service thread *)

(** One step of [bakery_service] run on [&res[a]]: the new globals, the new
    program counter and the line printed, if any. *)
Definition bakery_service (a : Z) (pc : tpc) (g : globals)
    : outcome (globals * tpc * list line) :=
  match pc with
  | TStart => targ ← rd (res g) a; Ok (g, TSleep (ta_pid targ), [])
  | TSleep i => Ok (g, TChoosing i 0, [])
  | TChoosing i j =>
      if decide (j < 32) then
        ch ← rd (choosing g) j;
        if decide (ch ≠ 0) then Ok (g, TChoosing i j, []) else Ok (g, TNonzero i j, [])
      else Ok (g, TLoad i, [])
  | TNonzero i j =>
      nj ← rd (number g) j;
      if decide (nj ≠ 0) then Ok (g, TLess i j, []) else Ok (g, TChoosing i (j + 1), [])
  | TLess i j =>
      nj ← rd (number g) j; ni ← rd (number g) i;
      if decide (nj < ni) then Ok (g, TNonzero i j, []) else Ok (g, TEqual i j, [])
  | TEqual i j =>
      nj ← rd (number g) j; ni ← rd (number g) i;
      if decide (nj = ni ∧ j < i) then Ok (g, TNonzero i j, [])
      else Ok (g, TChoosing i (j + 1), [])
  | TLoad i => Ok (g, TStore i (cc g), [])
  | TStore i tmp =>
      targ ← rd (res g) a;
      r ← wr (res g) a (ThreadArg (ta_pid targ) (ta_num targ) tmp);
      Ok (set_cc (tmp + 1) (set_res r g), TWrap i, [])
  | TWrap i =>
      if decide (cc g > 122) then Ok (set_cc 97 g, TPrint i, []) else Ok (g, TPrint i, [])
  | TPrint i =>
      targ ← rd (res g) a;
      Ok (g, TReset i, [(ta_pid targ, ta_num targ, ta_res targ)])
  | TReset i => nb ← wr (number g) i 0; Ok (set_number nb g, TExit, [])
  | TExit => Ok (g, TExit, [])
  end.

(** ** The dispatcher *)

(** Accepting the next call of a client. *)
Definition accept (cid : nat) (s : sys) : option (outcome sys) :=
  match disp s, clients s !! cid with
  | DIdle, Some CStart =>
      (* int ind = num++, max = 0 *)
      Some (Ok (Sys (set_num (num (glob s) + 1) (glob s)) (threads s) (next_tid s)
                    (DChoose (num (glob s))) cid (clients s) (out s)))
  | DIdle, Some (CTicket pid n) =>
      Some (Ok (Sys (glob s) (threads s) (next_tid s) (DAttrInit pid n) cid
                    (clients s) (out s)))
  | DIdle, Some (CWaiting pid n) =>
      Some (Ok (Sys (glob s) (threads s) (next_tid s) (DAttrDestroy pid n) cid
                    (clients s) (out s)))
  | _, _ => None
  end.

(** The reply of the current call: its client moves on, the dispatcher is idle. *)
Definition reply (cl : cpc) (s : sys) : sys :=
  set_disp DIdle (set_clients (<[cur s := cl]> (clients s)) s).

(** [get_number_1_svc]. *)
Definition get_number_1_svc (s : sys) : option (outcome sys) :=
  let g := glob s in
  match disp s with
  | DChoose ind => Some (
      ch ← wr (choosing g) ind 1;
      Ok (set_disp (DScan ind 0 0) (set_glob (set_choosing ch g) s)))
  | DScan ind i max => Some (
      if decide (i < 32) then
        ni ← rd (number g) i;
        if decide (ni > max) then Ok (set_disp (DTake ind i) s)
        else Ok (set_disp (DScan ind (i + 1) max) s)
      else Ok (set_disp (DNumber ind max) s))
  | DTake ind i => Some (
      ni ← rd (number g) i;
      Ok (set_disp (DScan ind (i + 1) ni) s))
  | DNumber ind max => Some (
      nb ← wr (number g) ind (max + 1);
      Ok (set_disp (DArgNum ind) (set_glob (set_number nb g) s)))
  | DArgNum ind => Some (
      _ ← rd (number g) ind;
      Ok (set_disp (DUnchoose ind) s))
  | DUnchoose ind => Some (
      ch ← wr (choosing g) ind 0;
      Ok (set_disp (DResult ind) (set_glob (set_choosing ch g) s)))
  | DResult ind => Some (
      n ← rd (number g) ind;
      Ok (reply (CTicket ind n) s))
  | _ => None
  end.

(** [bakery_wait_1_svc]; [ok] tells whether the pthread call returns 0. *)
Definition bakery_wait_1_svc (ok : bool) (s : sys) : option (outcome sys) :=
  let g := glob s in
  match disp s with
  | DAttrInit pid n => Some (
      at' ← wr (attr g) pid true;
      if ok then Ok (set_disp (DFill pid n) (set_glob (set_attr at' g) s))
      else Ok (set_disp (DExited 1) s))
  | DFill pid n => Some (
      r ← rd (res g) pid;
      res' ← wr (res g) pid (ThreadArg pid n (ta_res r));
      Ok (set_disp (DCreate pid n) (set_glob (set_res res' g) s)))
  | DCreate pid n => Some (
      thr' ← wr (thr g) pid (Some (next_tid s));
      if ok then
        Ok (reply (CWaiting pid n)
          (Sys (set_thr thr' g) (<[next_tid s := Thread pid TStart]> (threads s))
               (S (next_tid s)) (disp s) (cur s) (clients s) (out s)))
      else Ok (set_disp (DExited 1) s))
  | _ => None
  end.

(** [bakery_service_1_svc]: [pthread_join] blocks until the thread has ended;
    joining a thread id that is not live is a fault. *)
Definition bakery_service_1_svc (ok : bool) (s : sys) : option (outcome sys) :=
  let g := glob s in
  match disp s with
  | DAttrDestroy pid n => Some (
      at' ← wr (attr g) pid false;
      if ok then Ok (set_disp (DJoin pid n) (set_glob (set_attr at' g) s))
      else Ok (set_disp (DExited 1) s))
  | DJoin pid n =>
      match thr g !! pid with
      | None => Some (Fault OutOfBounds)
      | Some None => Some (Fault UseAfterFree)
      | Some (Some tid) =>
          match threads s !! tid with
          | None => Some (Fault UseAfterFree)
          | Some t =>
              match t_pc t with
              | TExit => Some (
                  if ok then
                    r ← rd (res g) pid;
                    Ok (reply (CServed pid n (ta_res r))
                      (Sys g (delete tid (threads s)) (next_tid s) (disp s) (cur s)
                           (clients s) (out s)))
                  else Ok (set_disp (DExited 1) s))
              | _ => None
              end
          end
      end
  | _ => None
  end.

Definition dispatcher (ok : bool) (s : sys) : option (outcome sys) :=
  match disp s with
  | DIdle | DExited _ => None
  | DChoose _ | DScan _ _ _ | DTake _ _ | DNumber _ _ | DArgNum _ | DUnchoose _
  | DResult _ => get_number_1_svc s
  | DAttrInit _ _ | DFill _ _ | DCreate _ _ => bakery_wait_1_svc ok s
  | DAttrDestroy _ _ | DJoin _ _ => bakery_service_1_svc ok s
  end.

(** ** The whole system *)

Inductive label :=
  | LAccept (cid : nat)     (* the dispatcher takes the next call of a client *)
  | LDisp (ok : bool)       (* the dispatcher takes a step *)
  | LThread (tid : nat).    (* a service thread takes a step *)

Definition exited (s : sys) : bool :=
  match disp s with DExited _ => true | _ => false end.

(** [None]: the step is not enabled. *)
Definition step (s : sys) (l : label) : option (outcome sys) :=
  match l with
  | LAccept cid => accept cid s
  | LDisp ok => dispatcher ok s
  | LThread tid =>
      match threads s !! tid with
      | Some t =>
          if exited s || bool_decide (t_pc t = TExit) then None
          else Some (
            '(g, pc, o) ← bakery_service (t_arg t) (t_pc t) (glob s);
            Ok (Sys g (<[tid := Thread (t_arg t) pc]> (threads s)) (next_tid s)
                    (disp s) (cur s) (clients s) (out s ++ o)))
      | None => None
      end
  end.

Definition steps (s s' : sys) : Prop := ∃ l, step s l = Some (Ok s').

(** Running a schedule. *)
Fixpoint run (s : sys) (ls : list label) : option (outcome sys) :=
  match ls with
  | [] => Some (Ok s)
  | l :: ls =>
      match step s l with
      | Some (Ok s') => run s' ls
      | r => r
      end
  end.

Definition reachable (n : nat) (s : sys) : Prop := rtc steps (init n) s.

