(* ===== verification/Bakery1Inv.v ===== *)
(** * The invariant of the multi-threaded bakery server

    The clauses of the invariant, and that every step preserves it. *)

From S2P Require Import Prelude Letters Bakery1.
From stdpp Require Import options.
Local Open Scope Z_scope.


(** ** Vocabulary *)

Definition expected (n : Z) : list (Z * Z) := (λ i, (i, letter i)) <$> seqZ 0 n.
Definition summary (l : line) : Z * Z := (l.1.1, l.2).

(** The dispatcher has taken an index but not yet stored its ticket. *)
Definition doorway (d : dpc) : bool :=
  match d with DChoose _ | DScan _ _ _ | DTake _ _ | DNumber _ _ => true | _ => false end.
Definition in_get_number (d : dpc) : bool :=
  match d with
  | DChoose _ | DScan _ _ _ | DTake _ _ | DNumber _ _ | DArgNum _ | DUnchoose _
  | DResult _ => true
  | _ => false
  end.

(** Tickets stored in [number]; tickets known to a client. *)
Definition tickets (s : sys) : Z :=
  if doorway (disp s) then num (glob s) - 1 else num (glob s).
Definition issued (s : sys) : Z :=
  if in_get_number (disp s) then num (glob s) - 1 else num (glob s).

Fixpoint started (cls : list cpc) : nat :=
  match cls with
  | [] => 0
  | CStart :: cls => started cls
  | _ :: cls => S (started cls)
  end.

Definition pid_of (cl : cpc) : option Z :=
  match cl with
  | CStart => None
  | CTicket p _ | CWaiting p _ | CServed p _ _ => Some p
  end.

(** ** The clauses

    [k] is the number of clients served so far: they are the indices below [k],
    and the indices from [k] to the last ticket hold increasing tickets. *)

Record numbers_ok (k m : Z) (nb : gmap Z Z) : Prop := {
  no_arr : arr32 nb;
  no_range : 0 ≤ k ≤ m ∧ m ≤ 32;
  no_zero : ∀ i v, nb !! i = Some v → i < k ∨ m ≤ i → v = 0;
  no_pos : ∀ i v, nb !! i = Some v → k ≤ i < m → 0 < v ≤ i + 1;
  no_mono : ∀ i j v w, nb !! i = Some v → nb !! j = Some w → k ≤ i < j → j < m → v < w
}.

Definition below (k m i max : Z) (nb : gmap Z Z) : Prop :=
  0 ≤ max ≤ m ∧ ∀ j v, nb !! j = Some v → k ≤ j < m → j < i → v ≤ max.

(** What the dispatcher knows at each point of [get_number_1_svc]. *)
Definition disp_ok (k : Z) (s : sys) : Prop :=
  let g := glob s in
  let m := tickets s in
  match disp s with
  | DChoose ind => ind = num g - 1
  | DScan ind i max => ind = num g - 1 ∧ 0 ≤ ind < 32 ∧ 0 ≤ i ≤ 32 ∧ below k m i max (number g)
  | DTake ind i => ind = num g - 1 ∧ 0 ≤ ind < 32 ∧ 0 ≤ i < m
  | DNumber ind max => ind = num g - 1 ∧ 0 ≤ ind < 32 ∧ below k m 32 max (number g)
  | DArgNum ind | DUnchoose ind | DResult ind => ind = num g - 1 ∧ 0 ≤ ind < 32
  | _ => True
  end.

Definition pc_ok (k p : Z) (pc : tpc) : Prop :=
  match pc with
  | TStart => k ≤ p
  | TSleep i => i = p ∧ k ≤ p
  | TChoosing i j => i = p ∧ k ≤ p ∧ 0 ≤ j ≤ 32 ∧ Z.min j p ≤ k
  | TNonzero i j | TLess i j => i = p ∧ k ≤ p ∧ 0 ≤ j < 32 ∧ Z.min j p ≤ k
  | TEqual i j => i = p ∧ p = k ∧ p ≤ j < 32
  | TLoad i | TWrap i | TPrint i | TReset i => i = p ∧ p = k
  | TStore i tmp => i = p ∧ p = k ∧ tmp = letter k
  | TExit => p < k
  end.

Record thread_ok (k : Z) (s : sys) (tid : nat) (t : thread) : Prop := {
  to_tid : (tid < next_tid s)%nat;
  to_range : 0 ≤ t_arg t < issued s;
  to_handle : thr (glob s) !! t_arg t = Some (Some tid);
  to_res : ∃ a, res (glob s) !! t_arg t = Some a ∧ ta_pid a = t_arg t;
  to_pc : pc_ok k (t_arg t) (t_pc t)
}.

Definition handles_ok (k : Z) (s : sys) : Prop :=
  ∀ p h, thr (glob s) !! p = Some h →
    match h with
    | None => k ≤ p
    | Some tid => p < issued s ∧ (tid < next_tid s)%nat ∧
        ∀ t, threads s !! tid = Some t → t_arg t = p
    end.

Definition client_ok (k : Z) (s : sys) (cl : cpc) : Prop :=
  match cl with
  | CStart => True
  | CTicket p _ => 0 ≤ p < issued s ∧
      (thr (glob s) !! p = Some None)
  | CWaiting p _ => 0 ≤ p < issued s ∧
      ∃ tid, thr (glob s) !! p = Some (Some tid) ∧ is_Some (threads s !! tid)
  | CServed p _ ch => 0 ≤ p < k ∧ ch = letter p
  end.

(** The client whose call is being handled is at that call. *)
Definition cur_ok (s : sys) : Prop :=
  let cl := clients s !! cur s in
  match disp s with
  | DChoose _ | DScan _ _ _ | DTake _ _ | DNumber _ _ | DArgNum _ | DUnchoose _
  | DResult _ => cl = Some CStart
  | DAttrInit p n | DFill p n => cl = Some (CTicket p n)
  | DCreate p n => cl = Some (CTicket p n) ∧
      ∃ a, res (glob s) !! p = Some a ∧ ta_pid a = p
  | DAttrDestroy p n | DJoin p n => cl = Some (CWaiting p n)
  | DIdle | DExited _ => True
  end.

Definition serving (k : Z) (s : sys) : option tpc :=
  match thr (glob s) !! k with
  | Some (Some tid) => t_pc <$> threads s !! tid
  | _ => None
  end.

Definition given (p : Z) (s : sys) : Prop :=
  ∃ a, res (glob s) !! p = Some a ∧ ta_res a = letter p.

(** The output and the letter counter, by the point [ph] at which the client
    being served is. *)
Definition phase_ok (k : Z) (ph : option tpc) (s : sys) : Prop :=
  match ph with
  | Some (TWrap _) => cc (glob s) = letter k + 1 ∧ given k s ∧ summary <$> out s = expected k
  | Some (TPrint _) => cc (glob s) = letter (k + 1) ∧ given k s ∧ summary <$> out s = expected k
  | Some (TReset _) =>
      cc (glob s) = letter (k + 1) ∧ given k s ∧ summary <$> out s = expected (k + 1)
  | _ => cc (glob s) = letter k ∧ summary <$> out s = expected k
  end.

Definition output_ok (k : Z) (s : sys) : Prop := phase_ok k (serving k s) s.

Record inv (k : Z) (s : sys) : Prop := {
  i_attr : arr32 (attr (glob s));
  i_thr : arr32 (thr (glob s));
  i_res : arr32 (res (glob s));
  i_choosing : arr32 (choosing (glob s));
  i_numbers : numbers_ok k (tickets s) (number (glob s));
  i_disp : disp_ok k s;
  i_threads : ∀ tid t, threads s !! tid = Some t → thread_ok k s tid t;
  i_handles : handles_ok k s;
  i_clients : ∀ cid cl, clients s !! cid = Some cl → client_ok k s cl;
  i_owner : ∀ c1 c2 cl1 cl2 p, clients s !! c1 = Some cl1 → clients s !! c2 = Some cl2 →
    pid_of cl1 = Some p → pid_of cl2 = Some p → c1 = c2;
  i_count : issued s = Z.of_nat (started (clients s));
  i_cur : cur_ok s;
  i_given : ∀ p, 0 ≤ p < k → given p s;
  i_output : output_ok k s
}.

(** ** Lemmas on the vocabulary *)

Lemma expected_snoc n : 0 ≤ n → expected (n + 1) = expected n ++ [(n, letter n)].
Proof.
  intros. unfold expected. rewrite seqZ_app; [|lia..].
  rewrite fmap_app, Z.add_0_l. done.
Qed.

Lemma issued_tickets s : issued s ≤ tickets s.
Proof. unfold issued, tickets. destruct (disp s); simpl; lia. Qed.

Lemma rd_Ok {A} (a : gmap Z A) i v : rd a i = Ok v ↔ a !! i = Some v.
Proof. unfold rd. destruct (a !! i); naive_solver. Qed.

Lemma started_insert cls cid cl cl' :
  cls !! cid = Some cl → cl' ≠ CStart →
  started (<[cid:=cl']> cls) = (started cls + if decide (cl = CStart) then 1 else 0)%nat.
Proof.
  intros Hc Hne. revert cid Hc. induction cls as [|c cls IH]; intros [|cid] Hc; simplify_eq/=.
  - destruct cl', cl; simpl; try case_decide; simplify_eq; lia.
  - rewrite (IH _ Hc). destruct c; lia.
Qed.

(** ** Preservation, clause by clause *)

(** Storing the next ticket. *)
Lemma numbers_ticket k m nb max :
  numbers_ok k m nb → m < 32 → below k m 32 max nb →
  numbers_ok k (m + 1) (<[m := max + 1]> nb).
Proof.
  intros [Ha [Hk Hm] Hz Hp Hmono] Hlt [Hmax Hb].
  assert (is_Some (nb !! m)) as Hs by (apply Ha; lia).
  split; [by apply arr32_insert|lia|..].
  - intros i v Hi Hout. destruct (decide (m = i)) as [->|]; simplify_map_eq; [lia|].
    eapply Hz; [done|lia].
  - intros i v Hi Hin. destruct (decide (m = i)) as [->|]; simplify_map_eq; [lia|].
    eapply Hp; [done|lia].
  - intros i j v w Hi Hj ??. destruct (decide (m = j)) as [->|].
    + rewrite lookup_insert_ne in Hi by lia. simplify_map_eq.
      enough (v ≤ max) by lia. apply (Hb i); [done|lia|lia].
    + rewrite lookup_insert_ne in Hi, Hj by lia. apply (Hmono i j); [done|done|lia..].
Qed.

(** The served client clears its ticket. *)
Lemma numbers_served k m nb :
  numbers_ok k m nb → k < m → numbers_ok (k + 1) m (<[k := 0]> nb).
Proof.
  intros [Ha [Hk Hm] Hz Hp Hmono] Hlt.
  assert (is_Some (nb !! k)) as Hs by (apply Ha; lia).
  split; [by apply arr32_insert|lia|..].
  - intros i v Hi Hout. destruct (decide (k = i)) as [->|]; simplify_map_eq; [lia|].
    eapply Hz; [done|lia].
  - intros i v Hi Hin. rewrite lookup_insert_ne in Hi by lia. eapply Hp; [done|lia].
  - intros i j v w Hi Hj ??. rewrite lookup_insert_ne in Hi, Hj by lia.
    apply (Hmono i j); [done|done|lia..].
Qed.

(** One iteration of the scan, the entry not being larger ... *)
Lemma below_skip k m i max nb v :
  below k m i max nb → nb !! i = Some v → v ≤ max → below k m (i + 1) max nb.
Proof.
  intros [Hm Hb] Hi Hv. split; [done|]. intros j w Hj ??.
  destruct (decide (j = i)) as [->|]; [congruence|]. apply (Hb j); [done|lia..].
Qed.

(** ... and re-reading a larger entry, which may have been cleared in between:
    then every smaller index has been served too. *)
Lemma below_take k m i nb v :
  numbers_ok k m nb → 0 ≤ i < m → nb !! i = Some v → below k m (i + 1) v nb.
Proof.
  intros [Ha [Hk Hm] Hz Hp Hmono] Hi Hv.
  destruct (decide (i < k)) as [Hlt|Hge].
  - assert (v = 0) as -> by (eapply Hz; [done|lia]). split; [lia|]. lia.
  - pose proof (Hp i v Hv ltac:(lia)). split; [lia|]. intros j w Hj ??.
    destruct (decide (j = i)) as [->|]; [simplify_eq; lia|].
    enough (w < v) by lia. apply (Hmono j i); [done|done|lia..].
Qed.

Lemma below_served k m i max nb :
  below k m i max nb → below (k + 1) m i max (<[k := 0]> nb).
Proof.
  intros [Hm Hb]. split; [done|]. intros j w Hj ??.
  rewrite lookup_insert_ne in Hj by lia. apply (Hb j); [done|lia..].
Qed.

(** ** The service threads *)

(** The state after a step of thread [tid]. *)
Definition moved (s : sys) (tid : nat) (a : Z) (g : globals) (pc : tpc) (o : list line) : sys :=
  Sys g (<[tid := Thread a pc]> (threads s)) (next_tid s) (disp s) (cur s) (clients s)
      (out s ++ o).

Lemma serving_moved k s tid t g pc o :
  inv k s → threads s !! tid = Some t → thr g = thr (glob s) →
  serving k (moved s tid (t_arg t) g pc o) =
    if decide (t_arg t = k) then Some pc else serving k s.
Proof.
  intros Hinv Ht Hthr. pose proof (to_handle _ _ _ _ (i_threads _ _ Hinv _ _ Ht)) as Hh.
  unfold serving, moved; simpl. rewrite Hthr.
  case_decide as Hk; [subst k; by rewrite Hh, lookup_insert_eq|].
  destruct (thr (glob s) !! k) as [[tid'|]|] eqn:Hk'; [|done..].
  destruct (decide (tid = tid')) as [<-|]; [|by rewrite lookup_insert_ne].
  destruct (i_handles _ _ Hinv _ _ Hk') as (_ & _ & Harg). by specialize (Harg _ Ht).
Qed.

Lemma serving_here k s tid t :
  inv k s → threads s !! tid = Some t → t_arg t = k → serving k s = Some (t_pc t).
Proof.
  intros Hinv Ht <-. unfold serving.
  by rewrite (to_handle _ _ _ _ (i_threads _ _ Hinv _ _ Ht)), Ht.
Qed.

(** What a thread does to the result slots: process ids stay, and so do the
    letters already given. *)
Record results_kept (k : Z) (r r' : gmap Z thread_arg) : Prop := {
  rk_arr : arr32 r';
  rk_pid : ∀ p a, r !! p = Some a → ∃ a', r' !! p = Some a' ∧ ta_pid a' = ta_pid a;
  rk_given : ∀ p a, p < k → r !! p = Some a → ∃ a', r' !! p = Some a' ∧ ta_res a' = ta_res a
}.

Lemma results_kept_refl k r : arr32 r → results_kept k r r.
Proof. split; eauto. Qed.

Lemma results_kept_store k r p a ch :
  arr32 r → r !! p = Some a → k ≤ p →
  results_kept k r (<[p := ThreadArg (ta_pid a) (ta_num a) ch]> r).
Proof.
  intros Harr Ha Hk. split.
  - apply arr32_insert; eauto.
  - intros q b Hb. destruct (decide (p = q)) as [->|]; simplify_map_eq; eauto.
  - intros q b Hq Hb. rewrite lookup_insert_ne by lia. eauto.
Qed.

(** A step of a thread that does not complete a service. *)
Lemma inv_moved k s tid t r c pc o :
  let g := set_cc c (set_res r (glob s)) in
  inv k s → threads s !! tid = Some t → results_kept k (res (glob s)) r →
  pc_ok k (t_arg t) pc →
  phase_ok k (if decide (t_arg t = k) then Some pc else serving k s)
           (moved s tid (t_arg t) g pc o) →
  inv k (moved s tid (t_arg t) g pc o).
Proof.
  intros g Hinv Ht [Harr Hpid Hgiven] Hpc Hph.
  pose proof (i_threads _ _ Hinv _ _ Ht) as Hto.
  pose proof (serving_moved k s tid t g pc o Hinv Ht eq_refl) as Hserv.
  destruct Hinv as [I1 I2 I3 I4 I5 I6 I7 I8 I9 I10 I11 I12 I13 I14].
  split; simpl; try done.
  - intros tid' t' Ht'. destruct (decide (tid = tid')) as [<-|].
    + rewrite lookup_insert_eq in Ht'. simplify_eq. destruct Hto as [? ? ? (a & Ha & Hp) ?].
      split; simpl; [done..| |done]. destruct (Hpid _ _ Ha) as (a' & ? & ?).
      exists a'. split; [done|congruence].
    + rewrite lookup_insert_ne in Ht' by done. destruct (I7 _ _ Ht') as [? ? ? (a & Ha & Hp) ?].
      split; simpl; [done..| |done]. destruct (Hpid _ _ Ha) as (a' & ? & ?).
      exists a'. split; [done|congruence].
  - intros p h Hp. specialize (I8 p h Hp). destruct h as [tid'|]; [|done].
    destruct I8 as (? & ? & Harg). repeat split; [done..|]. simpl. intros t' Ht'.
    destruct (decide (tid = tid')) as [<-|].
    + rewrite lookup_insert_eq in Ht'. simplify_eq/=. by apply Harg.
    + rewrite lookup_insert_ne in Ht' by done. by apply Harg.
  - intros cid cl Hcl. specialize (I9 cid cl Hcl). destruct cl; simpl in *; try done.
    destruct I9 as (? & tid' & ? & ?). split; [done|]. exists tid'. split; [done|].
    apply lookup_insert_is_Some'. by right.
  - unfold cur_ok in *. simpl. destruct (disp s); try done.
    destruct I12 as (? & a & Ha & Hp). split; [done|]. destruct (Hpid _ _ Ha) as (a' & ? & ?).
    exists a'. split; [done|congruence].
  - intros p Hp. destruct (I13 p Hp) as (a & Ha & Hl).
    destruct (Hgiven _ _ (proj2 Hp) Ha) as (a' & ? & ?). exists a'. split; [done|congruence].
  - unfold output_ok. by rewrite Hserv.
Qed.

Lemma inv_moved_here k s tid t r c pc o :
  let g := set_cc c (set_res r (glob s)) in
  inv k s → threads s !! tid = Some t → t_arg t = k → results_kept k (res (glob s)) r →
  pc_ok k k pc → phase_ok k (Some pc) (moved s tid k g pc o) →
  inv k (moved s tid k g pc o).
Proof.
  intros g Hinv Ht Hk Hr Hpc Hph. pose proof (inv_moved k s tid t r c pc o) as Hm.
  rewrite Hk, decide_True in Hm by done. by apply Hm.
Qed.

Lemma pc_ok_served k p pc : pc_ok k p pc → p ≠ k → pc_ok (k + 1) p pc.
Proof. destruct pc; simpl; lia. Qed.

(** Only the thread of the client being served is past the spin loops. *)
Lemma pc_ok_waiting k p pc (P : Prop) :
  pc_ok k p pc → p ≠ k →
  match pc with TWrap _ | TPrint _ | TReset _ | TStore _ _ | TLoad _ => P | _ => True end.
Proof. destruct pc; simpl; try done; lia. Qed.

Lemma phase_waiting k s ph :
  cc (glob s) = letter k → summary <$> out s = expected k →
  match ph with Some (TWrap _) | Some (TPrint _) | Some (TReset _) => False | _ => True end →
  phase_ok k ph s.
Proof. destruct ph as [[]|]; simpl; done. Qed.

Lemma serving_waiting k s :
  handles_ok (k + 1) s →
  (∀ tid t, threads s !! tid = Some t → t_arg t = k + 1 → pc_ok k (k + 1) (t_pc t)) →
  match serving (k + 1) s with
  | Some (TWrap _) | Some (TPrint _) | Some (TReset _) => False | _ => True
  end.
Proof.
  intros Hh Hpc. unfold serving. destruct (thr (glob s) !! (k + 1)) as [[tid|]|] eqn:Hk; [|done..].
  destruct (threads s !! tid) as [t|] eqn:Ht; [|done]. simpl.
  destruct (Hh _ _ Hk) as (_ & _ & Harg). specialize (Hpc _ _ Ht (Harg _ Ht)).
  pose proof (pc_ok_waiting k (k + 1) (t_pc t) False Hpc ltac:(lia)).
  by destruct (t_pc t).
Qed.

Lemma inv_served k s tid t :
  inv k s → threads s !! tid = Some t → t_pc t = TReset k → t_arg t = k →
  inv (k + 1) (moved s tid k (set_number (<[k := 0]> (number (glob s))) (glob s)) TExit []).
Proof.
  intros Hinv Ht Hpc <-. remember (t_arg t) as k eqn:Hk.
  assert (serving k s = Some (TReset k)) as Hserv by (by erewrite serving_here, Hpc by done).
  pose proof (i_threads _ _ Hinv _ _ Ht) as [_ Hrange Hhandle _ _]. rewrite <- Hk in Hrange, Hhandle.
  destruct Hinv as [I1 I2 I3 I4 I5 I6 I7 I8 I9 I10 I11 I12 I13 I14].
  pose proof (issued_tickets s).
  unfold output_ok in I14. rewrite Hserv in I14. destruct I14 as (Hcc & Hgiven & Hout).
  assert (∀ tid' t', threads s !! tid' = Some t' → tid' ≠ tid → t_arg t' ≠ k) as Hother.
  { intros tid' t' Ht' Hne Heq. destruct (I7 _ _ Ht') as [_ _ Hh _ _]. rewrite Heq in Hh. congruence. }
  set (s' := moved _ _ _ _ _ _).
  assert (handles_ok (k + 1) s') as Hhandles.
  { intros p h Hp. specialize (I8 p h Hp). destruct h as [tid'|].
    - destruct I8 as (? & ? & Harg). repeat split; [done..|]. simpl. intros t' Ht'.
      destruct (decide (tid = tid')) as [<-|].
      + rewrite lookup_insert_eq in Ht'. simplify_eq/=. by rewrite <- (Harg _ Ht).
      + rewrite lookup_insert_ne in Ht' by done. by apply Harg.
    - destruct (decide (p = k)) as [->|]; [|lia]. simpl in Hp. congruence. }
  split; simpl; try done.
  - apply numbers_served; [done|]. unfold tickets in *. simpl. lia.
  - unfold disp_ok, tickets in *; simpl. destruct (disp s); naive_solver eauto using below_served.
  - intros tid' t' Ht'. destruct (decide (tid = tid')) as [<-|Hne].
    + rewrite lookup_insert_eq in Ht'. simplify_eq.
      destruct (I7 _ _ Ht) as [? ? ? Hres ?]. split; simpl; [done..|lia].
    + rewrite lookup_insert_ne in Ht' by done.
      destruct (I7 _ _ Ht') as [? ? ? Hres ?]. split; simpl; [done..|].
      apply pc_ok_served; [done|]. by eapply Hother.
  - intros cid cl Hcl. specialize (I9 cid cl Hcl). destruct cl; simpl in *; try done.
    + destruct I9 as (? & tid' & ? & ?). split; [done|]. exists tid'. split; [done|].
      apply lookup_insert_is_Some'. by right.
    + split; [lia|tauto].
  - intros p Hp. destruct (decide (p = k)) as [->|]; [done|]. apply (I13 p). lia.
  - apply phase_waiting; simpl; [done|by rewrite app_nil_r|].
    apply serving_waiting; [done|]. intros tid' t' Ht' Harg.
    destruct (decide (tid = tid')) as [<-|].
    + simpl in Ht'. rewrite lookup_insert_eq in Ht'. simplify_eq/=. lia.
    + simpl in Ht'. rewrite lookup_insert_ne in Ht' by done.
      rewrite <- Harg. apply (to_pc _ _ _ _ (I7 _ _ Ht')).
Qed.

(** Program points at which a thread has not touched [c] yet. *)
Definition quiet (pc : tpc) : Prop :=
  match pc with TWrap _ | TPrint _ | TReset _ => False | _ => True end.

Lemma phase_cong k ph s s' :
  cc (glob s') = cc (glob s) → res (glob s') = res (glob s) → out s' = out s →
  phase_ok k ph s → phase_ok k ph s'.
Proof.
  intros Hc Hr Ho. unfold phase_ok, given. rewrite Hc, Hr, Ho. done.
Qed.

Lemma phase_quiet k pc s :
  quiet pc → phase_ok k (Some pc) s ↔ cc (glob s) = letter k ∧ summary <$> out s = expected k.
Proof. by destruct pc. Qed.

(** A step that only reads. *)
Lemma inv_silent k s tid t pc :
  inv k s → threads s !! tid = Some t → quiet (t_pc t) → quiet pc →
  pc_ok k (t_arg t) pc → inv k (moved s tid (t_arg t) (glob s) pc []).
Proof.
  intros Hinv Ht Hq Hq' Hpc.
  assert (glob s = set_cc (cc (glob s)) (set_res (res (glob s)) (glob s))) as Hg
    by (by destruct (glob s)).
  rewrite Hg at 1. apply inv_moved; [done..|apply results_kept_refl, (i_res _ _ Hinv)|done|].
  rewrite <- Hg. eapply (phase_cong k _ s); [done..|by apply app_nil_r|].
  pose proof (i_output _ _ Hinv) as Hout. unfold output_ok in Hout.
  case_decide as Hk; [|done].
  rewrite (serving_here _ _ _ _ Hinv Ht Hk) in Hout. by rewrite phase_quiet in Hout |- *.
Qed.

(** The ticket of a client that has called [bakery_wait_1] and is not served. *)
Lemma own_ticket k s tid t j v w :
  inv k s → threads s !! tid = Some t → t_pc t ≠ TExit → k ≤ t_arg t →
  number (glob s) !! j = Some v → number (glob s) !! t_arg t = Some w →
  (j < k → v = 0) ∧ (k ≤ j < t_arg t → 0 < v < w) ∧ 0 < w ∧ (t_arg t ≤ j → v = 0 ∨ w ≤ v).
Proof.
  intros Hinv Ht Hne Hk Hj Hw. pose proof (i_threads _ _ Hinv _ _ Ht) as [_ Hr _ _ _].
  destruct (i_numbers _ _ Hinv) as [_ [_ ?] Hz Hp Hm].
  pose proof (issued_tickets s).
  split; [intros; eapply Hz; [done|lia]|]. split; [|split].
  - intros. split; [pose proof (Hp j v Hj); lia|]. apply (Hm j (t_arg t)); [done|done|lia..].
  - pose proof (Hp _ _ Hw); lia.
  - intros. destruct (decide (j = t_arg t)) as [->|]; [simplify_eq; lia|].
    destruct (decide (j < tickets s)).
    + right. enough (w < v) by lia. apply (Hm (t_arg t) j); [done|done|lia..].
    + left. eapply Hz; [done|lia].
Qed.

(** ** Every thread step is possible and keeps the invariant *)

(** The conclusion for thread [tid] at [pc]. *)
Definition thread_progress (k : Z) (s : sys) (tid : nat) (t : thread) : Prop :=
  ∃ g pc o, bakery_service (t_arg t) (t_pc t) (glob s) = Ok (g, pc, o) ∧
    ∃ k', k ≤ k' ≤ k + 1 ∧ inv k' (moved s tid (t_arg t) g pc o).

Ltac silent := eexists _, _, _; (split; [reflexivity|]);
  eexists _; (split; [|apply inv_silent; [eassumption|eassumption|..]]);
  repeat match goal with H : t_pc _ = _ |- _ => rewrite H; clear H end; simpl; try done; try lia.

Lemma waiting_step_inv k s tid t :
  inv k s → threads s !! tid = Some t → t_pc t ≠ TExit → quiet (t_pc t) →
  (∀ i tmp, t_pc t ≠ TStore i tmp) → thread_progress k s tid t.
Proof.
  intros Hinv Ht Hne Hq Hns. pose proof (i_threads _ _ Hinv _ _ Ht) as [_ Hr _ (a & Ha & Hap) Hpc].
  pose proof (no_range _ _ _ (i_numbers _ _ Hinv)) as Hk.
  pose proof (issued_tickets s).
  pose proof (no_arr _ _ _ (i_numbers _ _ Hinv)) as Harr.
  destruct (arr32_lookup _ (t_arg t) Harr ltac:(lia)) as [w Hw].
  pose proof (λ j v, own_ticket k s tid t j v w Hinv Ht Hne) as Hown.
  assert (∀ j, 0 ≤ j < 32 → ∃ v, number (glob s) !! j = Some v) as Hnum
    by (intros; by apply arr32_lookup).
  unfold thread_progress.
  destruct (t_pc t) as [|i|i j|i j|i j|i j|i|i tmp|i|i|i|] eqn:Et; simpl in Hpc;
    unfold bakery_service, rd; try (by destruct Hq); try (by destruct (Hns i tmp)).
  - rewrite Ha. simpl. silent.
  - silent.
  - case_decide.
    + destruct (arr32_lookup _ j (i_choosing _ _ Hinv) ltac:(lia)) as [ch ->]. simpl.
      case_decide; silent.
    + silent.
  - destruct (Hnum j ltac:(lia)) as [v Hv]. rewrite Hv. simpl.
    destruct (Hown j v ltac:(lia) Hv Hw) as (? & ? & ? & ?). case_decide; silent.
  - destruct (Hnum j ltac:(lia)) as [v Hv]. destruct Hpc as (-> & ?). rewrite Hv, Hw. simpl.
    destruct (Hown j v ltac:(lia) Hv Hw) as (? & ? & ? & ?). case_decide; silent.
  - destruct (Hnum j ltac:(lia)) as [v Hv]. destruct Hpc as (-> & ?). rewrite Hv, Hw. simpl.
    case_decide; silent.
  - pose proof (i_output _ _ Hinv) as Hout. unfold output_ok in Hout.
    rewrite (serving_here _ _ _ _ Hinv Ht ltac:(lia)), Et in Hout. silent.
    destruct Hpc, Hout; done.
Qed.

(** The thread of the client being served, inside its critical section. *)
Lemma critical_step_inv k s tid t :
  inv k s → threads s !! tid = Some t → t_arg t = k →
  match t_pc t with TStore _ _ | TWrap _ | TPrint _ | TReset _ => True | _ => False end →
  thread_progress k s tid t.
Proof.
  intros Hinv Ht Hk Hcs. pose proof (i_threads _ _ Hinv _ _ Ht) as [_ Hr _ (a & Ha & Hap) Hpc].
  pose proof (no_range _ _ _ (i_numbers _ _ Hinv)) as Hkm.
  pose proof (i_output _ _ Hinv) as Hout. unfold output_ok in Hout.
  rewrite (serving_here _ _ _ _ Hinv Ht Hk) in Hout.
  pose proof (i_res _ _ Hinv) as Hres.
  unfold thread_progress. rewrite Hk in *.
  destruct (t_pc t) as [|i|i j|i j|i j|i j|i|i tmp|i|i|i|] eqn:Et; try done; simpl in Hpc, Hout;
    unfold bakery_service, rd, wr; rewrite ?Ha; simpl.
  - destruct Hpc as (-> & _ & ->). destruct Hout as [Hcc Hl].
    eexists _, _, _; split; [done|]. exists k. split; [lia|].
    eapply inv_moved_here; [done..| |by simpl|].
    + by apply results_kept_store.
    + simpl. rewrite app_nil_r. split_and!; [lia| |done].
      unfold given; simpl. rewrite lookup_insert_eq. eauto.
  - destruct Hpc as (-> & _). destruct Hout as (Hcc & Hg & Hl).
    assert (letter (k + 1) = if decide (cc (glob s) > 122) then 97 else cc (glob s)) as Hnext
      by (rewrite Hcc; apply letter_next; lia).
    exists (set_cc (letter (k + 1)) (set_res (res (glob s)) (glob s))), (TPrint k), [].
    split; [rewrite Hnext; case_decide; [done|by destruct (glob s)]|].
    exists k. split; [lia|].
    eapply inv_moved_here; [done..|by apply results_kept_refl|done|]. simpl. by rewrite app_nil_r.
  - destruct Hpc as (-> & _). destruct Hout as (Hcc & Hg & Hl).
    exists (set_cc (cc (glob s)) (set_res (res (glob s)) (glob s))).
    eexists _, _. split; [by destruct (glob s)|].
    exists k. split; [lia|].
    eapply inv_moved_here; [done..|by apply results_kept_refl|done|]. simpl. split_and!; [done..|].
    destruct Hg as (a' & Ha' & Hl'). simplify_eq.
    rewrite fmap_app, Hl, expected_snoc by lia. by rewrite <- Hl', <- Hap.
  - destruct Hpc as (-> & _).
    destruct (arr32_lookup _ k (no_arr _ _ _ (i_numbers _ _ Hinv))) as [v ->].
    { pose proof (issued_tickets s). lia. }
    eexists _, _, _. split; [done|]. exists (k + 1). split; [lia|]. by eapply inv_served.
Qed.

(** Every step of a live thread is possible and keeps the invariant. *)
Lemma thread_step_inv k s tid t :
  inv k s → threads s !! tid = Some t → t_pc t ≠ TExit → thread_progress k s tid t.
Proof.
  intros Hinv Ht Hne. pose proof (to_pc _ _ _ _ (i_threads _ _ Hinv _ _ Ht)) as Hpc.
  destruct (t_pc t) eqn:Et; simpl in Hpc; try done;
    first [ apply critical_step_inv; [done|done|lia|by rewrite Et]
          | apply waiting_step_inv; rewrite ?Et; by try intros ?? ].
Qed.

(** ** The dispatcher *)

(** The slots of running threads keep their process id, all keep the letter. *)
Definition slots_kept (s : sys) (r : gmap Z thread_arg) : Prop :=
  ∀ p a, res (glob s) !! p = Some a → ∃ a', r !! p = Some a' ∧ ta_res a' = ta_res a ∧
    (thr (glob s) !! p ≠ Some None → ta_pid a' = ta_pid a).

(** A step of the dispatcher that does not reply. *)
Lemma inv_handler k s g d cu :
  let s' := Sys g (threads s) (next_tid s) d cu (clients s) (out s) in
  inv k s → thr g = thr (glob s) → cc g = cc (glob s) → arr32 (res g) → slots_kept s (res g) →
  issued s' = issued s → arr32 (attr g) → arr32 (choosing g) →
  numbers_ok k (tickets s') (number g) → disp_ok k s' → cur_ok s' → inv k s'.
Proof.
  intros s' [I1 I2 I3 I4 I5 I6 I7 I8 I9 I10 I11 I12 I13 I14] Hthr Hcc Har Hres Hiss ?????.
  assert (∀ p, given p s → given p s') as Hgiven.
  { intros p (a & Ha & ?). destruct (Hres _ _ Ha) as (a' & ? & ? & _).
    exists a'. split; [done|congruence]. }
  split; try done.
  - by rewrite <- Hthr in I2.
  - intros tid t Ht. destruct (I7 tid t Ht) as [? ? ? (a & Ha & ?) ?].
    split; rewrite ?Hiss; simpl; rewrite ?Hthr; [done..| |done].
    destruct (Hres _ _ Ha) as (a' & ? & _ & Hpid). exists a'. split; [done|].
    rewrite Hpid; congruence.
  - intros p h. simpl. rewrite Hthr, Hiss. apply I8.
  - intros cid cl Hcl. specialize (I9 cid cl Hcl). destruct cl; simpl; rewrite ?Hthr, ?Hiss; done.
  - by rewrite Hiss.
  - intros p Hp. apply Hgiven. by apply I13.
  - unfold output_ok, serving in *. simpl. rewrite Hthr.
    destruct (match thr (glob s) !! k with Some (Some _) => _ | _ => _ end) as [[]|];
      simpl in *; rewrite Hcc; naive_solver.
Qed.

Lemma slots_same s : slots_kept s (res (glob s)).
Proof. intros p a Ha. eauto. Qed.

Lemma accept_inv k s cid r :
  inv k s → accept cid s = Some r → ∃ s', r = Ok s' ∧ inv k s'.
Proof.
  intros Hinv Hacc. unfold accept in Hacc.
  destruct (disp s) eqn:Hd; try done.
  destruct (clients s !! cid) as [[]|] eqn:Hc; simplify_eq; (eexists; split; [done|]);
    (apply inv_handler; [done|done|done|apply Hinv|apply slots_same| |apply Hinv|apply Hinv|..]);
    pose proof (i_numbers _ _ Hinv) as Hn;
    unfold issued, tickets, disp_ok, cur_ok in *; rewrite ?Hd in *; simpl in *; try done; try lia.
  by replace (num (glob s) + 1 - 1) with (num (glob s)) by lia.
Qed.

(** The 33rd call of [get_number_1_svc] indexes past the arrays. *)
Definition overrun (s : sys) (r : outcome sys) : Prop :=
  ∃ ind, disp s = DChoose ind ∧ 32 ≤ ind ∧ r = Fault OutOfBounds.

(** A dispatcher step leads to a state of [inv_handler]. *)
Ltac handler Hd := eexists; split; [reflexivity|]; unfold set_disp, set_glob; simpl;
  apply inv_handler; simpl; unfold issued, tickets, disp_ok, cur_ok, tickets; simpl; rewrite ?Hd;
  simpl; try done; try match goal with H : inv _ _ |- _ => apply H end; try apply slots_same;
  try (apply arr32_insert; [by eauto using i_attr, i_choosing, i_res|by eauto]); auto with lia.

Lemma get_number_inv k s r :
  inv k s → (∀ ind, disp s ≠ DResult ind) → get_number_1_svc s = Some r →
  (∃ s', r = Ok s' ∧ inv k s') ∨ overrun s r.
Proof.
  intros Hinv Hnr Hstep. unfold get_number_1_svc in Hstep. unfold overrun.
  destruct (disp s) as [|ind|ind i max|ind i|ind max|ind|ind|ind| | | | | |] eqn:Hd;
    simplify_eq; try (by destruct (Hnr ind));
    pose proof (i_disp _ _ Hinv) as Hdisp; pose proof (i_numbers _ _ Hinv) as Hn;
    pose proof (no_arr _ _ _ Hn) as Harr; pose proof (no_range _ _ _ Hn) as Hrange;
    pose proof (i_cur _ _ Hinv) as Hcur; pose proof (i_choosing _ _ Hinv) as Hch;
    unfold disp_ok, cur_ok, tickets in Hdisp, Hcur, Hn, Hrange;
    rewrite Hd in Hdisp, Hcur, Hn, Hrange; simpl in Hdisp, Hcur, Hn, Hrange; unfold rd, wr.
  - (* choosing[ind] = 1 *)
    destruct (decide (32 <= ind)).
    + right. exists ind. destruct (choosing (glob s) !! ind) eqn:Hc; [|done].
      assert (0 ≤ ind < 32); [|lia]. apply Hch. eauto.
    + left. destruct (arr32_lookup _ ind Hch ltac:(lia)) as [v Hv]. rewrite Hv. simpl.
      handler Hd.
      unfold below. split_and!; try lia.
  - left. case_decide.
    + destruct (arr32_lookup _ i Harr ltac:(lia)) as [v Hv]. rewrite Hv. simpl.
      destruct Hdisp as (? & ? & ? & Hb). case_decide as Hgt.
      * handler Hd. split_and!; try lia. destruct (decide (i < num (glob s) - 1)); [done|].
        assert (v = 0); [|destruct Hb; lia]. eapply (no_zero _ _ _ Hn); [done|lia].
      * handler Hd. split_and!; try lia. eapply below_skip; [done|done|lia].
    + handler Hd. destruct Hdisp as (? & ? & ? & ? & Hb). split_and!; try lia.
      split; [lia|]. intros j w Hj ??. apply (Hb j); [done|done|].
      assert (0 ≤ j < 32); [|lia]. apply Harr. eauto.
  - left. destruct Hdisp as (? & ? & ?).
    destruct (arr32_lookup _ i Harr ltac:(lia)) as [v Hv]. rewrite Hv. simpl.
    handler Hd. split_and!; try lia. by apply below_take.
  - left. destruct Hdisp as (? & ? & Hb).
    destruct (arr32_lookup _ ind Harr ltac:(lia)) as [v Hv]. rewrite Hv. simpl.
    handler Hd. replace (num (glob s)) with (num (glob s) - 1 + 1) by lia. subst ind.
    apply numbers_ticket; [done|lia|done].
  - left. destruct (arr32_lookup _ ind Harr ltac:(lia)) as [v Hv]. rewrite Hv. simpl.
    handler Hd.
  - left. destruct (arr32_lookup _ ind Hch ltac:(lia)) as [v Hv]. rewrite Hv. simpl.
    handler Hd.
Qed.

(** *** Replies *)

Lemma served_issued k s : inv k s → k ≤ issued s.
Proof.
  intros Hinv. pose proof (no_range _ _ _ (i_numbers _ _ Hinv)).
  destruct (decide (k = 0)) as [->|].
  { rewrite (i_count _ _ Hinv). lia. }
  destruct (arr32_lookup _ (k - 1) (i_thr _ _ Hinv) ltac:(lia)) as [[tid|] Hh];
    pose proof (i_handles _ _ Hinv _ _ Hh); simpl in *; lia.
Qed.

Lemma client_pid_issued k s cid cl p :
  inv k s → clients s !! cid = Some cl → pid_of cl = Some p → 0 ≤ p < issued s.
Proof.
  intros Hinv Hcl Hp. pose proof (i_clients _ _ Hinv _ _ Hcl).
  pose proof (served_issued _ _ Hinv).
  destruct cl; simplify_eq/=; naive_solver lia.
Qed.

(** After a reply the clients are still told apart by their indices. *)
Lemma owner_reply k s cid cl' :
  inv k s → (∀ p, pid_of cl' = Some p →
    pid_of <$> clients s !! cid = Some (Some p) ∨ issued s ≤ p) →
  ∀ c1 c2 cl1 cl2 p, <[cid := cl']> (clients s) !! c1 = Some cl1 →
    <[cid := cl']> (clients s) !! c2 = Some cl2 →
    pid_of cl1 = Some p → pid_of cl2 = Some p → c1 = c2.
Proof.
  intros Hinv Hnew.
  assert (∀ c cl p, clients s !! c = Some cl → pid_of cl = Some p → pid_of cl' = Some p →
    c = cid) as Hother.
  { intros c cl p Hc Hp Hp'. destruct (Hnew p Hp') as [Hold|Hfresh].
    - apply fmap_Some in Hold as (cl0 & ? & ?). eapply (i_owner _ _ Hinv); eauto.
    - pose proof (client_pid_issued _ _ _ _ _ Hinv Hc Hp). lia. }
  intros c1 c2 cl1 cl2 p H1 H2 Hp1 Hp2.
  apply list_lookup_insert_Some in H1 as [(<- & <- & ?)|(? & ?)];
    apply list_lookup_insert_Some in H2 as [(<- & <- & ?)|(? & ?)]; [done|..].
  - symmetry. eauto.
  - eauto.
  - eapply (i_owner _ _ Hinv); eauto.
Qed.

Lemma clients_reply k s cid cl' s' :
  (∀ c cl, c ≠ cid → clients s !! c = Some cl → client_ok k s' cl) → client_ok k s' cl' →
  ∀ c cl, <[cid := cl']> (clients s) !! c = Some cl → client_ok k s' cl.
Proof.
  intros Hold Hnew c cl [(<- & <- & ?)|(? & ?)]%list_lookup_insert_Some; eauto.
Qed.

Lemma result_inv k s ind r :
  inv k s → disp s = DResult ind → get_number_1_svc s = Some r → ∃ s', r = Ok s' ∧ inv k s'.
Proof.
  intros Hinv Hd Hstep. unfold get_number_1_svc in Hstep. rewrite Hd in Hstep. simplify_eq.
  pose proof (i_disp _ _ Hinv) as Hdisp. pose proof (i_numbers _ _ Hinv) as Hn.
  pose proof (i_cur _ _ Hinv) as Hcur. pose proof (served_issued _ _ Hinv) as Hk.
  pose proof (i_count _ _ Hinv) as Hcount.
  unfold disp_ok, cur_ok, tickets, issued in Hdisp, Hcur, Hn, Hk, Hcount. rewrite Hd in *. simpl in *.
  destruct (arr32_lookup _ ind (no_arr _ _ _ Hn) ltac:(lia)) as [v Hv].
  unfold rd. rewrite Hv. simpl. eexists. split; [done|].
  assert (thr (glob s) !! ind = Some None) as Hthr.
  { destruct (arr32_lookup _ ind (i_thr _ _ Hinv) ltac:(lia)) as [[tid|] Hh]; [|done].
    pose proof (i_handles _ _ Hinv _ _ Hh) as [Hlt _]. unfold issued in Hlt. rewrite Hd in Hlt.
    simpl in Hlt. lia. }
  pose proof Hinv as [I1 I2 I3 I4 I5 I6 I7 I8 I9 I10 I11 I12 I13 I14].
  assert (issued s = num (glob s) - 1) as Hiss by (unfold issued; by rewrite Hd).
  unfold reply, set_disp, set_clients. split; simpl; try done.
  - intros tid t Ht. destruct (I7 tid t Ht) as [? ? ? ? ?]. split; try done.
    unfold issued; simpl. lia.
  - intros p h Hp. specialize (I8 p h Hp). destruct h; [|done].
    unfold issued; simpl. naive_solver lia.
  - apply clients_reply; [|simpl; unfold issued; simpl; split; [lia|done]].
    intros c cl _ Hc. specialize (I9 c cl Hc).
    destruct cl; simpl in *; unfold issued in *; simpl in *; naive_solver lia.
  - apply (owner_reply k); [done|]. intros p [= <-]. right. lia.
  - rewrite (started_insert _ _ CStart) by done. unfold issued; simpl. lia.
Qed.

(** *** [bakery_wait_1_svc] and [bakery_service_1_svc] *)

(** A failing pthread call ends the server. *)
Lemma exit_inv k s :
  inv k s → in_get_number (disp s) = false → inv k (set_disp (DExited 1) s).
Proof.
  intros Hinv Hd. unfold set_disp. apply inv_handler; try done; try apply Hinv.
  - apply slots_same.
  - unfold issued. simpl. by rewrite Hd.
  - assert (doorway (disp s) = false) by (by destruct (disp s)).
    pose proof (i_numbers _ _ Hinv) as Hn. unfold tickets in *. simpl. by rewrite H in Hn.
Qed.

Lemma arr32_slot k s p h {A} (a : gmap Z A) :
  inv k s → thr (glob s) !! p = Some h → arr32 a → ∃ v, a !! p = Some v.
Proof. intros Hinv Hp Ha. apply Ha, (i_thr _ _ Hinv). eauto. Qed.

(** [pthread_create] on the slot of a client without a thread, and the reply. *)
Lemma create_inv k s pid n :
  inv k s → disp s = DCreate pid n →
  inv k (reply (CWaiting pid n)
    (Sys (set_thr (<[pid := Some (next_tid s)]> (thr (glob s))) (glob s))
         (<[next_tid s := Thread pid TStart]> (threads s)) (S (next_tid s))
         (disp s) (cur s) (clients s) (out s))).
Proof.
  intros Hinv Hd. pose proof (i_cur _ _ Hinv) as Hcur. unfold cur_ok in Hcur. rewrite Hd in Hcur.
  destruct Hcur as (Hcl & a & Ha & Hap).
  pose proof (i_clients _ _ Hinv _ _ Hcl) as [Hpid Hthr].
  pose proof (i_handles _ _ Hinv _ _ Hthr) as Hkp. simpl in Hkp.
  pose proof Hinv as [I1 I2 I3 I4 I5 I6 I7 I8 I9 I10 I11 I12 I13 I14].
  unfold issued, tickets in *. rewrite Hd in *. simpl in *.
  assert (threads s !! next_tid s = None) as Hfresh.
  { destruct (threads s !! next_tid s) eqn:Ht; [|done]. destruct (I7 _ _ Ht). lia. }
  unfold reply, set_disp, set_clients; simpl.
  split; simpl; try done.
  - apply arr32_insert; eauto.
  - intros tid t Ht. destruct (decide (next_tid s = tid)) as [<-|].
    + rewrite lookup_insert_eq in Ht. simplify_eq. split; simpl; [lia|done|by rewrite lookup_insert_eq|eauto|lia].
    + rewrite lookup_insert_ne in Ht by done. destruct (I7 _ _ Ht) as [? ? Hh ? ?].
      unfold issued in *; rewrite Hd in *; split; simpl; try done; [lia|].
      rewrite lookup_insert_ne; [done|]. intros Heq. rewrite <- Heq in Hh. congruence.
  - intros p h Hp. destruct (decide (pid = p)) as [<-|].
    + simpl in Hp. rewrite lookup_insert_eq in Hp. simplify_eq.
      split_and!; [unfold issued; simpl; lia|simpl; lia|]. simpl. intros t.
      rewrite lookup_insert_eq. by intros [= <-].
    + simpl in Hp. rewrite lookup_insert_ne in Hp by done. specialize (I8 _ _ Hp).
      destruct h as [tid|]; [|done]. unfold issued in *; rewrite Hd in *; simpl in *.
      destruct I8 as (? & ? & Harg). split_and!; [done|lia|]. intros t Ht.
      rewrite lookup_insert_ne in Ht by lia. by apply Harg.
  - apply clients_reply.
    + intros c cl Hne Hc. pose proof (I9 c cl Hc) as Hok.
      assert (∀ p, pid_of cl = Some p → pid ≠ p) as Hpne.
      { intros p Hp <-. by apply Hne, (I10 _ _ _ _ pid Hc Hcl). }
      destruct cl as [|p ?|p ?|]; simpl in *; unfold issued in *; rewrite ?Hd in Hok;
        simpl in *; try done.
      * rewrite lookup_insert_ne by auto. done.
      * rewrite lookup_insert_ne by auto. destruct Hok as (? & tid & ? & ?).
        split; [done|]. exists tid. split; [done|]. apply lookup_insert_is_Some'. by right.
    + simpl. split; [done|]. exists (next_tid s). rewrite !lookup_insert_eq. eauto.
  - apply (owner_reply k); [done|]. intros p [= <-]. left. by rewrite Hcl.
  - rewrite (started_insert _ _ _ _ Hcl) by done. rewrite decide_False by done.
    unfold issued; simpl. lia.
  - unfold output_ok, serving in *. simpl. destruct (decide (pid = k)) as [->|].
    + rewrite Hthr in I14. by rewrite !lookup_insert_eq.
    + rewrite lookup_insert_ne by done.
      destruct (thr (glob s) !! k) as [[tid|]|] eqn:Hh; [|done..].
      destruct (I8 _ _ Hh) as (_ & ? & _). rewrite lookup_insert_ne by lia. done.
Qed.

Lemma wait_inv k s ok r :
  inv k s → bakery_wait_1_svc ok s = Some r → ∃ s', r = Ok s' ∧ inv k s'.
Proof.
  intros Hinv Hstep. unfold bakery_wait_1_svc in Hstep.
  pose proof (i_cur _ _ Hinv) as Hcur. unfold cur_ok in Hcur.
  destruct (disp s) as [| | | | | | | |pid n|pid n|pid n| | |] eqn:Hd; simplify_eq; simpl in Hcur.
  - pose proof (i_clients _ _ Hinv _ _ Hcur) as [Hp Hthr].
    destruct (arr32_slot k s pid _ (attr (glob s)) Hinv Hthr (i_attr _ _ Hinv)) as [v Hv].
    unfold wr. rewrite Hv. simpl. destruct ok; [|eexists; split; [done|]].
    + handler Hd. pose proof (i_numbers _ _ Hinv) as Hn. unfold tickets in Hn. by rewrite Hd in Hn.
    + apply exit_inv; [done|by rewrite Hd].
  - pose proof (i_clients _ _ Hinv _ _ Hcur) as [Hp Hthr].
    destruct (arr32_slot k s pid _ (res (glob s)) Hinv Hthr (i_res _ _ Hinv)) as [v Hv].
    unfold rd, wr. rewrite Hv. simpl. handler Hd.
    + intros p a Ha. destruct (decide (pid = p)) as [<-|].
      * rewrite lookup_insert_eq. simplify_eq. eexists. split_and!; [done|done|by rewrite Hthr].
      * rewrite lookup_insert_ne by done. eauto.
    + pose proof (i_numbers _ _ Hinv) as Hn. unfold tickets in Hn. by rewrite Hd in Hn.
    + split; [done|]. rewrite lookup_insert_eq. eauto.
  - unfold wr. destruct Hcur as (Hcl & _).
    pose proof (i_clients _ _ Hinv _ _ Hcl) as [_ Hthr]. rewrite Hthr. simpl.
    destruct ok; (eexists; split; [done|]).
    + rewrite <- Hd. by apply create_inv.
    + apply exit_inv; [done|by rewrite Hd].
Qed.

(** [pthread_join] on the ended thread of a client, and the reply. *)
Lemma join_inv k s pid n tid t a :
  inv k s → disp s = DJoin pid n → thr (glob s) !! pid = Some (Some tid) →
  threads s !! tid = Some t → t_pc t = TExit → res (glob s) !! pid = Some a →
  inv k (reply (CServed pid n (ta_res a))
    (Sys (glob s) (delete tid (threads s)) (next_tid s) (disp s) (cur s) (clients s) (out s))).
Proof.
  intros Hinv Hd Hh Ht Hpc Ha. pose proof (i_cur _ _ Hinv) as Hcl.
  unfold cur_ok in Hcl. rewrite Hd in Hcl.
  destruct (i_handles _ _ Hinv _ _ Hh) as (_ & _ & Harg). specialize (Harg _ Ht).
  pose proof (to_pc _ _ _ _ (i_threads _ _ Hinv _ _ Ht)) as Hk. rewrite Hpc, Harg in Hk.
  pose proof (client_pid_issued _ _ _ _ pid Hinv Hcl eq_refl) as Hpid. simpl in Hk.
  pose proof Hinv as [I1 I2 I3 I4 I5 I6 I7 I8 I9 I10 I11 I12 I13 I14].
  unfold issued, tickets in *. rewrite Hd in *. simpl in *.
  unfold reply, set_disp, set_clients; simpl. split; simpl; try done.
  - intros tid' t' [Hne Ht']%lookup_delete_Some. destruct (I7 _ _ Ht') as [? ? ? ? ?].
    unfold issued in *; rewrite Hd in *; split; done.
  - intros p h Hp. specialize (I8 _ _ Hp). destruct h as [tid'|]; [|done].
    unfold issued in *; rewrite Hd in *; simpl in *.
    destruct I8 as (? & ? & Harg'). split_and!; [done|lia|]. intros t' [_ Ht']%lookup_delete_Some.
    by apply Harg'.
  - apply clients_reply.
    + intros c cl Hne Hc. pose proof (I9 c cl Hc) as Hok.
      destruct cl as [|p ?|p ?|]; simpl in *; unfold issued in *; rewrite ?Hd in Hok;
        simpl in *; try done.
      destruct Hok as (? & tid' & Hh' & ?). split; [done|]. exists tid'. split; [done|].
      rewrite lookup_delete_ne; [done|]. intros <-.
      destruct (I8 _ _ Hh') as (_ & _ & Harg'). rewrite (Harg' _ Ht) in Harg. subst p.
      by apply Hne, (I10 _ _ _ _ pid Hc Hcl).
    + destruct (I13 pid) as (a' & ? & ?); [lia|]. simplify_eq. split; [lia|done].
  - apply (owner_reply k); [done|]. intros p [= <-]. left. by rewrite Hcl.
  - rewrite (started_insert _ _ _ _ Hcl) by done. rewrite decide_False by done.
    unfold issued; simpl. lia.
  - unfold output_ok, serving in *. simpl.
    destruct (thr (glob s) !! k) as [[tid'|]|] eqn:Hh'; [|done..].
    rewrite lookup_delete_ne; [done|]. intros <-.
    destruct (I8 _ _ Hh') as (_ & _ & Harg'). specialize (Harg' _ Ht). lia.
Qed.

Lemma service_inv k s ok r :
  inv k s → bakery_service_1_svc ok s = Some r → ∃ s', r = Ok s' ∧ inv k s'.
Proof.
  intros Hinv Hstep. unfold bakery_service_1_svc in Hstep.
  pose proof (i_cur _ _ Hinv) as Hcur. unfold cur_ok in Hcur.
  destruct (disp s) as [| | | | | | | | | | |pid n|pid n|] eqn:Hd; simplify_eq; simpl in Hcur.
  - pose proof (i_clients _ _ Hinv _ _ Hcur) as (Hp & tid & Hthr & _).
    destruct (arr32_slot k s pid _ (attr (glob s)) Hinv Hthr (i_attr _ _ Hinv)) as [v Hv].
    unfold wr. rewrite Hv. simpl. destruct ok; [|eexists; split; [done|]].
    + handler Hd. pose proof (i_numbers _ _ Hinv) as Hn. unfold tickets in Hn. by rewrite Hd in Hn.
    + apply exit_inv; [done|by rewrite Hd].
  - pose proof (i_clients _ _ Hinv _ _ Hcur) as (Hp & tid & Hthr & t & Ht).
    rewrite Hthr, Ht in Hstep. destruct (t_pc t) eqn:Hpc; simplify_eq.
    destruct ok; [|eexists; split; [done|apply exit_inv; [done|by rewrite Hd]]].
    destruct (arr32_slot k s pid _ (res (glob s)) Hinv Hthr (i_res _ _ Hinv)) as [a Ha].
    unfold rd. rewrite Ha. simpl. eexists. split; [done|]. rewrite <- Hd. by eapply join_inv.
Qed.

(** ** The invariant holds in every reachable state *)

Lemma step_inv k s l r :
  inv k s → step s l = Some r →
  (∃ s' k', r = Ok s' ∧ inv k' s' ∧ k ≤ k' ≤ k + 1) ∨ overrun s r.
Proof.
  intros Hinv Hstep. destruct l as [cid|ok|tid]; simpl in Hstep.
  - destruct (accept_inv _ _ _ _ Hinv Hstep) as (s' & -> & ?). left. exists s', k. split_and!; by try lia.
  - unfold dispatcher in Hstep.
    assert (∀ s', r = Ok s' ∧ inv k s' → (∃ s' k', r = Ok s' ∧ inv k' s' ∧ k ≤ k' ≤ k + 1))
      as Hk by (intros s' []; exists s', k; split_and!; by try lia).
    destruct (disp s) eqn:Hd; try done;
      first [ destruct (get_number_inv _ _ _ Hinv ltac:(by rewrite Hd) Hstep) as [[? ?]|];
                [by left; eauto|by right]
            | destruct (result_inv _ _ _ _ Hinv Hd Hstep); by left; eauto
            | destruct (wait_inv _ _ _ _ Hinv Hstep); by left; eauto
            | destruct (service_inv _ _ _ _ Hinv Hstep); by left; eauto ].
  - destruct (threads s !! tid) as [t|] eqn:Ht; [|done].
    destruct (exited s || bool_decide (t_pc t = TExit)) eqn:He; [done|].
    apply orb_false_elim in He as [_ He%bool_decide_eq_false].
    destruct (thread_step_inv _ _ _ _ Hinv Ht He) as (g & pc & o & Hb & k' & ? & ?).
    rewrite Hb in Hstep. simpl in Hstep. simplify_eq. left. eexists _, k'. done.
Qed.

#[local] Opaque carray_make.

Lemma init_inv n : inv 0 (init n).
Proof.
  assert (∀ cid cl, replicate n CStart !! cid = Some cl → cl = CStart) as Hstart
    by (intros cid cl [-> _]%lookup_replicate; done).
  split; simpl; try apply arr32_make; try done.
  - unfold tickets; simpl. split; [apply arr32_make|lia|..].
    + intros i v. rewrite lookup_carray_make. case_decide; naive_solver.
    + lia.
    + lia.
  - intros p h. simpl. rewrite lookup_carray_make. case_decide; intros; simplify_eq. lia.
  - intros cid cl ->%Hstart. done.
  - intros c1 c2 cl1 cl2 p ->%Hstart. done.
  - unfold issued; simpl. clear Hstart. by induction n.
  - intros; lia.
Qed.

Lemma reachable_inv n s : reachable n s → ∃ k, inv k s.
Proof.
  unfold reachable. revert s. apply (rtc_ind_r (λ s, ∃ k, inv k s)).
  - exists 0. apply init_inv.
  - intros s s' _ [l Hl] [k Hinv].
    destruct (step_inv _ _ _ _ Hinv Hl) as [(s'' & k' & ? & ? & _)|(? & _ & _ & ?)]; simplify_eq; eauto.
Qed.

