(* ===== verification/Bakery1Spec.v ===== *)
(** * What the multi-threaded bakery server guarantees

    The abstract ticket queue, and the theorems on every reachable state of the
    system of [Bakery1]. *)

From S2P Require Import Prelude Letters Bakery1 Bakery1Inv.
From stdpp Require Import options.
Local Open Scope Z_scope.

(** ** The abstract specification: tickets are served in the order they are taken *)

Record queue := Queue { q_taken : Z; q_served : list (Z * Z) }.

Inductive qstep : queue → queue → Prop :=
  | q_take q : q_taken q < 32 → qstep q (Queue (q_taken q + 1) (q_served q))
  | q_serve q n :
      n = Z.of_nat (length (q_served q)) → n < q_taken q →
      qstep q (Queue (q_taken q) (q_served q ++ [(n, letter n)])).

Definition abstraction (s : sys) : queue := Queue (tickets s) (summary <$> out s).

(** Program points between the spin loops and the reset of the ticket. *)
Definition in_critical (pc : tpc) : bool :=
  match pc with TLoad _ | TStore _ _ | TWrap _ | TPrint _ | TReset _ => true | _ => false end.

(** ** Helper lemmas *)

Lemma length_expected n : length (expected n) = Z.to_nat n.
Proof. unfold expected. rewrite length_fmap, length_seqZ. done. Qed.

Lemma critical_pid k p pc : pc_ok k p pc → in_critical pc → p = k.
Proof. destruct pc; simpl; naive_solver. Qed.

Lemma output_expected k s :
  inv k s → ∃ a, summary <$> out s = expected a ∧ k ≤ a ≤ k + 1 ∧ a ≤ tickets s.
Proof.
  intros Hinv. pose proof (i_output _ _ Hinv) as Hout. unfold output_ok in Hout.
  pose proof (no_range _ _ _ (i_numbers _ _ Hinv)).
  destruct (serving k s) as [[]|] eqn:Hs; simpl in Hout;
    try (exists k; split_and!; [tauto|lia..]).
  exists (k + 1). split_and!; [tauto|lia..|]. unfold serving in Hs.
  destruct (thr (glob s) !! k) as [[tid|]|] eqn:Hh; try done.
  pose proof (i_handles _ _ Hinv _ _ Hh) as [? _]. pose proof (issued_tickets s). lia.
Qed.

Lemma reachable_init n : reachable n (init n).
Proof. apply rtc_refl. Qed.

Lemma run_reachable n ls s s' :
  reachable n s → run s ls = Some (Ok s') → reachable n s'.
Proof.
  revert s. induction ls as [|l ls IH]; simpl; intros s Hr Hrun; simplify_eq; [done|].
  destruct (step s l) as [[s1|]|] eqn:Hl; simplify_eq.
  eapply IH, Hrun. eapply rtc_r; [exact Hr|by exists l].
Qed.

(** A thread changes no ticket count and prints at most one line. *)
Lemma bakery_service_effect a pc g g' pc' o :
  bakery_service a pc g = Ok (g', pc', o) → num g' = num g ∧ (length o ≤ 1)%nat.
Proof.
  unfold bakery_service, mbind, outcome_bind.
  destruct pc; repeat case_match; intros; simplify_eq/=; auto.
Qed.

Definition silent_step (s s' : sys) : Prop :=
  tickets s' = tickets s ∧ ∃ o, out s' = out s ++ o ∧ (length o ≤ 1)%nat.
Definition ticket_step (s s' : sys) : Prop :=
  out s' = out s ∧ tickets s' = tickets s + 1.

Lemma silent_same s s' : tickets s' = tickets s → out s' = out s → silent_step s s'.
Proof. unfold silent_step. intros ? ->. split; [done|]. exists []. rewrite app_nil_r. auto. Qed.

Lemma step_effect s l s' :
  step s l = Some (Ok s') → silent_step s s' ∨ ticket_step s s'.
Proof.
  destruct l as [cid|ok|tid]; simpl.
  - unfold accept. destruct (disp s) eqn:Hd; try done.
    destruct (clients s !! cid) as [[]|]; intros; simplify_eq/=; left; apply silent_same;
      unfold tickets; simpl; rewrite ?Hd; simpl; first [done|lia].
  - unfold dispatcher, get_number_1_svc, bakery_wait_1_svc, bakery_service_1_svc, mbind,
      outcome_bind.
    intros Hs. destruct (disp s) eqn:Hd; try done; repeat case_match; simplify_eq/=;
      first [ left; apply silent_same; unfold tickets; simpl; rewrite ?Hd; done
            | right; unfold ticket_step, tickets; simpl; rewrite Hd; simpl; split; [done|lia] ].
  - intros Hs. destruct (threads s !! tid) as [t|]; [|done]. case_match; [done|].
    simplify_eq. destruct (bakery_service _ _ _) as [[[g pc] o]|] eqn:Hb; simplify_eq/=.
    apply bakery_service_effect in Hb as [Hn Ho]. left. unfold silent_step, tickets; simpl.
    rewrite Hn. eauto.
Qed.

(** The number of clients never changes. *)
Lemma step_clients_length s l s' :
  step s l = Some (Ok s') → length (clients s') = length (clients s).
Proof.
  destruct l as [cid|ok|tid]; simpl.
  - unfold accept. intros. repeat case_match; by simplify_eq/=.
  - unfold dispatcher, get_number_1_svc, bakery_wait_1_svc, bakery_service_1_svc, mbind,
      outcome_bind.
    intros. repeat case_match; simplify_eq/=; by rewrite ?length_insert.
  - intros Hs. repeat case_match; simplify_eq.
    apply outcome_bind_Ok in Hs as ([[]] & _ & Hs). by simplify_eq/=.
Qed.

Lemma clients_length n s : reachable n s → length (clients s) = n.
Proof.
  revert s. apply (rtc_ind_r (λ s, length (clients s) = n)); [apply length_replicate|].
  intros s s' _ [l Hl] <-. by eapply step_clients_length.
Qed.

Lemma started_length cls cid : cls !! cid = Some CStart → (started cls < length cls)%nat.
Proof.
  revert cid. induction cls as [|cl cls IH]; intros [|cid] H; simplify_eq/=.
  - clear. enough (started cls ≤ length cls)%nat by lia. induction cls as [|[] cls]; simpl; lia.
  - apply IH in H. destruct cl; lia.
Qed.

(** A client that has been served got the letter of its index, and the line is out. *)
Lemma served_letter n s cid p num ch :
  reachable n s → clients s !! cid = Some (CServed p num ch) →
  0 ≤ p < Z.of_nat (length (out s)) ∧ ch = letter p.
Proof.
  intros [k Hinv]%reachable_inv Hcl. destruct (output_expected _ _ Hinv) as (a & Ha & ? & _).
  pose proof (no_range _ _ _ (i_numbers _ _ Hinv)).
  pose proof (f_equal length Ha) as Hlen. rewrite length_fmap, length_expected in Hlen.
  pose proof (i_clients _ _ Hinv _ _ Hcl) as [??]. split; [lia|done].
Qed.

Lemma owner_unique n s c1 c2 cl1 cl2 p :
  reachable n s → clients s !! c1 = Some cl1 → clients s !! c2 = Some cl2 →
  pid_of cl1 = Some p → pid_of cl2 = Some p → c1 = c2.
Proof. intros [k Hinv]%reachable_inv. apply (i_owner _ _ Hinv). Qed.

Lemma no_fault_step n s l f : (n ≤ 32)%nat → reachable n s → step s l ≠ Some (Fault f).
Proof.
  intros Hn Hr Hl. pose proof (clients_length _ _ Hr) as Hlen.
  apply reachable_inv in Hr as [k Hinv].
  destruct (step_inv _ _ _ _ Hinv Hl) as [(s' & _ & ? & _)|(ind & Hd & Hge & _)]; [done|].
  pose proof (i_disp _ _ Hinv) as Hdisp. pose proof (i_cur _ _ Hinv) as Hcur.
  pose proof (i_count _ _ Hinv) as Hcount. unfold disp_ok, cur_ok, issued in *.
  rewrite Hd in *. simpl in *. pose proof (started_length _ _ Hcur). lia.
Qed.

(** *** Sample runs *)

(** The state after a schedule (the initial state if a step is not enabled). *)
Definition after (n : nat) (ls : list label) : sys :=
  match run (init n) ls with Some (Ok s) => s | _ => init n end.

Lemma after_reachable n ls : reachable n (after n ls).
Proof.
  unfold after. destruct (run (init n) ls) as [[s|]|] eqn:Hrun; try apply reachable_init.
  by eapply run_reachable, Hrun; apply reachable_init.
Qed.

(** *** The join deadlock *)

(** Client [cid] calls [get_number_1_svc] when the tickets held are those of the
    clients below it: the scan takes each of them as the new maximum. *)
Definition call_get_number (cid : nat) : list label :=
  LAccept cid :: replicate (38 + cid) (LDisp true).
Definition call_wait (cid : nat) : list label := LAccept cid :: replicate 3 (LDisp true).
Definition call_service (cid : nat) : list label := LAccept cid :: replicate 2 (LDisp true).

(** Two clients take tickets and start their threads; thread 0 reaches its
    critical section while thread 1 spins. *)
Definition two_threads : list label :=
  call_get_number 0 ++ call_get_number 1 ++ call_wait 0 ++ call_wait 1 ++
  replicate 10 (LThread 1) ++ replicate 71 (LThread 0).

(** Both clients take tickets, then the second one calls [bakery_wait_1] and
    [bakery_service_1] before the first one calls [bakery_wait_1]. *)
Definition deadlock_schedule : list label :=
  call_get_number 0 ++ call_get_number 1 ++ call_wait 1 ++ [LAccept 1; LDisp true].

(** The dispatcher is in [pthread_join] on thread 0, which spins on the ticket of
    client 0, which no thread serves. *)
Record blocked (s : sys) : Prop := {
  b_disp : disp s = DJoin 1 2;
  b_thr : thr (glob s) !! 1 = Some (Some 0%nat);
  b_threads : ∃ pc, threads s = {[ 0%nat := Thread 1 pc ]} ∧
    pc ∈ [TStart; TSleep 1; TChoosing 1 0; TNonzero 1 0; TLess 1 0];
  b_res : ta_pid <$> res (glob s) !! 1 = Some 1;
  b_choosing : choosing (glob s) !! 0 = Some 0;
  b_number0 : number (glob s) !! 0 = Some 1;
  b_number1 : number (glob s) !! 1 = Some 2
}.

Lemma blocked_step s l s' :
  blocked s → step s l = Some (Ok s') → blocked s' ∧ clients s' = clients s.
Proof.
  intros [Hd Hthr (pc & Hth & Hpc) Hres Hch Hn0 Hn1] Hl. destruct l as [cid|ok|tid]; simpl in Hl.
  - unfold accept in Hl. by rewrite Hd in Hl.
  - unfold dispatcher, bakery_service_1_svc in Hl. rewrite Hd, Hthr, Hth in Hl.
    rewrite lookup_singleton_eq in Hl. simpl in Hl.
    repeat (apply elem_of_cons in Hpc as [->|Hpc]; [done|]). by apply elem_of_nil in Hpc.
  - rewrite Hth in Hl. destruct (decide (tid = 0%nat)) as [->|]; [|by rewrite lookup_singleton_ne in Hl].
    rewrite lookup_singleton_eq in Hl. simpl in Hl. unfold exited in Hl. rewrite Hd in Hl.
    apply fmap_Some in Hres as (a & Ha & Hap).
    repeat (apply elem_of_cons in Hpc as [->|Hpc]); [..|by apply elem_of_nil in Hpc];
      simpl in Hl; unfold rd in Hl; rewrite ?Ha, ?Hch, ?Hn0, ?Hn1 in Hl; simpl in Hl; simplify_eq;
      (split; [|done]); (split; simpl; rewrite ?Ha; simpl; [done|done| |congruence|done..]);
      eexists; (split; [apply insert_singleton_eq|rewrite <- ?Hap; set_solver]).
Qed.

(** ** Theorems *)

(** C1: mutual exclusion: in every state the server can reach, whatever the
    interleaving of the dispatcher, the clients and the service threads, at most
    one [bakery_service] thread is between its spin loops and [number[i] = 0]. *)
Theorem bakery1_mutual_exclusion n s tid1 tid2 t1 t2 :
  reachable n s → threads s !! tid1 = Some t1 → threads s !! tid2 = Some t2 →
  in_critical (t_pc t1) → in_critical (t_pc t2) → tid1 = tid2.
Proof.
  intros [k Hinv]%reachable_inv H1 H2 C1 C2.
  destruct (i_threads _ _ Hinv _ _ H1) as [_ _ Hh1 _ Hp1].
  destruct (i_threads _ _ Hinv _ _ H2) as [_ _ Hh2 _ Hp2].
  apply critical_pid in Hp1 as E1; [|done]. apply critical_pid in Hp2 as E2; [|done].
  rewrite E1 in Hh1. rewrite E2 in Hh2. congruence.
Qed.

Lemma bakery1_mutual_exclusion_witness :
  t_pc <$> threads (after 2 two_threads) !! 1%nat = Some (TLess 1 0) ∧ 0%nat = 0%nat.
Proof.
  split; [vm_compute; reflexivity|].
  apply (bakery1_mutual_exclusion 2 (after 2 two_threads) 0 0
    (Thread 0 (TLoad 0)) (Thread 0 (TLoad 0)) (after_reachable _ _));
    vm_compute; (reflexivity || exact I).
Defined.

(** C6: refinement: every step of the server either is invisible or is a step of
    the abstract ticket queue, which takes a ticket or serves the oldest ticket
    not served yet and gives it the next letter. *)
Theorem bakery1_refines_queue n s l s' :
  reachable n s → step s l = Some (Ok s') →
  abstraction s' = abstraction s ∨ qstep (abstraction s) (abstraction s').
Proof.
  intros [k Hinv]%reachable_inv Hl.
  destruct (step_inv _ _ _ _ Hinv Hl) as [(s0 & k' & [= <-] & Hinv' & _)|(? & _ & _ & ?)]; [|done].
  destruct (output_expected _ _ Hinv) as (a & Ha & ? & _).
  destruct (output_expected _ _ Hinv') as (a' & Ha' & ? & Hat).
  pose proof (no_range _ _ _ (i_numbers _ _ Hinv)).
  pose proof (no_range _ _ _ (i_numbers _ _ Hinv')).
  unfold abstraction.
  destruct (step_effect _ _ _ Hl) as [[Htk (o & Ho & Hlen)]|[-> Htk]].
  - rewrite Htk. destruct o as [|x [|]]; simpl in Hlen; [|right|lia].
    + left. by rewrite Ho, app_nil_r.
    + rewrite Ho, fmap_app, Ha in Ha'. rewrite Ho, fmap_app, Ha.
      pose proof (f_equal length Ha') as Heq. simpl in Heq.
      rewrite length_app, !length_expected in Heq. simpl in Heq.
      replace a' with (a + 1) in * by lia. rewrite expected_snoc in Ha' by lia.
      apply app_inv_head in Ha'. simpl in Ha'. simplify_eq.
      assert (a = Z.of_nat (length (expected a))) as Hlena by (rewrite length_expected; lia).
      simpl. replace (summary x) with (a, letter a). apply q_serve; simpl; [done|lia].
  - right. rewrite Htk. apply q_take. simpl. lia.
Qed.

Lemma bakery1_refines_queue_witness :
  let s := after 2 (two_threads ++ replicate 3 (LThread 0)) in
  let s' := after 2 (two_threads ++ replicate 4 (LThread 0)) in
  abstraction s' ≠ abstraction s ∧
  (abstraction s' = abstraction s ∨ qstep (abstraction s) (abstraction s')).
Proof.
  intros s s'. split; [vm_compute; discriminate|].
  apply (bakery1_refines_queue 2 s (LThread 0) s' (after_reachable _ _)).
  vm_compute. reflexivity.
Defined.

(** C24: functional correctness of the service: the lines printed are, in this
    order, clients 0, 1, 2, ... with the letters a, b, ..., z, a, ...; and the
    letter each client receives is the one of its index, at most once per index. *)
Theorem bakery1_letters n s :
  reachable n s →
  summary <$> out s = expected (Z.of_nat (length (out s))) ∧
  (∀ cid p num ch, clients s !! cid = Some (CServed p num ch) →
    0 ≤ p < Z.of_nat (length (out s)) ∧ ch = letter p) ∧
  (∀ c1 c2 cl1 cl2 p, clients s !! c1 = Some cl1 → clients s !! c2 = Some cl2 →
    pid_of cl1 = Some p → pid_of cl2 = Some p → c1 = c2).
Proof.
  intros Hr. split_and!.
  - apply reachable_inv in Hr as [k Hinv].
    destruct (output_expected _ _ Hinv) as (a & Ha & ? & _). rewrite Ha. f_equal.
    pose proof (no_range _ _ _ (i_numbers _ _ Hinv)).
    apply (f_equal length) in Ha. rewrite length_fmap, length_expected in Ha. lia.
  - intros cid p num ch. by apply (served_letter n).
  - intros c1 c2 cl1 cl2 p. by apply (owner_unique n).
Qed.

Lemma bakery1_letters_witness :
  let s := after 2 (two_threads ++ replicate 5 (LThread 0) ++ call_service 0) in
  clients s !! 0%nat = Some (CServed 0 1 97) ∧ 97 = letter 0.
Proof.
  intros s. assert (clients s !! 0%nat = Some (CServed 0 1 97)) as Hcl by (vm_compute; reflexivity).
  split; [exact Hcl|].
  destruct (bakery1_letters 2 s (after_reachable _ _)) as (_ & Hl & _).
  exact (proj2 (Hl 0%nat 0 1 97 Hcl)).
Defined.

(** C23: memory safety: with at most 32 clients no step of the server accesses an
    array out of bounds or joins a thread that does not exist. *)
Theorem bakery1_no_fault n s l r :
  (n ≤ 32)%nat → reachable n s → step s l = Some r → ∃ s', r = Ok s'.
Proof.
  intros Hn Hr Hl. destruct r as [s'|f]; [by exists s'|]. by destruct (no_fault_step n s l f).
Qed.

Lemma bakery1_no_fault_witness :
  ∃ s', step (after 2 two_threads) (LThread 1) = Some (Ok s').
Proof.
  destruct (step (after 2 two_threads) (LThread 1)) as [r|] eqn:Hl;
    [|vm_compute in Hl; discriminate].
  destruct (bakery1_no_fault 2 (after 2 two_threads) (LThread 1) r) as [s' ->];
    [lia|apply after_reachable|exact Hl|by exists s'].
Defined.

(** Tickets: the tickets held by clients not served yet are between 1 and 32
    and grow strictly with the client index. *)
Theorem bakery1_tickets n s i j v w :
  reachable n s → number (glob s) !! i = Some v → number (glob s) !! j = Some w →
  i < j → v ≠ 0 → w ≠ 0 → 1 ≤ v < w ∧ w ≤ 32.
Proof.
  intros [k Hinv]%reachable_inv Hi Hj Hlt Hv Hw.
  destruct (i_numbers _ _ Hinv) as [_ [_ Hm] Hz Hp Hmono].
  assert (k ≤ i < tickets s) by (destruct (decide (k ≤ i < tickets s)); [done|];
    destruct Hv; eapply Hz; [done|lia]).
  assert (k ≤ j < tickets s) by (destruct (decide (k ≤ j < tickets s)); [done|];
    destruct Hw; eapply Hz; [done|lia]).
  pose proof (Hp _ _ Hi ltac:(lia)). pose proof (Hp _ _ Hj ltac:(lia)).
  pose proof (Hmono _ _ _ _ Hi Hj ltac:(lia) ltac:(lia)). lia.
Qed.

Lemma bakery1_tickets_witness : 1 ≤ 1 < 2 ∧ 2 ≤ 32.
Proof.
  apply (bakery1_tickets 2 (after 2 two_threads) 0 1 1 2 (after_reachable _ _));
    [vm_compute; reflexivity|vm_compute; reflexivity|lia..].
Defined.

(** C38: a deadlock: two clients suffice. If the client with the later ticket calls
    [bakery_wait_1] and [bakery_service_1] before the other has called
    [bakery_wait_1], the dispatcher waits in [pthread_join] for a thread that
    waits for a ticket whose thread only the dispatcher could start: in every
    continuation both clients are stuck. *)
Theorem bakery1_deadlock :
  ∃ s, reachable 2 s ∧ run (init 2) deadlock_schedule = Some (Ok s) ∧
    ∀ s', rtc steps s s' → disp s' = DJoin 1 2 ∧ clients s' = [CTicket 0 1; CWaiting 1 2].
Proof.
  assert (∃ s, run (init 2) deadlock_schedule = Some (Ok s) ∧ blocked s ∧
    clients s = [CTicket 0 1; CWaiting 1 2]) as (s & Hrun & Hb).
  { eexists. split; [vm_compute; reflexivity|]. split; [|vm_compute; reflexivity].
    split; try (vm_compute; reflexivity).
    exists TStart. split; [vm_compute; reflexivity|set_solver]. }
  exists s. split; [exact (run_reachable 2 deadlock_schedule (init 2) s (reachable_init 2) Hrun)|].
  split; [exact Hrun|]. clear Hrun. intros s' Hs.
  assert (blocked s' ∧ clients s' = [CTicket 0 1; CWaiting 1 2]) as [Hb' ?]; [|by destruct Hb'].
  revert s' Hs. apply (rtc_ind_r (λ s, blocked s ∧ clients s = _)); [done|].
  intros s1 s2 _ [l Hl] [Hb1 <-]. by eapply blocked_step.
Qed.

(** The 33rd client: its [get_number_1_svc] stores past the end of
    [choosing], as no call ever gives an index back. *)
Theorem bakery1_overrun :
  run (init 33) (concat (call_get_number <$> seq 0 33)) = Some (Fault OutOfBounds).
Proof. vm_compute. reflexivity. Qed.
