(* ===== verification/Bakery1Live.v ===== *)
(** * Progress of the multi-threaded bakery server

    The thread of the oldest client not served yet ends after a bounded number of its own
    steps that are not rounds of the loop on [choosing], however the others' steps are
    interleaved with them; and each such loop ends when the dispatcher has taken the
    steps that are left of one call of [get_number_1_svc]. *)

From S2P Require Import Prelude Letters Bakery1 Bakery1Inv Bakery1Spec.
From stdpp Require Import options.
Local Open Scope Z_scope.

(** ** [choosing] is set only inside the doorway *)

Definition choosing_ok (s : sys) : Prop :=
  ∀ i v, choosing (glob s) !! i = Some v → v ≠ 0 →
    match disp s with
    | DScan ind _ _ | DTake ind _ | DNumber ind _ | DArgNum ind | DUnchoose ind => i = ind
    | _ => False
    end.

Lemma bakery_service_choosing a pc g g' pc' o :
  bakery_service a pc g = Ok (g', pc', o) → choosing g' = choosing g.
Proof.
  unfold bakery_service, mbind, outcome_bind.
  destruct pc; repeat case_match; intros; simplify_eq/=; auto.
Qed.

Lemma choosing_same s s' :
  choosing_ok s → choosing (glob s') = choosing (glob s) →
  (∀ i, match disp s with
    | DScan ind _ _ | DTake ind _ | DNumber ind _ | DArgNum ind | DUnchoose ind => i = ind
    | _ => False
    end → match disp s' with
    | DScan ind _ _ | DTake ind _ | DNumber ind _ | DArgNum ind | DUnchoose ind => i = ind
    | _ => False
    end) → choosing_ok s'.
Proof. intros Hok Heq Himp i v. rewrite Heq. intros Hi Hv. by eapply Himp, Hok. Qed.

Lemma step_choosing s l s' : choosing_ok s → step s l = Some (Ok s') → choosing_ok s'.
Proof.
  intros Hok Hl. destruct l as [cid|ok|tid]; simpl in Hl.
  - unfold accept in Hl. destruct (disp s) eqn:Hd; try done.
    repeat case_match; simplify_eq; apply (choosing_same s); simpl; rewrite ?Hd; done.
  - unfold dispatcher, get_number_1_svc, bakery_wait_1_svc, bakery_service_1_svc, mbind,
      outcome_bind, wr, rd in Hl.
    destruct (disp s) eqn:Hd; try done; repeat case_match; simplify_eq/=;
      try (apply (choosing_same s); simpl; rewrite ?Hd; by try intros ? ->).
    + intros i v Hi Hv. simpl in *. destruct (decide (ind = i)) as [->|]; [done|].
      rewrite lookup_insert_ne in Hi by done. specialize (Hok _ _ Hi Hv). by rewrite Hd in Hok.
    + intros i v Hi Hv. simpl in *. apply lookup_insert_Some in Hi as [[_ <-]|[Hne Hi]]; [done|].
      specialize (Hok _ _ Hi Hv). rewrite Hd in Hok. by destruct Hne.
  - repeat case_match; simplify_eq. apply outcome_bind_Ok in Hl as ([[g pc] o] & Hb & Hl).
    simplify_eq. apply bakery_service_choosing in Hb. by apply (choosing_same s).
Qed.

Lemma reachable_choosing n s : reachable n s → choosing_ok s.
Proof.
  revert s. apply (rtc_ind_r choosing_ok).
  - intros i v. simpl. rewrite lookup_carray_make. case_decide; naive_solver.
  - intros s s' _ [l Hl] Hok. by eapply step_choosing.
Qed.

(** ** A bound on the steps left *)

(** The thread would go round the loop [while (choosing[j])]. *)
Definition spinning (tid : nat) (s : sys) : bool :=
  match threads s !! tid with
  | Some (Thread _ (TChoosing _ j)) =>
      if decide (j < 32) then
        match choosing (glob s) !! j with Some v => bool_decide (v ≠ 0) | None => false end
      else false
  | _ => false
  end.

(** The thread has not ended. *)
Definition live (tid : nat) (s : sys) : bool :=
  match threads s !! tid with Some t => negb (bool_decide (t_pc t = TExit)) | None => false end.

#[export] Instance label_eq_dec : EqDecision label.
Proof. solve_decision. Defined.

(** The steps of a thread in a run, rounds of that loop not counted, and those of the
    dispatcher. *)
Fixpoint work (tid : nat) (s : sys) (ls : list label) : nat :=
  match ls with
  | [] => 0
  | l :: ls =>
      match step s l with
      | Some (Ok s') =>
          (if decide (l = LThread tid) then if spinning tid s then 0 else 1 else 0) + work tid s' ls
      | _ => 0
      end
  end.

Definition is_dispatch (l : label) : bool := match l with LDisp _ => true | _ => false end.
Definition dispatched (ls : list label) : nat := length (filter is_dispatch ls).

Definition steps_left (nb : gmap Z Z) (pc : tpc) : Z :=
  match pc with
  | TStart => 136
  | TSleep _ => 135
  | TChoosing _ j => 6 + 4 * (32 - j)
  | TNonzero _ j => 5 + 4 * (32 - j)
  | TLess i j =>
      match nb !! j, nb !! i with
      | Some v, Some w => if decide (v < w) then 6 + 4 * (32 - j) else 4 + 4 * (32 - j)
      | _, _ => 0
      end
  | TEqual _ j => 3 + 4 * (32 - j)
  | TLoad _ => 5 | TStore _ _ => 4 | TWrap _ => 3 | TPrint _ => 2 | TReset _ => 1
  | TExit => 0
  end.

Lemma descends k s tid t g pc o :
  inv k s → threads s !! tid = Some t → t_pc t ≠ TExit → t_arg t = k →
  spinning tid s = false →
  bakery_service (t_arg t) (t_pc t) (glob s) = Ok (g, pc, o) →
  0 ≤ steps_left (number g) pc < steps_left (number (glob s)) (t_pc t).
Proof.
  intros Hinv Ht Hne Hk Hch Hb.
  pose proof (to_pc _ _ _ _ (i_threads _ _ Hinv _ _ Ht)) as Hpc.
  pose proof (λ j v w, own_ticket k s tid t j v w Hinv Ht Hne) as Hown.
  unfold spinning in Hch. rewrite Ht in Hch. destruct t as [a pct]. cbn [t_arg t_pc] in *.
  unfold bakery_service in Hb.
  destruct pct as [|i|i j|i j|i j|i j|i|i tmp|i|i|i|] eqn:Et; simpl in Hpc;
    unfold mbind, outcome_bind in Hb; repeat case_match; simplify_eq/=; try done; try lia;
    repeat match goal with H : rd _ _ = Ok _ |- _ => apply rd_Ok in H end; try congruence.
  - exfalso. repeat match goal with H : bool_decide _ = false |- _ => apply bool_decide_eq_false_1 in H end.
    simplify_eq; by destruct Hch.
  - destruct Hpc as (-> & ? & ? & ?).
    match goal with H : number (glob s) !! j = Some _ |- _ => rename H into Hj end. rewrite Hj.
    destruct (number (glob s) !! k) as [w|] eqn:Hw; [|lia].
    destruct (Hown _ _ _ ltac:(lia) Hj eq_refl) as (? & _ & ? & ?). destruct (decide (_ < w)); lia.
  - repeat match goal with H : number _ !! _ = Some _ |- _ => rewrite H end.
    rewrite decide_True by done. lia.
  - repeat match goal with H : number _ !! _ = Some _ |- _ => rewrite H end.
    rewrite decide_False by done. lia.
Qed.

Lemma steps_left_bound k s tid t :
  inv k s → threads s !! tid = Some t → steps_left (number (glob s)) (t_pc t) ≤ 136.
Proof.
  intros Hinv Ht. destruct (i_threads _ _ Hinv _ _ Ht) as [_ ? _ _ Hpc].
  destruct (t_pc t); simpl in *; repeat case_match; lia.
Qed.

Lemma steps_left_pos k s tid t :
  inv k s → threads s !! tid = Some t → t_pc t ≠ TExit → t_arg t = k → 0 < steps_left (number (glob s)) (t_pc t).
Proof.
  intros Hinv Ht Hne Hk. destruct (i_threads _ _ Hinv _ _ Ht) as [_ Hr _ _ Hpc].
  pose proof (no_arr _ _ _ (i_numbers _ _ Hinv)) as Harr. pose proof (no_range _ _ _ (i_numbers _ _ Hinv)).
  pose proof (issued_tickets s). pose proof (arr32_lookup _ (t_arg t) Harr) as Hi.
  destruct (t_pc t) as [| | | |i j| | | | | | |]; simpl in *; try done; try lia.
  destruct Hpc as (-> & ? & ? & ?). destruct (arr32_lookup _ j Harr) as [v Hv]; [lia|].
  destruct Hi as [w Hw]; [lia|]. rewrite Hv, Hw. case_decide; lia.
Qed.

(** ** Steps of the others *)

(** Only [get_number_1_svc] and the end of a service change the tickets. *)
Lemma step_number s l s' :
  step s l = Some (Ok s') →
  number (glob s') = number (glob s) ∨
  (∃ ind max, disp s = DNumber ind max ∧ number (glob s') = <[ind := max + 1]> (number (glob s))) ∨
  (∃ tid t i, l = LThread tid ∧ threads s !! tid = Some t ∧ t_pc t = TReset i).
Proof.
  intros Hl. destruct l as [cid|ok|tid]; simpl in Hl.
  - unfold accept in Hl. left. repeat case_match; by simplify_eq.
  - unfold dispatcher, get_number_1_svc, bakery_wait_1_svc, bakery_service_1_svc, mbind, outcome_bind, wr, rd in Hl.
    destruct (disp s) eqn:Hd; try done; repeat case_match; simplify_eq/=; auto.
    right. left. by eexists _, _.
  - destruct (threads s !! tid) as [t|] eqn:Ht; [|done]. case_match; [done|]. simplify_eq.
    apply outcome_bind_Ok in Hl as ([[g pc] o] & Hb & Hl). simplify_eq/=.
    destruct (t_pc t) eqn:Ep; unfold bakery_service, mbind, outcome_bind in Hb; repeat case_match; simplify_eq/=; auto.
    right. right. by eexists _, t, _.
Qed.

(** A thread that has not ended is moved by its own steps only; thread ids are not
    used again. *)
Lemma step_threads s l s' :
  step s l = Some (Ok s') →
  (next_tid s ≤ next_tid s')%nat ∧
  ∀ tid, (tid < next_tid s)%nat → l ≠ LThread tid →
    threads s' !! tid = threads s !! tid ∨ (live tid s = false ∧ threads s' !! tid = None).
Proof.
  intros Hl. destruct l as [cid|ok|tid]; simpl in Hl.
  - unfold accept in Hl. repeat case_match; simplify_eq/=; auto.
  - unfold dispatcher, get_number_1_svc, bakery_wait_1_svc, bakery_service_1_svc, mbind, outcome_bind, wr, rd in Hl.
    destruct (disp s) eqn:Hd; try done; repeat case_match; simplify_eq/=; auto.
    + split; [lia|]. intros tid Htid _. left. apply lookup_insert_ne. lia.
    + split; [lia|]. intros tid Htid _.
      match goal with |- context [delete ?x _] => destruct (decide (x = tid)) as [->|] end; [right|left; by apply lookup_delete_ne].
      split; [|apply lookup_delete_eq]. unfold live.
      match goal with H : threads s !! tid = Some ?t, H' : t_pc ?t = TExit |- _ => rewrite H, H' end. done.
  - repeat case_match; simplify_eq. apply outcome_bind_Ok in Hl as ([[g pc] o] & Hb & Hl). simplify_eq/=.
    split; [lia|]. intros tid' _ Hne. left. apply lookup_insert_ne. congruence.
Qed.

(** What is left of the oldest thread is not raised by the others. *)
Lemma others_step k s l s' tid t :
  inv k s → threads s !! tid = Some t → t_pc t ≠ TExit → t_arg t = k → l ≠ LThread tid → step s l = Some (Ok s') →
  inv k s' ∧ threads s' !! tid = Some t ∧
  steps_left (number (glob s')) (t_pc t) ≤ steps_left (number (glob s)) (t_pc t).
Proof.
  intros Hinv Ht Hne Hk Hl Hs. pose proof (i_threads _ _ Hinv _ _ Ht) as [Htid Hrange Hh _ Hpc].
  assert (threads s' !! tid = Some t) as Ht'.
  { destruct (step_threads _ _ _ Hs) as [_ Hth]. destruct (Hth tid Htid Hl) as [->|[Hlv _]]; [done|].
    unfold live in Hlv. rewrite Ht in Hlv. by rewrite bool_decide_eq_false_2 in Hlv. }
  destruct (step_inv _ _ _ _ Hinv Hs) as [(s1 & k' & [= <-] & Hinv' & Hk')|(? & _ & _ & ?)]; [|done].
  assert (k' = k) as ->.
  { pose proof (to_pc _ _ _ _ (i_threads _ _ Hinv' _ _ Ht')) as Hpc'. destruct (t_pc t); simpl in Hpc'; try done; lia. }
  split; [done|]. split; [done|]. destruct (step_number _ _ _ Hs) as [->|[(ind & max & Hd & ->)|(tid' & t' & i & -> & Ht1 & Hp1)]]; [done|..].
  - destruct (t_pc t) as [| | | |i j| | | | | | |] eqn:Ep; simpl in Hpc |- *; try done. destruct Hpc as (-> & ? & ? & ?).
    pose proof (i_disp _ _ Hinv) as Hdisp. unfold disp_ok in Hdisp. rewrite Hd in Hdisp. destruct Hdisp as (-> & ? & ?).
    unfold issued in Hrange. rewrite Hd in Hrange. simpl in Hrange. rewrite (lookup_insert_ne _ _ (t_arg t)) by lia.
    destruct (decide (j = num (glob s) - 1)) as [->|]; [|by rewrite lookup_insert_ne].
    rewrite lookup_insert_eq. destruct (i_numbers _ _ Hinv) as [Harr ? Hz Hp _].
    unfold tickets in Hz, Hp. rewrite Hd in Hz, Hp. simpl in Hz, Hp.
    destruct (arr32_lookup _ (num (glob s) - 1) Harr) as [v Hv]; [lia|].
    destruct (arr32_lookup _ (t_arg t) Harr) as [w Hw]; [lia|]. rewrite Hv, Hw.
    rewrite (Hz _ _ Hv) by lia. pose proof (Hp _ _ Hw ltac:(lia)). rewrite (decide_True (P := 0 < w)) by lia. case_decide; lia.
  - destruct (i_threads _ _ Hinv _ _ Ht1) as [_ _ Hh1 _ Hpc1]. rewrite Hp1 in Hpc1. simpl in Hpc1. destruct Hpc1 as [_ Hk1].
    rewrite Hk1, <- Hk, Hh in Hh1. by simplify_eq.
Qed.

(** ** The end of a thread is for good *)

Definition ended (p : Z) (tid : nat) (s : sys) : Prop :=
  ∃ k, inv k s ∧ 0 ≤ p < k ∧ (tid < next_tid s)%nat ∧ live tid s = false.

Lemma ended_step p tid s l s' :
  ended p tid s → step s l = Some (Ok s') → l ≠ LThread tid ∧ ended p tid s'.
Proof.
  intros (k & Hinv & Hp & Htid & Hlv) Hs.
  assert (l ≠ LThread tid) as Hl.
  { intros ->. simpl in Hs. unfold live in Hlv. destruct (threads s !! tid) as [t|]; [|done].
    apply negb_false_iff in Hlv. by rewrite Hlv, orb_true_r in Hs. }
  split; [done|]. destruct (step_inv _ _ _ _ Hinv Hs) as [(s1 & k' & [= <-] & Hinv' & Hk')|(? & _ & _ & ?)]; [|done].
  destruct (step_threads _ _ _ Hs) as [Hn Hth]. exists k'. split; [done|]. split; [lia|]. split; [lia|].
  unfold live. by destruct (Hth tid Htid Hl) as [->|[_ ->]].
Qed.

Lemma ended_run p tid ls s s' :
  ended p tid s → run s ls = Some (Ok s') → work tid s ls = 0%nat ∧ ended p tid s'.
Proof.
  revert s. induction ls as [|l ls IH]; intros s He Hr; cbn [run work] in *; [by simplify_eq|].
  destruct (step s l) as [[s1|]|] eqn:Hs; [|done..]. destruct (ended_step _ _ _ _ _ He Hs) as [Hl He1].
  rewrite decide_False by done. by apply IH.
Qed.

Lemma ended_number p tid s : ended p tid s → number (glob s) !! p = Some 0.
Proof.
  intros (k & Hinv & Hp & _). destruct (i_numbers _ _ Hinv) as [Harr ? Hz _ _].
  destruct (arr32_lookup _ p Harr) as [v Hv]; [lia|]. rewrite Hv. f_equal. eapply Hz; [done|lia].
Qed.

(** ** The oldest thread in any run *)

Definition oldest (k : Z) (tid : nat) (s : sys) : Prop :=
  inv k s ∧ ∃ t, threads s !! tid = Some t ∧ t_pc t ≠ TExit ∧ t_arg t = k.

Definition left_of (tid : nat) (s : sys) : Z :=
  match threads s !! tid with Some t => steps_left (number (glob s)) (t_pc t) | None => 0 end.

Lemma oldest_left k tid s : oldest k tid s → 0 < left_of tid s ≤ 136.
Proof.
  intros (Hinv & t & Ht & Hne & Hk). unfold left_of. rewrite Ht. split; [by eapply steps_left_pos|by eapply steps_left_bound].
Qed.

Lemma oldest_step k tid s l s' :
  oldest k tid s → step s l = Some (Ok s') →
  let done_now := if decide (l = LThread tid) then if spinning tid s then 0 else 1 else 0 in
  (oldest k tid s' ∧ done_now + left_of tid s' ≤ left_of tid s ∧
    (done_now = 0 → t_pc <$> threads s' !! tid = t_pc <$> threads s !! tid)) ∨
  (ended k tid s' ∧ done_now = 1).
Proof.
  intros Hold Hs. pose proof Hold as (Hinv & t & Ht & Hne & Hk). cbn zeta. destruct (decide (l = LThread tid)) as [->|Hl].
  - destruct (thread_step_inv _ _ _ _ Hinv Ht Hne) as (g & pc & o & Hb & k' & Hk' & Hinv').
    simpl in Hs. rewrite Ht in Hs. case_match; [done|]. rewrite Hb in Hs. simpl in Hs. simplify_eq.
    set (s1 := moved s tid (t_arg t) g pc o) in *. change (Sys _ _ _ _ _ _ _) with s1.
    assert (threads s1 !! tid = Some (Thread (t_arg t) pc)) as Ht1 by (simpl; by rewrite lookup_insert_eq).
    pose proof (i_threads _ _ Hinv' _ _ Ht1) as [Htid Hrange _ _ Hpc]. cbn [t_arg t_pc] in *.
    unfold left_of. rewrite Ht, Ht1. cbn [t_arg t_pc]. change (number (glob s1)) with (number g).
    destruct (decide (pc = TExit)) as [->|Hpcne].
    + right. destruct (spinning tid s) eqn:Hsp.
      { unfold spinning in Hsp. rewrite Ht in Hsp. destruct t as [a pct]. cbn [t_arg t_pc] in *.
        destruct pct; try done. clear -Hb. unfold bakery_service, mbind, outcome_bind in Hb. repeat case_match; simplify_eq. }
      split; [|done]. exists k'. simpl in Hpc. split; [done|]. split; [lia|]. split; [done|]. unfold live. by rewrite Ht1.
    + left. assert (k' = t_arg t) as -> by (destruct pc; simpl in Hpc; try done; lia).
      split; [split; [done|by eexists]|]. destruct (spinning tid s) eqn:Hsp.
      * assert (pc = t_pc t ∧ number g = number (glob s)) as [-> ->]; [|split; [lia|done]].
        unfold spinning in Hsp. rewrite Ht in Hsp. destruct t as [a pct]. cbn [t_arg t_pc] in *.
        destruct pct as [| |i j| | | | | | | | |]; try done. unfold bakery_service, mbind, outcome_bind, rd in Hb.
        destruct (decide (j < 32)); [|done]. destruct (choosing (glob s) !! j) as [v|]; [|done].
        apply bool_decide_eq_true in Hsp. rewrite decide_True in Hb by done. by simplify_eq.
      * split; [|done]. pose proof (descends _ _ _ _ _ _ _ Hinv Ht Hne eq_refl Hsp Hb). simpl. lia.
  - left. destruct (others_step _ _ _ _ _ _ Hinv Ht Hne Hk Hl Hs) as (Hinv' & Ht' & Hle).
    split; [split; [done|by exists t]|]. unfold left_of. rewrite Ht, Ht'. split; [lia|done].
Qed.

Lemma oldest_run k tid ls s s' :
  oldest k tid s → run s ls = Some (Ok s') →
  (oldest k tid s' ∧ Z.of_nat (work tid s ls) + left_of tid s' ≤ left_of tid s ∧
    (work tid s ls = 0%nat → t_pc <$> threads s' !! tid = t_pc <$> threads s !! tid)) ∨
  (ended k tid s' ∧ Z.of_nat (work tid s ls) ≤ left_of tid s).
Proof.
  revert s. induction ls as [|l ls IH]; intros s Ho Hr; cbn [run work] in *.
  { simplify_eq. left. split; [done|]. split; [lia|done]. }
  destruct (step s l) as [[s1|]|] eqn:Hs; [|done..]. pose proof (oldest_left _ _ _ Ho) as Hl.
  destruct (oldest_step _ _ _ _ _ Ho Hs) as [(Ho1 & Hd & Hpc)|[He Hd]]; cbn zeta in *.
  - destruct (IH s1 Ho1 Hr) as [(Ho' & Hd' & Hpc')|[He Hd']]; [left|right].
    + split; [done|]. repeat case_decide; repeat case_match; split; try lia; intros ?; try lia; rewrite Hpc' by lia; auto.
    + split; [done|]. repeat case_decide; repeat case_match; lia.
  - destruct (ended_run _ _ _ _ _ He Hr) as [-> He']. right. split; [done|]. repeat case_decide; repeat case_match; lia.
Qed.

(** ** The loop on [choosing] *)

(** The steps left of a call of [get_number_1_svc]. *)
Definition entry_left (d : dpc) : Z :=
  match d with
  | DChoose _ => 70
  | DScan _ i _ => 69 - 2 * i
  | DTake _ i => 68 - 2 * i
  | DNumber _ _ => 4 | DArgNum _ => 3 | DUnchoose _ => 2 | DResult _ => 1
  | _ => 0
  end.

Lemma entry_left_pos k s : inv k s → in_get_number (disp s) = true → 0 < entry_left (disp s) ≤ 70.
Proof.
  intros Hinv Hd. pose proof (i_disp _ _ Hinv) as Hdisp. unfold disp_ok in Hdisp.
  pose proof (no_range _ _ _ (i_numbers _ _ Hinv)). unfold tickets in *.
  destruct (disp s); simpl in *; try done; lia.
Qed.

(** A step inside [get_number_1_svc] ends the call or is counted; afterwards the index
    of the call is among those that clients have. *)
Lemma entry_step k s l s' :
  inv k s → step s l = Some (Ok s') →
  issued s ≤ issued s' ∧
  (in_get_number (disp s) = true →
    issued s < issued s' ∨
    (in_get_number (disp s') = true ∧ issued s' = issued s ∧
     entry_left (disp s') + (if is_dispatch l then 1 else 0) ≤ entry_left (disp s))).
Proof.
  intros Hinv Hl. pose proof (i_disp _ _ Hinv) as Hdisp. unfold disp_ok in Hdisp. unfold issued. destruct l as [cid|ok|tid]; simpl in Hl.
  - unfold accept in Hl. destruct (disp s) eqn:Hd; try done. repeat case_match; simplify_eq/=; split; try lia; done.
  - unfold dispatcher, get_number_1_svc, bakery_wait_1_svc, bakery_service_1_svc, mbind, outcome_bind, wr, rd in Hl.
    destruct (disp s) eqn:Hd; try done; repeat case_match; simplify_eq/=; (split; [lia|]); intros; try done;
      first [left; lia | right; split; [done|split; [done|lia]]].
  - clear Hdisp. destruct (threads s !! tid) as [t|]; [|done]. destruct (exited s || _); [done|]. simplify_eq. apply outcome_bind_Ok in Hl as ([[g pc] o] & Hb & Hl). simplify_eq/=.
    assert (num g = num (glob s)) as ->.
    { clear -Hb. unfold bakery_service, mbind, outcome_bind in Hb. repeat case_match; by simplify_eq/=. }
    split; [done|]. intros ->. right. split; [done|]. split; [done|lia].
Qed.

Lemma issued_run k ls s s' : inv k s → run s ls = Some (Ok s') → issued s ≤ issued s'.
Proof.
  revert k s. induction ls as [|l ls IH]; intros k s Hinv Hr; cbn [run] in Hr; [by simplify_eq|].
  destruct (step s l) as [[s1|]|] eqn:Hs; [|done..]. destruct (entry_step _ _ _ _ Hinv Hs) as [? _].
  destruct (step_inv _ _ _ _ Hinv Hs) as [(s2 & k' & [= <-] & Hinv' & _)|(? & _ & _ & ?)]; [|done].
  specialize (IH _ _ Hinv' Hr). lia.
Qed.

Lemma entry_run k ls s s' :
  inv k s → in_get_number (disp s) = true → run s ls = Some (Ok s') →
  entry_left (disp s) ≤ Z.of_nat (dispatched ls) → issued s < issued s'.
Proof.
  revert k s. induction ls as [|l ls IH]; intros k s Hinv Hd Hr Hle; cbn [run] in Hr.
  { pose proof (entry_left_pos _ _ Hinv Hd). unfold dispatched in Hle. simpl in Hle. lia. }
  destruct (step s l) as [[s1|]|] eqn:Hs; [|done..]. destruct (entry_step _ _ _ _ Hinv Hs) as [Hi He].
  destruct (step_inv _ _ _ _ Hinv Hs) as [(s2 & k' & [= <-] & Hinv' & _)|(? & _ & _ & ?)]; [|done].
  destruct (He Hd) as [Hlt|(Hd1 & Heq & Hstep)]; [pose proof (issued_run _ _ _ _ Hinv' Hr); lia|].
  rewrite <- Heq. apply (IH k' s1 Hinv' Hd1 Hr). unfold dispatched in *. rewrite filter_cons in Hle.
  destruct (is_dispatch l); simpl in Hle; lia.
Qed.

(** The index a thread waits for is the one that is being given out. *)
Lemma spinning_index k tid s :
  inv k s → choosing_ok s → spinning tid s = true →
  ∃ t i, threads s !! tid = Some t ∧ t_pc t = TChoosing i (issued s) ∧ in_get_number (disp s) = true ∧
    ∃ s', step s (LDisp true) = Some (Ok s').
Proof.
  intros Hinv Hch Hsp. unfold spinning in Hsp. destruct (threads s !! tid) as [[a pc]|] eqn:Ht; [|done].
  destruct pc as [| |i j| | | | | | | | |]; try done. destruct (decide (j < 32)); [|done].
  destruct (choosing (glob s) !! j) as [v|] eqn:Hv; [|done]. apply bool_decide_eq_true in Hsp.
  specialize (Hch _ _ Hv Hsp). pose proof (i_disp _ _ Hinv) as Hdisp. unfold disp_ok in Hdisp.
  eexists _, i. split; [done|]. cbn [t_pc].
  assert (in_get_number (disp s) = true) as Hd by by destruct (disp s).
  split; [|split; [done|]].
  - unfold issued. rewrite Hd. f_equal. destruct (disp s); naive_solver.
  - destruct (step s (LDisp true)) as [r|] eqn:Hs; [|simpl in Hs; unfold dispatcher, get_number_1_svc in Hs; destruct (disp s) eqn:E; done].
    destruct (step_inv _ _ _ _ Hinv Hs) as [(s1 & _ & -> & _)|(ind & E & _)]; [by eexists|]. by rewrite E in Hch.
Qed.

Lemma live_thread tid s t : threads s !! tid = Some t → t_pc t ≠ TExit → live tid s = true.
Proof. intros Ht Hne. unfold live. rewrite Ht. by rewrite bool_decide_eq_false_2. Qed.

Lemma live_enabled k s tid t :
  inv k s → threads s !! tid = Some t → t_pc t ≠ TExit → exited s = false →
  ∃ s2, step s (LThread tid) = Some (Ok s2).
Proof.
  intros Hinv Ht Hne Hex. destruct (thread_step_inv _ _ _ _ Hinv Ht Hne) as (g & pc & o & Hb & _).
  simpl. rewrite Ht, Hex, bool_decide_eq_false_2 by done. simpl. rewrite Hb. by eexists.
Qed.

(** A thread whose predecessors have all been served is the oldest or has ended. *)
Lemma oldest_or_ended k s tid t :
  inv k s → threads s !! tid = Some t → (∀ j v, j < t_arg t → number (glob s) !! j = Some v → v = 0) →
  oldest k tid s ∨ ended (t_arg t) tid s.
Proof.
  intros Hinv Ht Hbefore. pose proof (i_threads _ _ Hinv _ _ Ht) as [? Hrange _ _ Hpc].
  destruct (i_numbers _ _ Hinv) as [Harr [? ?] Hz Hp _]. pose proof (issued_tickets s).
  destruct (decide (t_pc t = TExit)) as [He|Hne].
  - right. rewrite He in Hpc. simpl in Hpc. exists k. split; [done|]. split; [lia|]. split; [done|].
    unfold live. by rewrite Ht, bool_decide_eq_true_2.
  - left. split; [done|]. exists t. split; [done|]. split; [done|].
    assert (k ≤ t_arg t) by (destruct (t_pc t); simpl in Hpc; try done; lia).
    destruct (decide (k < t_arg t)); [|lia]. destruct (arr32_lookup _ k Harr ltac:(lia)) as [v Hv].
    pose proof (Hp _ _ Hv ltac:(lia)). rewrite (Hbefore k v ltac:(lia) Hv) in *. lia.
Qed.

(** C22: progress in every run. Take the thread of a client all of whose predecessors have
    been served, and any interleaving of steps of the clients, the dispatcher and the
    threads from there on. The thread takes at most 136 steps other than rounds of the
    loop on [choosing], and once it has ended its ticket is cleared. As long as it has not ended,
    it has taken fewer than 136 and, unless the server has exited, can take its next
    step; and when it is in a round of that loop, the dispatcher is in
    [get_number_1_svc], can take its next step, and after 70 more of its steps the
    thread has moved on or can. *)
Theorem bakery1_oldest_is_served n s tid t ls s' :
  reachable n s → threads s !! tid = Some t →
  (∀ j v, j < t_arg t → number (glob s) !! j = Some v → v = 0) →
  run s ls = Some (Ok s') →
  (work tid s ls ≤ 136)%nat ∧
  if live tid s' then
    (work tid s ls < 136)%nat ∧
    (exited s' = false → ∃ s2, step s' (LThread tid) = Some (Ok s2)) ∧
    (spinning tid s' = true →
      in_get_number (disp s') = true ∧ (∃ s2, step s' (LDisp true) = Some (Ok s2)) ∧
      ∀ ls2 s2, run s' ls2 = Some (Ok s2) → (70 ≤ dispatched ls2)%nat →
        (0 < work tid s' ls2)%nat ∨ spinning tid s2 = false)
  else number (glob s') !! t_arg t = Some 0.
Proof.
  intros Hr Ht Hbefore Hrun. pose proof (run_reachable _ _ _ _ Hr Hrun) as Hr'.
  pose proof (reachable_choosing _ _ Hr') as Hch'. apply reachable_inv in Hr as [k Hinv].
  destruct (oldest_or_ended k s tid t Hinv Ht Hbefore) as [Ho|He].
  - destruct (oldest_run _ _ _ _ _ Ho Hrun) as [(Ho' & Hw & _)|[He Hw]];
      pose proof (oldest_left _ _ _ Ho) as Hl.
    + pose proof (oldest_left _ _ _ Ho'). split; [lia|]. pose proof Ho' as (Hinv' & t' & Ht' & Hne & Hk'). rewrite (live_thread _ _ _ Ht' Hne).
      split; [lia|]. split; [by eapply live_enabled|]. intros Hsp.
      destruct (spinning_index _ _ _ Hinv' Hch' Hsp) as (? & i & Hti & Hpc & Hd & Hen). simplify_eq.
      split; [done|]. split; [done|]. intros ls2 s2 Hrun2 H70.
      destruct (decide (work tid s' ls2 = 0%nat)) as [H0|]; [right|left; lia].
      destruct (entry_left_pos _ _ Hinv' Hd). pose proof (entry_run _ _ _ _ Hinv' Hd Hrun2 ltac:(lia)) as Hiss.
      apply not_true_iff_false. intros Hsp2. pose proof (run_reachable _ _ _ _ Hr' Hrun2) as Hr2.
      pose proof (reachable_choosing _ _ Hr2) as Hch2. apply reachable_inv in Hr2 as [k2 Hinv2].
      destruct (spinning_index _ _ _ Hinv2 Hch2 Hsp2) as (t2 & i2 & Ht2 & Hpc2 & _).
      destruct (oldest_run _ _ _ _ _ Ho' Hrun2) as [(_ & _ & Hsame)|[(k3 & _ & _ & _ & Hlv) _]].
      * specialize (Hsame H0). rewrite Ht2, Ht' in Hsame. simpl in Hsame. rewrite Hpc, Hpc2 in Hsame. simplify_eq. lia.
      * unfold live in Hlv. rewrite Ht2 in Hlv. simpl in Hlv. by rewrite Hpc2 in Hlv.
    + split; [lia|]. destruct Ho as (_ & t' & Ht' & _ & Hk). simplify_eq. pose proof (ended_number _ _ _ He). by destruct He as (? & _ & _ & _ & ->).
  - destruct (ended_run _ _ _ _ _ He Hrun) as [-> He']. split; [lia|]. pose proof (ended_number _ _ _ He').
    by destruct He' as (? & _ & _ & _ & ->).
Qed.

(** The thread of the first of two clients, with the second in [get_number_1_svc] while it
    runs: it comes to the loop on [choosing] and stays there, until the dispatcher is
    done; then it goes on to its end. *)
Definition into_loop : list label :=
  [LThread 0; LThread 0; LAccept 1; LDisp true] ++ replicate 6 (LThread 0).
Definition to_end : list label := into_loop ++ replicate 38 (LDisp true) ++ replicate 70 (LThread 0).

Lemma bakery1_oldest_is_served_witness :
  let s := after 2 (call_get_number 0 ++ call_wait 0) in
  ∃ s1 s2, run s into_loop = Some (Ok s1) ∧ spinning 0 s1 = true ∧ (work 0 s into_loop < 136)%nat ∧
    (∃ s3, step s1 (LDisp true) = Some (Ok s3)) ∧
    run s to_end = Some (Ok s2) ∧ (work 0 s to_end ≤ 136)%nat ∧ number (glob s2) !! 0 = Some 0.
Proof.
  intros s. pose proof (after_reachable 2 (call_get_number 0 ++ call_wait 0)) as Hr. fold s in Hr.
  assert (threads s !! 0%nat = Some (Thread 0 TStart)) as Ht by (vm_compute; reflexivity).
  assert (∀ j v, j < 0 → number (glob s) !! j = Some v → v = 0) as Hbefore.
  { intros j v Hj Hv. destruct (reachable_inv 2 s Hr) as [k Hinv].
    assert (0 ≤ j); [|lia]. apply (no_arr _ _ _ (i_numbers _ _ Hinv)). by exists v. }
  destruct (run s into_loop) as [[s1|]|] eqn:E1; [|vm_compute in E1; discriminate..].
  destruct (run s to_end) as [[s2|]|] eqn:E2; [|vm_compute in E2; discriminate..].
  destruct (bakery1_oldest_is_served 2 s 0 (Thread 0 TStart) into_loop s1 Hr Ht Hbefore E1) as [_ H1].
  destruct (bakery1_oldest_is_served 2 s 0 (Thread 0 TStart) to_end s2 Hr Ht Hbefore E2) as [Hw2 H2].
  assert (live 0 s1 = true ∧ spinning 0 s1 = true) as [Hl1 Hs1].
  { vm_compute in E1. injection E1 as <-. split; vm_compute; reflexivity. }
  assert (live 0 s2 = false) as Hl2 by (vm_compute in E2; injection E2 as <-; vm_compute; reflexivity).
  rewrite Hl1 in H1. rewrite Hl2 in H2. destruct H1 as (Hw1 & _ & H1). destruct (H1 Hs1) as (_ & Hd & _).
  exists s1, s2. split_and!; done.
Defined.
