(* ===== verification/Bakery1Tickets.v ===== *)
(** * The tickets of the clients of the multi-threaded bakery server

    A client goes on with the ticket it was given: the one in [number] until it is
    served, the one its thread runs on and the one that is printed for it. *)

From S2P Require Import Prelude Letters Bakery1 Bakery1Inv Bakery1Spec.
From stdpp Require Import options.
Local Open Scope Z_scope.

(** The index and the ticket a client holds; whether it has a thread, or had one. *)
Definition ticket_of (cl : cpc) : option (Z * Z) :=
  match cl with
  | CStart => None
  | CTicket p n | CWaiting p n | CServed p n _ => Some (p, n)
  end.
Definition in_queue (cl : cpc) : bool :=
  match cl with CWaiting _ _ | CServed _ _ _ => true | _ => false end.

(** What the arrays and the output say of the ticket [n] of the index [p]. *)
Record ticket_ok (s : sys) (queue : bool) (p n : Z) : Prop := {
  tk_range : 1 ≤ n ≤ p + 1;
  tk_number v : number (glob s) !! p = Some v → v ≠ 0 → v = n;
  tk_res : queue → ta_num <$> res (glob s) !! p = Some n;
  tk_out x : queue → out s !! Z.to_nat p = Some x → x.1 = (p, n)
}.

Record tickets_ok (s : sys) : Prop := {
  ts_clients cid cl p n : clients s !! cid = Some cl → ticket_of cl = Some (p, n) → ticket_ok s (in_queue cl) p n;
  ts_create p n : disp s = DCreate p n → ta_num <$> res (glob s) !! p = Some n
}.

Lemma ticket_pid cl p n : ticket_of cl = Some (p, n) → pid_of cl = Some p.
Proof. destruct cl; naive_solver. Qed.

(** ** Steps that leave the tickets alone *)

Lemma ticket_ok_same s s' q p n :
  ticket_ok s q p n → number (glob s') = number (glob s) → res (glob s') = res (glob s) → out s' = out s →
  ticket_ok s' q p n.
Proof. intros [H1 H2 H3 H4] Hn Hr Ho. split; rewrite ?Hn, ?Hr, ?Ho; done. Qed.

Lemma tickets_same s s' :
  tickets_ok s → number (glob s') = number (glob s) → res (glob s') = res (glob s) → out s' = out s →
  clients s' = clients s → (∀ p n, disp s' ≠ DCreate p n) → tickets_ok s'.
Proof.
  intros [Hc _] Hn Hr Ho Hcl Hd. split; [|intros p n Hd'; by destruct (Hd p n)].
  intros cid cl p n. rewrite Hcl. intros H1 H2. eapply ticket_ok_same; eauto.
Qed.

(** A reply: the client at [c] holds the ticket [n] of [p]. *)
Lemma tickets_reply s s' c cl p n :
  tickets_ok s → ticket_of cl = Some (p, n) → ticket_ok s (in_queue cl) p n →
  number (glob s') = number (glob s) → res (glob s') = res (glob s) → out s' = out s →
  clients s' = <[c := cl]> (clients s) → (∀ p n, disp s' ≠ DCreate p n) → tickets_ok s'.
Proof.
  intros [Hc _] Ht Hok Hn Hr Ho Hcl Hd. split; [|intros q m Hd'; by destruct (Hd q m)].
  intros cid cl1 q m. rewrite Hcl. intros H1 H2. eapply ticket_ok_same; [|done..].
  apply list_lookup_insert_Some in H1 as [(_ & <- & _)|[_ H1]]; [|by eapply Hc]. by simplify_eq.
Qed.

(** ** The threads *)

Lemma bakery_service_tickets a pc g g' pc' o :
  bakery_service a pc g = Ok (g', pc', o) →
  (number g' = number g ∨ ∃ i, number g' = <[i := 0]> (number g)) ∧
  (∀ p, ta_num <$> res g' !! p = ta_num <$> res g !! p) ∧
  (o = [] ∨ ∃ i x, pc = TPrint i ∧ res g !! a = Some x ∧ o = [(ta_pid x, ta_num x, ta_res x)]).
Proof.
  unfold bakery_service, mbind, outcome_bind, wr. intros Hb.
  destruct pc; repeat case_match; simplify_eq/=; split_and!; auto;
    repeat match goal with H : rd _ _ = Ok _ |- _ => apply rd_Ok in H end.
  - intros p. match goal with H : res g !! a = Some ?x |- context [<[a := _]> _ !! p] =>
      destruct (decide (a = p)) as [->|]; [rewrite lookup_insert_eq, H; done|by rewrite lookup_insert_ne] end.
  - right. by eexists _, _.
  - right. by eexists.
Qed.

(** What a thread prints is the line of the index it serves. *)
Lemma print_place k s tid t i :
  inv k s → threads s !! tid = Some t → t_pc t = TPrint i → t_arg t = k ∧ length (out s) = Z.to_nat k.
Proof.
  intros Hinv Ht Hpc. pose proof (i_threads _ _ Hinv _ _ Ht) as [_ _ _ _ Hp]. rewrite Hpc in Hp. destruct Hp as [_ Hk].
  split; [done|]. pose proof (i_output _ _ Hinv) as Hout. unfold output_ok in Hout.
  rewrite (serving_here k s tid t Hinv Ht Hk), Hpc in Hout. destruct Hout as (_ & _ & Ho).
  apply (f_equal length) in Ho. by rewrite length_fmap, length_expected in Ho.
Qed.

Lemma thread_tickets k s tid s' :
  inv k s → tickets_ok s → step s (LThread tid) = Some (Ok s') → tickets_ok s'.
Proof.
  intros Hinv [Hc Hcr] Hs. simpl in Hs. destruct (threads s !! tid) as [t|] eqn:Ht; [|done].
  destruct (exited s || _); [done|]. simplify_eq.
  apply outcome_bind_Ok in Hs as ([[g pc] o] & Hb & Hs). simplify_eq.
  destruct (bakery_service_tickets _ _ _ _ _ _ Hb) as (Hn & Hr & Ho).
  split; [|intros p n Hd; simpl in *; rewrite Hr; by apply Hcr].
  intros cid cl p n Hcl Htk. simpl in Hcl. destruct (Hc _ _ _ _ Hcl Htk) as [H1 H2 H3 H4]. split; simpl; [done|..].
  - intros v Hv Hv0. destruct Hn as [Hn|[i Hn]]; rewrite Hn in Hv; [by apply H2|].
    apply lookup_insert_Some in Hv as [[_ <-]|[_ Hv]]; [done|by apply H2].
  - rewrite Hr. done.
  - intros x Hq Hx. destruct Ho as [->|(i & y & Hpct & Hy & ->)]; [rewrite app_nil_r in Hx; by apply H4|].
    apply lookup_app_Some in Hx as [Hx|[Hlen Hx]]; [by apply H4|].
    destruct (print_place k s tid t i Hinv Ht Hpct) as [Hk Hout].
    pose proof (client_pid_issued _ _ _ _ _ Hinv Hcl (ticket_pid _ _ _ Htk)).
    destruct (no_range _ _ _ (i_numbers _ _ Hinv)).
    apply list_lookup_singleton_Some in Hx as [Hlen' <-]. assert (p = t_arg t) as -> by (unfold line in *; lia). simpl.
    destruct (to_res _ _ _ _ (i_threads _ _ Hinv _ _ Ht)) as (a & Ha & Hpid). rewrite Hy in Ha. simplify_eq.
    rewrite Hpid. f_equal. specialize (H3 Hq). rewrite Hy in H3. by simplify_eq/=.
Qed.

(** ** The dispatcher *)

(** The index being given out is the next one, and its ticket is positive. *)
Lemma given_ticket k s ind v :
  inv k s → disp s = DResult ind → number (glob s) !! ind = Some v → 1 ≤ v ≤ ind + 1.
Proof.
  intros Hinv Hd Hv. pose proof (i_disp _ _ Hinv) as Hdisp. unfold disp_ok in Hdisp. rewrite Hd in Hdisp.
  destruct Hdisp as [-> Hr]. pose proof (served_issued _ _ Hinv) as Hk. destruct (i_numbers _ _ Hinv) as [_ _ _ Hp _].
  unfold issued, tickets in *. rewrite Hd in *. simpl in *. specialize (Hp _ _ Hv). lia.
Qed.

(** Nothing has been printed for a client without a thread. *)
Lemma unqueued_out k s cid p n x :
  inv k s → clients s !! cid = Some (CTicket p n) → out s !! Z.to_nat p ≠ Some x.
Proof.
  intros Hinv Hcl Hx. destruct (i_clients _ _ Hinv _ _ Hcl) as [Hp Hthr].
  pose proof (i_handles _ _ Hinv _ _ Hthr) as Hk. simpl in Hk. apply lookup_lt_Some in Hx.
  assert (∃ j, (k = p → j = k) ∧ j ≤ k + 1 ∧ summary <$> out s = expected j) as (j & Hj & Hj1 & Ho).
  { destruct (decide (k = p)) as [->|].
    - exists p. pose proof (i_output _ _ Hinv) as Hout. unfold output_ok, serving in Hout. rewrite Hthr in Hout.
      destruct Hout as [_ Ho]. split_and!; [done|lia|done].
    - destruct (output_expected _ _ Hinv) as (j & Ho & Hj & _). exists j. split_and!; [done|lia|done]. }
  apply (f_equal length) in Ho. rewrite length_fmap, length_expected in Ho. unfold line in *.
  destruct (decide (k = p)); lia.
Qed.

Lemma dispatcher_tickets k ok s s' :
  inv k s → tickets_ok s → step s (LDisp ok) = Some (Ok s') → tickets_ok s'.
Proof.
  intros Hinv Hok Hs. pose proof (i_cur _ _ Hinv) as Hcur. unfold cur_ok in Hcur.
  simpl in Hs. unfold dispatcher, get_number_1_svc, bakery_wait_1_svc, bakery_service_1_svc, mbind, outcome_bind, wr in Hs.
  destruct (disp s) eqn:Hd; try done; repeat case_match; simplify_eq/=;
    repeat match goal with H : rd _ _ = Ok _ |- _ => apply rd_Ok in H end;
    try (by apply (tickets_same s)).
  - (* the ticket of an index that no client holds yet *)
    pose proof (i_disp _ _ Hinv) as Hdisp. unfold disp_ok in Hdisp. rewrite Hd in Hdisp. destruct Hdisp as (-> & _).
    destruct Hok as [Hc _]. split; [|done]. intros cid cl p n Hcl Htk. destruct (Hc _ _ _ _ Hcl Htk) as [H1 H2 H3 H4].
    pose proof (client_pid_issued _ _ _ _ _ Hinv Hcl (ticket_pid _ _ _ Htk)) as Hp.
    unfold issued in Hp. rewrite Hd in Hp. simpl in Hp. split; simpl; [done| |done..].
    intros v. rewrite lookup_insert_ne by lia. apply H2.
  - eapply (tickets_reply s _ (cur s) (CTicket ind a)); try done. split; try done; [by eapply given_ticket|].
    intros v Hv _. congruence.
  - destruct Hok as [Hc _]. split.
    + intros cid cl p m Hcl Htk. simpl in Hcl. destruct (Hc _ _ _ _ Hcl Htk) as [H2 H3 H4 H5]. split; simpl; [done|done| |done].
      intros Hq. rewrite lookup_insert_ne; [by apply H4|]. intros ->.
      assert (cid = cur s) as -> by (eapply (i_owner _ _ Hinv); [done|done|by eapply ticket_pid|done]).
      rewrite Hcur in Hcl. by simplify_eq.
    + intros p m [= -> ->]. simpl. by rewrite lookup_insert_eq.
  - destruct Hcur as [Hcl _]. destruct (ts_clients _ Hok _ _ _ _ Hcl eq_refl) as [H2 H3 _ _].
    eapply (tickets_reply s _ (cur s) (CWaiting pid n)); try done. split; try done.
    + intros _. by apply (ts_create _ Hok).
    + intros x _ Hx. by destruct (unqueued_out _ _ _ _ _ x Hinv Hcl).
  - eapply (tickets_reply s _ (cur s) (CServed pid n _)); try done. by eapply (ts_clients _ Hok _ (CWaiting pid n)).
Qed.

(** ** Every reachable state *)

Lemma accept_tickets cid s s' : tickets_ok s → step s (LAccept cid) = Some (Ok s') → tickets_ok s'.
Proof.
  intros Hok Hs. simpl in Hs. unfold accept in Hs. repeat case_match; simplify_eq; by apply (tickets_same s).
Qed.

Lemma tickets_init n : tickets_ok (init n).
Proof.
  split; [|done]. intros cid cl p m Hcl. simpl in Hcl. apply lookup_replicate in Hcl as [-> _]. done.
Qed.

Lemma reachable_tickets n s : reachable n s → tickets_ok s.
Proof.
  intros Hr. cut (tickets_ok s ∧ ∃ k, inv k s); [by intros []|]. revert s Hr.
  apply (rtc_ind_r (λ s, tickets_ok s ∧ ∃ k, inv k s)).
  - split; [apply tickets_init|exists 0; apply init_inv].
  - intros s s' _ [l Hl] (Hok & k & Hinv). split.
    + destruct l; [by eapply accept_tickets|by eapply dispatcher_tickets|by eapply thread_tickets].
    + destruct (step_inv _ _ _ _ Hinv Hl) as [(s1 & k' & [= <-] & ? & _)|(? & _ & _ & ?)]; [by eexists|done].
Qed.

(** The ticket of a client: between 1 and its index and one, the one in [number] as long
    as that is set, and the one printed for its index. *)
Lemma client_ticket n s cid cl p m :
  reachable n s → clients s !! cid = Some cl → ticket_of cl = Some (p, m) →
  0 ≤ p < 32 ∧ 1 ≤ m ≤ p + 1 ∧
  (∀ v, number (glob s) !! p = Some v → v ≠ 0 → v = m) ∧
  (∀ x, in_queue cl → out s !! Z.to_nat p = Some x → x.1 = (p, m)).
Proof.
  intros Hr Hcl Htk. destruct (ts_clients _ (reachable_tickets _ _ Hr) _ _ _ _ Hcl Htk) as [H1 H2 _ H4].
  apply reachable_inv in Hr as [k Hinv]. pose proof (client_pid_issued _ _ _ _ _ Hinv Hcl (ticket_pid _ _ _ Htk)).
  pose proof (no_range _ _ _ (i_numbers _ _ Hinv)). pose proof (issued_tickets s). split_and!; [lia..|done|done].
Qed.
