(* ===== verification/Bakery2.v ===== *)
(** * The single-threaded bakery server (3/proc/bakery2)

    Both RPC handlers run in the one dispatcher thread, so the waiting loop of the
    service handler ends by its one-second time limit only. *)

From S2P Require Import Prelude.
From stdpp Require Import options.
#[local] Set Default Proof Using "Type*".
Local Open Scope Z_scope.

(** ** Data *)

(** [struct BAKERY]. *)
Record bakery := Bakery { b_num : Z; b_pid : Z; b_res : Z }.

#[export] Instance bakery_eq_dec : EqDecision bakery.
Proof. solve_decision. Defined.

Definition CLOCKS_PER_SEC : Z := 1000000.

(** The static data of the server; [calls] counts the calls of [clock()] made so
    far, [out] is what has been printed: client, ticket and letter. *)
Record server := Server {
  choosing : gmap Z Z;
  number : gmap Z Z;
  num : Z;
  c : Z;
  calls : nat;
  out : list (Z * Z * Z)
}.

Definition set_choosing v g := Server v (number g) (num g) (c g) (calls g) (out g).
Definition set_number v g := Server (choosing g) v (num g) (c g) (calls g) (out g).
Definition set_num v g := Server (choosing g) (number g) v (c g) (calls g) (out g).
Definition set_c v g := Server (choosing g) (number g) (num g) v (calls g) (out g).
Definition set_calls v g := Server (choosing g) (number g) (num g) (c g) v (out g).
Definition print m g := Server (choosing g) (number g) (num g) (c g) (calls g) (out g ++ [m]).

Definition init : server := Server (carray_make 32 0) (carray_make 32 0) 0 97 0 [].

(** [a[i]] and [a[i] = v]. *)
Definition aread (a : gmap Z Z) (i : Z) : outcome Z :=
  match a !! i with Some v => Ok v | None => Fault OutOfBounds end.
Definition awrite (a : gmap Z Z) (i v : Z) : outcome (gmap Z Z) :=
  match a !! i with Some _ => Ok (<[i := v]> a) | None => Fault OutOfBounds end.

(** ** get_number_1_svc *)

(** [for (; i < i + n; i++) if (number[i] > max) max = number[i];] *)
Fixpoint scan_max (n : nat) (i max : Z) (a : gmap Z Z) : outcome Z :=
  match n with
  | O => Ok max
  | S n => v ← aread a i; scan_max n (i + 1) (if decide (v > max) then v else max) a
  end.

Definition get_number_1_svc (argp : bakery) : prog server bakery :=
  g ← get_st;
  let ind := num g in
  modify (set_num (int32 (ind + 1)));;
  ch ← lift (awrite (choosing g) ind 1);
  modify (set_choosing ch);;
  max ← lift (scan_max 32 0 0 (number g));
  nb ← lift (awrite (number g) ind (int32 (max + 1)));
  modify (set_number nb);;
  n ← lift (aread nb ind);
  ch ← lift (awrite ch ind 0);
  modify (set_choosing ch);;
  mret (Bakery n ind 0).

(** ** bakery_service_1_svc *)

Section Service.
(** The value of the [k]-th call of [clock()]. *)
Context (ticks : nat → Z).

Definition clock : prog server Z :=
  g ← get_st; modify (set_calls (S (calls g)));; mret (ticks (calls g)).

(** [while (choosing[j]) {}] *)
Fixpoint wait_choosing (fuel : nat) (j : Z) : lprog server unit :=
  match fuel with
  | O => no_fuel
  | S fuel =>
      g ← now get_st;
      v ← now (lift (aread (choosing g) j));
      if decide (v ≠ 0) then wait_choosing fuel j else mret tt
  end.

(** [number[j] != 0 && (number[j] < argp->num || (number[j] == argp->num && j < argp->pid))] *)
Definition earlier (argp : bakery) (j v : Z) : bool :=
  bool_decide (v ≠ 0 ∧ (v < b_num argp ∨ (v = b_num argp ∧ j < b_pid argp))).

(** The second loop: it leaves when nobody is earlier or after a second. *)
Fixpoint wait_number (fuel : nat) (argp : bakery) (j t_start : Z) (flag : bool) : lprog server unit :=
  match fuel with
  | O => no_fuel
  | S fuel =>
      g ← now get_st;
      v ← now (lift (aread (number g) j));
      if flag && earlier argp j v then
        t ← now clock;
        wait_number fuel argp j t_start
          (if decide (Z.quot (t - t_start) CLOCKS_PER_SEC ≠ 0) then false else flag)
      else mret tt
  end.

(** [for (; j < j + n; j++) ..] *)
Fixpoint wait_turn (fuel n : nat) (argp : bakery) (j : Z) : lprog server unit :=
  match n with
  | O => mret tt
  | S n =>
      wait_choosing fuel j;;
      t_start ← now clock;
      wait_number fuel argp j t_start true;;
      wait_turn fuel n argp (j + 1)
  end.

Definition bakery_service_1_svc (fuel : nat) (argp : bakery) : lprog server bakery :=
  wait_turn fuel 32 argp 0;;
  g ← now get_st;
  let res := c g in
  now (modify (set_c (if decide (res + 1 > 122) then 97 else res + 1)));;
  now (modify (print (b_pid argp, b_num argp, res)));;
  nb ← now (lift (awrite (number g) (b_pid argp) 0));
  now (modify (set_number nb));;
  mret (Bakery 0 0 res).
End Service.
