(* ===== verification/Bakery2Spec.v ===== *)
(** * What the single-threaded bakery server guarantees *)

From S2P Require Import Prelude Letters Bakery2.
From stdpp Require Import options.
#[local] Set Default Proof Using "Type*".
Local Open Scope Z_scope.

(** ** Tickets *)

(** The largest of the numbers, and 0. *)
Definition top (a : gmap Z Z) (m : Z) : Prop :=
  (∀ i v, a !! i = Some v → v ≤ m) ∧ 0 ≤ m ∧ (m = 0 ∨ ∃ i, a !! i = Some m).

Lemma scan_max_top a n i max :
  arr32 a → 0 ≤ i → i + Z.of_nat n = 32 →
  (∀ j v, j < i → a !! j = Some v → v ≤ max) → 0 ≤ max → (max = 0 ∨ ∃ j, a !! j = Some max) →
  ∃ m, scan_max n i max a = Ok m ∧ top a m.
Proof.
  intros Ha. revert i max. induction n as [|n IH]; intros i max Hi Hn Hlow Hmax Hat; simpl.
  - exists max. split; [done|]. split; [|done]. intros j v Hj. apply (Hlow j v); [|done].
    assert (0 ≤ j < 32) by (apply Ha; by eexists). lia.
  - destruct (arr32_lookup a i Ha ltac:(lia)) as [v Hv]. unfold aread. rewrite Hv. simpl.
    destruct (IH (i + 1) (if decide (v > max) then v else max)) as (m & Hm & Ht); [lia|lia|..].
    + intros j u Hj Hu. destruct (decide (j = i)) as [->|].
      * simplify_eq. case_decide; lia.
      * pose proof (Hlow j u ltac:(lia) Hu). case_decide; lia.
    + case_decide; lia.
    + case_decide; [right; by exists i|done].
    + by exists m.
Qed.

#[local] Arguments scan_max : simpl never.
#[local] Arguments int32 : simpl never.
#[local] Arguments carray_make : simpl never.

Lemma get_number_cases g argp :
  arr32 (number g) → arr32 (choosing g) → 0 ≤ num g < 2 ^ 31 - 1 →
  (∀ i v, number g !! i = Some v → v < 2 ^ 31 - 1) →
  (num g < 32 → ∃ m, top (number g) m ∧
    get_number_1_svc argp g = Ok (Bakery (m + 1) (num g) 0,
      Server (<[num g := 0]> (choosing g)) (<[num g := m + 1]> (number g)) (num g + 1)
        (c g) (calls g) (out g))) ∧
  (32 ≤ num g → get_number_1_svc argp g = Fault OutOfBounds).
Proof.
  intros Hn Hc Hnum Hb. unfold get_number_1_svc, mbind, prog_bind, get_st, modify, lift, awrite.
  split; intros Hk; simpl; rewrite int32_small by lia.
  - destruct (arr32_lookup _ _ Hc (conj (proj1 Hnum) Hk)) as [v Hv].
    destruct (arr32_lookup _ _ Hn (conj (proj1 Hnum) Hk)) as [u Hu]. rewrite Hv.
    destruct (scan_max_top (number g) 32 0 0 Hn) as (m & Hm & Ht); [lia|lia| |lia|by left|].
    { intros j x Hj Hx. assert (0 ≤ j < 32) by (apply Hn; by eexists). lia. }
    exists m. split; [done|]. rewrite Hm, Hu. unfold aread.
    assert (int32 (m + 1) = m + 1) as ->.
    { apply int32_small. destruct Ht as (_ & H0 & [->|(i & Hi)]); [lia|]. apply Hb in Hi. lia. }
    rewrite lookup_insert_eq. simpl. rewrite lookup_insert_eq. by rewrite insert_insert_eq.
  - assert (choosing g !! num g = None) as ->; [|done].
    destruct (choosing g !! num g) eqn:He; [|done].
    assert (0 ≤ num g < 32) by (apply Hc; by eexists). lia.
Qed.

(** The [k]-th call of get_number takes index [k] and a ticket one above the
    largest one outstanding, and leaves [choosing] as it was; the 33rd call
    indexes past the arrays. *)
Theorem bakery2_get_number g argp :
  arr32 (number g) → arr32 (choosing g) → 0 ≤ num g < 2 ^ 31 - 1 →
  (∀ i v, number g !! i = Some v → v < 2 ^ 31 - 1) →
  (num g < 32 → ∃ m, top (number g) m ∧
    get_number_1_svc argp g = Ok (Bakery (m + 1) (num g) 0,
      Server (<[num g := 0]> (choosing g)) (<[num g := m + 1]> (number g)) (num g + 1)
        (c g) (calls g) (out g))) ∧
  (32 ≤ num g → get_number_1_svc argp g = Fault OutOfBounds).
Proof. apply get_number_cases. Qed.

(** ** The service *)

Section Service.
Context (ticks : nat → Z).

(** [clock()] does not go back, and a loop that calls it again and again sees a
    second pass. *)
Hypothesis clock_mono : ∀ n m, (n ≤ m)%nat → ticks n ≤ ticks m.
Hypothesis clock_runs : ∀ n, ∃ m, CLOCKS_PER_SEC ≤ ticks m - ticks n.

Lemma quot_second x : 0 ≤ x → Z.quot x CLOCKS_PER_SEC ≠ 0 ↔ CLOCKS_PER_SEC ≤ x.
Proof.
  intros Hx. unfold CLOCKS_PER_SEC. rewrite Z.quot_div_nonneg by lia.
  split; intros H; [|assert (1 ≤ x / 1000000) by (apply Z.div_le_lower_bound; lia); lia].
  destruct (decide (1000000 ≤ x)); [done|]. rewrite Z.div_small in H by lia. done.
Qed.

Lemma wait_number_mono f f' argp j t b g r :
  wait_number ticks f argp j t b g = Some r → (f ≤ f')%nat → wait_number ticks f' argp j t b g = Some r.
Proof.
  revert f' b g. induction f as [|f IH]; intros f' b g; [done|]. destruct f' as [|f']; [lia|].
  simpl. unfold mbind, lprog_bind, now, get_st, lift. destruct (aread (number g) j) as [v|e]; [|done].
  destruct (b && earlier argp j v); [|done]. unfold clock, modify, mbind, prog_bind, get_st. simpl.
  intros Hr Hf. apply IH; [done|lia].
Qed.

(** The first reading of the clock a second or more after [t0]. *)
Lemma wait_number_late argp j v t0 d k g :
  number g !! j = Some v → earlier argp j v = true → calls g = k →
  (∀ m, (k ≤ m)%nat → t0 ≤ ticks m) → CLOCKS_PER_SEC ≤ ticks (k + d) - t0 →
  ∃ f k', wait_number ticks f argp j t0 true g = Some (Ok (tt, set_calls k' g)) ∧
    (k < k')%nat ∧ CLOCKS_PER_SEC ≤ ticks (k' - 1)%nat - t0.
Proof.
  intros Hv He. revert k g Hv. induction d as [|d IH]; intros k g Hv Hk Hlow Hd; pose proof (Hlow k ltac:(lia)) as H0.
  - exists 2%nat, (S k). simpl. unfold mbind, lprog_bind, now, get_st, lift, aread. rewrite Hv, He. simpl.
    unfold clock, modify, mbind, prog_bind, get_st. simpl. rewrite Hv, Hk.
    rewrite Nat.add_0_r in Hd. rewrite decide_True by (apply quot_second; lia). simpl.
    rewrite Nat.sub_0_r. split_and!; [done|lia|done].
  - destruct (decide (CLOCKS_PER_SEC ≤ ticks k - t0)) as [Hnow|Hnot].
    + exists 2%nat, (S k). simpl. unfold mbind, lprog_bind, now, get_st, lift, aread. rewrite Hv, He. simpl.
      unfold clock, modify, mbind, prog_bind, get_st. simpl. rewrite Hv, Hk.
      rewrite decide_True by (apply quot_second; lia). simpl.
      rewrite Nat.sub_0_r. split_and!; [done|lia|done].
    + destruct (IH (S k) (set_calls (S k) g)) as (f & k' & Hf & Hk' & Ht); [done|done| | |].
      * intros m Hm. apply Hlow. lia.
      * by rewrite Nat.add_succ_comm.
      * exists (S f), k'. simpl. unfold mbind, lprog_bind, now, get_st, lift, aread. rewrite Hv, He. simpl.
        unfold clock, modify, mbind, prog_bind, get_st. simpl. rewrite Hk.
        pose proof (Hlow k ltac:(lia)). pose proof (quot_second (ticks k - t0) ltac:(lia)) as Hq.
        rewrite decide_False by (intros Hn; by apply Hnot, Hq).
        rewrite Hf. split_and!; [done|lia|done].
Qed.

(** How many outstanding tickets come before that of the call. *)
Definition ahead (argp : bakery) (a : gmap Z Z) (js : list Z) : nat :=
  length (filter (λ j, earlier argp j (default 0 (a !! j)) = true) js).

Lemma wait_one argp j k g :
  arr32 (number g) → 0 ≤ j < 32 → calls g = S k →
  ∃ f k', wait_number ticks f argp j (ticks k) true g = Some (Ok (tt, set_calls k' g)) ∧
    (S k ≤ k')%nat ∧ CLOCKS_PER_SEC * Z.of_nat (ahead argp (number g) [j]) ≤ ticks k' - ticks k.
Proof.
  intros Ha Hj Hk. destruct (arr32_lookup _ j Ha Hj) as [v Hv]. unfold ahead.
  rewrite filter_cons, filter_nil, Hv. simpl. destruct (earlier argp j v) eqn:He; simpl.
  - destruct (clock_runs k) as [m Hm].
    destruct (wait_number_late argp j v (ticks k) m (S k) g Hv He Hk) as (f & k' & Hf & Hk' & Ht).
    + intros n Hn. apply clock_mono. lia.
    + pose proof (clock_mono m (S k + m) ltac:(lia)). lia.
    + exists f, k'. split_and!; [done|lia|]. pose proof (clock_mono (k' - 1) k' ltac:(lia)). lia.
  - exists 1%nat, (S k). simpl. unfold mbind, lprog_bind, now, get_st, lift, aread. rewrite Hv, He. simpl.
    destruct g; simpl in *; subst. split_and!; [done|lia|]. pose proof (clock_mono k (S k) ltac:(lia)). lia.
Qed.

(** The loop over all clients. *)
Lemma wait_turn_ends argp n j g :
  arr32 (number g) → (∀ i, 0 ≤ i < 32 → choosing g !! i = Some 0) → 0 ≤ j → j + Z.of_nat n = 32 →
  ∃ f0 k', (∀ f, (f0 ≤ f)%nat → wait_turn ticks f n argp j g = Some (Ok (tt, set_calls k' g))) ∧
    (calls g ≤ k')%nat ∧
    CLOCKS_PER_SEC * Z.of_nat (ahead argp (number g) (seqZ j (Z.of_nat n))) ≤ ticks k' - ticks (calls g).
Proof.
  revert j g. induction n as [|n IH]; intros j g Ha Hc Hj Hn.
  { exists 0%nat, (calls g). simpl. split_and!; [by intros; destruct g|lia|]. unfold ahead. simpl. lia. }
  set (k := calls g). set (g1 := set_calls (S k) g).
  destruct (wait_one argp j k g1) as (f1 & k1 & Hf1 & Hk1 & Ht1); [done|lia|done|].
  destruct (IH (j + 1) (set_calls k1 g1)) as (f2 & k2 & Hf2 & Hk2 & Ht2); [done|done|lia|lia|].
  simpl in Hk2, Ht2. exists (S (f1 + f2))%nat, k2. split_and!; [|lia|].
  - intros f Hf. destruct f as [|f]; [lia|]. cbn [wait_turn wait_choosing].
    unfold mbind, lprog_bind, now, get_st, lift, aread. rewrite (Hc j) by lia. simpl decide.
    rewrite decide_False by lia. unfold mret, lprog_ret, clock, modify, mbind, prog_bind, get_st.
    cbn -[wait_number wait_turn]. fold k. fold g1. rewrite (wait_number_mono f1 (S f) _ _ _ _ _ _ Hf1) by lia.
    by rewrite Hf2 by lia.
  - rewrite seqZ_cons by lia. replace (Z.pred (Z.of_nat (S n))) with (Z.of_nat n) by lia.
    replace (Z.succ j) with (j + 1) by lia.
    change (j :: seqZ (j + 1) (Z.of_nat n)) with ([j] ++ seqZ (j + 1) (Z.of_nat n)).
    unfold ahead in *. rewrite filter_app, length_app. change (number g1) with (number g) in Ht1.
    fold k. lia.
Qed.

(** The state after a service call: [k'] calls of the clock have been made. *)
Definition served (argp : bakery) (k' : nat) (g : server) : server :=
  Server (choosing g) (<[b_pid argp := 0]> (number g)) (num g)
    (if decide (c g + 1 > 122) then 97 else c g + 1) k' (out g ++ [(b_pid argp, b_num argp, c g)]).

Lemma service_ends argp g :
  arr32 (number g) → (∀ i, 0 ≤ i < 32 → choosing g !! i = Some 0) → 0 ≤ b_pid argp < 32 →
  ∃ f0 k', (∀ f, (f0 ≤ f)%nat →
      bakery_service_1_svc ticks f argp g = Some (Ok (Bakery 0 0 (c g), served argp k' g))) ∧
    (calls g ≤ k')%nat ∧
    CLOCKS_PER_SEC * Z.of_nat (ahead argp (number g) (seqZ 0 32)) ≤ ticks k' - ticks (calls g).
Proof.
  intros Ha Hc Hp. destruct (wait_turn_ends argp 32 0 g Ha Hc ltac:(lia) ltac:(lia)) as (f0 & k' & Hf & Hk & Ht).
  exists f0, k'. split; [|done]. intros f Hle. unfold bakery_service_1_svc, mbind, lprog_bind.
  rewrite Hf by done. unfold now, get_st, modify, lift, awrite. simpl.
  destruct (arr32_lookup _ _ Ha Hp) as [v ->]. done.
Qed.

(** A service call returns, however many earlier tickets are outstanding, with
    the next letter of the alphabet and the caller's ticket cleared; it takes at
    least a second for every earlier ticket. *)
Theorem bakery2_service argp g :
  arr32 (number g) → (∀ i, 0 ≤ i < 32 → choosing g !! i = Some 0) → 0 ≤ b_pid argp < 32 →
  ∃ f0 k', (∀ f, (f0 ≤ f)%nat →
      bakery_service_1_svc ticks f argp g = Some (Ok (Bakery 0 0 (c g), served argp k' g))) ∧
    (calls g ≤ k')%nat ∧
    CLOCKS_PER_SEC * Z.of_nat (ahead argp (number g) (seqZ 0 32)) ≤ ticks k' - ticks (calls g).
Proof. intros Ha Hc Hp. by apply service_ends. Qed.

(** ** Sequences of calls *)

Inductive call := GetNumber (argp : bakery) | Service (argp : bakery).

Definition run_call (fuel : nat) (x : call) : lprog server bakery :=
  match x with
  | GetNumber argp => now (get_number_1_svc argp)
  | Service argp => bakery_service_1_svc ticks fuel argp
  end.

(** The replies to a sequence of calls. *)
Fixpoint run_calls (fuel : nat) (xs : list call) : lprog server (list bakery) :=
  match xs with
  | [] => mret []
  | x :: xs => r ← run_call fuel x; rs ← run_calls fuel xs; mret (r :: rs)
  end.

(** What the replies should be: [held] has the tickets by index, 0 for those served,
    and [k] letters have been given. A ticket is one above all those outstanding; the
    letters follow each other, whatever ticket they are given to. *)
Fixpoint replies (xs : list call) (held : list Z) (k : nat) : list bakery :=
  match xs with
  | [] => []
  | GetNumber _ :: xs =>
      let n := foldr Z.max 0 held + 1 in
      Bakery n (Z.of_nat (length held)) 0 :: replies xs (held ++ [n]) k
  | Service argp :: xs =>
      Bakery 0 0 (letter (Z.of_nat k)) :: replies xs (<[Z.to_nat (b_pid argp) := 0]> held) (S k)
  end.

Fixpoint gets (xs : list call) : nat :=
  match xs with
  | [] => O
  | GetNumber _ :: xs => S (gets xs)
  | Service _ :: xs => gets xs
  end.
Definition services (xs : list call) : list bakery :=
  omap (λ x, match x with Service argp => Some argp | GetNumber _ => None end) xs.

Definition valid_pid (x : call) : Prop :=
  match x with Service argp => 0 ≤ b_pid argp < 32 | GetNumber _ => True end.

(** What holds between two calls. *)
Record idle (g : server) : Prop := {
  id_number : arr32 (number g);
  id_choosing : ∀ i, is_Some (choosing g !! i) ↔ 0 ≤ i < 32;
  id_zero : ∀ i, 0 ≤ i < 32 → choosing g !! i = Some 0;
  id_num : 0 ≤ num g;
  id_tickets : ∀ i v, number g !! i = Some v → 0 ≤ v ≤ num g;
  id_c : c g = letter (Z.of_nat (length (out g)))
}.

Lemma init_idle : idle init.
Proof.
  split; unfold init; cbn [number choosing num c out length].
  - apply arr32_make.
  - apply (arr32_make 0).
  - intros i Hi. rewrite lookup_carray_make, decide_True by lia. done.
  - lia.
  - intros i v. rewrite lookup_carray_make. case_decide; [|done]. intros [= <-]. lia.
  - done.
Qed.

Lemma served_idle argp k' g : idle g → 0 ≤ b_pid argp < 32 → idle (served argp k' g).
Proof.
  intros [Hn Hc Hz Hnum Ht Hcc] Hp. unfold served.
  split; cbn [number choosing num c out]; [|done|done|done|..].
  - apply arr32_insert; [done|]. by apply Hn.
  - intros i v. rewrite lookup_insert_Some. intros [[_ <-]|[_ Hv]]; [lia|by eapply Ht].
  - rewrite length_app. simpl. rewrite Nat2Z.inj_add, letter_next by lia. by rewrite Hcc.
Qed.

Lemma get_number_idle argp g :
  idle g → num g < 32 → ∃ r g', get_number_1_svc argp g = Ok (r, g') ∧ idle g' ∧
    num g' = num g + 1 ∧ out g' = out g.
Proof.
  intros [Hn Hc Hz Hnum Ht Hcc] Hlt.
  destruct (proj1 (get_number_cases g argp Hn Hc ltac:(lia)
    ltac:(intros i v Hv; apply Ht in Hv; lia)) Hlt) as (m & (Hm1 & Hm2 & Hm3) & Hr).
  eexists _, _. split; [done|]. split; [|done].
  assert (m ≤ num g) as Hm by (destruct Hm3 as [->|(i & Hi)]; [lia|apply Ht in Hi; lia]).
  split; cbn [number choosing num c out]; [..|lia| |done].
  - apply arr32_insert; [done|apply Hn; lia].
  - apply (arr32_insert _ _ 0 Hc). apply Hc. lia.
  - intros i Hi. rewrite lookup_insert. case_decide; [done|by apply Hz].
  - intros i v. rewrite lookup_insert_Some. intros [[_ <-]|[_ Hv]]; [lia|]. apply Ht in Hv. lia.
Qed.

(** The lines a sequence of service calls prints after [n] lines. *)
Definition lines (n : nat) (args : list bakery) : list (Z * Z * Z) :=
  imap (λ k argp, (b_pid argp, b_num argp, letter (Z.of_nat (n + k)))) args.

Lemma lines_cons n argp args :
  lines n (argp :: args) = (b_pid argp, b_num argp, letter (Z.of_nat n)) :: lines (S n) args.
Proof.
  unfold lines. simpl. rewrite Nat.add_0_r. f_equal. apply imap_ext. intros k x _. simpl.
  by rewrite <- Nat.add_succ_comm.
Qed.

(** The array of numbers is [held] and zeros. *)
Definition holds (held : list Z) (g : server) : Prop :=
  num g = Z.of_nat (length held) ∧
  ∀ i, 0 ≤ i < 32 → number g !! i = Some (default 0 (held !! Z.to_nat i)).

Lemma foldr_max_ge (l : list Z) : 0 ≤ foldr Z.max 0 l ∧ ∀ i v, l !! i = Some v → v ≤ foldr Z.max 0 l.
Proof.
  induction l as [|x l [IH0 IH]]; simpl; [split; [lia|done]|]. split; [lia|].
  intros [|i] v; simpl; [intros [= ->]; lia|]. intros Hi. specialize (IH _ _ Hi). lia.
Qed.

Lemma foldr_max_in (l : list Z) : foldr Z.max 0 l = 0 ∨ ∃ i, l !! i = Some (foldr Z.max 0 l).
Proof.
  induction l as [|x l IH]; simpl; [by left|].
  destruct (Z.max_spec x (foldr Z.max 0 l)) as [[_ ->]|[_ ->]].
  - destruct IH as [->|[i Hi]]; [by left|right]. by exists (S i).
  - right. by exists 0%nat.
Qed.

Lemma top_held held g m :
  arr32 (number g) → (length held ≤ 32)%nat → holds held g → top (number g) m → m = foldr Z.max 0 held.
Proof.
  intros Harr Hlen [_ Hh] (Hub & H0 & Hin). destruct (foldr_max_ge held) as [Hg0 Hge]. apply Z.le_antisymm.
  - destruct Hin as [->|[i Hi]]; [done|]. pose proof (proj1 (Harr i) (mk_is_Some _ _ Hi)) as Hr.
    rewrite Hh in Hi by done. injection Hi as <-.
    destruct (held !! Z.to_nat i) as [v|] eqn:Hv; simpl; [by eapply Hge|done].
  - destruct (foldr_max_in held) as [->|[i Hi]]; [done|]. pose proof (lookup_lt_Some _ _ _ Hi).
    apply (Hub (Z.of_nat i)). rewrite Hh by lia. by rewrite Nat2Z.id, Hi.
Qed.

Lemma get_number_held argp held g :
  idle g → holds held g → (length held < 32)%nat →
  let n := foldr Z.max 0 held + 1 in
  ∃ g', get_number_1_svc argp g = Ok (Bakery n (Z.of_nat (length held)) 0, g') ∧
    idle g' ∧ holds (held ++ [n]) g' ∧ out g' = out g.
Proof.
  intros Hid Hh Hlt n. pose proof Hh as [Hnum Hheld]. pose proof (id_number _ Hid) as Harr.
  destruct (get_number_idle argp g Hid ltac:(lia)) as (r & g' & Hr & Hid' & Hn' & Ho).
  destruct (proj1 (get_number_cases g argp Harr (id_choosing _ Hid) ltac:(lia)
    ltac:(intros i v Hv; apply (id_tickets _ Hid) in Hv; lia)) ltac:(lia)) as (m & Hm & Hr').
  rewrite (top_held held g m Harr ltac:(lia) Hh Hm), Hnum in Hr'. fold n in Hr'.
  exists g'. rewrite Hr in Hr'. injection Hr' as -> ->. split; [done|]. split; [done|].
  split; [|done]. split; simpl; [rewrite length_app; simpl; lia|]. intros i Hi.
  rewrite lookup_insert. case_decide as Heq.
  - subst i. by rewrite Nat2Z.id, list_lookup_middle by done.
  - rewrite Hheld by done. f_equal. destruct (decide (Z.to_nat i < length held)%nat) as [Hl|Hl].
    + by rewrite lookup_app_l by done.
    + rewrite lookup_ge_None_2, (lookup_ge_None_2 (held ++ _)) by (rewrite ?length_app; simpl; lia). done.
Qed.

Lemma served_held argp k' held g :
  0 ≤ b_pid argp < 32 → holds held g → holds (<[Z.to_nat (b_pid argp) := 0]> held) (served argp k' g).
Proof.
  intros Hp [Hn Hh]. split; simpl; [by rewrite length_insert|]. intros i Hi. rewrite lookup_insert. case_decide as Heq.
  - subst i. destruct (decide (Z.to_nat (b_pid argp) < length held)%nat).
    + by rewrite list_lookup_insert_eq by done.
    + by rewrite lookup_ge_None_2 by (rewrite length_insert; lia).
  - rewrite list_lookup_insert_ne by lia. by apply Hh.
Qed.

Lemma run_calls_idle xs held g :
  Forall valid_pid xs → idle g → holds held g → (length held + gets xs ≤ 32)%nat →
  ∃ f0, ∀ f, (f0 ≤ f)%nat → ∃ g', run_calls f xs g = Some (Ok (replies xs held (length (out g)), g')) ∧
    out g' = out g ++ lines (length (out g)) (services xs).
Proof.
  intros Hxs. revert held g. induction Hxs as [|[argp|argp] xs Hx Hxs IH]; intros held g Hid Hh Hn.
  - exists 0%nat. intros f _. exists g. by rewrite app_nil_r.
  - simpl in Hn.
    destruct (get_number_held argp held g Hid Hh ltac:(lia)) as (g1 & Hr & Hid1 & Hh1 & Ho1).
    destruct (IH _ g1 Hid1 Hh1) as (f0 & Hf0); [rewrite length_app; simpl; lia|]. exists f0. intros f Hf.
    destruct (Hf0 f Hf) as (g2 & Hg2 & Ho2). exists g2. simpl.
    unfold mbind, lprog_bind, now. rewrite Hr, Hg2, Ho1. split; [done|]. by rewrite Ho2, Ho1.
  - simpl in Hn.
    destruct (service_ends argp g (id_number _ Hid) (id_zero _ Hid) Hx) as (f1 & k' & Hs & _ & _).
    destruct (IH _ _ (served_idle argp k' g Hid Hx) (served_held argp k' held g Hx Hh)) as (f0 & Hf0);
      [by rewrite length_insert|].
    exists (f0 + f1)%nat. intros f Hf. destruct (Hf0 f ltac:(lia)) as (g2 & Hg2 & Ho2). exists g2. simpl.
    unfold mbind, lprog_bind. rewrite Hs, Hg2 by lia. rewrite Ho2. simpl. rewrite length_app. simpl.
    rewrite Nat.add_1_r, <- (id_c _ Hid). split; [done|]. rewrite <- (assoc app). simpl. by rewrite lines_cons, (id_c _ Hid).
Qed.

(** C11: at most 32 calls of get_number and any calls of the service with an index
    in 0..31, in any order, end without a fault. The replies are those of a list of
    tickets: the [n]-th call of get_number gets index [n] and a ticket one above all
    those outstanding, the [n]-th service call the [n]-th letter, whatever ticket it
    holds; and the server prints index, ticket and letter of every service call. *)
Theorem bakery2_session xs :
  Forall valid_pid xs → (gets xs ≤ 32)%nat →
  ∃ f0, ∀ f, (f0 ≤ f)%nat → ∃ g, run_calls f xs init = Some (Ok (replies xs [] 0, g)) ∧
    out g = lines 0 (services xs).
Proof.
  intros Hxs Hn. apply (run_calls_idle xs [] init Hxs init_idle); [|done]. split; [done|].
  intros i Hi. unfold init. cbn [number]. by rewrite lookup_carray_make, decide_True by lia.
Qed.
End Service.

(** ** The theorems at work *)

(** A clock that ticks a tenth of a second at every call. *)
Definition tenths (n : nat) : Z := 100000 * Z.of_nat n.

Lemma tenths_mono n m : (n ≤ m)%nat → tenths n ≤ tenths m.
Proof. unfold tenths. lia. Qed.
Lemma tenths_runs n : ∃ m, CLOCKS_PER_SEC ≤ tenths m - tenths n.
Proof. exists (n + 10)%nat. unfold tenths, CLOCKS_PER_SEC. lia. Qed.

Lemma bakery2_get_number_witness :
  ∃ m, top (number init) m ∧
    get_number_1_svc (Bakery 0 0 0) init = Ok (Bakery (m + 1) 0 0,
      Server (<[0 := 0]> (choosing init)) (<[0 := m + 1]> (number init)) 1 97 0 []).
Proof.
  refine (proj1 (bakery2_get_number init (Bakery 0 0 0) (arr32_make 0) (arr32_make 0) _ _) _).
  - simpl. lia.
  - intros i v Hv. apply (id_tickets _ init_idle) in Hv. simpl in Hv. lia.
  - simpl. lia.
Defined.

Lemma bakery2_service_witness :
  ∃ f0 k', (∀ f, (f0 ≤ f)%nat →
      bakery_service_1_svc tenths f (Bakery 2 1 0) init =
        Some (Ok (Bakery 0 0 97, served (Bakery 2 1 0) k' init))) ∧
    (0 ≤ k')%nat ∧
    CLOCKS_PER_SEC * Z.of_nat (ahead (Bakery 2 1 0) (number init) (seqZ 0 32)) ≤ tenths k' - tenths 0.
Proof.
  refine (bakery2_service tenths tenths_mono tenths_runs (Bakery 2 1 0) init
    (id_number _ init_idle) (id_zero _ init_idle) _). simpl. lia.
Defined.

(** Two tickets; the later one is served first, after a second, and gets 'a'. *)
Definition overtaking : list call :=
  [GetNumber (Bakery 0 0 0); GetNumber (Bakery 0 0 0); Service (Bakery 2 1 0); Service (Bakery 1 0 0)].

Lemma bakery2_session_witness :
  ∃ f0, ∀ f, (f0 ≤ f)%nat → ∃ g, run_calls tenths f overtaking init =
      Some (Ok ([Bakery 1 0 0; Bakery 2 1 0; Bakery 0 0 97; Bakery 0 0 98], g)) ∧
    out g = [(1, 2, 97); (0, 1, 98)].
Proof.
  refine (bakery2_session tenths tenths_mono tenths_runs overtaking _ _).
  - repeat constructor; simpl; lia.
  - vm_compute. lia.
Defined.

Example overtaking_runs :
  (λ x, match x with Some (Ok (_, g)) => Some (out g, calls g) | _ => None end)
    (run_calls tenths 20 overtaking init) = Some ([(1, 2, 97); (0, 1, 98)], 74%nat).
Proof. vm_compute. reflexivity. Qed.
