(* ===== verification/BakeryRpc.v ===== *)
(** * The RPC layer of the bakery programs (3/proc/bakery1, 3/proc/bakery2)

    The XDR filter, the dispatchers of the two servers, the client stubs and the
    client program of bakery2. The XDR primitives, the transport of a server and
    the network of a client are code of the RPC library: operations of classes. *)

From S2P Require Import Prelude Bakery2.
From stdpp Require Import options.
#[local] Set Default Proof Using "Type*".
Local Open Scope Z_scope.

(** ** bakery_xdr.c *)

Inductive prim := PInt | PChar.

Definition in_range (p : prim) (v : Z) : Prop :=
  match p with PInt => - 2 ^ 31 ≤ v < 2 ^ 31 | PChar => - 2 ^ 7 ≤ v < 2 ^ 7 end.

(** A primitive filter on a stream: whether it succeeded, the value afterwards (the
    one read, when decoding), and the stream afterwards. *)
Class Xdr (X : Type) := { xdr_prim : prim → X → Z → bool * Z * X }.

(** The documented property of filters: decoding what has been encoded gives the
    same value, and encoding leaves the value alone. [wire] is what has been written
    to an encoding stream and what remains to be read of a decoding one. *)
Class XdrLaws (X : Type) `{!Xdr X} := {
  encodes : X → Prop;
  decodes : X → Prop;
  wire : X → list Z;
  xdr_prim_law p x v ok v' x' : encodes x → in_range p v → xdr_prim p x v = (ok, v', x') →
    v' = v ∧ encodes x' ∧
    (ok = true → ∃ bs, wire x' = wire x ++ bs ∧
      ∀ y rest v0, decodes y → wire y = bs ++ rest →
        ∃ y', xdr_prim p y v0 = (true, v, y') ∧ decodes y' ∧ wire y' = rest)
}.

Section XdrBakery.
Context {X : Type} `{!Xdr X}.

Definition xdr_int : X → Z → bool * Z * X := xdr_prim PInt.
Definition xdr_char : X → Z → bool * Z * X := xdr_prim PChar.

Definition xdr_BAKERY (xdrs : X) (objp : bakery) : bool * bakery * X :=
  let '(ok, n, xdrs) := xdr_int xdrs (b_num objp) in
  let objp := Bakery n (b_pid objp) (b_res objp) in
  if negb ok then (false, objp, xdrs)
  else
    let '(ok, p, xdrs) := xdr_int xdrs (b_pid objp) in
    let objp := Bakery (b_num objp) p (b_res objp) in
    if negb ok then (false, objp, xdrs)
    else
      let '(ok, r, xdrs) := xdr_char xdrs (b_res objp) in
      let objp := Bakery (b_num objp) (b_pid objp) r in
      if negb ok then (false, objp, xdrs) else (true, objp, xdrs).
End XdrBakery.

(** ** bakery_svc.c *)

(** A request as a server sees it: its procedure number; the arguments, decoded
    over the given value; whether the reply could be sent; whether the arguments
    could be freed. *)
Class Transport (T : Type) := {
  rq_proc : T → Z;
  svc_getargs : T → bakery → bool * bakery;
  svc_sendreply : T → bakery → bool;
  svc_freeargs : T → bool
}.

(** What is sent back to the client. *)
Inductive sent :=
  | SentVoid
  | SentResult (r : bakery)
  | SentNoproc
  | SentDecode
  | SentSystemerr.

Section Dispatch.
Context {T : Type} `{!Transport T} {St : Type}.
Abbreviation handler := (bakery → lprog St (option bakery)).

(** The part after the switch: what is sent, and whether the server exits. *)
Definition run_local (local : handler) (transp : T) : lprog St (list sent * bool) :=
  let '(ok, argument) := svc_getargs transp (Bakery 0 0 0) in
  if negb ok then mret ([SentDecode], false)
  else
    result ← local argument;
    let replies :=
      match result with
      | None => []
      | Some r => if svc_sendreply transp r then [SentResult r] else [SentSystemerr]
      end in
    mret (replies, negb (svc_freeargs transp)).

Definition NULLPROC : Z := 0.

(** [bakery_prog_1] of bakery1, with the handlers for GET_NUMBER, BAKERY_WAIT and
    BAKERY_SERVICE. *)
Definition bakery1_prog_1 (get_number bakery_wait bakery_service : handler) (transp : T) :
    lprog St (list sent * bool) :=
  if decide (rq_proc transp = NULLPROC) then mret ([SentVoid], false)
  else if decide (rq_proc transp = 1) then run_local get_number transp
  else if decide (rq_proc transp = 2) then run_local bakery_wait transp
  else if decide (rq_proc transp = 3) then run_local bakery_service transp
  else mret ([SentNoproc], false).
End Dispatch.

(** [bakery_prog_1] of bakery2. *)
Definition bakery_prog_1 {T : Type} `{!Transport T} (ticks : nat → Z) (fuel : nat) (transp : T) :
    lprog server (list sent * bool) :=
  if decide (rq_proc transp = NULLPROC) then mret ([SentVoid], false)
  else if decide (rq_proc transp = 1) then
    run_local (λ argp, r ← now (get_number_1_svc argp); mret (Some r)) transp
  else if decide (rq_proc transp = 2) then
    run_local (λ argp, r ← bakery_service_1_svc ticks fuel argp; mret (Some r)) transp
  else mret ([SentNoproc], false).

(** *** [main] *)

Inductive proto := Udp | Tcp.

(** The port mapper and the transports of the server; the program and its version are
    those of bakery.h. *)
Class Portmap (W : Type) := {
  pmap_unset : W → W;
  svc_create : proto → W → bool * W;
  svc_register : proto → W → bool * W
}.

(** What the server writes to its standard error before it exits. *)
Inductive svc_line :=
  | CannotCreate (p : proto)
  | UnableToRegister (p : proto)
  | UnableToFree
  | SvcRunReturned.

Section SvcMain.
Context {W St T : Type} `{!Portmap W} (dispatch : T → lprog St (list sent * bool)).

(** [svc_run] on the requests that come before it returns: what was sent for each,
    and whether the server has exited in between. *)
Fixpoint svc_run (reqs : list T) : lprog St (list (list sent) * bool) :=
  match reqs with
  | [] => mret ([], false)
  | t :: reqs =>
      '(replies, exits) ← dispatch t;
      if (exits : bool) then mret ([replies], true)
      else '(rest, exited) ← svc_run reqs; mret (replies :: rest, exited)
  end.

(** The exit status, what was written, what was sent and the port mapper afterwards. *)
Definition svc_main (reqs : list T) (w : W) : lprog St (Z * svc_line * list (list sent) * W) :=
  let w := pmap_unset w in
  let '(ok, w) := svc_create Udp w in
  if negb ok then mret (1, CannotCreate Udp, [], w)
  else
    let '(ok, w) := svc_register Udp w in
    if negb ok then mret (1, UnableToRegister Udp, [], w)
    else
      let '(ok, w) := svc_create Tcp w in
      if negb ok then mret (1, CannotCreate Tcp, [], w)
      else
        let '(ok, w) := svc_register Tcp w in
        if negb ok then mret (1, UnableToRegister Tcp, [], w)
        else
          '(sent, exited) ← svc_run reqs;
          mret (1, if (exited : bool) then UnableToFree else SvcRunReturned, sent, w).
End SvcMain.

(** [main] of the two servers. *)
Definition bakery1_svc_main {W St T : Type} `{!Portmap W, !Transport T}
    (get_number bakery_wait bakery_service : bakery → lprog St (option bakery)) :
    list T → W → lprog St (Z * svc_line * list (list sent) * W) :=
  svc_main (bakery1_prog_1 get_number bakery_wait bakery_service).

Definition bakery2_svc_main {W T : Type} `{!Portmap W, !Transport T} (ticks : nat → Z) (fuel : nat) :
    list T → W → lprog server (Z * svc_line * list (list sent) * W) :=
  svc_main (bakery_prog_1 ticks fuel).

(** ** bakery_clnt.c and bakery_client.c *)

(** The network as a client sees it: the connection may fail; a call with its
    argument and the zeroed result gives the status and the result. *)
Class Network (N : Type) := {
  clnt_create : N → option N;
  clnt_call : N → Z → bakery → bakery → bool * bakery * N
}.

(** What the client prints. *)
Inductive line :=
  | Usage
  | CreateError
  | CallFailed
  | ClientId (pid num : Z)
  | Received (res : Z).

Record cstate (N : Type) := CState { net : N; printed : list line }.
Arguments CState {N} _ _.
Arguments net {N} _.
Arguments printed {N} _.

Section Client.
Context {N : Type} `{!Network N}.
Abbreviation M := (prog (cstate N)).

Definition put (l : line) : M unit := modify (λ s, CState (net s) (printed s ++ [l])).

(** The stubs differ in the procedure number only; the result is NULL or the static
    [clnt_res]. *)
Definition stub (proc : Z) (argp : bakery) : M (option bakery) := λ s,
  let '(success, r, n) := clnt_call (net s) proc argp (Bakery 0 0 0) in
  Ok (if success then Some r else None, CState n (printed s)).

Definition get_number_1 : bakery → M (option bakery) := stub 1.
Definition bakery_service_1 : bakery → M (option bakery) := stub 2.

(** [result->field]. *)
Definition deref_result (r : option bakery) : M bakery :=
  match r with Some b => mret b | None => crash NullDeref end.

(** The client of bakery2: its exit status. [garbage] is the value of the argument
    structures, which are not initialised. *)
Definition bakery_client (garbage : bakery) : M Z :=
  s ← get_st;
  match clnt_create (net s) with
  | None => put CreateError;; mret 1
  | Some n =>
      put_st (CState n (printed s));;
      result_1 ← get_number_1 garbage;
      (match result_1 with None => put CallFailed | Some _ => mret tt end);;
      r1 ← deref_result result_1;
      put (ClientId (b_pid r1) (b_num r1));;
      result_2 ← bakery_service_1 (Bakery (b_num r1) (b_pid r1) (b_res garbage));
      (match result_2 with None => put CallFailed | Some _ => mret tt end);;
      r2 ← deref_result result_2;
      put (Received (b_res r2));;
      mret 0
  end.

Definition bakery_client_main (argc : Z) (garbage : bakery) : M Z :=
  if decide (argc < 2) then put Usage;; mret 1 else bakery_client garbage.
End Client.
