(* ===== verification/BakeryRpcSpec.v ===== *)
(** * What the RPC layer guarantees *)

From S2P Require Import Prelude Letters Bakery2 Bakery2Spec BakeryRpc.
From stdpp Require Import options.
#[local] Set Default Proof Using "Type*".
Local Open Scope Z_scope.

(** ** XDR *)

Definition bakery_in_range (b : bakery) : Prop :=
  in_range PInt (b_num b) ∧ in_range PInt (b_pid b) ∧ in_range PChar (b_res b).

(** C12: what the filter has encoded, it decodes to the same structure, whatever was
    in the memory it decodes to, and it consumes exactly the bytes it wrote. *)
Theorem xdr_BAKERY_roundtrip {X : Type} `{!Xdr X, !XdrLaws X} (x : X) b b' x' :
  encodes x → bakery_in_range b → xdr_BAKERY x b = (true, b', x') →
  b' = b ∧ ∃ bs, wire x' = wire x ++ bs ∧
    ∀ y rest b0, decodes y → wire y = bs ++ rest →
      ∃ y', xdr_BAKERY y b0 = (true, b, y') ∧ wire y' = rest.
Proof.
  intros Hx (H1 & H2 & H3). unfold xdr_BAKERY, xdr_int, xdr_char. simpl.
  destruct (xdr_prim PInt x (b_num b)) as [[ok1 n] x1] eqn:E1.
  destruct (xdr_prim_law _ _ _ _ _ _ Hx H1 E1) as (-> & Hx1 & L1). destruct ok1; [|done]. simpl.
  destruct (xdr_prim PInt x1 (b_pid b)) as [[ok2 p] x2] eqn:E2.
  destruct (xdr_prim_law _ _ _ _ _ _ Hx1 H2 E2) as (-> & Hx2 & L2). destruct ok2; [|done]. simpl.
  destruct (xdr_prim PChar x2 (b_res b)) as [[ok3 r] x3] eqn:E3.
  destruct (xdr_prim_law _ _ _ _ _ _ Hx2 H3 E3) as (-> & Hx3 & L3). destruct ok3; [|done]. simpl.
  intros [= <- <-]. destruct b as [n p r]. simpl in *. split; [done|].
  destruct (L1 eq_refl) as (bs1 & W1 & D1), (L2 eq_refl) as (bs2 & W2 & D2),
    (L3 eq_refl) as (bs3 & W3 & D3).
  exists (bs1 ++ bs2 ++ bs3). split; [by rewrite W3, W2, W1, <- !(assoc app)|].
  intros y rest b0 Hy Hw. rewrite <- !(assoc app) in Hw.
  destruct (D1 y _ (b_num b0) Hy Hw) as (y1 & -> & Hy1 & Hw1). simpl.
  destruct (D2 y1 _ (b_pid b0) Hy1 Hw1) as (y2 & -> & Hy2 & Hw2). simpl.
  destruct (D3 y2 _ (b_res b0) Hy2 Hw2) as (y3 & -> & Hy3 & Hw3). simpl. by exists y3.
Qed.

(** A stream of big-endian 32-bit words. *)
Record stream := Stream { writing : bool; words : list Z }.

Definition be32 (v : Z) : list Z :=
  (λ k, Z.shiftr (v mod 2 ^ 32) k mod 256) <$> [24; 16; 8; 0].
Definition from_be32 (l : list Z) : Z := int32 (foldl (λ a b, a * 256 + b) 0 l).

#[export] Instance stream_xdr : Xdr stream := {|
  xdr_prim p s v :=
    if writing s then (true, v, Stream true (words s ++ be32 v))
    else if decide (4 ≤ length (words s))%nat
      then (true, from_be32 (take 4 (words s)), Stream false (drop 4 (words s)))
      else (false, v, s)
|}.

Lemma from_be32_be32 v : - 2 ^ 31 ≤ v < 2 ^ 31 → from_be32 (be32 v) = v.
Proof.
  intros Hv. unfold from_be32, be32. simpl. set (u := v mod 2 ^ 32).
  pose proof (Z.mod_pos_bound v (2 ^ 32) ltac:(lia)) as Hu. fold u in Hu.
  rewrite !Z.shiftr_div_pow2 by lia. change (2 ^ 0) with 1. change (2 ^ 8) with 256.
  change (2 ^ 16) with (256 * 256). change (2 ^ 24) with (256 * 256 * 256).
  rewrite Z.div_1_r, <- !Z.div_div by lia.
  assert (((((0 * 256 + u / 256 / 256 / 256 mod 256) * 256 + u / 256 / 256 mod 256) * 256 +
    u / 256 mod 256) * 256 + u mod 256) = u) as ->.
  { pose proof (Z.div_mod u 256). pose proof (Z.div_mod (u / 256) 256).
    pose proof (Z.div_mod (u / 256 / 256) 256). rewrite (Z.mod_small (u / 256 / 256 / 256)); [lia|].
    rewrite !Z.div_div by lia. split; [apply Z.div_pos; lia|apply Z.div_lt_upper_bound; lia]. }
  unfold int32, u. rewrite Zplus_mod_idemp_l, Z.mod_small by lia. lia.
Qed.

#[export] Instance stream_laws : XdrLaws stream.
Proof.
  refine {| encodes s := writing s = true; decodes s := writing s = false; wire := words |}.
  intros p x v ok v' x' Hx Hr. simpl. rewrite Hx. intros [= <- <- <-]. split; [done|]. split; [done|].
  intros _. exists (be32 v). split; [done|]. intros y rest v0 Hy Hw. rewrite Hy.
  assert (length (be32 v) = 4%nat) as Hl by done.
  rewrite decide_True by (rewrite Hw, length_app; lia).
  rewrite Hw, (take_app_length' _ _ 4), (drop_app_length' _ _ 4) by done.
  rewrite from_be32_be32; [by eexists|]. destruct p; unfold in_range in Hr; lia.
Defined.

(** ** The dispatcher of bakery2 *)

(** The dispatcher answers NULLPROC, refuses unknown procedures and arguments
    that cannot be decoded without touching the server, and otherwise runs the
    handler of the procedure on the decoded arguments and sends its result, or a
    system error; it exits when the arguments cannot be freed. *)
Theorem bakery2_dispatch {T : Type} `{!Transport T} (ticks : nat → Z) fuel (t : T) g :
  let '(ok, arg) := svc_getargs t (Bakery 0 0 0) in
  let reply r := if svc_sendreply t r then [SentResult r] else [SentSystemerr] in
  let exits := negb (svc_freeargs t) in
  (rq_proc t = 0 → bakery_prog_1 ticks fuel t g = Some (Ok (([SentVoid], false), g))) ∧
  (rq_proc t ≠ 0 → rq_proc t ≠ 1 → rq_proc t ≠ 2 →
    bakery_prog_1 ticks fuel t g = Some (Ok (([SentNoproc], false), g))) ∧
  (rq_proc t = 1 ∨ rq_proc t = 2 → ok = false →
    bakery_prog_1 ticks fuel t g = Some (Ok (([SentDecode], false), g))) ∧
  (∀ r g', rq_proc t = 1 → ok = true → get_number_1_svc arg g = Ok (r, g') →
    bakery_prog_1 ticks fuel t g = Some (Ok ((reply r, exits), g'))) ∧
  (∀ r g', rq_proc t = 2 → ok = true → bakery_service_1_svc ticks fuel arg g = Some (Ok (r, g')) →
    bakery_prog_1 ticks fuel t g = Some (Ok ((reply r, exits), g'))).
Proof.
  destruct (svc_getargs t (Bakery 0 0 0)) as [ok arg] eqn:Hargs. simpl.
  unfold bakery_prog_1, run_local. rewrite Hargs. split_and!.
  - intros Hp. by rewrite Hp.
  - intros H0 H1 H2. by rewrite !decide_False.
  - intros [Hp|Hp] ->; by rewrite Hp.
  - intros r g' Hp -> Hr. rewrite Hp. simpl. unfold mbind, lprog_bind, now. by rewrite Hr.
  - intros r g' Hp -> Hr. rewrite Hp. simpl. unfold mbind, lprog_bind. by rewrite Hr.
Qed.

(** ** [main] of the servers *)

Section SvcMain.
Context {W St T : Type} `{!Portmap W} (dispatch : T → lprog St (list sent * bool)).

(** Requests that are all answered without the server exiting. *)
Lemma svc_run_replies (reqs : list T) (f : T → list sent) g :
  (∀ t g, t ∈ reqs → ∃ g', dispatch t g = Some (Ok ((f t, false), g'))) →
  ∃ g', svc_run dispatch reqs g = Some (Ok ((f <$> reqs, false), g')).
Proof.
  revert g. induction reqs as [|t reqs IH]; intros g Hd; simpl; [by eexists|].
  destruct (Hd t g ltac:(set_solver)) as [g1 H1].
  destruct (IH g1) as [g2 H2]; [intros; apply Hd; set_solver|].
  exists g2. unfold mbind, lprog_bind. rewrite H1. by rewrite H2.
Qed.

(** The server handles requests only when it has created and registered both
    transports; otherwise it has written which step failed. Its status is always 1. *)
Theorem svc_main_cases (reqs : list T) w :
  let w0 := pmap_unset w in
  let '(ok1, w1) := svc_create Udp w0 in
  let '(ok2, w2) := svc_register Udp w1 in
  let '(ok3, w3) := svc_create Tcp w2 in
  let '(ok4, w4) := svc_register Tcp w3 in
  ∀ g status written replies w' g',
    svc_main dispatch reqs w g = Some (Ok ((status, written, replies, w'), g')) →
    status = 1 ∧
    if ok1 && ok2 && ok3 && ok4 then
      w' = w4 ∧ ∃ exited, svc_run dispatch reqs g = Some (Ok ((replies, exited), g')) ∧
        written = if exited then UnableToFree else SvcRunReturned
    else
      replies = [] ∧ g' = g ∧
      written = if negb ok1 then CannotCreate Udp else if negb ok2 then UnableToRegister Udp
        else if negb ok3 then CannotCreate Tcp else UnableToRegister Tcp.
Proof.
  unfold svc_main, mret, lprog_ret. simpl.
  destruct (svc_create Udp _) as [ok1 w1]. destruct (svc_register Udp w1) as [ok2 w2].
  destruct (svc_create Tcp w2) as [ok3 w3]. destruct (svc_register Tcp w3) as [ok4 w4].
  intros g status written replies w' g'.
  destruct ok1; simpl; [|intros; by simplify_eq].
  destruct ok2; simpl; [|intros; by simplify_eq].
  destruct ok3; simpl; [|intros; by simplify_eq].
  destruct ok4; simpl; [|intros; by simplify_eq].
  unfold mbind, lprog_bind. destruct (svc_run dispatch reqs g) as [[[[rs e] g1]|]|]; [|done..].
  intros. simplify_eq/=. split; [done|]. split; [done|]. by exists e.
Qed.
End SvcMain.

(** ** The client of bakery2 *)

(** [bakery_client] when both calls succeed. *)
Lemma bakery_client_ok {N : Type} `{!Network N} (garbage : bakery) (s : cstate N) n r1 n1 r2 n2 :
  clnt_create (net s) = Some n →
  clnt_call n 1 garbage (Bakery 0 0 0) = (true, r1, n1) →
  clnt_call n1 2 (Bakery (b_num r1) (b_pid r1) (b_res garbage)) (Bakery 0 0 0) = (true, r2, n2) →
  bakery_client garbage s =
    Ok (0, CState n2 (printed s ++ [ClientId (b_pid r1) (b_num r1); Received (b_res r2)])).
Proof.
  intros H1 H2 H3. unfold bakery_client, put, get_number_1, bakery_service_1, stub, mbind, prog_bind,
    get_st, put_st, modify. simpl. rewrite H1. simpl. rewrite H2. simpl. rewrite H3. simpl.
  by rewrite <- (assoc app).
Qed.

(** The client exits with status 1 when there is no connection, and otherwise
    dereferences NULL as soon as a call fails; when both calls succeed it asks for
    service with the index and ticket it was given and prints what it received. *)
Theorem bakery2_client {N : Type} `{!Network N} (garbage : bakery) (s : cstate N) :
  match clnt_create (net s) with
  | None => bakery_client garbage s = Ok (1, CState (net s) (printed s ++ [CreateError]))
  | Some n =>
      let '(ok1, r1, n1) := clnt_call n 1 garbage (Bakery 0 0 0) in
      let '(ok2, r2, n2) :=
        clnt_call n1 2 (Bakery (b_num r1) (b_pid r1) (b_res garbage)) (Bakery 0 0 0) in
      bakery_client garbage s =
        if ok1 && ok2 then
          Ok (0, CState n2 (printed s ++ [ClientId (b_pid r1) (b_num r1)] ++ [Received (b_res r2)]))
        else Fault NullDeref
  end.
Proof.
  unfold bakery_client, put, get_number_1, bakery_service_1, stub, mbind, prog_bind, get_st, put_st,
    modify. simpl.
  destruct (clnt_create (net s)) as [n|]; [|done]. simpl.
  destruct (clnt_call n 1 garbage (Bakery 0 0 0)) as [[[] r1] n1]; simpl.
  - destruct (clnt_call n1 2 _ _) as [[[] r2] n2]; simpl; [|done]. by rewrite <- (assoc app).
  - by destruct (clnt_call n1 2 _ _) as [[[] r2] n2].
Qed.

(** ** Clients and server together *)

(** A network that is the server itself: a call is dispatched, and it fails when
    nothing, or no result, comes back before the time is up. *)
Section Loopback.
Context (ticks : nat → Z) (fuel : nat).

Record request := Request { rq : Z; rq_arg : bakery }.

#[export] Instance request_transport : Transport request := {|
  rq_proc := rq;
  svc_getargs r _ := (true, rq_arg r);
  svc_sendreply _ _ := true;
  svc_freeargs _ := true
|}.

Definition loopback_call (g : server) (proc : Z) (argp res : bakery) : bool * bakery * server :=
  match bakery_prog_1 ticks fuel (Request proc argp) g with
  | Some (Ok (([SentResult r], _), g')) => (true, r, g')
  | Some (Ok (_, g')) => (false, res, g')
  | _ => (false, res, g)
  end.
End Loopback.

Definition loopback (ticks : nat → Z) (fuel : nat) : Network server :=
  {| clnt_create g := Some g; clnt_call := loopback_call ticks fuel |}.

Section Together.
Context (ticks : nat → Z).
Hypothesis clock_mono : ∀ n m, (n ≤ m)%nat → ticks n ≤ ticks m.
Hypothesis clock_runs : ∀ n, ∃ m, CLOCKS_PER_SEC ≤ ticks m - ticks n.

(** [n] clients, one after the other, with a time limit of [fuel]. *)
Fixpoint run_clients (fuel : nat) (garbage : bakery) (n : nat) : prog (cstate server) unit :=
  match n with
  | O => mret tt
  | S n => bakery_client (Network0 := loopback ticks fuel) garbage;; run_clients fuel garbage n
  end.

(** No client is between its two calls. *)
Record quiet (g : server) : Prop := {
  qu_idle : idle g;
  qu_zero : ∀ i v, number g !! i = Some v → v = 0;
  qu_num : num g = Z.of_nat (length (out g))
}.

Definition greeting (n : nat) : list line := [ClientId (Z.of_nat n) 1; Received (letter (Z.of_nat n))].

Lemma init_quiet : quiet init.
Proof.
  split; [exact init_idle| |done]. intros i v Hv.
  apply (id_tickets _ init_idle) in Hv. simpl in Hv. lia.
Qed.

Lemma one_client garbage g pr :
  quiet g → (length (out g) < 32)%nat →
  ∃ f0 g', quiet g' ∧ length (out g') = S (length (out g)) ∧ ∀ f, (f0 ≤ f)%nat →
    bakery_client (Network0 := loopback ticks f) garbage (CState g pr) =
      Ok (0, CState g' (pr ++ greeting (length (out g)))).
Proof.
  intros [Hid Hz Hn] Hlt.
  destruct (get_number_idle garbage g Hid ltac:(lia)) as (r1 & g1 & Hr1 & Hid1 & Hn1 & Ho1).
  destruct (proj1 (get_number_cases g garbage (id_number _ Hid) (id_choosing _ Hid)
    ltac:(pose proof (id_num _ Hid); lia)
    ltac:(intros i v Hv; apply Hz in Hv; lia)) ltac:(lia)) as (m & (_ & Hm0 & Hm) & Hr1').
  assert (m = 0) as -> by (destruct Hm as [|(i & Hi)]; [done|by apply Hz in Hi]).
  rewrite Hr1 in Hr1'. injection Hr1' as -> Hg1.
  destruct (service_ends ticks clock_mono clock_runs (Bakery (0 + 1) (num g) (b_res garbage)) g1
    (id_number _ Hid1) (id_zero _ Hid1)) as (f0 & k' & Hs & _); [simpl; lia|].
  exists f0, (served (Bakery (0 + 1) (num g) (b_res garbage)) k' g1). split; [split|split].
  - apply served_idle; [done|simpl; lia].
  - intros i v. unfold served. rewrite Hg1. cbn [number b_pid]. rewrite insert_insert_eq, lookup_insert_Some.
    intros [[_ <-]|[_ Hv]]; [done|by eapply Hz].
  - unfold served. cbn [num out]. rewrite length_app, Hn1, Ho1. simpl. lia.
  - unfold served. cbn [out]. rewrite length_app, Ho1. simpl. lia.
  - intros f Hf. unfold greeting. rewrite <- Hn.
    rewrite (bakery_client_ok (Network0 := loopback ticks f) garbage (CState g pr) g
      (Bakery (0 + 1) (num g) 0) g1 (Bakery 0 0 (c g1))
      (served (Bakery (0 + 1) (num g) (b_res garbage)) k' g1)).
    + rewrite (id_c _ Hid1), Ho1, Hn. done.
    + done.
    + simpl. unfold loopback_call, bakery_prog_1, run_local. simpl. unfold mbind, lprog_bind, now.
      by rewrite Hr1.
    + simpl. unfold loopback_call, bakery_prog_1, run_local. simpl. unfold mbind, lprog_bind.
      by rewrite Hs.
Qed.

Lemma run_clients_quiet garbage n g pr :
  quiet g → (length (out g) + n ≤ 32)%nat →
  ∃ f0, ∀ f, (f0 ≤ f)%nat → ∃ g', run_clients f garbage n (CState g pr) =
    Ok (tt, CState g' (pr ++ concat (greeting <$> seq (length (out g)) n))).
Proof.
  revert g pr. induction n as [|n IH]; intros g pr Hq Hn.
  { exists 0%nat. intros f _. exists g. simpl. by rewrite app_nil_r. }
  destruct (one_client garbage g pr Hq ltac:(lia)) as (f1 & g1 & Hq1 & Ho1 & H1).
  destruct (IH g1 (pr ++ greeting (length (out g))) Hq1 ltac:(lia)) as (f2 & H2).
  exists (f1 + f2)%nat. intros f Hf. destruct (H2 f ltac:(lia)) as (g2 & Hg2). exists g2.
  cbn [run_clients]. unfold mbind, prog_bind. rewrite H1, Hg2 by lia.
  by rewrite Ho1, <- (assoc app).
Qed.

(** C30: clients that run one after the other against the server, the calls going
    through stubs and dispatcher, print index 0, 1, .. with ticket 1 and receive
    the letters of the alphabet in order, up to 32 of them. *)
Theorem bakery2_end_to_end garbage n :
  (n ≤ 32)%nat →
  ∃ f0, ∀ f, (f0 ≤ f)%nat → ∃ g, run_clients f garbage n (CState init []) =
    Ok (tt, CState g (concat (greeting <$> seq 0 n))).
Proof. intros Hn. apply (run_clients_quiet garbage n init [] init_quiet). simpl. lia. Qed.
End Together.

(** ** The theorems at work *)

Lemma xdr_BAKERY_roundtrip_witness :
  xdr_BAKERY (Stream true []) (Bakery 3 (-1) 97) =
    (true, Bakery 3 (-1) 97, Stream true [0; 0; 0; 3; 255; 255; 255; 255; 0; 0; 0; 97]) ∧
  ∃ bs, words (Stream true [0; 0; 0; 3; 255; 255; 255; 255; 0; 0; 0; 97]) = words (Stream true []) ++ bs ∧
    ∀ y rest b0, writing y = false → words y = bs ++ rest →
      ∃ y', xdr_BAKERY y b0 = (true, Bakery 3 (-1) 97, y') ∧ words y' = rest.
Proof.
  split; [reflexivity|].
  refine (proj2 (xdr_BAKERY_roundtrip (Stream true []) (Bakery 3 (-1) 97) (Bakery 3 (-1) 97)
    (Stream true [0; 0; 0; 3; 255; 255; 255; 255; 0; 0; 0; 97]) eq_refl _ eq_refl)).
  split_and!; simpl; lia.
Defined.

Lemma bakery2_dispatch_witness :
  bakery_prog_1 tenths 5 (Request 7 (Bakery 0 0 0)) init = Some (Ok (([SentNoproc], false), init)).
Proof.
  exact (proj1 (proj2 (bakery2_dispatch tenths 5 (Request 7 (Bakery 0 0 0)) init))
    ltac:(discriminate) ltac:(discriminate) ltac:(discriminate)).
Defined.

Lemma bakery2_end_to_end_witness :
  ∃ f0, ∀ f, (f0 ≤ f)%nat → ∃ g, run_clients tenths f (Bakery 9 9 9) 2 (CState init []) =
    Ok (tt, CState g [ClientId 0 1; Received 97; ClientId 1 1; Received 98]).
Proof.
  refine (bakery2_end_to_end tenths tenths_mono tenths_runs (Bakery 9 9 9) 2 _). lia.
Defined.
