(* ===== verification/Bakery1Rpc.v ===== *)
(** * The clients of the multi-threaded bakery server (3/proc/bakery1)

    The stubs and the client program, whose calls are points where it waits for
    the network; the server that is called; and the two put together over UDP, where
    messages can be lost, reordered and, when no reply comes in time, sent again. *)

From S2P Require Import Prelude Bakery2 BakeryRpc BakeryRpcSpec Bakery1.
From stdpp Require Import options.
Local Open Scope Z_scope.

Abbreviation message := BakeryRpc.line.

(** ** The program of a client *)

(** What is left of a client's run. *)
Inductive client (A : Type) :=
  | Return (a : A)
  | Create (k : bool → client A)       (* clnt_create: did it succeed? *)
  | Print (l : message) (k : client A)
  | Call (proc : Z) (argp : bakery) (k : option bakery → client A)
  | Crash (f : fault).
Arguments Return {A} a.
Arguments Create {A} k.
Arguments Print {A} l k.
Arguments Call {A} proc argp k.
Arguments Crash {A} f.

#[export] Instance client_ret : MRet client := λ A, Return.
#[export] Instance client_bind : MBind client := λ A B f,
  fix go (p : client A) : client B :=
  match p with
  | Return a => f a
  | Create k => Create (λ b, go (k b))
  | Print l k => Print l (go k)
  | Call proc argp k => Call proc argp (λ r, go (k r))
  | Crash x => Crash x
  end.

(** The stubs of bakery_clnt.c: NULL when the call fails. *)
Definition get_number_1 (argp : bakery) : client (option bakery) := Call 1 argp Return.
Definition bakery_wait_1 (argp : bakery) : client (option bakery) := Call 2 argp Return.
Definition bakery_service_1 (argp : bakery) : client (option bakery) := Call 3 argp Return.

Definition say (l : message) : client unit := Print l (Return tt).

Definition perror_null (r : option bakery) : client unit :=
  match r with None => say CallFailed | Some _ => Return tt end.

(** [result->field]. *)
Definition deref (r : option bakery) : client bakery :=
  match r with Some b => Return b | None => Crash NullDeref end.

(** [bakery_prog_1] of bakery_client.c and the [exit] that follows; [garbage] is what
    the argument structures hold, which are not initialised. *)
Definition bakery1_client (garbage : bakery) : client Z :=
  created ← Create Return;
  if negb created then say CreateError;; Return 1
  else
    result_1 ← get_number_1 garbage;
    perror_null result_1;;
    r1 ← deref result_1;
    say (ClientId (b_pid r1) (b_num r1));;
    let bakery_wait_1_arg := Bakery (b_num r1) (b_pid r1) (b_res garbage) in
    result_2 ← bakery_wait_1 bakery_wait_1_arg;
    perror_null result_2;;
    let bakery_service_1_arg :=
      Bakery (b_num bakery_wait_1_arg) (b_pid bakery_wait_1_arg) (b_res garbage) in
    result_3 ← bakery_service_1 bakery_service_1_arg;
    perror_null result_3;;
    r3 ← deref result_3;
    say (Received (b_res r3));;
    Return 0.

Definition bakery1_main (argc : Z) (garbage : bakery) : client Z :=
  if decide (argc < 2) then say Usage;; Return 1 else bakery1_client garbage.

(** Running a client against a network that answers its calls at once. *)
Fixpoint exec {N A : Type} `{!Network N} (p : client A) : prog (cstate N) A :=
  match p with
  | Return a => mret a
  | Create k =>
      s ← get_st;
      match clnt_create (net s) with
      | None => exec (k false)
      | Some n => put_st (CState n (printed s));; exec (k true)
      end
  | Print l k => put l;; exec k
  | Call proc argp k => r ← stub proc argp; exec (k r)
  | Crash f => crash f
  end.

(** ** The server that is called *)

(** The handlers up to their first step; the reply comes when they have ended. *)
Section Enter.
Context (cid : nat).
Abbreviation handler := (bakery → lprog sys (option bakery)).

Definition enter (d : dpc) (s : sys) : sys :=
  Sys (glob s) (threads s) (next_tid s) d cid (clients s) (out s).

(** [int ind = num++, max = 0]. *)
Definition enter_get_number : handler := λ _ s,
  Some (Ok (None, set_glob (set_num (num (glob s) + 1) (glob s)) (enter (DChoose (num (glob s))) s))).
Definition enter_wait : handler := λ argp s,
  Some (Ok (None, enter (DAttrInit (b_pid argp) (b_num argp)) s)).
Definition enter_service : handler := λ argp s,
  Some (Ok (None, enter (DAttrDestroy (b_pid argp) (b_num argp)) s)).

(** [svc_run], single threaded, hands the next request to the dispatcher. *)
Definition take_request (proc : Z) (argp : bakery) (s : sys) : option sys :=
  match disp s with
  | DIdle =>
      match bakery1_prog_1 enter_get_number enter_wait enter_service (Request proc argp) s with
      | Some (Ok (_, s')) => Some s'
      | _ => None
      end
  | _ => None
  end.
End Enter.

(** The static [result] of the handler that has just ended: each sets the fields it
    sets and the others stay 0. *)
Definition result_of (cl : cpc) : bakery :=
  match cl with
  | CStart => Bakery 0 0 0
  | CTicket pid n => Bakery n pid 0
  | CWaiting _ _ => Bakery 0 0 0
  | CServed _ _ ch => Bakery 0 0 ch
  end.

Definition reply_to (cid : nat) (s : sys) : option bakery := result_of <$> clients s !! cid.

(** ** Clients and server over UDP *)

(** A client: what is left of its program and what it has printed. *)
Record peer := Peer { pr : client Z; said : list message }.

(** A step of a client that is not a call. *)
Definition local_step (ok : bool) (p : peer) : option peer :=
  match pr p with
  | Create k => Some (Peer (k ok) (said p))
  | Print l k => Some (Peer k (said p ++ [l]))
  | _ => None
  end.

(** The reply to the call a client is waiting in. *)
Definition answer (r : option bakery) (p : peer) : peer :=
  match pr p with Call _ _ k => Peer (k r) (said p) | _ => p end.

(** The handler has ended and the dispatcher is back in [take_request]. *)
Definition replied (s : sys) : bool := match disp s with DIdle => true | _ => false end.

(** A request and a reply carry the client and the number of its call ([xid]). *)
Record request_msg := ReqMsg { q_cid : nat; q_xid : nat; q_proc : Z; q_arg : bakery }.
Record reply_msg := RepMsg { p_cid : nat; p_xid : nat; p_res : option bakery }.

Record upeer := UPeer { up : peer; xid : nat }.

Record usys := USys {
  userver : sys;
  ucur : nat;                    (* the xid of the call being handled *)
  upeers : list upeer;
  requests : list request_msg;   (* datagrams under way *)
  replies : list reply_msg
}.

Definition uinit (n : nat) (garbage : bakery) : usys :=
  USys (init n) 0 (replicate n (UPeer (Peer (bakery1_client garbage) []) 0)) [] [].

Inductive ulabel :=
  | ULocal (cid : nat) (ok : bool)
  | USend (cid : nat)              (* send the request of the call, or send it again *)
  | UTimeout (cid : nat)           (* the call fails *)
  | UAccept (i : nat)              (* datagram [i] reaches the server *)
  | UReceive (i : nat)             (* reply [i] reaches its client *)
  | ULoseRequest (i : nat)
  | ULoseReply (i : nat)
  | UDisp (ok : bool)
  | UThread (tid : nat).

(** The end of a call at the client; the next one has the next number. *)
Definition finish (r : option bakery) (p : upeer) : upeer :=
  UPeer (answer r (up p)) (S (xid p)).

(** A reply to an earlier call is ignored. *)
Definition receive (m : reply_msg) (p : upeer) : upeer :=
  if decide (xid p = p_xid m) then finish (p_res m) p else p.

Definition set_upeers v s := USys (userver s) (ucur s) v (requests s) (replies s).

Definition ustep (s : usys) (l : ulabel) : option (outcome usys) :=
  match l with
  | ULocal cid ok =>
      p ← upeers s !! cid;
      p' ← local_step ok (up p);
      Some (Ok (set_upeers (<[cid := UPeer p' (xid p)]> (upeers s)) s))
  | USend cid =>
      p ← upeers s !! cid;
      match pr (up p) with
      | Call proc argp _ =>
          Some (Ok (USys (userver s) (ucur s) (upeers s)
            (requests s ++ [ReqMsg cid (xid p) proc argp]) (replies s)))
      | _ => None
      end
  | UTimeout cid =>
      p ← upeers s !! cid;
      match pr (up p) with
      | Call _ _ _ => Some (Ok (set_upeers (<[cid := finish None p]> (upeers s)) s))
      | _ => None
      end
  | UAccept i =>
      m ← requests s !! i;
      s' ← take_request (q_cid m) (q_proc m) (q_arg m) (userver s);
      Some (Ok (USys s' (q_xid m) (upeers s) (delete i (requests s)) (replies s)))
  | UReceive i =>
      m ← replies s !! i;
      Some (Ok (USys (userver s) (ucur s) (alter (receive m) (p_cid m) (upeers s))
        (requests s) (delete i (replies s))))
  | ULoseRequest i =>
      _ ← requests s !! i;
      Some (Ok (USys (userver s) (ucur s) (upeers s) (delete i (requests s)) (replies s)))
  | ULoseReply i =>
      _ ← replies s !! i;
      Some (Ok (USys (userver s) (ucur s) (upeers s) (requests s) (delete i (replies s))))
  | UDisp ok =>
      r ← dispatcher ok (userver s);
      Some (s' ← r;
        Ok (USys s' (ucur s) (upeers s) (requests s)
          (if replied s' then replies s ++ [RepMsg (cur s') (ucur s) (reply_to (cur s') s')]
           else replies s)))
  | UThread tid =>
      r ← step (userver s) (LThread tid);
      Some (s' ← r; Ok (USys s' (ucur s) (upeers s) (requests s) (replies s)))
  end.

Definition usteps (s s' : usys) : Prop := ∃ l, ustep s l = Some (Ok s').
Definition ureachable (n : nat) (garbage : bakery) (s : usys) : Prop :=
  rtc usteps (uinit n garbage) s.

Fixpoint urun (s : usys) (ls : list ulabel) : option (outcome usys) :=
  match ls with
  | [] => Some (Ok s)
  | l :: ls =>
      match ustep s l with
      | Some (Ok s') => urun s' ls
      | r => r
      end
  end.
