(* ===== verification/Bakery1RpcSpec.v ===== *)
(** * What the clients of the multi-threaded bakery server get

    The client program against any network, and clients and server together over
    UDP when no request reaches the dispatcher twice and no call times out: the
    server behaves as in [Bakery1], and every client prints what it should. *)

From S2P Require Import Prelude Letters Bakery2 BakeryRpc BakeryRpcSpec.
From S2P Require Import Bakery1 Bakery1Inv Bakery1Spec Bakery1Tickets Bakery1Rpc.
From stdpp Require Import options.
Local Open Scope Z_scope.

(** ** The points of the client program *)

Section Points.
Context (garbage : bakery).

Definition connected : peer := Peer (match bakery1_client garbage with Create k => k true | p => p end) [].
Definition refused : peer := Peer (match bakery1_client garbage with Create k => k false | p => p end) [].
Definition next (p : peer) : peer := default p (local_step true p).
Definition ticketed (pid n : Z) : peer := answer (Some (Bakery n pid 0)) connected.
Definition queued (pid n : Z) : peer := answer (Some (Bakery 0 0 0)) (next (ticketed pid n)).
Definition received (pid n ch : Z) : peer := answer (Some (Bakery 0 0 ch)) (queued pid n).

(** Where a client can be when the server has handled its calls up to [cl]. *)
Inductive stage : cpc → peer → Prop :=
  | st_start : stage CStart (Peer (bakery1_client garbage) [])
  | st_refused : stage CStart refused
  | st_exit : stage CStart (next refused)
  | st_call1 : stage CStart connected
  | st_ticket pid n : stage (CTicket pid n) (ticketed pid n)
  | st_call2 pid n : stage (CTicket pid n) (next (ticketed pid n))
  | st_call3 pid n : stage (CWaiting pid n) (queued pid n)
  | st_letter pid n ch : stage (CServed pid n ch) (received pid n ch)
  | st_done pid n ch : stage (CServed pid n ch) (next (received pid n ch)).

(** The calls handled so far. *)
Definition calls (cl : cpc) : nat :=
  match cl with CStart => 0 | CTicket _ _ => 1 | CWaiting _ _ => 2 | CServed _ _ _ => 3 end.

(** What one handler does to the record of its client. *)
Inductive next_cl : cpc → cpc → Prop :=
  | nx_ticket pid n : next_cl CStart (CTicket pid n)
  | nx_wait pid n : next_cl (CTicket pid n) (CWaiting pid n)
  | nx_served pid n ch : next_cl (CWaiting pid n) (CServed pid n ch).

Definition at_call (p : peer) : Prop := ∃ proc argp k, pr p = Call proc argp k.

Lemma stage_local cl ok p p' : stage cl p → local_step ok p = Some p' → stage cl p' ∧ ¬ at_call p.
Proof.
  intros Hst Hl. split; [|intros (? & ? & ? & Hc); unfold local_step in Hl; by rewrite Hc in Hl].
  destruct Hst; try done; injection Hl as <-; try constructor.
  destruct ok; constructor.
Qed.

(** The server and its model agree on what a call is: accepting it is [accept]. *)
Lemma stage_accept cl p proc argp k cid s s' :
  stage cl p → pr p = Call proc argp k → clients s !! cid = Some cl →
  take_request cid proc argp s = Some s' → accept cid s = Some (Ok s').
Proof.
  intros Hst Hp Hcl. unfold take_request, accept. rewrite Hcl.
  destruct (disp s); try done.
  destruct Hst; try done; simpl in Hp; simplify_eq; intros Hs; injection Hs as <-; reflexivity.
Qed.

Lemma stage_answer cl cl' p :
  stage cl p → at_call p → next_cl cl cl' → stage cl' (answer (Some (result_of cl')) p).
Proof.
  intros Hst (proc & argp & k & Hp) Hnx. destruct Hnx; inversion Hst; subst; try done; constructor.
Qed.

Lemma next_calls cl cl' : next_cl cl cl' → calls cl' = S (calls cl).
Proof. by destruct 1. Qed.

Lemma stage_no_crash cl p f : stage cl p → pr p ≠ Crash f.
Proof. by destruct 1. Qed.

Lemma stage_said cl p :
  stage cl p → pr p = Return 0 →
  ∃ pid n ch, cl = CServed pid n ch ∧ said p = [ClientId pid n; Received ch].
Proof. intros Hst Hp. destruct Hst; try done. by exists pid, n, ch. Qed.

(** What a client has printed as its index and ticket is what the server handed to it. *)
Lemma stage_ticket cl p pid n : stage cl p → ClientId pid n ∈ said p → ticket_of cl = Some (pid, n).
Proof. intros Hst Hin. destruct Hst; simpl in *; set_solver. Qed.

Lemma said_answer r p : said (answer r p) = said p.
Proof. unfold answer. by destruct (pr p). Qed.
End Points.

(** ** What a step of the dispatcher does to the clients *)

Definition busy (s : sys) : Prop :=
  match disp s with DIdle | DExited _ => False | _ => True end.

Lemma dispatcher_clients ok s s' :
  cur_ok s → dispatcher ok s = Some (Ok s') →
  busy s ∧ cur s' = cur s ∧
  if replied s'
  then ∃ cl cl', clients s !! cur s = Some cl ∧ next_cl cl cl' ∧
         clients s' = <[cur s := cl']> (clients s)
  else clients s' = clients s.
Proof.
  unfold cur_ok, busy, dispatcher, get_number_1_svc, bakery_wait_1_svc, bakery_service_1_svc, mbind,
    outcome_bind.
  intros Hcur Hs. destruct (disp s); try done; repeat case_match; simplify_eq/=;
    (split; [done|]); (split; [done|]); try done.
  - eexists _, _. split; [exact Hcur|]. split; [constructor|done].
  - eexists _, _. split; [exact (proj1 Hcur)|]. split; [constructor|done].
  - eexists _, _. split; [exact Hcur|]. split; [constructor|done].
Qed.

Lemma svc_run_clients cid proc argp s s' :
  take_request cid proc argp s = Some s' → clients s' = clients s.
Proof.
  unfold take_request, bakery1_prog_1, run_local. destruct (disp s); [|done..].
  simpl. intros. repeat (case_decide; simplify_eq/=; [done|]). by simplify_eq/=.
Qed.

Lemma accept_busy cid s s' :
  accept cid s = Some (Ok s') → cur s' = cid ∧ disp s = DIdle.
Proof. unfold accept. intros. repeat case_match; by simplify_eq/=. Qed.

Lemma thread_disp tid s s' :
  step s (LThread tid) = Some (Ok s') →
  disp s' = disp s ∧ cur s' = cur s ∧ clients s' = clients s.
Proof.
  simpl. intros Hs. repeat case_match; simplify_eq.
  apply outcome_bind_Ok in Hs as ([[]] & _ & Hs). by simplify_eq/=.
Qed.

Lemma Forall_delete_idx {B} (P : B → Prop) l i : Forall P l → Forall P (delete i l).
Proof.
  intros. rewrite delete_take_drop. apply Forall_app.
  split; [by apply Forall_take|by apply Forall_drop].
Qed.

Lemma alter_lookup_insert {B} (f : B → B) (l : list B) i x :
  l !! i = Some x → alter f i l = <[i := f x]> l.
Proof. intros Hx. rewrite list_insert_alter. apply list_alter_ext; naive_solver. Qed.

(** ** UDP runs in which no request is handled twice and no call times out *)

Definition key (m : request_msg) : nat * nat := (q_cid m, q_xid m).

(** [A] collects the requests the dispatcher has been given. *)
Inductive once_step : usys * gset (nat * nat) → usys * gset (nat * nat) → Prop :=
  | once_accept s A i m s' :
      requests s !! i = Some m → key m ∉ A → ustep s (UAccept i) = Some (Ok s') →
      once_step (s, A) (s', {[key m]} ∪ A)
  | once_other s A l s' :
      (∀ i, l ≠ UAccept i) → (∀ cid, l ≠ UTimeout cid) → ustep s l = Some (Ok s') →
      once_step (s, A) (s', A).

Definition once (n : nat) (garbage : bakery) (s : usys) (A : gset (nat * nat)) : Prop :=
  rtc once_step (uinit n garbage, ∅) (s, A).

(** Running a schedule of that kind. *)
Fixpoint once_run (s : usys) (A : gset (nat * nat)) (ls : list ulabel) :
    option (usys * gset (nat * nat)) :=
  match ls with
  | [] => Some (s, A)
  | UTimeout _ :: _ => None
  | UAccept i as l :: ls =>
      m ← requests s !! i;
      if decide (key m ∈ A) then None
      else match ustep s l with Some (Ok s') => once_run s' ({[key m]} ∪ A) ls | _ => None end
  | l :: ls => match ustep s l with Some (Ok s') => once_run s' A ls | _ => None end
  end.

Lemma once_run_rtc ls s A x : once_run s A ls = Some x → rtc once_step (s, A) x.
Proof.
  revert s A. induction ls as [|l ls IH]; intros s A Hr; simpl in Hr; [by simplify_eq|].
  destruct l; try done;
    try (destruct (ustep s _) as [[s'|]|] eqn:Hs; [|done..];
      eapply rtc_l; [by refine (once_other _ _ _ _ _ _ Hs)|by apply IH]).
  apply bind_Some in Hr as (m & Hm & Hr). case_decide; [done|].
  destruct (ustep s _) as [[s'|]|] eqn:Hs; [|done..]. eapply rtc_l; [|by apply IH].
  by eapply once_accept.
Qed.

Section Once.
Context (n : nat) (garbage : bakery).

(** A client has got the replies to the calls the server has handled, or the last of
    them has not reached it. *)
Definition behind (cl : cpc) (u : upeer) : Prop :=
  S (xid u) = calls cl ∧ at_call (up u) ∧ stage garbage cl (answer (Some (result_of cl)) (up u)).

Definition upeer_ok (cl : cpc) (u : upeer) : Prop :=
  (xid u = calls cl ∧ stage garbage cl (up u)) ∨ behind cl u.

Definition request_ok (s : usys) (m : request_msg) : Prop :=
  ∃ u, upeers s !! q_cid m = Some u ∧ (q_xid m ≤ xid u)%nat ∧
    (q_xid m = xid u → ∃ k, pr (up u) = Call (q_proc m) (q_arg m) k).

Definition reply_ok (s : usys) (m : reply_msg) : Prop :=
  ∃ u cl, upeers s !! p_cid m = Some u ∧ clients (userver s) !! p_cid m = Some cl ∧
    (p_xid m ≤ xid u)%nat ∧ (p_xid m = xid u → behind cl u ∧ p_res m = Some (result_of cl)).

Definition handling_ok (s : usys) (A : gset (nat * nat)) : Prop :=
  busy (userver s) → ∃ cl u, clients (userver s) !! cur (userver s) = Some cl ∧
    upeers s !! cur (userver s) = Some u ∧ ucur s = calls cl ∧ xid u = calls cl ∧
    at_call (up u) ∧ stage garbage cl (up u) ∧ (cur (userver s), ucur s) ∈ A.

Record once_inv (s : usys) (A : gset (nat * nat)) : Prop := {
  oi_server : reachable n (userver s);
  oi_peers : Forall2 upeer_ok (clients (userver s)) (upeers s);
  oi_requests : Forall (request_ok s) (requests s);
  oi_replies : Forall (reply_ok s) (replies s);
  oi_handled : ∀ cid cl x, clients (userver s) !! cid = Some cl → (x < calls cl)%nat → (cid, x) ∈ A;
  oi_handling : handling_ok s A
}.

Lemma once_inv_init : once_inv (uinit n garbage) ∅.
Proof.
  split; simpl; try done.
  - apply rtc_refl.
  - apply Forall2_replicate. left. split; [done|constructor].
  - intros cid cl x [-> _]%lookup_replicate_1. simpl. lia.
  - intros [].
Qed.

(** *** Steps of a client *)

(** A client that moves on: what it does not have to say about the messages. *)
Lemma once_client s A cid cl u u' :
  once_inv s A → clients (userver s) !! cid = Some cl → upeers s !! cid = Some u →
  (¬ at_call (up u) ∨ behind cl u) → upeer_ok cl u' → (xid u ≤ xid u')%nat →
  (xid u' = xid u → ¬ at_call (up u)) →
  once_inv (set_upeers (<[cid := u']> (upeers s)) s) A.
Proof.
  intros [Hr Hp Hq Hm Ha Hh] Hcl Hu Hidle Hok Hle Heq. split; simpl; try done.
  - rewrite <- (list_insert_id (clients (userver s)) cid cl) by done. by apply Forall2_insert.
  - eapply Forall_impl; [exact Hq|]. intros m (v & Hv & Hx & Hc). unfold request_ok. simpl.
    destruct (decide (cid = q_cid m)) as [->|]; [|rewrite list_lookup_insert_ne by done; by exists v].
    assert (v = u) as -> by congruence.
    exists u'. rewrite list_lookup_insert_eq by (by eapply lookup_lt_Some). split; [done|].
    split; [lia|]. intros Hxe. assert (xid u' = xid u) as He by lia.
    destruct (Hc ltac:(lia)) as [k Hk]. destruct (Heq He). by eexists _, _, _.
  - eapply Forall_impl; [exact Hm|]. intros m (v & cl' & Hv & Hcl' & Hx & Hc). unfold reply_ok. simpl.
    destruct (decide (cid = p_cid m)) as [->|]; [|rewrite list_lookup_insert_ne by done; by exists v, cl'].
    assert (v = u) as -> by congruence. assert (cl' = cl) as -> by congruence.
    exists u', cl. rewrite list_lookup_insert_eq by (by eapply lookup_lt_Some). split_and!; [done..|lia|].
    intros Hxe. assert (xid u' = xid u) as He by lia.
    destruct (Hc ltac:(lia)) as [(_ & Hcall & _) _]. by destruct (Heq He).
  - intros Hb. destruct (Hh Hb) as (cl' & v & Hcl' & Hv & ? & Hxv & Hcall & ? & ?).
    destruct (decide (cid = cur (userver s))) as [->|]; simpl in *.
    + assert (v = u) as -> by congruence. assert (cl' = cl) as -> by congruence.
      destruct Hidle as [Hn|[Hx _]]; [by destruct Hn|lia].
    + exists cl', v. rewrite list_lookup_insert_ne by done. done.
Qed.

Lemma once_peer s A cid u :
  once_inv s A → upeers s !! cid = Some u →
  ∃ cl, clients (userver s) !! cid = Some cl ∧ upeer_ok cl u.
Proof. intros Hi Hu. eapply Forall2_lookup_r; [apply (oi_peers _ _ Hi)|done]. Qed.

Lemma once_local s A cid ok s' :
  once_inv s A → ustep s (ULocal cid ok) = Some (Ok s') → once_inv s' A.
Proof.
  intros Hi Hs. simpl in Hs. destruct (upeers s !! cid) as [u|] eqn:Hu; [|done]. simpl in Hs.
  destruct (local_step ok (up u)) as [p'|] eqn:Hl; [|done]. simplify_eq/=.
  destruct (once_peer _ _ _ _ Hi Hu) as (cl & Hcl & [[Hx Hst]|(_ & (? & ? & ? & Hc) & _)]);
    [|unfold local_step in Hl; by rewrite Hc in Hl].
  destruct (stage_local _ _ _ _ _ Hst Hl) as [Hst' Hnc].
  apply (once_client s A cid cl u); simpl; [done..|by left| |done|done]. left. done.
Qed.

Lemma once_receive s A i s' :
  once_inv s A → ustep s (UReceive i) = Some (Ok s') → once_inv s' A.
Proof.
  intros Hi Hs. simpl in Hs. destruct (replies s !! i) as [m|] eqn:Hm; [|done]. simplify_eq/=.
  destruct (proj1 (Forall_lookup _ _) (oi_replies _ _ Hi) _ _ Hm) as (u & cl & Hu & Hcl & Hx & Hc).
  assert (once_inv (set_upeers (alter (receive m) (p_cid m) (upeers s)) s) A) as [R1 R2 R3 R4 R5 R6].
  { rewrite (alter_lookup_insert _ _ _ u) by done. unfold receive. case_decide as E.
    - destruct (Hc (eq_sym E)) as [Hb Hres]. rewrite Hres.
      apply (once_client s A _ cl u); simpl; [done..|by right| |lia|lia].
      left. destruct Hb as (? & _ & ?). done.
    - destruct s. unfold set_upeers. simpl in *. by rewrite list_insert_id. }
  split; try done. by apply Forall_delete_idx.
Qed.

(** *** Messages sent and lost *)

Lemma once_send s A cid s' :
  once_inv s A → ustep s (USend cid) = Some (Ok s') → once_inv s' A.
Proof.
  intros [R1 R2 R3 R4 R5 R6] Hs. simpl in Hs. destruct (upeers s !! cid) as [u|] eqn:Hu; [|done].
  simpl in Hs. destruct (pr (up u)) eqn:Hp; try done. simplify_eq/=. split; try done. simpl.
  apply Forall_app. split; [done|]. apply Forall_singleton. exists u. simpl. eauto.
Qed.

Lemma once_lose s A s' i :
  once_inv s A →
  ustep s (ULoseRequest i) = Some (Ok s') ∨ ustep s (ULoseReply i) = Some (Ok s') → once_inv s' A.
Proof.
  intros [R1 R2 R3 R4 R5 R6] [Hs|Hs]; simpl in Hs; apply bind_Some in Hs as (m & _ & Hs);
    simplify_eq/=; split; try done; by apply Forall_delete_idx.
Qed.

(** *** Steps of the server *)

Lemma reachable_step s l s' : reachable n s → step s l = Some (Ok s') → reachable n s'.
Proof. intros Hr Hl. eapply rtc_r; [exact Hr|by exists l]. Qed.

Lemma reachable_cur s : reachable n s → cur_ok s.
Proof. intros [k Hk]%reachable_inv. apply (i_cur _ _ Hk). Qed.

(** A request that has not been handled is the call its client is waiting in. *)
Lemma fresh_request s A m :
  once_inv s A → request_ok s m → key m ∉ A →
  ∃ cl u k, clients (userver s) !! q_cid m = Some cl ∧ upeers s !! q_cid m = Some u ∧
    q_xid m = calls cl ∧ xid u = calls cl ∧ stage garbage cl (up u) ∧
    pr (up u) = Call (q_proc m) (q_arg m) k.
Proof.
  intros Hi (u & Hu & Hx & Hc) HA.
  destruct (once_peer _ _ _ _ Hi Hu) as (cl & Hcl & Hok).
  assert (calls cl ≤ q_xid m)%nat as Hge.
  { destruct (decide (q_xid m < calls cl)%nat) as [Hlt|]; [|lia].
    destruct HA. by eapply (oi_handled _ _ Hi). }
  destruct Hok as [[Hxu Hst]|[Hxu _]]; [|lia].
  destruct (Hc ltac:(lia)) as [k Hk]. exists cl, u, k. split_and!; [done..|lia|done|done|done].
Qed.

Lemma once_accepted s A i m s' :
  once_inv s A → requests s !! i = Some m → key m ∉ A →
  ustep s (UAccept i) = Some (Ok s') → once_inv s' ({[key m]} ∪ A).
Proof.
  intros Hi Hm HA Hs. pose proof Hi as [R1 R2 R3 R4 R5 R6].
  destruct (fresh_request s A m Hi) as (cl & u & k & Hcl & Hu & Hq & Hx & Hst & Hp); [|done|].
  { by eapply Forall_lookup_1. }
  simpl in Hs. rewrite Hm in Hs. simpl in Hs.
  destruct (take_request _ _ _ _) as [s1|] eqn:Hrun; [|done]. simplify_eq/=.
  pose proof (svc_run_clients _ _ _ _ _ Hrun) as Hcls.
  pose proof (stage_accept _ _ _ _ _ _ _ _ _ Hst Hp Hcl Hrun) as Hacc.
  split; simpl.
  - by apply (reachable_step (userver s) (LAccept (q_cid m))).
  - by rewrite Hcls.
  - by apply Forall_delete_idx.
  - eapply Forall_impl; [exact R4|]. intros r (v & cl' & H). exists v, cl'. simpl. by rewrite Hcls.
  - intros cid cl' x Hcl' Hlt. rewrite Hcls in Hcl'. apply elem_of_union_r. by eapply R5.
  - intros _. simpl. destruct (accept_busy _ _ _ Hacc) as [Hcur _]. rewrite Hcls, Hcur.
    exists cl, u. split_and!; [done..| |done|]; [by eexists _, _, _|unfold key; set_solver].
Qed.

Lemma once_thread s A tid s' :
  once_inv s A → ustep s (UThread tid) = Some (Ok s') → once_inv s' A.
Proof.
  intros [R1 R2 R3 R4 R5 R6] Hs. unfold ustep in Hs.
  destruct (step (userver s) (LThread tid)) as [[s1|]|] eqn:Hl; [|done..].
  simpl in Hs. simplify_eq/=. destruct (thread_disp _ _ _ Hl) as (Hd & Hc & Hcl).
  split; simpl; rewrite ?Hcl; try done.
  - by apply (reachable_step (userver s) (LThread tid)).
  - eapply Forall_impl; [exact R4|]. intros r (v & cl' & H). exists v, cl'. simpl. by rewrite Hcl.
  - intros Hb. unfold handling_ok, busy in *. simpl in *. rewrite Hd in Hb. rewrite Hc, Hcl. by apply R6.
Qed.

Lemma once_disp s A ok s' :
  once_inv s A → ustep s (UDisp ok) = Some (Ok s') → once_inv s' A.
Proof.
  intros [R1 R2 R3 R4 R5 R6] Hs. unfold ustep in Hs.
  destruct (dispatcher ok (userver s)) as [[s1|]|] eqn:Hl; [|done..].
  simpl in Hs. simplify_eq/=.
  destruct (dispatcher_clients _ _ _ (reachable_cur _ R1) Hl) as (Hb & Hcur & Hrep).
  assert (reachable n s1) as R1' by (by apply (reachable_step (userver s) (LDisp ok))).
  destruct (R6 Hb) as (cl & u & Hcl & Hu & Hux & Hx & Hcall & Hst & HA).
  destruct (replied s1) eqn:Hr.
  - destruct Hrep as (cl0 & cl' & Hcl0 & Hnx & Hcls). assert (cl0 = cl) as -> by congruence.
    pose proof (stage_answer _ _ _ _ Hst Hcall Hnx) as Hst'. pose proof (next_calls _ _ Hnx) as Hn.
    assert (behind cl' u) as Hbe by (split_and!; [lia|done|done]).
    assert (clients s1 !! cur (userver s) = Some cl') as Hcl1
      by (rewrite Hcls, list_lookup_insert_eq; [done|by eapply lookup_lt_Some]).
    split; simpl; try done.
    + rewrite Hcls, <- (list_insert_id (upeers s) (cur (userver s)) u) by done.
      apply Forall2_insert; [done|by right].
    + apply Forall_app. split.
      * eapply Forall_impl; [exact R4|]. intros r (v & clr & Hv & Hclr & Hxr & Hc).
        destruct (decide (p_cid r = cur (userver s))) as [E|].
        -- rewrite E in *. assert (v = u) as -> by congruence. assert (clr = cl) as -> by congruence.
           exists u, cl'. simpl. rewrite E. split_and!; [done..|].
           intros Hxe. destruct (Hc Hxe) as [[? _] _]. lia.
        -- exists v, clr. simpl. rewrite Hcls, list_lookup_insert_ne by done. done.
      * apply Forall_singleton. exists u, cl'. simpl. rewrite Hcur.
        split_and!; [done..|lia|]. intros _. split; [done|]. unfold reply_to. by rewrite Hcl1.
    + intros cid clx x Hclx Hlt. rewrite Hcls in Hclx.
      apply list_lookup_insert_Some in Hclx as [(<- & <- & _)|[_ Hclx]]; [|by eapply R5].
      destruct (decide (x = calls cl)) as [->|]; [by rewrite <- Hux|]. eapply R5; [done|lia].
    + intros Hb'. simpl in Hb'. unfold busy, replied in *. by destruct (disp s1).
  - split; simpl; rewrite ?Hrep; try done.
    + eapply Forall_impl; [exact R4|]. intros r (v & clr & H). exists v, clr. simpl. by rewrite Hrep.
    + intros _. simpl. rewrite Hcur, Hrep. by exists cl, u.
Qed.

Lemma once_step_inv s A s' A' : once_step (s, A) (s', A') → once_inv s A → once_inv s' A'.
Proof.
  intros Hst Hi. inversion Hst as [? ? i m ? Hm HA Hs|? ? l ? Ha Ht Hs]; simplify_eq.
  - by eapply once_accepted.
  - destruct l.
    + by eapply once_local.
    + by eapply once_send.
    + by edestruct Ht.
    + by edestruct Ha.
    + by eapply once_receive.
    + eapply once_lose; [done|by left].
    + eapply once_lose; [done|by right].
    + by eapply once_disp.
    + by eapply once_thread.
Qed.

Lemma once_once_inv s A : once n garbage s A → once_inv s A.
Proof.
  unfold once. intros H.
  cut (once_inv (s, A).1 (s, A).2); [done|]. revert H. generalize (s, A).
  apply (rtc_ind_r (λ x, once_inv x.1 x.2)); [apply once_inv_init|].
  intros [s1 A1] [s2 A2] _ Hst. by apply once_step_inv.
Qed.
End Once.

(** ** Theorems *)

(** The client program, on every branch and against any network: status 1
    without a connection; a NULL result of [get_number] or [bakery_service] is
    dereferenced; a failed [bakery_wait] is only reported, and the client goes on
    to ask for service with the index and ticket it was given. *)
Theorem bakery1_client_calls {N : Type} `{!Network N} garbage (s : cstate N) :
  match clnt_create (net s) with
  | None => exec (bakery1_client garbage) s = Ok (1, CState (net s) (printed s ++ [CreateError]))
  | Some n =>
      let '(ok1, r1, n1) := clnt_call n 1 garbage (Bakery 0 0 0) in
      let arg := Bakery (b_num r1) (b_pid r1) (Bakery2.b_res garbage) in
      let '(ok2, _, n2) := clnt_call n1 2 arg (Bakery 0 0 0) in
      let '(ok3, r3, n3) := clnt_call n2 3 arg (Bakery 0 0 0) in
      exec (bakery1_client garbage) s =
        if ok1 && ok3 then
          Ok (0, CState n3 (printed s ++ [ClientId (b_pid r1) (b_num r1)] ++
            (if ok2 then [] else [CallFailed]) ++ [Received (Bakery2.b_res r3)]))
        else Fault NullDeref
  end.
Proof.
  unfold bakery1_client. simpl. unfold mbind, prog_bind, get_st, put_st, put, modify, stub. simpl.
  destruct (clnt_create (net s)) as [n|]; [|done]. simpl. unfold prog_bind, stub.
  destruct (clnt_call n 1 garbage _) as [[ok1 r1] n1]. simpl.
  destruct (clnt_call n1 2 _ _) as [[ok2 r2] n2] eqn:E2.
  destruct (clnt_call n2 3 _ _) as [[ok3 r3] n3] eqn:E3.
  destruct ok1; simpl; [|done]. unfold mbind, prog_bind, stub. simpl. rewrite E2.
  destruct ok2; simpl; unfold mbind, prog_bind, stub; simpl; rewrite E3;
    destruct ok3; simpl; try done; unfold put, modify, mbind, prog_bind; simpl; by rewrite <- ?(assoc app).
Qed.

(** What clients have printed in a state of such a run. *)
Lemma said_ticket n garbage s A cid u pid num :
  once_inv n garbage s A → upeers s !! cid = Some u → ClientId pid num ∈ said (up u) →
  ∃ cl, clients (userver s) !! cid = Some cl ∧ ticket_of cl = Some (pid, num).
Proof.
  intros Ho Hu Hin. destruct (once_peer _ _ _ _ _ _ Ho Hu) as (cl & Hcl & Hst). exists cl. split; [done|].
  destruct Hst as [[_ Hst]|(_ & _ & Hst)]; eapply stage_ticket; [exact Hst|done|exact Hst|by rewrite said_answer].
Qed.

Lemma done_said n garbage s A cid u :
  once_inv n garbage s A → upeers s !! cid = Some u → pr (up u) = Return 0 →
  ∃ pid num, clients (userver s) !! cid = Some (CServed pid num (letter pid)) ∧
    said (up u) = [ClientId pid num; Received (letter pid)] ∧
    0 ≤ pid < Z.of_nat (length (out (userver s))).
Proof.
  intros Ho Hu Hp. destruct (once_peer _ _ _ _ _ _ Ho Hu) as (cl & Hcl & [[_ Hst]|(_ & Hc & _)]).
  - destruct (stage_said _ _ _ Hst Hp) as (pid & num & ch & -> & Hs).
    destruct (served_letter _ _ _ _ _ _ (oi_server _ _ _ _ Ho) Hcl) as [? ->]. eauto.
  - destruct Hc as (? & ? & ? & Hc). congruence.
Qed.

(** The line printed for a client that has been served. *)
Lemma served_line n s cid p m ch :
  reachable n s → clients s !! cid = Some (CServed p m ch) → 0 ≤ p < Z.of_nat (length (out s)) →
  out s !! Z.to_nat p = Some (p, m, letter p).
Proof.
  intros Hr Hcl Hp. destruct (client_ticket _ _ _ _ _ _ Hr Hcl eq_refl) as (_ & _ & _ & Hx).
  destruct (lookup_lt_is_Some_2 (out s) (Z.to_nat p)) as [[[i j] l] Hl]; [unfold line in *; lia|].
  specialize (Hx _ I Hl). simpl in Hx. simplify_eq.
  apply reachable_inv in Hr as [k Hinv]. destruct (output_expected _ _ Hinv) as (a & Ho & _).
  pose proof (f_equal (λ o, o !! Z.to_nat p) Ho) as He. unfold expected in He. simpl in He.
  rewrite list_lookup_fmap, Hl, list_lookup_fmap in He. simpl in He.
  destruct (seqZ 0 a !! Z.to_nat p) as [q|] eqn:Hq; [|done]. apply lookup_seqZ in Hq as [-> _]. simpl in He.
  injection He as _ ->. etrans; [exact Hl|]. do 3 f_equal. lia.
Qed.

Lemma once_no_fault n garbage s A l f :
  (n ≤ 32)%nat → once_inv n garbage s A → ustep s l ≠ Some (Fault f).
Proof.
  intros Hn Ho Hf. pose proof (oi_server _ _ _ _ Ho) as Hr.
  assert (∃ l', step (userver s) l' = Some (Fault f)) as [l' Hl']; [|by eapply no_fault_step].
  destruct l; unfold ustep in Hf;
    try (by repeat (apply bind_Some in Hf as (? & _ & Hf); try case_match)).
  - apply bind_Some in Hf as ([] & Hd & Hf); simplify_eq/=. by exists (LDisp ok).
  - apply bind_Some in Hf as ([] & Hd & Hf); simplify_eq/=. by exists (LThread tid).
Qed.

(** C3: clients and server end to end over UDP, whatever is lost, delayed, reordered
    or sent again, provided no request reaches the dispatcher twice and no call
    times out: the server only does what it does in [Bakery1] (so it excludes, serves
    in order and never faults), and no client crashes. A client that has printed an
    index and a ticket has printed its own: no other client has printed the index,
    and the ticket is positive and the one in [number], as long as the server has not
    cleared it. A client that ends with status 0 has printed them and the letter of its
    index, and the server's line for the index has the same ticket and letter. *)
Theorem bakery1_end_to_end n garbage s A :
  (n ≤ 32)%nat → once n garbage s A →
  reachable n (userver s) ∧
  (∀ l f, ustep s l ≠ Some (Fault f)) ∧
  (∀ cid u, upeers s !! cid = Some u →
    (∀ f, pr (up u) ≠ Crash f) ∧
    (∀ pid num, ClientId pid num ∈ said (up u) →
      0 ≤ pid < 32 ∧ 1 ≤ num ≤ pid + 1 ∧
      (∀ v, number (glob (userver s)) !! pid = Some v → v ≠ 0 → v = num) ∧
      ∀ cid' u', upeers s !! cid' = Some u' → cid' ≠ cid → ∀ num', ClientId pid num' ∉ said (up u')) ∧
    (pr (up u) = Return 0 → ∃ pid num,
      said (up u) = [ClientId pid num; Received (letter pid)] ∧
      out (userver s) !! Z.to_nat pid = Some (pid, num, letter pid) ∧
      0 ≤ pid < Z.of_nat (length (out (userver s))))).
Proof.
  intros Hn Ho. apply once_once_inv in Ho. pose proof (oi_server _ _ _ _ Ho) as Hr.
  split; [done|]. split; [by intros l f; eapply once_no_fault|]. intros cid u Hu. split_and!.
  - intros f Hf. destruct (once_peer _ _ _ _ _ _ Ho Hu) as (cl & _ & [[_ Hst]|(_ & Hc & _)]).
    + by eapply stage_no_crash.
    + destruct Hc as (? & ? & ? & Hc). congruence.
  - intros pid num Hin. destruct (said_ticket _ _ _ _ _ _ _ _ Ho Hu Hin) as (cl & Hcl & Htk).
    destruct (client_ticket _ _ _ _ _ _ Hr Hcl Htk) as (? & ? & ? & _). split_and!; [lia..|done|].
    intros cid' u' Hu' Hne num' Hin'. destruct (said_ticket _ _ _ _ _ _ _ _ Ho Hu' Hin') as (cl' & Hcl' & Htk').
    destruct Hne. eapply (owner_unique n); [exact Hr|done|done|by eapply ticket_pid|by eapply ticket_pid].
  - intros Hp. destruct (done_said _ _ _ _ _ _ Ho Hu Hp) as (pid & num & Hcl & Hs & Hpid).
    exists pid, num. split; [done|]. split; [by eapply served_line|done].
Qed.

(** ** The theorems at work *)

Definition udisp (k : nat) : list ulabel := replicate k (UDisp true).

(** A call that is answered at once. *)
Definition ucall (cid k : nat) : list ulabel :=
  [USend cid; UAccept 0] ++ udisp k ++ [UReceive 0].

(** One client from its start to its end; its first request is lost and sent again,
    its second one is sent twice and the copy is lost. *)
Definition one_client_run : list ulabel :=
  [ULocal 0 true; USend 0; ULoseRequest 0] ++ ucall 0 38 ++ [ULocal 0 true; USend 0] ++
  [USend 0; UAccept 0] ++ udisp 3 ++ [UReceive 0; ULoseRequest 0] ++ replicate 74 (UThread 0) ++
  ucall 0 2 ++ [ULocal 0 true].

(** What a schedule leads to, and that it does. *)
Definition uafter (s : usys) (ls : list ulabel) : usys :=
  match urun s ls with Some (Ok s') => s' | _ => s end.
Definition uruns (s : usys) (ls : list ulabel) : bool :=
  match urun s ls with Some (Ok _) => true | _ => false end.

Lemma uruns_uafter s ls : uruns s ls = true → urun s ls = Some (Ok (uafter s ls)).
Proof. unfold uruns, uafter. by destruct (urun s ls) as [[]|]. Qed.

Lemma once_run_urun ls s A s' A' :
  once_run s A ls = Some (s', A') → urun s ls = Some (Ok s').
Proof.
  revert s A. induction ls as [|l ls IH]; intros s A Hr; simpl in Hr; [by simplify_eq|].
  cbn [urun]. destruct l; try done;
    try (destruct (ustep s _) as [[s1|]|]; [|done..]; by eapply IH).
  apply bind_Some in Hr as (m & Hm & Hr). case_decide; [done|].
  destruct (ustep s _) as [[s1|]|]; [|done..]. by eapply IH.
Qed.

(** A schedule in which no request is handled twice and no call times out. *)
Definition once_runs (s : usys) (ls : list ulabel) : bool :=
  match once_run s ∅ ls with Some _ => true | None => false end.

Lemma once_uafter n garbage ls :
  once_runs (uinit n garbage) ls = true → ∃ A, once n garbage (uafter (uinit n garbage) ls) A.
Proof.
  unfold once_runs. destruct (once_run _ _ _) as [[s A]|] eqn:Hr; [|done]. intros _. exists A.
  unfold uafter. rewrite (once_run_urun _ _ _ _ _ Hr). by apply (once_run_rtc ls).
Qed.

Lemma bakery1_end_to_end_witness :
  let s := uafter (uinit 1 (Bakery 9 9 9)) one_client_run in
  (said ∘ up <$> upeers s) = [[ClientId 0 1; Received 97]] ∧ reachable 1 (userver s).
Proof.
  intros s. split; [vm_compute; reflexivity|].
  destruct (once_uafter 1 (Bakery 9 9 9) one_client_run) as [A Ho]; [vm_compute; reflexivity|].
  exact (proj1 (bakery1_end_to_end 1 (Bakery 9 9 9) s A ltac:(lia) Ho)).
Defined.
