(* ===== verification/Bakery1UdpSpec.v ===== *)
(** * What UDP does to the multi-threaded bakery server

    A request that is sent again after it has been handled is handled again, as the
    server keeps no record of the calls it has answered. Each of the three calls
    goes wrong in its own way. *)

From S2P Require Import Prelude Letters Bakery2 BakeryRpc BakeryRpcSpec.
From S2P Require Import Bakery1 Bakery1Inv Bakery1Spec Bakery1Rpc Bakery1RpcSpec.
From stdpp Require Import options.
Local Open Scope Z_scope.

(** ** Runs *)

Lemma urun_app s ls ls' s' :
  urun s ls = Some (Ok s') → urun s (ls ++ ls') = urun s' ls'.
Proof.
  revert s. induction ls as [|l ls IH]; intros s Hr; simpl in *; [by simplify_eq|].
  destruct (ustep s l) as [[]|]; try done. by apply IH.
Qed.

Lemma urun_rtc s ls s' : urun s ls = Some (Ok s') → rtc usteps s s'.
Proof.
  revert s. induction ls as [|l ls IH]; intros s Hr; simpl in Hr; [by simplify_eq|].
  destruct (ustep s l) as [[s1|]|] eqn:Hs; try done. eapply rtc_l; [by exists l|by apply IH].
Qed.

(** ** A lost reply *)

(** The server in the join that never ends, with no reply under way. *)
Definition stuck (s : usys) : Prop := blocked (userver s) ∧ replies s = [].

Lemma stuck_step s l s' : stuck s → ustep s l = Some (Ok s') → stuck s'.
Proof.
  intros [Hb Hrep] Hs. pose proof (b_disp _ Hb) as Hd. unfold stuck.
  destruct l; unfold ustep in Hs.
  - apply bind_Some in Hs as (u & _ & Hs). apply bind_Some in Hs as (p & _ & Hs). by simplify_eq/=.
  - apply bind_Some in Hs as (u & _ & Hs). case_match; by simplify_eq/=.
  - apply bind_Some in Hs as (u & _ & Hs). case_match; by simplify_eq/=.
  - apply bind_Some in Hs as (m & _ & Hs). apply bind_Some in Hs as (s1 & Hrun & _).
    unfold take_request in Hrun. by rewrite Hd in Hrun.
  - by rewrite Hrep in Hs.
  - apply bind_Some in Hs as (m & _ & Hs). by simplify_eq/=.
  - by rewrite Hrep in Hs.
  - destruct (dispatcher ok (userver s)) as [[s1|]|] eqn:Hl; [|done..]. simplify_eq/=.
    destruct (blocked_step _ (LDisp ok) _ Hb Hl) as [Hb1 _].
    split; [done|]. unfold replied. by rewrite (b_disp _ Hb1).
  - destruct (step (userver s) (LThread tid)) as [[s1|]|] eqn:Hl; [|done..]. simplify_eq/=.
    by destruct (blocked_step _ (LThread tid) _ Hb Hl).
Qed.

(** Client 0 gets its ticket and its thread, the reply to its first request being
    lost, and calls [bakery_service]. *)
Definition lost_reply : list ulabel :=
  [ULocal 0 true; USend 0; UAccept 0] ++ udisp 38 ++ [ULoseReply 0] ++
  ucall 0 39 ++ [ULocal 0 true] ++ ucall 0 3 ++ [USend 0; UAccept 0; UDisp true].

(** ** Theorems *)

(** C25: one retransmission of a service request crashes the server. In every state that
    is reached without a request handled twice and without a call that timed out
    ([once]), with any number of clients, in which the dispatcher is about to return
    from [pthread_join], the client may send its request again, as the call has not
    been answered; when that copy is handled, the thread is joined a second time. *)
Theorem bakery1_resent_service n garbage s A :
  once n garbage s A →
  (∃ pid num, disp (userver s) = DJoin pid num) → is_Some (dispatcher true (userver s)) →
  urun s [USend (cur (userver s)); UDisp true; UAccept (length (requests s)); UDisp true; UDisp true]
    = Some (Fault UseAfterFree).
Proof.
  intros Ho (pid & num & Hd) Hen. apply once_once_inv in Ho.
  pose proof (oi_server _ _ _ _ Ho) as Hr. pose proof (reachable_cur _ _ Hr) as Hcur.
  unfold cur_ok in Hcur. rewrite Hd in Hcur.
  destruct (oi_handling _ _ _ _ Ho) as (cl & u & Hcl & Hu & _ & _ & Hcall & Hst & _);
    [unfold busy; by rewrite Hd|].
  assert (cl = CWaiting pid num) as -> by congruence.
  assert (up u = queued garbage pid num) as Hup by (inversion Hst; congruence).
  apply reachable_inv in Hr as [k Hinv].
  destruct (i_clients _ _ Hinv _ _ Hcl) as (Hpid & tid & Hthr & t & Ht).
  pose proof (no_range _ _ _ (i_numbers _ _ Hinv)). pose proof (issued_tickets (userver s)).
  destruct (arr32_lookup _ pid (i_attr _ _ Hinv) ltac:(lia)) as [a Ha].
  destruct (arr32_lookup _ pid (i_res _ _ Hinv) ltac:(lia)) as [r Hres].
  assert (dispatcher true (userver s) = Some (Ok (reply (CServed pid num (ta_res r))
    (Sys (glob (userver s)) (delete tid (threads (userver s))) (next_tid (userver s))
      (disp (userver s)) (cur (userver s)) (clients (userver s)) (out (userver s)))))) as Hjoin.
  { unfold dispatcher, bakery_service_1_svc in *. rewrite Hd, Hthr, Ht in *.
    destruct (t_pc t); try by destruct Hen. unfold rd. by rewrite Hres. }
  cbn [urun]. unfold ustep at 1. rewrite Hu. simpl. rewrite Hup. simpl. rewrite Hjoin. simpl.
  rewrite lookup_app_r, Nat.sub_diag by done. simpl.
  unfold wr. rewrite Ha. simpl.
  unfold dispatcher, bakery_service_1_svc. simpl. rewrite Hthr. simpl. by rewrite lookup_delete_eq.
Qed.

(** C26: one lost reply blocks the server for ever: the client whose first
    reply is lost asks again, gets the second index and the second ticket, and its
    thread waits for the first ticket, which no thread serves; the dispatcher waits
    for the thread, so no call of any client is answered any more. *)
Theorem bakery1_lost_reply garbage :
  ∃ s, urun (uinit 2 garbage) lost_reply = Some (Ok s) ∧
    ∀ s', rtc usteps s s' → disp (userver s') = DJoin 1 2 ∧ replies s' = [].
Proof.
  set (s := uafter (uinit 2 garbage) lost_reply).
  assert (stuck s) as Hst.
  { split; [|reflexivity]. split; try (vm_compute; reflexivity).
    exists TStart. split; [vm_compute; reflexivity|set_solver]. }
  exists s. split; [apply uruns_uafter; vm_compute; reflexivity|]. clearbody s. intros s' Hs.
  assert (stuck s') as [Hb ?]; [|by destruct Hb].
  revert s' Hs. apply (rtc_ind_r stuck); [done|].
  intros s1 s2 _ [l Hl] Hs1. by eapply stuck_step.
Qed.

(** One client whose [bakery_wait] request is sent twice; both copies are handled. *)
Definition resent_wait : list ulabel :=
  [ULocal 0 true] ++ ucall 0 38 ++ [ULocal 0 true; USend 0; USend 0] ++
  [UAccept 0] ++ udisp 3 ++ [UAccept 0] ++ udisp 3 ++
  replicate 69 (UThread 0) ++ replicate 69 (UThread 1).

(** One retransmission of a wait request breaks mutual exclusion: two threads
    serve the same ticket, and both pass the spin loops. Nothing is lost. *)
Theorem bakery1_resent_wait garbage :
  ∃ s t0 t1, urun (uinit 1 garbage) resent_wait = Some (Ok s) ∧
    threads (userver s) !! 0%nat = Some t0 ∧ threads (userver s) !! 1%nat = Some t1 ∧
    in_critical (t_pc t0) ∧ in_critical (t_pc t1).
Proof.
  exists (uafter (uinit 1 garbage) resent_wait), (Thread 0 (TLoad 0)), (Thread 0 (TLoad 0)).
  split_and!; [apply uruns_uafter; vm_compute; reflexivity|vm_compute; reflexivity..|exact I|exact I].
Qed.

(** ** The theorems at work *)

(** One client whose thread has served it; the dispatcher is in the join. *)
Definition in_join : list ulabel :=
  [ULocal 0 true] ++ ucall 0 38 ++ [ULocal 0 true] ++ ucall 0 3 ++
  replicate 74 (UThread 0) ++ [USend 0; UAccept 0; UDisp true].

Lemma bakery1_resent_service_witness :
  urun (uafter (uinit 1 (Bakery 9 9 9)) in_join)
    [USend 0; UDisp true; UAccept 0; UDisp true; UDisp true] = Some (Fault UseAfterFree).
Proof.
  destruct (once_uafter 1 (Bakery 9 9 9) in_join) as [A Ho]; [vm_compute; reflexivity|].
  set (s := uafter _ _) in *.
  assert (cur (userver s) = 0%nat) as Hc by (vm_compute; reflexivity).
  assert (length (requests s) = 0%nat) as Hq by (vm_compute; reflexivity).
  assert (disp (userver s) = DJoin 0 1) as Hd by (vm_compute; reflexivity).
  assert (is_Some (dispatcher true (userver s))) as Hen
    by (apply (bool_decide_unpack _); vm_compute; exact I).
  clearbody s. pose proof (bakery1_resent_service 1 (Bakery 9 9 9) s A Ho
    (ex_intro _ 0 (ex_intro _ 1 Hd)) Hen) as H.
  by rewrite Hc, Hq in H.
Defined.
