(* ===== verification/Catalog.v ===== *)
(** * The two directory walkers (1/catalog/main.c)

    [dopath] keeps the full path of every file in one growing buffer; [mydopath]
    changes into every directory and uses the names alone. Both count files by
    type through a callback. *)

From S2P Require Import Prelude.
From stdpp Require Import options.
#[local] Set Default Proof Using "Type*".
Local Open Scope Z_scope.

Definition NAME_MAX : Z := 255.
Definition PATH_MAX : Z := 4096.
Definition PATH_MAX_GUESS : Z := 1024.

(** ** The file system *)

Definition name : Type := list Z.

(** The types of files that are not directories. *)
Inductive kind := Reg | Blk | Chr | Fifo | Lnk | Sock.

(** A directory may be readable and searchable. *)
Inductive node :=
  | Leaf (k : kind)
  | Dir (r x : bool) (es : list (name * node)).

Definition dot : name := [46].
Definition dotdot : name := [46; 46].

Fixpoint find_entry (n : name) (es : list (name * node)) : option node :=
  match es with
  | [] => None
  | (m, t) :: es => if decide (m = n) then Some t else find_entry n es
  end.

(** Looking up in a directory needs the permission to search it. *)
Fixpoint resolve (t : node) (p : list name) : option node :=
  match p with
  | [] => Some t
  | n :: p =>
      match t with
      | Dir _ true es => match find_entry n es with Some t' => resolve t' p | None => None end
      | _ => None
      end
  end.

(** The components of a path. *)
Fixpoint split_path (s : list Z) : list name :=
  match s with
  | [] => [[]]
  | x :: s =>
      match split_path s with
      | c :: cs => if decide (x = 47) then [] :: c :: cs else (x :: c) :: cs
      | [] => [[x]]
      end
  end.

(** [.] and empty components stay, [..] goes up. Symbolic links are not followed. *)
Definition enter (p : list name) (c : name) : list name :=
  if decide (c = [] ∨ c = dot) then p else if decide (c = dotdot) then removelast p else p ++ [c].

Definition path_of (cwd : list name) (s : list Z) : list name :=
  foldl enter (match s with 47 :: _ => [] | _ => cwd end) (split_path s).

Section Walk.
Context (fs : node).

(** A path of [PATH_MAX] bytes or more is refused. *)
Definition lstat (cwd : list name) (s : list Z) : option node :=
  match s with
  | [] => None
  | _ => if decide (PATH_MAX <= Z.of_nat (length s)) then None else resolve fs (path_of cwd s)
  end.

(** The names [readdir] gives one after the other. *)
Definition opendir (cwd : list name) (s : list Z) : option (list name) :=
  match lstat cwd s with
  | Some (Dir true _ es) => Some (dot :: dotdot :: (fst <$> es))
  | _ => None
  end.

(** ** State *)

Record counts := Counts { nreg : Z; ndir : Z; nblk : Z; nchr : Z; nfifo : Z; nslink : Z; nsock : Z }.
Definition no_counts : counts := Counts 0 0 0 0 0 0 0.

(** The static data of the program, the working directory and what is printed.
    [fullpath] is NULL or a buffer. *)
Record state := St {
  cnt : counts;
  fullpath : option (list Z);
  pathlen : Z;
  cwd : list name;
  out : list (list Z)
}.

Definition set_cnt f s := St (f (cnt s)) (fullpath s) (pathlen s) (cwd s) (out s).
Definition set_path b s := St (cnt s) b (pathlen s) (cwd s) (out s).
Definition set_pathlen n s := St (cnt s) (fullpath s) n (cwd s) (out s).
Definition set_cwd p s := St (cnt s) (fullpath s) (pathlen s) p (out s).
Definition print l s := St (cnt s) (fullpath s) (pathlen s) (cwd s) (out s ++ [l]).

Inductive ftw := FTW_F | FTW_D | FTW_DNR | FTW_NS.

Abbreviation func_t := (list Z → option node → ftw → prog state Z).

(** ** The callbacks *)

Definition add_kind (k : kind) (c : counts) : counts :=
  let '(Counts r d b h f l s) := c in
  match k with
  | Reg => Counts (r + 1) d b h f l s
  | Blk => Counts r d (b + 1) h f l s
  | Chr => Counts r d b (h + 1) f l s
  | Fifo => Counts r d b h (f + 1) l s
  | Lnk => Counts r d b h f (l + 1) s
  | Sock => Counts r d b h f l (s + 1)
  end.
Definition add_dir (c : counts) : counts :=
  let '(Counts r d b h f l s) := c in Counts r (d + 1) b h f l s.

Definition myfunc : func_t := λ pathname statptr type,
  match type with
  | FTW_F =>
      match statptr with
      | Some (Leaf k) => modify (set_cnt (add_kind k));; mret 0
      | Some (Dir _ _ _) => mret (-1)
      | None => mret 0
      end
  | FTW_D => modify (set_cnt add_dir);; mret 0
  | FTW_DNR => mret (-1)
  | FTW_NS => mret (-1)
  end.

Definition counter : func_t := λ pathname statptr type,
  match type with
  | FTW_F =>
      modify (print (bytes "-- " ++ pathname ++ [10]));;
      match statptr with
      | Some (Leaf k) => modify (set_cnt (add_kind k));; mret 0
      | Some (Dir _ _ _) => mret (-1)
      | None => mret 0
      end
  | FTW_D => modify (print (bytes "--" ++ pathname ++ [47; 10]));; modify (set_cnt add_dir);; mret 0
  | FTW_DNR => mret (-1)
  | FTW_NS => mret (-1)
  end.

(** ** The walk with the path buffer *)

Section Dopath.
(** Whether an allocation of so many bytes succeeds. *)
Context (alloc_ok : Z → bool).

(** [path_alloc], with the two limits [sysconf] gives; [pathmax] is the constant
    of the system. The bytes [malloc] leaves unset are zeros here; the walk reads none
    of them before it has stored a text with its zero there. *)
Definition path_alloc (posix_version xsi_version : Z) : option (list Z) * Z :=
  let size :=
    if decide (posix_version < 200112 ∧ xsi_version < 4) then PATH_MAX + 1 else PATH_MAX in
  (if alloc_ok size then Some (replicate (Z.to_nat size) 0) else None, size).

(** [realloc(fullpath, pathlen)]: the contents are kept. *)
Definition realloc_path : prog state unit :=
  s ← get_st;
  modify (set_path
    (if alloc_ok (pathlen s)
     then match fullpath s with
          | Some b => Some (b ++ replicate (Z.to_nat (pathlen s) - length b) 0)
          | None => Some (replicate (Z.to_nat (pathlen s)) 0)
          end
     else None)).

(** [fullpath] as a string, a store of bytes into it. *)
Definition get_path : prog state (list Z) := λ s,
  match fullpath s with
  | None => Fault NullDeref
  | Some b => match cstr b 0 with Ok p => Ok (p, s) | Fault f => Fault f end
  end.
Definition store_path (off : Z) (d : list Z) : prog state unit := λ s,
  match fullpath s with
  | None => Fault NullDeref
  | Some b => match bwrite b off d with Ok b => Ok (tt, set_path (Some b) s) | Fault f => Fault f end
  end.

Context (func : func_t).

(** The loop over the directory; [rec] is the recursive call, [n] the index after
    the slash. *)
Fixpoint read_loop (rec : lprog state Z) (n : Z) (names : list name) (ret : Z) : lprog state Z :=
  match names with
  | [] => mret ret
  | d :: names =>
      if decide (d = dot ∨ d = dotdot) then read_loop rec n names ret
      else
        now (store_path n (d ++ [0]));;
        ret ← rec;
        if decide (ret ≠ 0) then mret ret else read_loop rec n names ret
  end.

Fixpoint dopath (fuel : nat) : lprog state Z :=
  match fuel with
  | O => no_fuel
  | S fuel =>
      s ← now get_st;
      p ← now get_path;
      match lstat (cwd s) p with
      | None => now (func p None FTW_NS)
      | Some (Leaf k) => now (func p (Some (Leaf k)) FTW_F)
      | Some (Dir r x es) =>
          ret ← now (func p (Some (Dir r x es)) FTW_D);
          if decide (ret ≠ 0) then mret ret
          else
            let n := Z.of_nat (length p) in
            s ← now get_st;
            (if decide (n + NAME_MAX + 2 > pathlen s)
             then now (modify (set_pathlen (pathlen s * 2));; realloc_path) else mret tt);;
            now (store_path n [47]);;
            now (store_path (n + 1) [0]);;
            s ← now get_st;
            p ← now get_path;
            match opendir (cwd s) p with
            | None => now (func p (Some (Dir r x es)) FTW_DNR)
            | Some names =>
                ret ← read_loop (dopath fuel) (n + 1) names 0;
                now (store_path n [0]);;
                mret ret
            end
      end
  end.

Definition myftw (posix_version xsi_version : Z) (fuel : nat) (pathname : list Z) : lprog state Z :=
  let '(b, size) := path_alloc posix_version xsi_version in
  now (modify (set_path b));;
  now (modify (set_pathlen size));;
  (if decide (size <= Z.of_nat (length pathname))
   then now (modify (set_pathlen (Z.of_nat (length pathname) * 2));; realloc_path)
   else mret tt);;
  now (store_path 0 (pathname ++ [0]));;
  dopath fuel.
End Dopath.

(** ** The walk that changes directories *)

(** A failing [chdir] is not noticed. *)
Definition chdir (p : list Z) : prog state unit :=
  s ← get_st;
  match lstat (cwd s) p with
  | Some (Dir _ true _) => modify (set_cwd (path_of (cwd s) p))
  | _ => mret tt
  end.

Section Mydopath.
Context (func : func_t).

Fixpoint my_read_loop (rec : name → lprog state Z) (names : list name) (ret : Z) : lprog state Z :=
  match names with
  | [] => mret ret
  | d :: names =>
      if decide (ret ≠ 0) then mret ret
      else if decide (d = dot ∨ d = dotdot) then my_read_loop rec names ret
      else ret ← rec d; my_read_loop rec names ret
  end.

Fixpoint mydopath (fuel : nat) (depth : nat) (filename : list Z) : lprog state Z :=
  match fuel with
  | O => no_fuel
  | S fuel =>
      s ← now get_st;
      match lstat (cwd s) filename with
      | None => now (func filename None FTW_NS)
      | Some t =>
          now (modify (print (concat (replicate depth [124; 9]))));;
          match t with
          | Leaf k => now (func filename (Some t) FTW_F)
          | Dir r x es =>
              ret ← now (func filename (Some t) FTW_D);
              if decide (ret ≠ 0) then mret ret
              else
                s ← now get_st;
                match opendir (cwd s) filename with
                | None => now (func filename (Some t) FTW_DNR)
                | Some names =>
                    now (chdir filename);;
                    ret ← my_read_loop (mydopath fuel (S depth)) names ret;
                    now (chdir dotdot);;
                    mret ret
                end
          end
      end
  end.

Definition my_myftw (fuel : nat) (filename : list Z) : lprog state Z := mydopath fuel 0 filename.
End Mydopath.

(** ** The program *)

(** A line of the report: the counter, and its share of [ntot] in percent as a
    fraction. The counters, of type long, are passed as ints. *)
Definition report : Type := list (Z * (Z * Z)) * Z.

Definition print_info (nreg ndir nblk nchr nfifo nslink nsock : Z) : report :=
  let ntot := nreg + ndir + nblk + nchr + nfifo + nslink + nsock in
  let ntot := if decide (ntot = 0) then 1 else ntot in
  (map (λ n, (n, (n * 100, ntot))) [nreg; ndir; nblk; nchr; nfifo; nslink; nsock], ntot).

Definition report_of (c : counts) : report :=
  print_info (int32 (nreg c)) (int32 (ndir c)) (int32 (nblk c)) (int32 (nchr c))
    (int32 (nfifo c)) (int32 (nslink c)) (int32 (nsock c)).

(** The exit status and the two reports. The second walk counts in variables of its
    own, which are 0 too. *)
Definition main (alloc_ok : Z → bool) (posix_version xsi_version : Z) (fuel : nat)
    (argv : list (list Z)) : lprog state (Z * list report) :=
  match argv with
  | [_; dir] =>
      _ ← myftw alloc_ok myfunc posix_version xsi_version fuel dir;
      s1 ← now get_st;
      now (modify (set_cnt (λ _, no_counts)));;
      _ ← my_myftw counter fuel dir;
      s2 ← now get_st;
      mret (0, [report_of (cnt s1); report_of (cnt s2)])
  | _ => mret (-1, [])
  end.
End Walk.
