(* ===== verification/CatalogSpec.v ===== *)
(** * What the two directory walkers guarantee *)

From S2P Require Import Prelude Catalog.
From stdpp Require Import options.
#[local] Set Default Proof Using "Type*".
Local Open Scope Z_scope.

(** ** The specification: counting over the tree *)

(** The result of a walk and the counts afterwards, files in the order of the
    directory; a directory that cannot be read, or has files that cannot be
    reached, ends the walk. *)
Fixpoint tally (t : node) (c : counts) : Z * counts :=
  match t with
  | Leaf k => (0, add_kind k c)
  | Dir r x es =>
      let c := add_dir c in
      if r then
        if x then
          (fix go (es : list (name * node)) (c : counts) : Z * counts :=
             match es with
             | [] => (0, c)
             | (_, t) :: es =>
                 let '(ret, c) := tally t c in
                 if decide (ret ≠ 0) then (ret, c) else go es c
             end) es c
        else (match es with [] => 0 | _ => -1 end, c)
      else (-1, c)
  end.

Fixpoint tally_all (es : list (name * node)) (c : counts) : Z * counts :=
  match es with
  | [] => (0, c)
  | (_, t) :: es =>
      let '(ret, c) := tally t c in if decide (ret ≠ 0) then (ret, c) else tally_all es c
  end.

Lemma tally_dir r x es c :
  tally (Dir r x es) c =
    if r then if x then tally_all es (add_dir c)
              else (match es with [] => 0 | _ => -1 end, add_dir c)
    else (-1, add_dir c).
Proof. by destruct r, x. Qed.

Fixpoint height (t : node) : nat :=
  match t with
  | Leaf _ => O
  | Dir _ _ es => S (foldr (λ e, Nat.max (height e.2)) O es)
  end.

(** The bytes the longest path in the tree has behind the path of its root. *)
Fixpoint path_room (t : node) : nat :=
  match t with
  | Leaf _ => O
  | Dir _ _ es => S (foldr (λ e, Nat.max (length e.1 + path_room e.2)) O es)
  end.

(** Names a file can have, different ones in a directory. *)
Definition valid_name (n : name) : Prop :=
  n ≠ [] ∧ n ≠ dot ∧ n ≠ dotdot ∧ (47 ∉ n) ∧ Forall (λ x, x ≠ 0) n ∧ (length n ≤ 255)%nat.

Inductive well_named : node → Prop :=
  | well_named_leaf k : well_named (Leaf k)
  | well_named_dir r x es :
      NoDup es.*1 → (∀ e, e ∈ es → valid_name e.1) → (∀ e, e ∈ es → well_named e.2) →
      well_named (Dir r x es).

(** Every directory can be read and searched. *)
Inductive accessible : node → Prop :=
  | accessible_leaf k : accessible (Leaf k)
  | accessible_dir es : (∀ e, e ∈ es → accessible e.2) → accessible (Dir true true es).

Lemma node_induction (P : node → Prop) :
  (∀ k, P (Leaf k)) → (∀ r x es, (∀ e, e ∈ es → P e.2) → P (Dir r x es)) → ∀ t, P t.
Proof.
  intros HL HD. fix IH 1. intros [k|r x es]; [apply HL|]. apply HD.
  induction es as [|[n t] es IHes]; intros e; [by intros []%not_elem_of_nil|].
  intros [->|He]%elem_of_cons; [apply IH|by apply IHes].
Qed.

Lemma height_entry r x es n t : (n, t) ∈ es → (height t < height (Dir r x es))%nat.
Proof.
  simpl. induction es as [|[n' t'] es IH]; [by intros []%not_elem_of_nil|].
  intros [Heq|Hin]%elem_of_cons; simpl; [simplify_eq; lia|]. specialize (IH Hin). lia.
Qed.

Lemma path_room_entry r x es n t :
  (n, t) ∈ es → (length n + path_room t < path_room (Dir r x es))%nat.
Proof.
  simpl. induction es as [|[n' t'] es IH]; [by intros []%not_elem_of_nil|].
  intros [Heq|Hin]%elem_of_cons; simpl; [simplify_eq; lia|]. specialize (IH Hin). lia.
Qed.

Lemma find_entry_elem n t es : NoDup es.*1 → (n, t) ∈ es → find_entry n es = Some t.
Proof.
  induction es as [|[m u] es IH]; simpl; [by intros _ []%not_elem_of_nil|].
  intros [Hm Hnd]%NoDup_cons [Heq|Hin]%elem_of_cons; [simplify_eq; by rewrite decide_True|].
  rewrite decide_False; [auto|]. intros ->. apply Hm. by apply (list_elem_of_fmap_2 fst _ (n, t)).
Qed.

(** ** Paths *)

Lemma split_path_name n : 47 ∉ n → split_path n = [n].
Proof.
  induction n as [|x n IH]; [done|]. intros [Hx Hn]%not_elem_of_cons. simpl.
  rewrite IH by done. by rewrite decide_False.
Qed.

Lemma split_path_ne s : ∃ c cs, split_path s = c :: cs.
Proof.
  induction s as [|x s (c & cs & IH)]; simpl; [by eexists _, _|]. rewrite IH.
  case_decide; by eexists _, _.
Qed.

Lemma split_path_app s n : 47 ∉ n → split_path (s ++ 47 :: n) = split_path s ++ [n].
Proof.
  intros Hn. induction s as [|x s IH]; simpl.
  - by rewrite split_path_name.
  - rewrite IH. destruct (split_path_ne s) as (c & cs & ->). simpl. by case_decide.
Qed.

Lemma path_of_app cwd s n :
  s ≠ [] → 47 ∉ n → path_of cwd (s ++ 47 :: n) = enter (path_of cwd s) n.
Proof.
  intros Hs Hn. unfold path_of. rewrite split_path_app, foldl_app by done. simpl.
  destruct s as [|x s]; [done|]. done.
Qed.

Lemma path_of_child cwd s n :
  s ≠ [] → valid_name n → path_of cwd (s ++ 47 :: n) = path_of cwd s ++ [n].
Proof.
  intros Hs (H1 & H2 & H3 & H4 & _). rewrite path_of_app by done. unfold enter.
  rewrite decide_False by naive_solver. by rewrite decide_False.
Qed.

Lemma path_of_slash cwd s : s ≠ [] → path_of cwd (s ++ [47]) = path_of cwd s.
Proof.
  intros Hs. rewrite path_of_app by (done || by intros []%not_elem_of_nil). unfold enter.
  by rewrite decide_True by auto.
Qed.

Lemma path_of_name cwd n : valid_name n → path_of cwd n = cwd ++ [n].
Proof.
  intros (H1 & H2 & H3 & H4 & _). unfold path_of. rewrite split_path_name by done. simpl.
  assert (match n with 47 :: _ => [] | _ => cwd end = cwd) as ->.
  { destruct n as [|x n]; [done|]. apply not_elem_of_cons in H4 as [H4 _].
    by repeat case_match. }
  unfold enter. rewrite decide_False by naive_solver. by rewrite decide_False.
Qed.

Lemma path_of_dotdot cwd : path_of cwd dotdot = removelast cwd.
Proof. reflexivity. Qed.

Lemma resolve_app t p q : resolve t (p ++ q) = resolve t p ≫= λ t', resolve t' q.
Proof.
  revert t. induction p as [|n p IH]; intros t; [done|]. simpl.
  destruct t as [k|r [] es]; [done| |done]. destruct (find_entry n es); [apply IH|done].
Qed.

(** ** The walk with the path buffer *)

Section Dopath.
Context (fs : node) (alloc_ok : Z → bool) (Halloc : ∀ n, alloc_ok n = true).
Abbreviation dopath := (dopath fs alloc_ok myfunc).

(** The buffer holds the bytes [p] first; it is as long as [pathlen] says, and long
    enough for doubling to be enough. *)
Definition holds (p : list Z) (st : state) : Prop :=
  ∃ rest, fullpath st = Some (p ++ rest) ∧ Z.of_nat (length (p ++ rest)) = pathlen st ∧ 257 ≤ pathlen st.

Lemma holds_app p q st : holds (p ++ q) st → holds p st.
Proof. intros (rest & Hf & H). exists (q ++ rest). by rewrite <- (assoc app) in Hf, H. Qed.

Lemma get_path_holds p st :
  holds (p ++ [0]) st → Forall (λ x, x ≠ 0) p → get_path st = Ok (p, st).
Proof.
  intros (rest & Hf & _) Hp. unfold get_path. rewrite Hf, <- (assoc app). simpl.
  pose proof (cstr_app [] p rest 0 eq_refl Hp) as E. simpl in E. by rewrite E.
Qed.

(** A store behind the bytes [p]. *)
Lemma store_path_holds p d st off :
  holds p st → off = Z.of_nat (length p) → Z.of_nat (length p + length d) ≤ pathlen st →
  ∃ st', store_path off d st = Ok (tt, st') ∧ holds (p ++ d) st' ∧ cnt st' = cnt st ∧
    cwd st' = cwd st ∧ pathlen st' = pathlen st.
Proof.
  intros (rest & Hf & Hlen & H257) -> Hd. unfold store_path. rewrite Hf.
  rewrite length_app in Hlen. rewrite <- (take_drop (length d) rest).
  rewrite bwrite_app by (rewrite ?length_take; lia). eexists. split; [done|].
  split; [|done]. exists (drop (length d) rest). rewrite <- (assoc app). split; [done|].
  rewrite !length_app, length_drop. simpl. lia.
Qed.

(** Making room for a longest name behind [p], a slash and a zero. *)
Lemma grow_holds p st :
  holds (p ++ [0]) st →
  ∃ st', (if decide (Z.of_nat (length p) + NAME_MAX + 2 > pathlen st)
          then now (modify (set_pathlen (pathlen st * 2));; realloc_path alloc_ok) else mret tt) st
      = Some (Ok (tt, st')) ∧ holds (p ++ [0]) st' ∧ cnt st' = cnt st ∧ cwd st' = cwd st ∧
    Z.of_nat (length p) + 257 ≤ pathlen st' ∧ pathlen st ≤ pathlen st'.
Proof.
  intros Hst. pose proof Hst as (rest & Hf & Hlen & H257). unfold NAME_MAX.
  rewrite length_app, length_app in Hlen. simpl in Hlen.
  case_decide.
  - unfold now, realloc_path, modify, mbind, prog_bind, get_st. simpl. rewrite Halloc, Hf.
    eexists. split; [done|]. split; [|split; [done|split; [done|simpl; lia]]].
    eexists. rewrite <- (assoc app). split; [done|].
    simpl. rewrite !length_app, length_replicate. simpl. lia.
  - exists st. split; [done|]. split; [exact Hst|]. split; [done|]. split; [done|lia].
Qed.

(** What a call leaves: the counts, the working directory, and, when it goes on,
    the path. *)
Definition walked (p : list Z) (st : state) (r : Z * counts) (res : option (outcome (Z * state))) : Prop :=
  ∃ st', res = Some (Ok (r.1, st')) ∧ cnt st' = r.2 ∧ cwd st' = cwd st ∧
    holds [] st' ∧ pathlen st ≤ pathlen st' ∧ (r.1 = 0 → holds (p ++ [0]) st').

Definition walks (t : node) : Prop := ∀ f p st,
  (height t < f)%nat → p ≠ [] → Forall (λ x, x ≠ 0) p →
  Z.of_nat (length p + path_room t) < PATH_MAX → holds (p ++ [0]) st →
  resolve fs (path_of (cwd st) p) = Some t → walked p st (tally t (cnt st)) (dopath f st).

(** The loop over the files of a directory that can be searched. *)
Lemma read_loop_walks f p es all st r :
  p ≠ [] → Forall (λ x, x ≠ 0) p → NoDup all.*1 →
  (∀ e, e ∈ es → e ∈ all ∧ valid_name e.1 ∧ (height e.2 < f)%nat ∧
     Z.of_nat (length p + 1 + (length e.1 + path_room e.2)) < PATH_MAX ∧ walks e.2) →
  resolve fs (path_of (cwd st) p) = Some (Dir r true all) →
  holds (p ++ [47]) st → Z.of_nat (length p) + 257 ≤ pathlen st →
  ∃ st', read_loop (dopath f) (Z.of_nat (length p) + 1) es.*1 0 st =
      Some (Ok ((tally_all es (cnt st)).1, st')) ∧
    cnt st' = (tally_all es (cnt st)).2 ∧ cwd st' = cwd st ∧ holds [] st' ∧
    pathlen st ≤ pathlen st' ∧
    ((tally_all es (cnt st)).1 = 0 → holds (p ++ [47]) st').
Proof.
  intros Hp0 Hpz Hnd. revert st. induction es as [|[n t] es IH]; intros st Hes Hres Hst Hlen.
  { exists st. simpl. split_and!; try done. by apply (holds_app [] (p ++ [47])). }
  destruct (Hes (n, t)) as (Hin & Hn & Hh & Hr & Hw); [set_solver|]. simpl in Hn, Hh, Hr, Hw.
  pose proof Hn as (Hn1 & Hn2 & Hn3 & Hn4 & Hn5 & Hn6).
  cbn [fmap list_fmap fst read_loop tally_all]. rewrite decide_False by naive_solver.
  destruct (store_path_holds (p ++ [47]) (n ++ [0]) st (Z.of_nat (length p) + 1)) as (st1 & Hs1 & Hh1 & Hc1 & Hw1 & Hl1).
  { done. } { rewrite length_app. simpl. lia. } { rewrite !length_app. simpl. lia. }
  unfold mbind, lprog_bind, now. rewrite Hs1.
  assert (holds ((p ++ 47 :: n) ++ [0]) st1) as Hh1' by (by rewrite <- !(assoc app) in Hh1 |- *).
  destruct (Hw f (p ++ 47 :: n) st1) as (st2 & Hd & Hc2 & Hw2 & Hh2 & Hl2 & Hok); [done|by destruct p| | |done| |].
  { apply Forall_app. split; [done|]. by constructor. }
  { rewrite length_app. simpl. lia. }
  { rewrite path_of_child, resolve_app, Hw1, Hres by done. simpl.
    by rewrite (find_entry_elem n t all). }
  rewrite Hc1 in Hd, Hc2, Hok. rewrite Hd. destruct (tally t (cnt st)) as [ret c] eqn:Ht. simpl in Hc2, Hok |- *.
  destruct (decide (ret ≠ 0)) as [Hr0|Hr0].
  - exists st2. split; [done|]. simpl. split_and!; [done|congruence|done|lia|done].
  - assert (ret = 0) as -> by (destruct (decide (ret = 0)); [done|by destruct Hr0]).
    pose proof (Hok eq_refl) as Hh3.
    assert (holds (p ++ [47]) st2) as Hh4.
    { apply (holds_app _ (n ++ [0])). by rewrite <- !(assoc app) in Hh3 |- *. }
    destruct (IH st2) as (st3 & Hd3 & Hc3 & Hw3 & Hh5 & Hl5 & Hok3); [|congruence|done| |].
    + intros e He. apply Hes. set_solver.
    + lia.
    + exists st3. rewrite Hc2 in *. rewrite Hd3. split_and!; [done|done|congruence|done|lia|done].
Qed.

Lemma lstat_resolve w p :
  p ≠ [] → Z.of_nat (length p) < PATH_MAX → lstat fs w p = resolve fs (path_of w p).
Proof. intros Hp Hl. unfold lstat. rewrite decide_False by lia. by destruct p. Qed.

(** In a directory that cannot be searched, no file can be reached. *)
Lemma read_loop_stuck f p (es all : list (name * node)) st r :
  p ≠ [] → Forall (λ x, x ≠ 0) p → es ≠ [] → (0 < f)%nat →
  (∀ e, e ∈ es → valid_name e.1 ∧ Z.of_nat (length p + 1 + length e.1) < PATH_MAX) →
  resolve fs (path_of (cwd st) p) = Some (Dir r false all) →
  holds (p ++ [47]) st → Z.of_nat (length p) + 257 ≤ pathlen st →
  ∃ st', read_loop (dopath f) (Z.of_nat (length p) + 1) es.*1 0 st = Some (Ok (-1, st')) ∧
    cnt st' = cnt st ∧ cwd st' = cwd st ∧ holds [] st' ∧ pathlen st ≤ pathlen st'.
Proof.
  intros Hp0 Hpz Hne Hf Hes Hres Hst Hlen. destruct es as [|[n t] es]; [done|].
  destruct f as [|f]; [lia|].
  pose proof (Hes (n, t) ltac:(set_solver)) as [Hn Hr]. simpl in Hn, Hr.
  pose proof Hn as (Hn1 & Hn2 & Hn3 & Hn4 & Hn5 & Hn6).
  cbn [fmap list_fmap fst read_loop]. rewrite decide_False by naive_solver.
  destruct (store_path_holds (p ++ [47]) (n ++ [0]) st (Z.of_nat (length p) + 1)) as (st1 & Hs1 & Hh1 & Hc1 & Hw1 & Hl1).
  { done. } { rewrite length_app. simpl. lia. } { rewrite !length_app. simpl. lia. }
  unfold mbind, lprog_bind, now. rewrite Hs1.
  assert (holds ((p ++ 47 :: n) ++ [0]) st1) as Hh1' by (by rewrite <- !(assoc app) in Hh1 |- *).
  cbn [Catalog.dopath]. unfold mbind, lprog_bind, now, get_st.
  rewrite (get_path_holds (p ++ 47 :: n)) by (done || (apply Forall_app; split; [done|by constructor])).
  rewrite lstat_resolve by ((by destruct p) || (rewrite length_app; simpl; lia)). rewrite path_of_child, resolve_app, Hw1, Hres by done. simpl.
  eexists. split; [done|]. split_and!; [done|done|by apply (holds_app [] ((p ++ 47 :: n) ++ [0]))|lia].
Qed.

Lemma lwp_walked p st r (m : lprog state Z) :
  lwp m (λ a st', a = r.1 ∧ cnt st' = r.2 ∧ cwd st' = cwd st ∧ holds [] st' ∧
    pathlen st ≤ pathlen st' ∧ (r.1 = 0 → holds (p ++ [0]) st')) st →
  walked p st r (m st).
Proof. intros (a & st' & Hm & -> & H). by exists st'. Qed.

(** A store into a buffer of unknown contents. *)
Lemma store_path_any (p d : list Z) st :
  holds [] st → Z.of_nat (length p + length d) ≤ pathlen st →
  ∃ st', store_path (Z.of_nat (length p)) d st = Ok (tt, st') ∧ holds [] st' ∧ cnt st' = cnt st ∧
    cwd st' = cwd st ∧ pathlen st' = pathlen st.
Proof.
  intros (b & Hf & Hlen & H257) Hd. simpl in *. set (q := take (length p) b).
  assert (length q = length p) as Hq by (subst q; rewrite length_take; lia).
  destruct (store_path_holds q d st (Z.of_nat (length p))) as (st' & Hs & Hh & Hrest).
  - exists (drop (length p) b). subst q. by rewrite take_drop.
  - by rewrite Hq.
  - by rewrite Hq.
  - exists st'. split; [done|]. split; [by apply (holds_app [] (q ++ d))|done].
Qed.

(** The result of the loop in a directory [p] that can be read. *)
Definition loop_result (x : bool) (es : list (name * node)) (c : counts) : Z * counts :=
  if x then tally_all es c else (match es with [] => 0 | _ => -1 end, c).

Lemma dir_loop f p (es : list (name * node)) st x :
  p ≠ [] → Forall (λ x, x ≠ 0) p → NoDup es.*1 →
  (∀ e, e ∈ es → valid_name e.1 ∧ (height e.2 < f)%nat ∧
     Z.of_nat (length p + 1 + (length e.1 + path_room e.2)) < PATH_MAX ∧ walks e.2) →
  holds (p ++ [47]) st → Z.of_nat (length p) + 257 ≤ pathlen st →
  resolve fs (path_of (cwd st) p) = Some (Dir true x es) →
  lwp (read_loop (dopath f) (Z.of_nat (length p) + 1) es.*1 0) (λ a st',
    a = (loop_result x es (cnt st)).1 ∧ cnt st' = (loop_result x es (cnt st)).2 ∧
    cwd st' = cwd st ∧ holds [] st' ∧ pathlen st ≤ pathlen st' ∧
    ((loop_result x es (cnt st)).1 = 0 → holds (p ++ [47]) st')) st.
Proof.
  intros Hp0 Hpz Hnd Hes Hst Hlen Hres. destruct x; simpl loop_result.
  - destruct (read_loop_walks f p es es st true) as (st' & Hr & H); try done.
    + intros e He. split; [done|]. by apply Hes.
    + eapply lwp_Ok; [exact Hr|done].
  - destruct es as [|e es].
    + apply lwp_ret. simpl. split_and!; try done. by apply (holds_app [] (p ++ [47])).
    + destruct (read_loop_stuck f p (e :: es) (e :: es) st true) as (st' & Hr & Hc & Hw & Hh & Hl); try done.
      * destruct (Hes e) as (_ & He & _); [set_solver|]. lia.
      * intros e' He'. destruct (Hes e' He') as (? & _ & ? & _). split; [done|lia].
      * eapply lwp_Ok; [exact Hr|]. by split_and!.
Qed.

Lemma dopath_walks t : well_named t → walks t.
Proof.
  induction t as [k|r x es IH] using node_induction; intros Hwn f p st Hf Hp0 Hpz Hroom Hst Hres;
    (destruct f as [|f]; [simpl in Hf; lia|]); apply lwp_walked; cbn [Catalog.dopath];
    apply lwp_bind, lwp_get_st, lwp_bind; (eapply lwp_now_Ok; [by apply (get_path_holds p)|]);
    rewrite lstat_resolve, Hres by (done || lia).
  - eapply lwp_now_Ok; [done|]. simpl. split_and!; try done. by apply (holds_app [] (p ++ [0])).
  - inversion_clear Hwn as [|? ? ? Hnd Hnames Hsub]. rewrite tally_dir.
    apply lwp_bind. eapply lwp_now_Ok; [done|]. rewrite decide_False by lia.
    set (st0 := set_cnt add_dir st).
    destruct (grow_holds p st0) as (st1 & Hg & Hh1 & Hc1 & Hw1 & Hl1 & Hm1); [done|].
    change (pathlen st0) with (pathlen st) in Hm1.
    apply lwp_bind, lwp_get_st, lwp_bind. eapply lwp_Ok; [exact Hg|].
    destruct (store_path_holds p [47] st1 (Z.of_nat (length p))) as (st2 & Hs2 & Hh2 & Hc2 & Hw2 & Hl2);
      [by eapply holds_app|done|simpl; lia|].
    apply lwp_bind. eapply lwp_now_Ok; [exact Hs2|].
    destruct (store_path_holds (p ++ [47]) [0] st2 (Z.of_nat (length p) + 1))
      as (st3 & Hs3 & Hh3 & Hc3 & Hw3 & Hl3); [done|rewrite length_app; simpl; lia|rewrite length_app; simpl; lia|].
    apply lwp_bind. eapply lwp_now_Ok; [exact Hs3|].
    apply lwp_bind, lwp_get_st, lwp_bind.
    eapply lwp_now_Ok; [apply (get_path_holds (p ++ [47])); [done|apply Forall_app; split; [done|by constructor]]|].
    assert (cwd st3 = cwd st) as Hw by (by rewrite Hw3, Hw2, Hw1).
    assert (cnt st3 = add_dir (cnt st)) as Hc by (by rewrite Hc3, Hc2, Hc1).
    unfold opendir. rewrite Hw, lstat_resolve, path_of_slash, Hres by (done || (by destruct p) || (rewrite length_app; simpl in *; lia)).
    destruct r; [|eapply lwp_now_Ok; [done|]; simpl; split_and!; [done|done|done| |simpl in *; lia|done];
      by apply (holds_app [] ((p ++ [47]) ++ [0]))].
    apply lwp_bind. cbn [read_loop]. rewrite !decide_True by auto.
    rewrite <- Hc. eapply lwp_mono.
    { apply (dir_loop f p es st3 x); try done; [|by eapply holds_app|lia|by rewrite Hw].
      intros [n t] He. pose proof (height_entry true x es n t He).
      pose proof (path_room_entry true x es n t He). split; [by apply (Hnames (n, t))|].
      split; [cbn [snd]; lia|]. split; [cbn [fst snd]; lia|by apply (IH (n, t)), (Hsub (n, t))]. }
    intros ret st4 (Hret & Hc4 & Hw4 & Hh4 & Hl4 & Hok).
    destruct (store_path_any p [0] st4 Hh4) as (st5 & Hs5 & Hh5 & Hc5 & Hw5 & Hl5); [simpl in *; lia|].
    apply lwp_bind. eapply lwp_now_Ok; [exact Hs5|]. apply lwp_ret.
    split_and!; [done|by rewrite Hc5|congruence|done|simpl in *; lia|].
    intros Hr. specialize (Hok Hr). pose proof (holds_app _ _ _ Hok) as Hp.
    destruct (store_path_holds p [0] st4 _ Hp eq_refl) as (st6 & Hs6 & Hh6 & _); [simpl in *; lia|].
    rewrite Hs5 in Hs6. by simplify_eq.
Qed.
End Dopath.

(** ** The census of a tree *)

#[export] Instance kind_eq_dec : EqDecision kind.
Proof. solve_decision. Defined.

(** The files of a tree, a directory before what is in it; [None] is a directory. *)
Fixpoint nodes (t : node) : list (option kind) :=
  match t with
  | Leaf k => [Some k]
  | Dir _ _ es => None :: concat (map (λ e, nodes e.2) es)
  end.

(** How many files of a type there are. *)
Definition occurs (k : option kind) (l : list (option kind)) : Z :=
  Z.of_nat (length (filter (λ k', k' = k) l)).

Definition census (l : list (option kind)) (c : counts) : counts :=
  Counts (nreg c + occurs (Some Reg) l) (ndir c + occurs None l) (nblk c + occurs (Some Blk) l)
    (nchr c + occurs (Some Chr) l) (nfifo c + occurs (Some Fifo) l)
    (nslink c + occurs (Some Lnk) l) (nsock c + occurs (Some Sock) l).

Definition total (c : counts) : Z :=
  nreg c + ndir c + nblk c + nchr c + nfifo c + nslink c + nsock c.

Lemma occurs_app k l m : occurs k (l ++ m) = occurs k l + occurs k m.
Proof. unfold occurs. rewrite filter_app, length_app. lia. Qed.

Lemma census_nil c : census [] c = c.
Proof. destruct c. unfold census, occurs. simpl. f_equal; lia. Qed.

Lemma census_app l m c : census (l ++ m) c = census m (census l c).
Proof. destruct c. unfold census. simpl. rewrite !occurs_app. f_equal; lia. Qed.

Lemma census_leaf k c : census [Some k] c = add_kind k c.
Proof. destruct k, c; unfold census, occurs; simpl; f_equal; lia. Qed.

Lemma census_dir l c : census (None :: l) c = census l (add_dir c).
Proof.
  change (None :: l) with ([None] ++ l). rewrite census_app. f_equal.
  destruct c. unfold census, occurs. simpl. f_equal; lia.
Qed.

Lemma occurs_range k l : 0 ≤ occurs k l ≤ Z.of_nat (length l).
Proof. unfold occurs. pose proof (length_filter (λ k', k' = k) l). lia. Qed.

Lemma census_total l c : total (census l c) = total c + Z.of_nat (length l).
Proof.
  revert c. induction l as [|[k|] l IH]; intros c.
  - rewrite census_nil. simpl. lia.
  - change (Some k :: l) with ([Some k] ++ l). rewrite census_app, IH, census_leaf.
    destruct k, c; unfold total; simpl; lia.
  - rewrite census_dir, IH. destruct c; unfold total; simpl; lia.
Qed.

Definition rows (l : list (option kind)) : list (Z * (Z * Z)) :=
  map (λ k, (occurs k l, (occurs k l * 100, Z.of_nat (length l))))
    [Some Reg; None; Some Blk; Some Chr; Some Fifo; Some Lnk; Some Sock].

Lemma occurs_sum l :
  occurs (Some Reg) l + occurs None l + occurs (Some Blk) l + occurs (Some Chr) l +
  occurs (Some Fifo) l + occurs (Some Lnk) l + occurs (Some Sock) l = Z.of_nat (length l).
Proof. pose proof (census_total l no_counts) as H. unfold total in H. simpl in H. lia. Qed.

Lemma report_census l :
  l ≠ [] → Z.of_nat (length l) < 2 ^ 31 →
  report_of (census l no_counts) = (rows l, Z.of_nat (length l)).
Proof.
  intros Hl Hmax. unfold report_of, census. cbn [nreg ndir nblk nchr nfifo nslink nsock no_counts].
  rewrite !Z.add_0_l. unfold print_info.
  rewrite !int32_small by (match goal with |- context [occurs ?k l] => pose proof (occurs_range k l) end; lia).
  rewrite occurs_sum, decide_False by (destruct l; simpl; [done|lia]). done.
Qed.

Lemma rows_census l :
  (rows l).*1 = (λ k, occurs k l) <$> [Some Reg; None; Some Blk; Some Chr; Some Fifo; Some Lnk; Some Sock] ∧
  Forall (λ r, r.2 = (r.1 * 100, Z.of_nat (length l))) (rows l) ∧
  foldr Z.add 0 (rows l).*2.*1 = 100 * Z.of_nat (length l).
Proof.
  split; [done|]. split; [by repeat constructor|]. rewrite <- (occurs_sum l). simpl. lia.
Qed.

Lemma tally_census t c : accessible t → tally t c = (0, census (nodes t) c).
Proof.
  revert c. induction t as [k|r x es IH] using node_induction; intros c Ht.
  - simpl. by rewrite census_leaf.
  - inversion_clear Ht as [|? Hes]. rewrite tally_dir. cbn [nodes]. rewrite census_dir.
    generalize (add_dir c) as c'. clear c. induction es as [|[n t] es IHes]; intros c'; simpl.
    + by rewrite census_nil.
    + rewrite (IH (n, t)) by (set_solver || apply (Hes (n, t)); set_solver). simpl.
      rewrite census_app. apply IHes; intros e He; [apply IH|apply Hes]; set_solver.
Qed.

(** ** [myftw] *)

Lemma myftw_dopath alloc_ok posix xsi path st fuel fs func :
  (∀ n, alloc_ok n = true) → Z.of_nat (length path) < PATH_MAX →
  ∃ st1, myftw fs alloc_ok func posix xsi fuel path st = dopath fs alloc_ok func fuel st1 ∧
    holds (path ++ [0]) st1 ∧ cnt st1 = cnt st ∧ cwd st1 = cwd st.
Proof.
  intros Halloc Hl.
  assert (∃ size, path_alloc alloc_ok posix xsi = (Some (replicate (Z.to_nat size) 0), size) ∧ PATH_MAX ≤ size)
    as (size & Ha & Hsize).
  { unfold path_alloc. rewrite Halloc. eexists. split; [done|]. case_decide; lia. }
  unfold myftw. rewrite Ha. unfold PATH_MAX in *.
  set (st1 := set_pathlen size (set_path (Some (replicate (Z.to_nat size) 0)) st)).
  assert (holds [] st1) as Hh1.
  { exists (replicate (Z.to_nat size) 0). simpl. rewrite length_replicate. split_and!; [done|lia|lia]. }
  destruct (store_path_holds [] (path ++ [0]) st1 0 Hh1 eq_refl) as (st2 & Hs2 & Hh2 & Hc2 & Hw2 & Hl2);
    [rewrite length_app; simpl in *; lia|].
  exists st2. split; [|done].
  unfold mbind, lprog_bind, now, modify. fold st1. cbn -[dopath store_path].
  rewrite decide_False by (simpl; lia). cbn -[dopath store_path]. fold st1. by rewrite Hs2.
Qed.

(** C8: with enough memory, [myftw] of a path to any tree - directories that cannot
    be read or searched among them - with which no path of the walk reaches [PATH_MAX]
    bytes (beyond that the kernel refuses it) counts the files in the order of the walk
    and stops at the first that cannot be reached; it does not fault, so it does not
    write past the path buffer, leaves the working directory alone, and after a full
    walk the buffer holds the given path again. Fuel above the height of the tree is
    enough. *)
Theorem myftw_counts fs alloc_ok posix xsi path t st fuel :
  (∀ n, alloc_ok n = true) →
  path ≠ [] → Forall (λ x, x ≠ 0) path → well_named t →
  resolve fs (path_of (cwd st) path) = Some t →
  Z.of_nat (length path + path_room t) < PATH_MAX → (height t < fuel)%nat →
  ∃ st', myftw fs alloc_ok myfunc posix xsi fuel path st = Some (Ok ((tally t (cnt st)).1, st')) ∧
    cnt st' = (tally t (cnt st)).2 ∧ cwd st' = cwd st ∧
    ((tally t (cnt st)).1 = 0 → get_path st' = Ok (path, st')).
Proof.
  intros Halloc Hp0 Hpz Hwn Hres Hroom Hf.
  destruct (myftw_dopath alloc_ok posix xsi path st fuel fs myfunc) as (st1 & -> & Hh1 & <- & Hw1); try done; [lia|].
  destruct (dopath_walks fs alloc_ok Halloc t Hwn fuel path st1) as (st' & Hd & Hc' & Hw' & _ & _ & Hh'); try done.
  { by rewrite Hw1. }
  exists st'. split_and!; [done|done|by rewrite Hw'|].
  intros Hr. apply get_path_holds; [by apply Hh'|done].
Qed.

(** A failing allocation is reported and the null pointer used all the same. *)
Lemma myftw_no_memory fs func posix xsi path st fuel :
  Z.of_nat (length path) < PATH_MAX →
  myftw fs (λ _, false) func posix xsi fuel path st = Some (Fault NullDeref).
Proof.
  intros Hl. unfold myftw, path_alloc, mbind, lprog_bind, now, modify. cbn -[dopath store_path].
  rewrite decide_False by (case_decide; lia). done.
Qed.

(** ** The walk that changes directories *)

(** The lines [counter] prints, each behind its bars. *)
Fixpoint listing (depth : nat) (s : list Z) (t : node) : list (list Z) :=
  concat (replicate depth [124; 9]) ::
  match t with
  | Leaf k => [bytes "-- " ++ s ++ [10]]
  | Dir _ _ es =>
      (bytes "--" ++ s ++ [47; 10]) :: concat (map (λ e, listing (S depth) e.1 e.2) es)
  end.

(** The working directory after a walk: a directory is left for what is above it. *)
Definition cwd_after (t : node) (w : list name) (s : list Z) : list name :=
  match t with Leaf _ => w | Dir _ _ _ => removelast (path_of w s) end.

Section Mydopath.
Context (fs : node).

Definition my_walks (t : node) : Prop := ∀ f d s st,
  (height t < f)%nat → s ≠ [] → Z.of_nat (length s) < PATH_MAX →
  resolve fs (path_of (cwd st) s) = Some t →
  mydopath fs counter f d s st =
    Some (Ok (0, St (census (nodes t) (cnt st)) (fullpath st) (pathlen st)
                   (cwd_after t (cwd st) s) (out st ++ listing d s t))).

Lemma find_entry_in n es t : find_entry n es = Some t → (n, t) ∈ es.
Proof.
  induction es as [|[m u] es IH]; simpl; [done|]. case_decide; [intros; simplify_eq; by left|].
  intros Hn. right. by apply IH.
Qed.

Lemma resolve_accessible u p t : accessible u → resolve u p = Some t → accessible t.
Proof.
  revert u. induction p as [|n p IH]; intros u Hu; simpl; [by intros [= <-]|].
  destruct Hu as [k|es Hes]; [done|]. destruct (find_entry n es) as [u|] eqn:Hn; [|done].
  apply IH, (Hes (n, u)). by apply find_entry_in.
Qed.

(** What is above a directory can be entered. *)
Lemma resolve_parent p es :
  accessible fs → resolve fs p = Some (Dir true true es) →
  ∃ es', resolve fs (removelast p) = Some (Dir true true es').
Proof.
  intros Hfs Hp. destruct p as [|n p _] using rev_ind; [by exists es|].
  rewrite removelast_last. rewrite resolve_app in Hp.
  destruct (resolve fs p) as [u|] eqn:Hu; [|done].
  destruct (resolve_accessible _ _ _ Hfs Hu); [done|by eexists].
Qed.

Lemma chdir_ok s st es :
  s ≠ [] → Z.of_nat (length s) < PATH_MAX →
  resolve fs (path_of (cwd st) s) = Some (Dir true true es) →
  chdir fs s st = Ok (tt, set_cwd (path_of (cwd st) s) st).
Proof.
  intros Hs Hl Hres. unfold chdir, mbind, prog_bind, get_st.
  by rewrite lstat_resolve, Hres by done.
Qed.

Lemma my_read_loop_walks f d (es all : list (name * node)) st :
  accessible fs → resolve fs (cwd st) = Some (Dir true true all) → NoDup all.*1 →
  (∀ e, e ∈ es → e ∈ all ∧ valid_name e.1 ∧ (height e.2 < f)%nat ∧ my_walks e.2) →
  my_read_loop (mydopath fs counter f d) es.*1 0 st =
    Some (Ok (0, St (census (concat (map (λ e, nodes e.2) es)) (cnt st)) (fullpath st) (pathlen st)
                   (cwd st) (out st ++ concat (map (λ e, listing d e.1 e.2) es)))).
Proof.
  intros Hfs Hw Hnd. revert st Hw. induction es as [|[n t] es IH]; intros st Hw Hes.
  { simpl. rewrite census_nil, app_nil_r. by destruct st. }
  destruct (Hes (n, t)) as (Hin & Hn & Hh & Ht); [set_solver|]. simpl in Hn, Hh, Ht.
  pose proof Hn as (Hn1 & Hn2 & Hn3 & Hn4 & Hn5 & Hn6).
  cbn [fmap list_fmap fst my_read_loop]. rewrite decide_False by congruence.
  rewrite decide_False by naive_solver. unfold mbind, lprog_bind.
  rewrite (Ht f d n st); [|done|done|unfold PATH_MAX; lia| ].
  2: { rewrite path_of_name, resolve_app, Hw by done. simpl. by rewrite (find_entry_elem n t all). }
  assert (cwd_after t (cwd st) n = cwd st) as ->.
  { destruct t; [done|]. simpl. by rewrite path_of_name, removelast_last. }
  rewrite IH; [|done|intros e He; apply Hes; set_solver].
  simpl. by rewrite census_app, <- (assoc app).
Qed.

Lemma mydopath_walks t : accessible fs → well_named t → my_walks t.
Proof.
  intros Hfs. induction t as [k|r x es IH] using node_induction; intros Hwn f d s st Hf Hs Hl Hres;
    (destruct f as [|f]; [simpl in Hf; lia|]); cbn [mydopath]; unfold mbind, lprog_bind, now at 1; simpl;
    rewrite lstat_resolve, Hres by done; unfold now, modify; simpl.
  - rewrite census_leaf. destruct st. unfold mbind, prog_bind. cbn. unfold set_cnt, print, mret, prog_ret. simpl. by rewrite <- (assoc app).
  - pose proof (resolve_accessible _ _ _ Hfs Hres) as Ht. inversion Ht as [|? Hes]; subst.
    inversion_clear Hwn as [|? ? ? Hnd Hnames Hsub].
    unfold opendir. simpl. rewrite lstat_resolve, Hres by done.
    set (st1 := set_cnt add_dir _).
    rewrite (chdir_ok s st1 es) by done. cbn [my_read_loop].
    rewrite !decide_False by congruence. rewrite !decide_True by auto.
    rewrite (my_read_loop_walks f (S d) es es); [|done|done|done|].
    2: { intros [n t] He. pose proof (height_entry true true es n t He).
      split_and!; [done|by apply (Hnames (n, t))|simpl in *; lia|by apply (IH (n, t)), (Hsub (n, t))]. }
    destruct (resolve_parent _ es Hfs Hres) as [es' Hup].
    rewrite (chdir_ok dotdot _ es') by (done || exact Hup).
    cbn [nodes]. rewrite census_dir. unfold set_cwd. simpl. by rewrite <- !(assoc app).
Qed.
End Mydopath.

(** In a file system whose directories can all be read and entered, [my_myftw]
    returns 0, counts every file of the tree once by its type, prints every file
    once, a directory before what is in it and with a bar for every level, and leaves
    the process in the directory above the given one. *)
Theorem my_myftw_census fs path t st fuel :
  accessible fs → well_named t → path ≠ [] → Z.of_nat (length path) < PATH_MAX →
  resolve fs (path_of (cwd st) path) = Some t → (height t < fuel)%nat →
  my_myftw fs counter fuel path st =
    Some (Ok (0, St (census (nodes t) (cnt st)) (fullpath st) (pathlen st)
                   (cwd_after t (cwd st) path) (out st ++ listing 0 path t))).
Proof. intros. by apply mydopath_walks. Qed.

(** C29: the program, given a path into a file system whose directories can all be
    read and entered, with enough memory and no path of the walk of [PATH_MAX] bytes,
    exits with 0 and both walkers report the same: each counter is
    the number of files of its type in the tree, the counters add up to the total,
    which is the number of files, and the shares to 100 percent - as long as there
    are fewer than 2^31 files. *)
Theorem main_reports fs alloc_ok posix xsi prog_name path t st fuel :
  (∀ n, alloc_ok n = true) → accessible fs → well_named t →
  path ≠ [] → Forall (λ x, x ≠ 0) path →
  Z.of_nat (length path + path_room t) < PATH_MAX →
  resolve fs (path_of (cwd st) path) = Some t → (height t < fuel)%nat → cnt st = no_counts →
  Z.of_nat (length (nodes t)) < 2 ^ 31 →
  ∃ st' rows, main fs alloc_ok posix xsi fuel [prog_name; path] st =
      Some (Ok (0, [(rows, Z.of_nat (length (nodes t))); (rows, Z.of_nat (length (nodes t)))], st')) ∧
    rows.*1 = (λ k, occurs k (nodes t)) <$>
      [Some Reg; None; Some Blk; Some Chr; Some Fifo; Some Lnk; Some Sock] ∧
    Forall (λ r, r.2 = (r.1 * 100, Z.of_nat (length (nodes t)))) rows ∧
    foldr Z.add 0 rows.*2.*1 = 100 * Z.of_nat (length (nodes t)).
Proof.
  intros Halloc Hfs Hwn Hp0 Hpz Hroom Hres Hf Hc Hmax.
  destruct (myftw_dopath alloc_ok posix xsi path st fuel fs myfunc) as (st0 & E0 & Hh0 & Hc0 & Hw0); try done; [lia|].
  destruct (dopath_walks fs alloc_ok Halloc t Hwn fuel path st0) as (st1 & H1 & Hc1 & Hw1 & _); try done.
  { by rewrite Hw0. }
  rewrite Hc0, Hc, tally_census in H1, Hc1 by by eapply resolve_accessible.
  cbn [main]. unfold mbind, lprog_bind. rewrite E0, H1. cbn -[my_myftw report_of census].
  unfold my_myftw. rewrite (mydopath_walks fs t Hfs Hwn fuel 0%nat path); [|done|done|lia|].
  2: { cbn. by rewrite Hw1, Hw0. }
  cbn -[report_of census]. rewrite Hc1. cbn [snd]. rewrite report_census by (done || by destruct t).
  eexists _, _. split; [reflexivity|]. apply rows_census.
Qed.

(** ** On a small tree *)

Definition home : node :=
  Dir true true [(bytes "a", Leaf Reg); (bytes "d", Dir true true [(bytes "l", Leaf Lnk); (bytes "p", Leaf Fifo)]);
                 (bytes "e", Dir true true [])].
Definition disk : node := Dir true true [(bytes "home", home)].
Definition at_start : state := St no_counts None 128 [] [].

#[local] Ltac entries :=
  let e := fresh in let He := fresh in
  intros e He; repeat (apply elem_of_cons in He as [->|He]); [..|by apply not_elem_of_nil in He]; cbn [fst snd].
#[local] Ltac entry_name := unfold valid_name; decided.

Lemma home_well_named : well_named home.
Proof.
  repeat (apply well_named_leaf ||
    (apply well_named_dir; [decided|entries; entry_name|entries])).
Qed.

Lemma disk_accessible : accessible disk.
Proof. repeat (apply accessible_leaf || (apply accessible_dir; entries)). Qed.

Lemma myftw_counts_witness :
  ∃ st', myftw disk (λ _, true) myfunc 200809 700 3 (bytes "/home") at_start = Some (Ok (0, st')) ∧
    cnt st' = Counts 1 3 0 0 1 1 0 ∧ get_path st' = Ok (bytes "/home", st').
Proof.
  assert (Forall (λ x : Z, x ≠ 0) (bytes "/home")) as Hpz by (decided).
  destruct (myftw_counts disk (λ _, true) 200809 700 (bytes "/home") home at_start 3
    (λ _, eq_refl) ltac:(done) Hpz home_well_named eq_refl eq_refl ltac:(simpl; lia)) as (st' & H1 & H2 & _ & H3).
  exists st'. split; [exact H1|]. split; [exact H2|]. exact (H3 eq_refl).
Defined.

Lemma my_myftw_census_witness :
  ∃ out', my_myftw disk counter 3 (bytes "home") at_start =
    Some (Ok (0, St (Counts 1 3 0 0 1 1 0) None 128 [] out')) ∧
  out' = [ []; bytes "--home/" ++ [10];
           [124; 9]; bytes "-- a" ++ [10];
           [124; 9]; bytes "--d/" ++ [10];
           [124; 9; 124; 9]; bytes "-- l" ++ [10];
           [124; 9; 124; 9]; bytes "-- p" ++ [10];
           [124; 9]; bytes "--e/" ++ [10] ].
Proof.
  eexists. split; [|reflexivity].
  refine (my_myftw_census disk (bytes "home") home at_start 3 disk_accessible home_well_named _ _ _ _);
    [done|done|reflexivity|simpl; lia].
Defined.

Lemma main_reports_witness :
  ∃ st' rows, main disk (λ _, true) 200809 700 3 [bytes "app"; bytes "home"] at_start =
      Some (Ok (0, [(rows, 6); (rows, 6)], st')) ∧ rows.*1 = [1; 3; 0; 0; 1; 1; 0].
Proof.
  assert (Forall (λ x : Z, x ≠ 0) (bytes "home")) as Hpz by (decided).
  destruct (main_reports disk (λ _, true) 200809 700 (bytes "app") (bytes "home") home at_start 3
    (λ _, eq_refl) disk_accessible home_well_named ltac:(done) Hpz eq_refl eq_refl ltac:(simpl; lia) eq_refl eq_refl)
    as (st' & rows & H1 & H2 & _).
  exists st', rows. split; [exact H1|exact H2].
Defined.

(** A directory that can be read but not entered makes [my_myftw] lose its place:
    the failing [chdir] is not noticed, the [chdir] up is made all the same, and the
    next file is looked for one level too high. [myftw] counts both. *)
Definition closed_disk : node :=
  Dir true true [(bytes "home", Dir true true [(bytes "c", Dir true false []); (bytes "z", Leaf Reg)])].

Example mydopath_loses_its_place :
  (λ r, (λ o, match o with Ok (ret, st) => Some (ret, cnt st) | _ => None end) <$> r)
    (my_myftw closed_disk counter 3 (bytes "home") at_start)
    = Some (Some (-1, Counts 0 2 0 0 0 0 0)) ∧
  (λ r, (λ o, match o with Ok (ret, st) => Some (ret, cnt st) | _ => None end) <$> r)
    (myftw closed_disk (λ _, true) myfunc 200809 700 3 (bytes "home") at_start)
    = Some (Some (0, Counts 1 2 0 0 0 0 0)).
Proof. split; vm_compute; reflexivity. Qed.
