(* ===== verification/Posix.v ===== *)
(** * Files, open files and streams

    What the programs of 8/open_file use of the system and of the C library: a
    table of open files, each with a position of its own, and buffered streams
    over file descriptors. Reads and writes of regular files do not fail; the
    access modes, which the programs respect, are not kept. *)

From S2P Require Import Prelude.
From stdpp Require Import options.
#[local] Set Default Proof Using "Type*".
Local Open Scope Z_scope.

(** ** State *)

(** [struct file]: made by [open], one for every call. *)
Record open_file := OpenFile { f_inode : Z; f_pos : Z; f_append : bool }.

(** [FILE]: [s_buf] are the bytes read and not yet taken, or put and not yet
    written. *)
Record stream := Stream { s_fd : Z; s_size : Z; s_buf : list Z }.

(** The directory, the contents of the inodes, the descriptors and streams of the
    process (a closed stream is [None]), its static [statbuf] (inode number and
    size), and the bytes on its standard output. *)
Record sys := Sys {
  names : gmap string Z;
  inodes : gmap Z (list Z);
  fds : gmap Z open_file;
  streams : list (option stream);
  statbuf : Z * Z;
  out : list Z
}.

Definition set_inodes g s := Sys (names s) (g (inodes s)) (fds s) (streams s) (statbuf s) (out s).
Definition set_fds g s := Sys (names s) (inodes s) (g (fds s)) (streams s) (statbuf s) (out s).
Definition set_streams g s := Sys (names s) (inodes s) (fds s) (g (streams s)) (statbuf s) (out s).
Definition set_statbuf b s := Sys (names s) (inodes s) (fds s) (streams s) b (out s).
Definition add_name n i s :=
  Sys (<[n := i]> (names s)) (<[i := []]> (inodes s)) (fds s) (streams s) (statbuf s) (out s).
Definition emit (d : list Z) s := Sys (names s) (inodes s) (fds s) (streams s) (statbuf s) (out s ++ d).

Definition set_pos (p : Z) (f : open_file) : open_file := OpenFile (f_inode f) p (f_append f).
Definition set_buf (b : list Z) (fs : stream) : stream := Stream (s_fd fs) (s_size fs) b.

(** ** System calls *)

(** The lowest descriptor from [fd] on that is free. *)
Fixpoint lowest_fd (fuel : nat) (fd : Z) (t : gmap Z open_file) : Z :=
  match fuel with
  | O => fd
  | S fuel => match t !! fd with Some _ => lowest_fd fuel (fd + 1) t | None => fd end
  end.
Definition new_fd (t : gmap Z open_file) : Z := lowest_fd (S (size t)) 3 t.

Record oflags := OFlags { o_append : bool; o_creat : bool; o_trunc : bool }.
Definition O_RDONLY : oflags := OFlags false false false.
Definition O_RDWR_APPEND : oflags := OFlags true false false.

(** Opening the inode [i]. *)
Definition open_inode (i : Z) (fl : oflags) : prog sys Z :=
  s ← get_st;
  let fd := new_fd (fds s) in
  (if o_trunc fl then modify (set_inodes (<[i := []]>)) else mret tt);;
  modify (set_fds (<[fd := OpenFile i 0 (o_append fl)]>));;
  mret fd.

Definition open (name : string) (fl : oflags) : prog sys Z :=
  s ← get_st;
  match names s !! name with
  | Some i => open_inode i fl
  | None =>
      if o_creat fl then
        let i := fresh (dom (inodes s)) in
        modify (add_name name i);; open_inode i fl
      else mret (-1)
  end.

Definition contents (s : sys) (i : Z) : list Z := default [] (inodes s !! i).

(** [read]: [None] is -1, otherwise the bytes that were read. *)
Definition read (fd : Z) (n : nat) : prog sys (option (list Z)) :=
  s ← get_st;
  match fds s !! fd with
  | None => mret None
  | Some f =>
      let d := take n (drop (Z.to_nat (f_pos f)) (contents s (f_inode f))) in
      modify (set_fds (<[fd := set_pos (f_pos f + Z.of_nat (length d)) f]>));;
      mret (Some d)
  end.

(** The contents after a write at [pos]: a gap is filled with zeros. *)
Definition overwrite (c : list Z) (pos : nat) (d : list Z) : list Z :=
  take pos c ++ replicate (pos - length c) 0 ++ d ++ drop (pos + length d) c.

Definition write (fd : Z) (d : list Z) : prog sys Z :=
  s ← get_st;
  match fds s !! fd with
  | None => mret (-1)
  | Some f =>
      let c := contents s (f_inode f) in
      let pos := if f_append f then Z.of_nat (length c) else f_pos f in
      modify (set_inodes (<[f_inode f := overwrite c (Z.to_nat pos) d]>));;
      modify (set_fds (<[fd := set_pos (pos + Z.of_nat (length d)) f]>));;
      mret (Z.of_nat (length d))
  end.

(** [write] to descriptor 1, and characters sent to [stdout]. *)
Definition write_stdout (d : list Z) : prog sys unit := modify (emit d).

Definition close (fd : Z) : prog sys unit := modify (set_fds (delete fd)).

(** [stat(name, &statbuf)]: a failing call leaves the structure alone. *)
Definition stat (name : string) : prog sys unit :=
  s ← get_st;
  match names s !! name with
  | Some i => modify (set_statbuf (i, Z.of_nat (length (contents s i))))
  | None => mret tt
  end.

(** ** Streams *)

(** The buffer the library makes: a block of the file system. *)
Definition BUFSIZ : Z := 4096.

(** A [FILE *] is an index, or NULL. *)
Abbreviation file := (option nat).

Definition fdopen (fd : Z) : prog sys file :=
  s ← get_st;
  match fds s !! fd with
  | None => mret None
  | Some _ =>
      modify (set_streams (λ l, l ++ [Some (Stream fd BUFSIZ [])]));;
      mret (Some (length (streams s)))
  end.

Definition fopen (name : string) (fl : oflags) : prog sys file :=
  fd ← open name fl; fdopen fd.
Definition mode_w : oflags := OFlags false true true.
Definition mode_a : oflags := OFlags true true false.

(** What a [FILE *] points to. *)
Definition get_stream (fs : file) : prog sys (nat * stream) := λ s,
  match fs with
  | None => Fault NullDeref
  | Some i => match streams s !! i with Some (Some st) => Ok ((i, st), s) | _ => Fault UseAfterFree end
  end.
Definition put_stream (i : nat) (st : option stream) : prog sys unit :=
  modify (set_streams (<[i := st]>)).

(** [setvbuf(fs, buf, _IOFBF, size)], before any other use of the stream. *)
Definition setvbuf (fs : file) (size : Z) : prog sys unit :=
  '(i, st) ← get_stream fs; put_stream i (Some (Stream (s_fd st) size [])).

(** [fscanf(fs, "%c", &c)]: [Some c] when it returns 1, [None] for EOF. *)
Definition fscanf_c (fs : file) : prog sys (option Z) :=
  '(i, st) ← get_stream fs;
  match s_buf st with
  | c :: b => put_stream i (Some (set_buf b st));; mret (Some c)
  | [] =>
      d ← read (s_fd st) (Z.to_nat (s_size st));
      match d with
      | Some (c :: b) => put_stream i (Some (set_buf b st));; mret (Some c)
      | _ => mret None
      end
  end.

Definition fflush (i : nat) (st : stream) : prog sys unit :=
  _ ← write (s_fd st) (s_buf st); put_stream i (Some (set_buf [] st)).

(** [fprintf(fs, "%c", c)]: a full buffer is written first. *)
Definition fprintf_c (fs : file) (c : Z) : prog sys unit :=
  '(i, st) ← get_stream fs;
  (if decide (s_size st <= Z.of_nat (length (s_buf st))) then fflush i st else mret tt);;
  '(i, st) ← get_stream fs;
  put_stream i (Some (set_buf (s_buf st ++ [c]) st)).

(** [fclose] of a stream that was written. *)
Definition fclose (fs : file) : prog sys unit :=
  '(i, st) ← get_stream fs;
  fflush i st;;
  close (s_fd st);;
  put_stream i None.

(** ** The types of the state *)

(** Names and open files refer to inodes, positions are natural, and the buffers
    of the streams hold no more than their size. *)
Record well_typed (s : sys) : Prop := {
  wt_names n i : names s !! n = Some i → is_Some (inodes s !! i);
  wt_files fd f : fds s !! fd = Some f → is_Some (inodes s !! f_inode f) ∧ 0 ≤ f_pos f;
  wt_streams i st : streams s !! i = Some (Some st) →
    0 < s_size st ∧ Z.of_nat (length (s_buf st)) ≤ s_size st
}.

(** [m] leaves a well-typed state, whether it is run to its end or not at all. *)
Definition typed {A} (m : prog sys A) : Prop := ∀ s a s', well_typed s → m s = Ok (a, s') → well_typed s'.

Lemma typed_ret {A} (a : A) : typed (mret a).
Proof. intros s a' s' Hs [= _ <-]. done. Qed.

Lemma typed_bind {A B} (m : prog sys A) (k : A → prog sys B) :
  typed m → (∀ a, typed (k a)) → typed (m ≫= k).
Proof. intros Hm Hk s b s' Hs (a & s1 & H1 & H2)%prog_bind_Ok. eapply Hk; [|done]. by eapply Hm. Qed.

Lemma typed_modify (g : sys → sys) : (∀ s, well_typed s → well_typed (g s)) → typed (modify g).
Proof. intros Hg s [] s' Hs [= <-]. auto. Qed.

(** A computation whose continuation may use what the state is. *)
Lemma typed_get {A} (k : sys → prog sys A) :
  (∀ s a s', well_typed s → k s s = Ok (a, s') → well_typed s') → typed (get_st ≫= k).
Proof. intros Hk s a s' Hs (s1 & s2 & [= <- <-] & H)%prog_bind_Ok. eauto. Qed.

Lemma lowest_fd_free fuel fd t :
  (∃ k, (k < fuel)%nat ∧ t !! (fd + Z.of_nat k) = None) → t !! lowest_fd fuel fd t = None.
Proof.
  revert fd. induction fuel as [|fuel IH]; intros fd (k & Hk & Hn); [lia|]. simpl.
  destruct (t !! fd) as [f|] eqn:Hf; [|done]. apply IH. destruct k as [|k].
  - rewrite Z.add_0_r in Hn. congruence.
  - exists k. split; [lia|]. by replace (fd + 1 + Z.of_nat k) with (fd + Z.of_nat (S k)) by lia.
Qed.

(** The descriptor of a new open file was free. *)
Lemma new_fd_free t : t !! new_fd t = None.
Proof.
  apply lowest_fd_free.
  destruct (decide (Forall (λ k, is_Some (t !! (3 + Z.of_nat k))) (seq 0 (S (size t))))) as [Hall|Hex].
  2: { apply not_Forall_Exists, Exists_exists in Hex as (k & Hk%elem_of_seq & Hn); [|apply _].
    exists k. split; [lia|]. by apply eq_None_not_Some. }
  rewrite Forall_forall in Hall. exfalso.
  assert (size (list_to_set ((λ k, (3 + Z.of_nat k)%Z) <$> seq 0 (S (size t))) : gset Z) ≤ size (dom t))%nat as Hsz.
  { apply subseteq_size. intros x. rewrite elem_of_list_to_set, list_elem_of_fmap.
    intros (k & -> & Hk%elem_of_seq). apply elem_of_dom, (Hall k), elem_of_seq. lia. }
  rewrite size_list_to_set, length_fmap, length_seq, size_dom in Hsz; [lia|].
  apply NoDup_fmap; [|apply NoDup_seq]. intros x y. lia.
Qed.

(** ** Every operation is typed *)

Lemma well_typed_inodes s i c :
  well_typed s → well_typed (set_inodes (<[i := c]>) s).
Proof.
  intros [Hn Hf Hs]. split; simpl; [intros n j Hj|intros fd f Hfd|done].
  - destruct (decide (j = i)) as [->|]; [rewrite lookup_insert_eq; eauto|rewrite lookup_insert_ne by done; eauto].
  - destruct (Hf fd f Hfd) as [Hi Hp]. split; [|done].
    destruct (decide (f_inode f = i)) as [->|];
      [rewrite lookup_insert_eq; eauto|rewrite lookup_insert_ne by done; eauto].
Qed.

Lemma well_typed_fds s fd f :
  well_typed s → is_Some (inodes s !! f_inode f) → 0 ≤ f_pos f →
  well_typed (set_fds (<[fd := f]>) s).
Proof.
  intros [Hn Hf Hs] Hi Hp. split; simpl; [done| |done]. intros fd' f' [[<- <-]|[_ H]]%lookup_insert_Some; eauto.
Qed.

Lemma well_typed_streams s i st :
  well_typed s → (∀ st', st = Some st' → 0 < s_size st' ∧ Z.of_nat (length (s_buf st')) ≤ s_size st') →
  well_typed (set_streams (<[i := st]>) s).
Proof.
  intros [Hn Hf Hs] Hst. split; simpl; [done|done|].
  intros j st' [(<- & -> & _)|[_ H]]%list_lookup_insert_Some; eauto.
Qed.

Lemma typed_open_inode i fl s a s' :
  well_typed s → is_Some (inodes s !! i) → open_inode i fl s = Ok (a, s') → well_typed s'.
Proof.
  intros Hs Hi H. unfold open_inode, mbind, prog_bind, get_st, modify, mret, prog_ret in H.
  destruct (o_trunc fl); simplify_eq/=; apply (well_typed_fds _ _ (OpenFile i 0 _)); simpl; try done.
  - by apply well_typed_inodes.
  - rewrite lookup_insert_eq. eauto.
Qed.

Lemma typed_open name fl : typed (open name fl).
Proof.
  apply typed_get. intros s a s' Hs. destruct (names s !! name) as [i|] eqn:Hn.
  { apply typed_open_inode; [done|by eapply (wt_names s)]. }
  destruct (o_creat fl); [|by intros [= _ <-]]. set (i := fresh _).
  change (open_inode i fl (add_name name i s) = Ok (a, s') → well_typed s').
  apply typed_open_inode; [|simpl; rewrite lookup_insert_eq; eauto].
  destruct (well_typed_inodes s i [] Hs) as [H1 H2 H3]. split; simpl in *; [|done|done].
  intros n j [[<- <-]|[_ Hj]]%lookup_insert_Some; [rewrite lookup_insert_eq; eauto|eauto].
Qed.

Lemma typed_read fd n : typed (read fd n).
Proof.
  apply typed_get. intros s a s' Hs. destruct (fds s !! fd) as [f|] eqn:Hf; [|by intros [= _ <-]].
  destruct (wt_files s Hs fd f Hf) as [Hi Hp]. unfold mbind, prog_bind, modify.
  intros [= _ <-]. apply well_typed_fds; simpl; [done|done|lia].
Qed.

Lemma typed_write fd d : typed (write fd d).
Proof.
  apply typed_get. intros s a s' Hs. destruct (fds s !! fd) as [f|] eqn:Hf; [|by intros [= _ <-]].
  destruct (wt_files s Hs fd f Hf) as [Hi Hp]. unfold mbind, prog_bind, modify.
  intros [= _ <-]. apply well_typed_fds; simpl; [by apply well_typed_inodes| |destruct (f_append f); lia].
  rewrite lookup_insert_eq. eauto.
Qed.

Lemma typed_put_stream i st :
  (∀ st', st = Some st' → 0 < s_size st' ∧ Z.of_nat (length (s_buf st')) ≤ s_size st') →
  typed (put_stream i st).
Proof. intros Hst. apply typed_modify. intros s Hs. by apply well_typed_streams. Qed.

(** What a stream of a well-typed state is like. *)
Lemma typed_get_stream {A} fs (k : nat * stream → prog sys A) :
  (∀ i st, 0 < s_size st → Z.of_nat (length (s_buf st)) ≤ s_size st → typed (k (i, st))) →
  typed (get_stream fs ≫= k).
Proof.
  intros Hk s a s' Hs ([i st] & s1 & H1 & H2)%prog_bind_Ok. unfold get_stream in H1.
  destruct fs as [j|]; [|done]. destruct (streams s !! j) as [[st'|]|] eqn:Hj; simplify_eq.
  destruct (wt_streams _ Hs _ _ Hj). by eapply Hk.
Qed.

Lemma typed_close fd : typed (close fd).
Proof.
  apply typed_modify. intros s [H1 H2 H3]. split; simpl; [done| |done].
  intros fd' f [_ Hf]%lookup_delete_Some. eauto.
Qed.

Lemma typed_stat name : typed (stat name).
Proof. apply typed_get. intros s a s' [H1 H2 H3]. destruct (names s !! name); intros [= _ <-]; by split. Qed.

Lemma typed_fdopen fd : typed (fdopen fd).
Proof.
  apply typed_get. intros s a s' [H1 H2 H3]. destruct (fds s !! fd); intros [= _ <-]; [|by split].
  split; simpl; [done|done|]. intros i st [Hi|[_ Hi]]%lookup_app_Some; [eauto|].
  apply list_lookup_singleton_Some in Hi as [_ [= <-]]. simpl. unfold BUFSIZ. lia.
Qed.

Lemma typed_setvbuf fs size : 0 < size → typed (setvbuf fs size).
Proof.
  intros Hsize. apply typed_get_stream. intros i st _ _. apply typed_put_stream.
  intros ? [= <-]. simpl. lia.
Qed.

(** [read] gives no more than it was asked for. *)
Lemma read_length fd n s d s' : read fd n s = Ok (Some d, s') → (length d ≤ n)%nat.
Proof.
  unfold read, mbind, prog_bind, get_st. destruct (fds s !! fd) as [f|]; [|done].
  intros [= <- _]. rewrite length_take. lia.
Qed.

Lemma typed_fscanf_c fs : typed (fscanf_c fs).
Proof.
  apply typed_get_stream. intros i st H0 Hb. cbv beta iota. destruct (s_buf st) as [|c b] eqn:Hst.
  - intros s a s' Hs (d & s1 & Hr & Hk)%prog_bind_Ok. pose proof (typed_read _ _ _ _ _ Hs Hr) as Hs1.
    destruct d as [[|c b]|]; [by injection Hk as _ <-| |by injection Hk as _ <-]. apply read_length in Hr. simpl in Hr.
    eapply typed_bind; [apply typed_put_stream|intros; apply typed_ret|exact Hs1|exact Hk].
    intros ? [= <-]. simpl. lia.
  - apply typed_bind; [|intros; apply typed_ret]. apply typed_put_stream. intros ? [= <-]. simpl in *. lia.
Qed.

Lemma typed_fflush i st : 0 < s_size st → typed (fflush i st).
Proof.
  intros H. apply typed_bind; [apply typed_write|]. intros _. apply typed_put_stream.
  intros ? [= <-]. simpl. lia.
Qed.

Lemma typed_fclose fs : typed (fclose fs).
Proof.
  apply typed_get_stream. intros i st H _. apply typed_bind; [by apply typed_fflush|intros _].
  apply typed_bind; [apply typed_close|intros _]. by apply typed_put_stream.
Qed.

Lemma write_streams fd d s n s' : write fd d s = Ok (n, s') → streams s' = streams s.
Proof.
  unfold write, mbind, prog_bind, get_st. destruct (fds s !! fd); by intros [= _ <-].
Qed.

Lemma typed_fprintf_c fs c : typed (fprintf_c fs c).
Proof.
  intros s [] s' Hs ([i st] & s1 & Hg & H)%prog_bind_Ok. unfold get_stream in Hg.
  destruct fs as [j|]; [|done]. destruct (streams s !! j) as [[st'|]|] eqn:Hj; simplify_eq.
  destruct (wt_streams _ Hs _ _ Hj) as [H0 Hb]. apply prog_bind_Ok in H as ([] & s1' & Hfl & H).
  assert (well_typed s1' ∧ ∃ st', streams s1' !! i = Some (Some st') ∧ s_size st' = s_size st ∧
    Z.of_nat (length (s_buf st')) < s_size st) as (Hs1 & st' & Hi & Hsz & Hlt).
  { case_decide; [|injection Hfl as <-; split; [done|]; exists st; split_and!; [done|done|lia]].
    split; [by eapply typed_fflush|]. apply prog_bind_Ok in Hfl as (n & s2 & Hw & [= <-]).
    exists (set_buf [] st). simpl. rewrite (write_streams _ _ _ _ _ Hw).
    rewrite list_lookup_insert_eq by (by eapply lookup_lt_Some). split_and!; [done|done|lia]. }
  unfold mbind, prog_bind, get_stream in H. rewrite Hi in H.
  eapply typed_put_stream; [|exact Hs1|exact H]. intros ? [= <-]. simpl. rewrite length_app. simpl. lia.
Qed.
