(* ===== verification/Pthread.v ===== *)
(** * Programs with two threads

    The threaded programs of 8/open_file share a [main]: it creates two threads
    with [pthread_create], joins both, and finishes up. Creating a thread may
    fail; joining one that was created does not. What the process does at its end with
    streams that are still open is left out: those of 1_thread.c are only read from. *)

From S2P Require Import Prelude.
From stdpp Require Import options.
#[local] Set Default Proof Using "Type*".

Section Workers.
Context {T S : Type}.
(** The state in which thread [i] starts, its next action, if it has not ended,
    and what [main] does after the joins. *)
Context (start : nat → T) (next : nat → T → option (prog S T)) (finish : prog S unit).

Inductive main_pc := Create (i : nat) | Join (i : nat) | Exit (code : Z).

(** When [main] returns, the process and its threads end. *)
Inductive config :=
  | Run (pc : main_pc) (ts : list T) (s : S)
  | Crash (f : fault).

Inductive step : config → config → Prop :=
  | step_create i ts s : (i < 2)%nat → step (Run (Create i) ts s) (Run (Create (i + 1)) (ts ++ [start i]) s)
  | step_create_fails i ts s : (i < 2)%nat → step (Run (Create i) ts s) (Run (Exit 1) [] s)
  | step_created ts s : step (Run (Create 2) ts s) (Run (Join 0) ts s)
  | step_join i ts t s :
      (i < 2)%nat → ts !! i = Some t → next i t = None → step (Run (Join i) ts s) (Run (Join (i + 1)) ts s)
  | step_finish ts s s' : finish s = Ok (tt, s') → step (Run (Join 2) ts s) (Run (Exit 0) [] s')
  | step_finish_fault ts s f : finish s = Fault f → step (Run (Join 2) ts s) (Crash f)
  | step_thread pc i ts t m s t' s' :
      ts !! i = Some t → next i t = Some m → m s = Ok (t', s') →
      step (Run pc ts s) (Run pc (<[i := t']> ts) s')
  | step_thread_fault pc i ts t m s f :
      ts !! i = Some t → next i t = Some m → m s = Fault f → step (Run pc ts s) (Crash f).

Definition initial (s : S) : config := Run (Create 0) [] s.
Definition reachable (s : S) (c : config) : Prop := rtc step (initial s) c.

(** A run cannot be stuck before its end: whatever the threads do, [main] goes on
    or a thread does. *)
Definition ended (c : config) : Prop :=
  match c with Run (Exit _) _ _ | Crash _ => True | _ => False end.

(** ** Invariants *)

Section Invariant.
(** [I] holds all the time; [μ] counts the actions the threads still have to do,
    those not yet created among them. *)
Context (I : list T → S → Prop) (μ : list T → S → nat) (s0 : S).
Context (I_start : I [] s0)
  (I_create : ∀ ts s, (length ts < 2)%nat → I ts s →
     I (ts ++ [start (length ts)]) s ∧ (μ (ts ++ [start (length ts)]) s ≤ μ ts s)%nat)
  (I_thread : ∀ i ts t m s, I ts s → ts !! i = Some t → next i t = Some m →
     ∃ t' s', m s = Ok (t', s') ∧ I (<[i := t']> ts) s' ∧ (μ (<[i := t']> ts) s' < μ ts s)%nat)
  (I_finish : ∀ ts s, I ts s → ∃ s', finish s = Ok (tt, s')).

(** Both threads have ended. *)
Definition all_ended (ts : list T) : Prop :=
  length ts = 2%nat ∧ ∀ i t, ts !! i = Some t → next i t = None.

Definition main_inv (c : config) : Prop :=
  match c with
  | Run (Create i) ts s => (i ≤ 2)%nat ∧ length ts = i ∧ I ts s
  | Run (Join i) ts s => (i ≤ 2)%nat ∧ length ts = 2%nat ∧ I ts s ∧
      ∀ j t, (j < i)%nat → ts !! j = Some t → next j t = None
  | Run (Exit code) ts s => ts = [] ∧
      (code = 1%Z ∨ code = 0%Z ∧ ∃ ts' s', I ts' s' ∧ all_ended ts' ∧ finish s' = Ok (tt, s))
  | Crash _ => False
  end.

Lemma main_inv_step c c' : step c c' → main_inv c → main_inv c'.
Proof.
  destruct 1; simpl.
  - intros (Hi & Hts & HI). rewrite length_app. simpl. split_and!; [lia|lia|]. rewrite <- Hts. apply I_create; [lia|done].
  - by intros _; split; [|left].
  - intros (_ & Hts & HI). split_and!; [lia|done|done|]. intros j t. lia.
  - intros (Hi & Hts & HI & Hj). split_and!; [lia|done|done|]. intros j t' Hlt Ht.
    destruct (decide (j = i)) as [->|]; [congruence|]. apply (Hj j); [lia|done].
  - intros (_ & Hts & HI & Hj). split; [done|]. right. split; [done|]. exists ts, s. split_and!; [done| |done].
    split; [done|]. intros j t Ht. apply (Hj j); [|done]. apply lookup_lt_Some in Ht. lia.
  - intros (_ & Hts & HI & Hj). destruct (I_finish _ _ HI). congruence.
  - destruct pc as [k|k|code].
    + intros (Hi & Hts & HI). destruct (I_thread i ts t m s) as (t1 & s1 & Hm & HI1 & Hμ); [done..|].
      rewrite length_insert. assert (t1 = t' ∧ s1 = s') as [-> ->] by (split; congruence). done.
    + intros (Hi & Hts & HI & Hj). destruct (I_thread i ts t m s) as (t1 & s1 & Hm & HI1 & Hμ); [done..|].
      rewrite length_insert. assert (t1 = t' ∧ s1 = s') as [-> ->] by (split; congruence). split_and!; [done|done|done|].
      intros j u Hlt [(<- & -> & _)|[_ Hu]]%list_lookup_insert_Some; [|by eapply Hj].
      rewrite (Hj i t) in H0; [done|done|done].
    + intros [-> _]. done.
  - destruct pc as [k|k|code]; [intros (_ & _ & HI)|intros (_ & _ & HI & _)|by intros [-> _]];
      destruct (I_thread i ts t m s) as (t1 & s1 & Hm & HI1 & Hμ); congruence.
Qed.

Lemma main_inv_reachable c : reachable s0 c → main_inv c.
Proof.
  intros H. remember (initial s0) as c0 eqn:E. unfold reachable in H. rewrite <- E in H.
  assert (main_inv c0) as H0 by (subst; simpl; split_and!; [lia|done|done]). clear E.
  induction H as [|c1 c2 c3 Hs _ IH]; [done|]. by eapply IH, main_inv_step.
Qed.

(** No reachable state is stuck. *)
Lemma reachable_progress c : reachable s0 c → ended c ∨ ∃ c', step c c'.
Proof.
  intros H%main_inv_reachable. destruct c as [[i|i|code] ts s|f]; simpl in *; [| |by left|by left]; right.
  - destruct H as (Hi & Hts & HI). destruct (decide (i = 2%nat)) as [->|];
      eexists; [apply step_created|apply step_create; lia].
  - destruct H as (Hi & Hts & HI & Hj). destruct (decide (i = 2%nat)) as [->|].
    + destruct (I_finish _ _ HI) as [s' Hs']. eexists. by apply step_finish.
    + destruct (lookup_lt_is_Some_2 ts i) as [t Ht]; [lia|]. destruct (next i t) as [m|] eqn:Hn.
      * destruct (I_thread i ts t m s) as (t1 & s1 & Hm & _); [done..|]. eexists. by eapply step_thread.
      * eexists. eapply step_join; [lia|done|done].
Qed.

(** ** Termination *)

Definition main_measure (c : config) : nat :=
  match c with
  | Run (Create i) ts s => 6 - i + μ ts s
  | Run (Join i) ts s => 3 - i + μ ts s
  | _ => 0
  end.

Lemma main_measure_step c c' : main_inv c → step c c' → (main_measure c' < main_measure c)%nat.
Proof.
  intros Hc Hs. destruct Hs as [i ts s Hi|i ts s Hi|ts s|i ts t s Hi Ht Hn|ts s s' Hf|ts s f Hf
    |pc i ts t m s t' s' Ht Hn Hm|pc i ts t m s f Ht Hn Hm]; simpl in *; [destruct Hc as (_ & <- & HI)|..]; try lia.
  - destruct (I_create ts s Hi HI) as [_ Hμ]. lia.
  - destruct pc as [k|k|code]; simpl; [destruct Hc as (_ & _ & HI)|destruct Hc as (_ & _ & HI & _)|by destruct Hc as [-> _]];
      destruct (I_thread i ts t m s HI Ht Hn) as (t1 & s1 & Hm1 & _ & Hμ); rewrite Hm in Hm1; injection Hm1 as <- <-; lia.
  - destruct pc as [k|k|code]; simpl in *; [destruct Hc as (? & _)|destruct Hc as (? & _)|by destruct Hc as [-> _]]; lia.
Qed.

(** Every run takes at most [6 + μ [] s0] steps. *)
Lemma run_bounded n c : nsteps step n (initial s0) c → (n ≤ 6 + μ [] s0)%nat.
Proof.
  intros H. apply (nsteps_measure _ main_inv main_measure) in H as [_ H].
  - simpl in H. lia.
  - intros c1 c2 H1 Hs. split; [by eapply main_inv_step|by apply main_measure_step].
  - simpl. split_and!; [lia|done|done].
Qed.

(** All about the runs. *)
Lemma workers_run :
  (∀ n c, nsteps step n (initial s0) c → (n ≤ 6 + μ [] s0)%nat) ∧
  ∀ c, reachable s0 c → (ended c ∨ ∃ c', step c c') ∧ main_inv c.
Proof.
  split; [intros n c; apply run_bounded|]. intros c Hc.
  split; [by apply reachable_progress|by apply main_inv_reachable].
Qed.
End Invariant.
End Workers.
Arguments config : clear implicits.
#[global] Arguments Run {T S} pc ts s.
#[global] Arguments Crash {T S} f.
