(* ===== verification/OpenFile.v ===== *)
(** * The programs of 8/open_file/src

    Four programs that open the same file twice and read or write it through both,
    each in a version with one thread and a version with two. *)

From S2P Require Import Prelude Posix Pthread.
From stdpp Require Import options.
#[local] Set Default Proof Using "Type*".
Local Open Scope Z_scope.

Definition alphabet : string := "alphabet.txt".
Definition q : string := "q.txt".

(** The letters 'a' to 'z', which the loops over [char c] run through. *)
Definition letters : list Z := seqZ 97 26.

(** Using a character if there is one. *)
Definition put_when {A} (r : option A) (f : A → prog sys unit) : prog sys unit :=
  match r with Some c => f c | None => mret tt end.

(** The value of [fscanf], of [read] of a byte. *)
Definition flag {A} (r : option A) : Z := match r with Some _ => 1 | None => -1 end.

(** ** 1.c: two streams over one descriptor *)
Module Prog1.
Definition init : prog sys (file * file) :=
  fd ← open alphabet O_RDONLY;
  fs1 ← fdopen fd;
  setvbuf fs1 20;;
  fs2 ← fdopen fd;
  setvbuf fs2 20;;
  mret (fs1, fs2).

Fixpoint loop (fuel : nat) (fs1 fs2 : file) (flag1 flag2 : Z) : lprog sys unit :=
  match fuel with
  | O => no_fuel
  | S fuel =>
      if decide (flag1 = 1 ∨ flag2 = 1) then
        c ← now (fscanf_c fs1);
        let flag1 := flag c in
        now (put_when c (λ c, write_stdout [c]));;
        c ← now (fscanf_c fs2);
        let flag2 := flag c in
        now (put_when c (λ c, write_stdout [c]));;
        loop fuel fs1 fs2 flag1 flag2
      else mret tt
  end.

Definition main (fuel : nat) : lprog sys Z :=
  '(fs1, fs2) ← now init;
  loop fuel fs1 fs2 1 1;;
  mret 0.
End Prog1.

(** ** 1_thread.c: the same with a thread for each stream *)
Module Prog1Thread.
(** Before [fscanf], before [fprintf], after the loop. *)
Inductive local := Scan | Show (c : Z) | Ended.

Definition init : prog sys (file * file) :=
  fd ← open alphabet O_RDONLY;
  fs0 ← fdopen fd;
  fs1 ← fdopen fd;
  setvbuf fs0 20;;
  setvbuf fs1 20;;
  mret (fs0, fs1).

Definition line (i : nat) (c : Z) : list Z :=
  bytes "thread " ++ dec (Z.of_nat i) ++ bytes ": " ++ [c; 10].

Definition thread_start (fs : nat → file) (i : nat) (t : local) : option (prog sys local) :=
  match t with
  | Scan => Some (r ← fscanf_c (fs i); mret (match r with Some c => Show c | None => Ended end))
  | Show c => Some (write_stdout (line i c);; mret Scan)
  | Ended => None
  end.

Definition pick {A} (p : A * A) (i : nat) : A := match i with O => p.1 | _ => p.2 end.

(** The runs of the program from the state [s] with the streams [fs]. *)
Definition runs (fs : file * file) (s : sys) : config local sys → Prop :=
  reachable (λ _, Scan) (thread_start (pick fs)) (mret tt) s.
End Prog1Thread.

(** ** 2.c: two open files *)
Module Prog2.
(** The byte [read] of one byte gave. *)
Definition got (r : option (list Z)) : option Z := match r with Some [c] => Some c | _ => None end.
Definition result (r : option (list Z)) : Z := match r with Some d => Z.of_nat (length d) | None => -1 end.

Fixpoint loop (fuel : nat) (fd1 fd2 flag1 flag2 : Z) : lprog sys unit :=
  match fuel with
  | O => no_fuel
  | S fuel =>
      if decide (flag1 = 1 ∧ flag2 = 1) then
        r ← now (read fd1 1);
        let flag1 := result r in
        match got r with
        | Some c =>
            now (write_stdout [c]);;
            r ← now (read fd2 1);
            let flag2 := result r in
            now (put_when (got r) (λ c, write_stdout [c]));;
            loop fuel fd1 fd2 flag1 flag2
        | None => loop fuel fd1 fd2 flag1 flag2
        end
      else mret tt
  end.

Definition main (fuel : nat) : lprog sys Z :=
  fd1 ← now (open alphabet O_RDONLY);
  fd2 ← now (open alphabet O_RDONLY);
  loop fuel fd1 fd2 1 1;;
  mret 0.
End Prog2.

(** ** 2_thread.c: the same with a thread for each open file *)
Module Prog2Thread.
(** Before [read], before [write], after the loop; the variable [c] may hold
    nothing yet. *)
Inductive local := Reading (c : option Z) | Writing (c : option Z) | Ended.

Definition init : prog sys (Z * Z) :=
  fd0 ← open alphabet O_RDONLY; fd1 ← open alphabet O_RDONLY; mret (fd0, fd1).

Definition thread_start (fd : nat → Z) (i : nat) (t : local) : option (prog sys local) :=
  match t with
  | Reading c => Some (r ← read (fd i) 1;
      mret (if decide (Prog2.result r = 0) then Ended
            else Writing (match Prog2.got r with Some c => Some c | None => c end)))
  | Writing (Some c) => Some (write_stdout [c];; mret (Reading (Some c)))
  | Writing None => Some (crash Uninit)
  | Ended => None
  end.

Definition finish (fd : Z * Z) : prog sys unit := close fd.1;; close fd.2.

Definition runs (fd : Z * Z) (s : sys) : config local sys → Prop :=
  reachable (λ _, Reading None) (thread_start (Prog1Thread.pick fd)) (finish fd) s.
End Prog2Thread.

(** The line of PRINT_STAT, from the static [statbuf]. *)
Definition stat_line (head : list Z) (st : Z * Z) (rest : list Z) : list Z :=
  head ++ dec st.1 ++ bytes ", size = " ++ dec st.2 ++ bytes " bytes" ++ rest ++ [10].
Definition print_stat (action : string) : prog sys unit :=
  stat q;; s ← get_st; write_stdout (stat_line (bytes action ++ bytes ": inode = ") (statbuf s) []).

(** ** 2_1.c: two files opened for appending *)
Module Prog2_1.
Fixpoint loop (cs : list Z) (fd1 fd2 : Z) : prog sys unit :=
  match cs with
  | [] => mret tt
  | c :: cs =>
      (if decide (c mod 2 ≠ 0) then write fd1 [c] else write fd2 [c]);;
      print_stat "write    ";;
      loop cs fd1 fd2
  end.

Definition main : prog sys Z :=
  fd1 ← open q O_RDWR_APPEND;
  print_stat "open fd1 ";;
  fd2 ← open q O_RDWR_APPEND;
  print_stat "open fd2 ";;
  loop letters fd1 fd2;;
  close fd1;;
  print_stat "close fd1";;
  close fd2;;
  print_stat "close fd2";;
  mret 0.
End Prog2_1.

(** ** 2_1_thread.c: the same with a thread for each open file *)
Module Prog2_1Thread.
(** The head of the loop over [c]; after the write or print; after [stat]. *)
Inductive local := For (c : Z) | Stat (c : Z) | Print (c : Z).

Definition init : prog sys (Z * Z) :=
  fd0 ← open q O_RDWR_APPEND; fd1 ← open q O_RDWR_APPEND; mret (fd0, fd1).

(** The loop of both writing programs; [put] is the write of a letter and [show] the
    line printed after it. *)
Definition letters_loop (put : nat → Z → prog sys unit) (show : nat → Z * Z → list Z)
    (i : nat) (t : local) : option (prog sys local) :=
  match t with
  | For c =>
      if decide (c <= 122) then
        Some (if decide (c mod 2 = Z.of_nat i) then put i c;; mret (Stat c) else mret (For (c + 1)))
      else None
  | Stat c => Some (stat q;; mret (Print c))
  | Print c => Some (s ← get_st; write_stdout (show i (statbuf s));; mret (For (c + 1)))
  end.

Definition show (i : nat) (st : Z * Z) : list Z :=
  stat_line (bytes "write " ++ dec (Z.of_nat i) ++ bytes ": inode number = ") st [].

Definition thread_start (fd : nat → Z) : nat → local → option (prog sys local) :=
  letters_loop (λ i c, _ ← write (fd i) [c]; mret tt) show.

Definition finish (fd : Z * Z) : prog sys unit := close fd.1;; close fd.2.

Definition runs (fd : Z * Z) (s : sys) : config local sys → Prop :=
  reachable (λ _, For 97) (thread_start (Prog1Thread.pick fd)) (finish fd) s.
End Prog2_1Thread.

(** ** 3.c: two streams that truncate *)
Module Prog3.
Fixpoint loop (cs : list Z) (fs1 fs2 : file) : prog sys unit :=
  match cs with
  | [] => mret tt
  | c :: cs =>
      (if decide (c mod 2 ≠ 0) then fprintf_c fs1 c else fprintf_c fs2 c);;
      print_stat "fprintf   ";;
      loop cs fs1 fs2
  end.

Definition main : prog sys Z :=
  fs1 ← fopen q mode_w;
  print_stat "open fs1   ";;
  fs2 ← fopen q mode_w;
  print_stat "open fs2   ";;
  loop letters fs1 fs2;;
  fclose fs1;;
  print_stat "fclose fs1";;
  fclose fs2;;
  print_stat "fclose fs2";;
  mret 0.
End Prog3.

(** ** 3_thread.c: a stream that truncates and one that appends *)
Module Prog3Thread.
Definition init : prog sys (file * file) :=
  fs0 ← fopen q mode_w; fs1 ← fopen q mode_a; mret (fs0, fs1).

Definition show_as (action : string) (i : nat) (st : Z * Z) : list Z :=
  stat_line (bytes action ++ bytes " " ++ dec (Z.of_nat i) ++ bytes ": inode = ") st (bytes ", blksize = " ++ dec BUFSIZ).

Definition thread_start (fs : nat → file) : nat → Prog2_1Thread.local → option (prog sys Prog2_1Thread.local) :=
  Prog2_1Thread.letters_loop (λ i c, fprintf_c (fs i) c) (show_as "write").

Definition finish (fs : file * file) : prog sys unit :=
  fclose fs.1;;
  stat q;; s ← get_st; write_stdout (show_as "fclose fs" 0 (statbuf s));;
  fclose fs.2;;
  stat q;; s ← get_st; write_stdout (show_as "fclose fs" 1 (statbuf s)).

Definition runs (fs : file * file) (s : sys) : config Prog2_1Thread.local sys → Prop :=
  reachable (λ _, Prog2_1Thread.For 97) (thread_start (Prog1Thread.pick fs)) (finish fs) s.
End Prog3Thread.
