(* ===== verification/OpenFileSpec.v ===== *)
(** * What the reading programs of 8/open_file guarantee *)

From S2P Require Import Prelude Posix Pthread OpenFile.
From stdpp Require Import options.
#[local] Set Default Proof Using "Type*".
Local Open Scope Z_scope.

(** ** Opening *)

Lemma open_existing name fl i s :
  names s !! name = Some i → o_trunc fl = false →
  open name fl s = Ok (new_fd (fds s), set_fds (<[new_fd (fds s) := OpenFile i 0 (o_append fl)]>) s).
Proof.
  intros Hn Ht. unfold open, open_inode, mbind, prog_bind, get_st. rewrite Hn. cbn [fst snd]. by rewrite Ht.
Qed.

Lemma open_missing name fl s :
  names s !! name = None → o_creat fl = false → open name fl s = Ok (-1, s).
Proof. intros Hn Hc. unfold open, mbind, prog_bind, get_st. by rewrite Hn, Hc. Qed.

Lemma fdopen_open fd f s :
  fds s !! fd = Some f →
  fdopen fd s = Ok (Some (length (streams s)), set_streams (λ l, l ++ [Some (Stream fd BUFSIZ [])]) s).
Proof. intros Hf. unfold fdopen, mbind, prog_bind, get_st. by rewrite Hf. Qed.

Lemma fdopen_closed fd s : fds s !! fd = None → fdopen fd s = Ok (None, s).
Proof. intros Hf. unfold fdopen, mbind, prog_bind, get_st. by rewrite Hf. Qed.

Lemma get_stream_ok i st s : streams s !! i = Some (Some st) → get_stream (Some i) s = Ok ((i, st), s).
Proof. intros H. unfold get_stream. by rewrite H. Qed.

(** ** Two streams over one descriptor *)

Abbreviation pick := Prog1Thread.pick.
Definition put {A} (i : nat) (v : A) (p : A * A) : A * A :=
  match i with O => (v, p.2) | _ => (p.1, v) end.

(** Both streams of [fs] read in blocks of 20 bytes from [fd], the only position in
    the file with the contents [l]; [b] is what they have read, [rest] what the
    file still has. *)
Record shared_file (fd ino : Z) (l : list Z) (fs : nat * nat) (b : list Z * list Z) (rest : list Z) (s : sys) : Prop := {
  sf_ne : fs.1 ≠ fs.2;
  sf_fst : streams s !! fs.1 = Some (Some (Stream fd 20 b.1));
  sf_snd : streams s !! fs.2 = Some (Some (Stream fd 20 b.2));
  sf_ino : contents s ino = l;
  sf_pos : ∃ pos, fds s !! fd = Some (OpenFile ino (Z.of_nat pos) false) ∧ rest = drop pos l
}.

(** The buffer and the rest of the file when there is something in the buffer, if
    there is anything at all. *)
Definition refill (b rest : list Z) : list Z * list Z :=
  match b with [] => (take 20 rest, drop 20 rest) | _ => (b, rest) end.

Lemma shared_emit fd ino l fs b rest d s :
  shared_file fd ino l fs b rest s → shared_file fd ino l fs b rest (emit d s).
Proof. by intros []. Qed.

Lemma shared_put fd ino l fs b rest s i v :
  shared_file fd ino l fs b rest s →
  shared_file fd ino l fs (put i v b) rest
    (set_streams (<[pick fs i := Some (Stream fd 20 v)]>) s).
Proof.
  intros [Hne H1 H2 Hi Hp]. destruct fs as [f1 f2], b as [b1 b2], i as [|i]; simpl in *;
    (split; simpl; [done| | |done|done]).
  1, 4: by rewrite list_lookup_insert_eq by (by eapply lookup_lt_Some).
  all: by rewrite list_lookup_insert_ne.
Qed.

Lemma shared_pick fd ino l fs b rest s i :
  shared_file fd ino l fs b rest s → streams s !! pick fs i = Some (Some (Stream fd 20 (pick b i))).
Proof. intros []. by destruct i. Qed.

Lemma shared_read fd ino l fs b rest s :
  shared_file fd ino l fs b rest s →
  ∃ s', read fd 20 s = Ok (Some (take 20 rest), s') ∧ shared_file fd ino l fs b (drop 20 rest) s' ∧
    out s' = out s.
Proof.
  intros [Hne H1 H2 Hi (pos & Hf & Hr)]. unfold read, mbind, prog_bind, get_st. rewrite Hf. cbn [f_pos f_inode].
  rewrite Hi, Nat2Z.id, <- Hr. eexists. split; [done|]. split; [|done]. split; [done..|].
  exists (pos + length (take 20 rest))%nat. simpl. rewrite lookup_insert_eq. split; [by rewrite Nat2Z.inj_add|].
  rewrite Hr, drop_drop, length_take, length_drop. destruct (decide (20 ≤ length l - pos)%nat).
  - by rewrite Nat.min_l by lia.
  - rewrite !drop_ge; [done|lia|lia].
Qed.

(** Reading a character from one of them. *)
Lemma shared_fscanf fd ino l fs b rest s i :
  shared_file fd ino l fs b rest s →
  ∃ s', fscanf_c (Some (pick fs i)) s = Ok (head (refill (pick b i) rest).1, s') ∧
    shared_file fd ino l fs (put i (tail (refill (pick b i) rest).1) b) (refill (pick b i) rest).2 s' ∧
    out s' = out s.
Proof.
  intros Hs. pose proof (shared_pick _ _ _ _ _ _ _ i Hs) as Hi.
  unfold fscanf_c, mbind, prog_bind. rewrite (get_stream_ok _ _ _ Hi). cbn [s_buf s_fd s_size].
  destruct (pick b i) as [|c b'] eqn:Hb.
  - change (Z.to_nat 20) with 20%nat. destruct (shared_read _ _ _ _ _ _ _ Hs) as (s1 & Hr & Hs1 & Ho).
    rewrite Hr. cbn [refill fst snd]. destruct (take 20 rest) as [|c b'] eqn:Ht.
    + exists s1. split; [done|]. split; [|done]. simpl. replace (put i [] b) with b; [done|].
      destruct b, i; simpl in *; congruence.
    + eexists. split; [done|]. split; [|done]. by apply shared_put.
  - eexists. split; [done|]. split; [|done]. by apply shared_put.
Qed.

Lemma shared_show fd ino l fs b rest (c : list Z) s :
  shared_file fd ino l fs b rest s →
  ∃ s', put_when (head c) (λ c, write_stdout [c]) s = Ok (tt, s') ∧ shared_file fd ino l fs b rest s' ∧
    out s' = out s ++ take 1 c.
Proof.
  intros Hs. destruct c as [|c cs]; [exists s; by rewrite app_nil_r|].
  exists (emit [c] s). split; [done|]. split; [by apply shared_emit|done].
Qed.

(** ** 1.c *)

(** The bytes of two blocks in turn. *)
Fixpoint weave (b1 b2 : list Z) : list Z :=
  match b1, b2 with
  | x :: b1, y :: b2 => x :: y :: weave b1 b2
  | [], b2 => b2
  | b1, [] => b1
  end.

(** Every two blocks of 20 bytes woven. *)
Fixpoint shuffle_n (n : nat) (l : list Z) : list Z :=
  match n with
  | O => []
  | S n => weave (take 20 l) (take 20 (drop 20 l)) ++ shuffle_n n (drop 40 l)
  end.
Definition shuffle (l : list Z) : list Z := shuffle_n (length l) l.

Lemma shuffle_nil n : shuffle_n n [] = [].
Proof. by induction n as [|n IH]. Qed.

Lemma shuffle_n_enough n m l : (length l ≤ n)%nat → (length l ≤ m)%nat → shuffle_n n l = shuffle_n m l.
Proof.
  revert m l. induction n as [|n IH]; intros m l Hn Hm.
  { destruct l; [by rewrite !shuffle_nil|simpl in *; lia]. }
  destruct m as [|m]; [destruct l; [by rewrite !shuffle_nil|simpl in *; lia]|].
  simpl. f_equal. destruct l as [|x l]; [by rewrite drop_nil, !shuffle_nil|].
  apply IH; rewrite length_drop; simpl in *; lia.
Qed.

Lemma shuffle_eq l : shuffle l = weave (take 20 l) (take 20 (drop 20 l)) ++ shuffle (drop 40 l).
Proof.
  unfold shuffle. rewrite (shuffle_n_enough _ (S (length l))) by lia. simpl. f_equal.
  apply shuffle_n_enough; [rewrite length_drop|]; lia.
Qed.

Lemma weave_perm b1 b2 : weave b1 b2 ≡ₚ b1 ++ b2.
Proof.
  revert b2. induction b1 as [|x b1 IH]; intros [|y b2]; simpl; [done|done|by rewrite app_nil_r|].
  rewrite IH. constructor. apply Permutation_middle.
Qed.

Lemma shuffle_perm l : shuffle l ≡ₚ l.
Proof.
  unfold shuffle. generalize (le_n (length l)) as Hl. generalize (length l) at 2 3 as n.
  intros n. revert l. induction n as [|n IH]; intros l Hl; [by destruct l; [|simpl in *; lia]|].
  simpl. rewrite weave_perm, IH by (rewrite length_drop; destruct l; simpl in *; lia).
  change 40%nat with (20 + 20)%nat. by rewrite <- drop_drop, <- (assoc app), !take_drop.
Qed.

(** The second buffer is not ahead of the first, and behind it only at the end of
    the file. *)
Definition in_step (b : list Z * list Z) (rest : list Z) : Prop :=
  length b.1 = length b.2 ∨ rest = [] ∧ (length b.2 ≤ length b.1)%nat.

(** Filling both buffers changes nothing of what is to come. *)
Lemma refill_both b1 b2 rest :
  in_step (b1, b2) rest →
  let r1 := refill b1 rest in let r2 := refill b2 r1.2 in
  in_step (r1.1, r2.1) r2.2 ∧ weave r1.1 r2.1 ++ shuffle r2.2 = weave b1 b2 ++ shuffle rest ∧
  (length r1.1 + length r2.1 + length r2.2 = length b1 + length b2 + length rest)%nat ∧
  (r1.1 = [] → r2.1 = [] ∧ r2.2 = []) ∧ (r2.1 = [] → r2.2 = []).
Proof.
  unfold in_step. intros H. destruct b1 as [|x b1], b2 as [|y b2]; cbn [refill fst snd length] in *.
  - rewrite drop_drop. change (20 + 20)%nat with 40%nat. rewrite <- shuffle_eq.
    rewrite !length_take, !length_drop. split_and!; [|done|lia| |].
    + destruct (decide (40 ≤ length rest)%nat); [left; lia|right]. split; [apply drop_ge; lia|lia].
    + intros E. assert (length rest = 0)%nat as ->%nil_length_inv by (apply (f_equal length) in E; rewrite length_take in E; cbn [length] in E; lia). done.
    + intros E. apply drop_ge. apply (f_equal length) in E. rewrite length_take, length_drop in E. cbn [length] in E. lia.
  - simpl in H. destruct H as [|[_ ?]]; lia.
  - destruct H as [|[-> _]]; [simpl in *; lia|]. simpl. split_and!; [right; split; [done|lia]|done|lia|done|done].
  - split_and!; [done|done|lia|done|done].
Qed.

Lemma shared_loop fd ino l fs b rest s fuel flag1 flag2 :
  shared_file fd ino l fs b rest s → in_step b rest → flag1 = 1 ∨ flag2 = 1 →
  (length b.1 + length b.2 + length rest + 2 ≤ fuel)%nat →
  ∃ s', Prog1.loop fuel (Some fs.1) (Some fs.2) flag1 flag2 s = Some (Ok (tt, s')) ∧
    out s' = out s ++ weave b.1 b.2 ++ shuffle rest.
Proof.
  revert b rest s flag1 flag2. induction fuel as [|fuel IH]; intros [b1 b2] rest s flag1 flag2 Hs Hb Hfl Hf; [lia|].
  pose proof (refill_both b1 b2 rest Hb) as (Hstep & Hw & Hlen & Hn1 & Hn2). cbn [fst snd] in Hf.
  cbn [Prog1.loop]. rewrite decide_True by done.
  destruct (shared_fscanf _ _ _ _ _ _ _ 0 Hs) as (s1 & H1 & Hs1 & Ho1). cbn [pick fst snd put] in *.
  unfold mbind, lprog_bind, now. rewrite H1. cbn [fst snd] in *. rewrite <- Hw. clear Hw.
  destruct (refill b1 rest) as [c1 rest1]. cbn [fst snd head] in *.
  destruct (shared_show _ _ _ _ _ _ c1 _ Hs1) as (s1' & Hp1 & Hs1' & Ho1').
  rewrite Hp1. destruct (shared_fscanf _ _ _ _ _ _ _ 1 Hs1') as (s2 & H2 & Hs2 & Ho2). cbn [pick fst snd put] in *.
  rewrite H2. cbn [fst snd] in *. destruct (refill b2 rest1) as [c2 rest2]. cbn [fst snd] in *.
  destruct (shared_show _ _ _ _ _ _ c2 _ Hs2) as (s2' & Hp2 & Hs2' & Ho2'). rewrite Ho2, Ho1', Ho1 in Ho2'.
  rewrite Hp2. destruct c1 as [|x c1].
  - destruct (Hn1 eq_refl) as [-> ->]. destruct fuel as [|fuel]; [lia|]. cbn [Prog1.loop flag head].
    rewrite decide_False by lia. eexists. split; [done|]. rewrite Ho2'. simpl. by rewrite !app_nil_r.
  - destruct (IH (c1, tail c2) rest2 s2' 1 (flag (head c2))) as (s' & Hl & Ho); [done| |by left| |].
    + unfold in_step in *. destruct c2 as [|y c2]; simpl in *; [right; split; [by apply Hn2|lia]|].
      destruct Hstep as [?|[? ?]]; [left; lia|right; split; [done|lia]].
    + destruct c2; simpl in *; lia.
    + exists s'. split; [exact Hl|]. rewrite Ho, Ho2'. simpl.
      destruct c2 as [|y c2]; simpl; rewrite <- !(assoc app); [|done]. simpl. by destruct c1.
Qed.

Lemma setvbuf_ok fs size st s :
  streams s !! fs = Some (Some st) →
  setvbuf (Some fs) size s = Ok (tt, set_streams (<[fs := Some (Stream (s_fd st) size [])]>) s).
Proof. intros H. unfold setvbuf, mbind, prog_bind. by rewrite (get_stream_ok _ _ _ H). Qed.

(** The state after the file has been opened and given two streams. *)
Definition two_streams (ino : Z) (s : sys) : sys :=
  let fd := new_fd (fds s) in
  set_streams (λ l, l ++ [Some (Stream fd 20 []); Some (Stream fd 20 [])])
    (set_fds (<[fd := OpenFile ino 0 false]>) s).

Lemma two_streams_shared ino s :
  shared_file (new_fd (fds s)) ino (contents s ino) (length (streams s), S (length (streams s)))
    ([], []) (contents s ino) (two_streams ino s).
Proof.
  split; simpl; [lia| | |done|].
  - by rewrite list_lookup_middle.
  - rewrite lookup_app_r by lia. by replace (S _ - _)%nat with 1%nat by lia.
  - exists O. by rewrite lookup_insert_eq.
Qed.

Lemma prog1_init ino s :
  names s !! alphabet = Some ino →
  Prog1.init s = Ok ((Some (length (streams s)), Some (S (length (streams s)))), two_streams ino s).
Proof.
  intros Hn. unfold Prog1.init, mbind, prog_bind. rewrite (open_existing _ _ ino) by done. set (fd := new_fd _).
  set (s1 := set_fds _ s). assert (fds s1 !! fd = Some (OpenFile ino 0 false)) as Hf by (simpl; by rewrite lookup_insert_eq).
  rewrite (fdopen_open _ _ _ Hf).
  rewrite (setvbuf_ok _ _ (Stream fd BUFSIZ [])) by (simpl; by rewrite list_lookup_middle).
  erewrite fdopen_open by exact Hf. cbn [streams set_streams set_fds s1 fdopen].
  rewrite length_insert, length_app, Nat.add_1_r.
  rewrite (setvbuf_ok _ _ (Stream fd BUFSIZ [])).
  - unfold mret, prog_ret, two_streams, set_streams. simpl. do 3 f_equal.
    rewrite insert_app_r_alt, length_insert, length_app, insert_app_r_alt by (rewrite ?length_insert, ?length_app; simpl; lia).
    rewrite !Nat.sub_diag, <- (assoc app). simpl. by rewrite Nat.add_1_r, Nat.sub_diag.
  - simpl. rewrite list_lookup_middle; [done|]. rewrite length_insert, length_app. simpl. lia.
Qed.

Lemma prog1_init_missing s :
  names s !! alphabet = None → fds s !! (-1) = None → Prog1.init s = Fault NullDeref.
Proof.
  intros Hn Hf. unfold Prog1.init, mbind, prog_bind. rewrite open_missing by done.
  by rewrite (fdopen_closed _ _ Hf).
Qed.

(** 1.c prints the bytes of its file, two blocks of 20 at a time woven byte by
    byte, whatever the file holds; every byte exactly once. Two rounds more than the
    file has bytes are enough. Without the file it uses a null stream. *)
Theorem prog1_prints s fuel :
  fds s !! (-1) = None →
  match names s !! alphabet with
  | Some ino =>
      (length (contents s ino) + 2 ≤ fuel)%nat →
      ∃ s', Prog1.main fuel s = Some (Ok (0, s')) ∧ out s' = out s ++ shuffle (contents s ino) ∧
        shuffle (contents s ino) ≡ₚ contents s ino
  | None => Prog1.main fuel s = Some (Fault NullDeref)
  end.
Proof.
  intros Hm. unfold Prog1.main, mbind, lprog_bind, now. destruct (names s !! alphabet) as [ino|] eqn:Hn.
  - intros Hf. rewrite (prog1_init _ _ Hn).
    destruct (shared_loop _ _ _ _ _ _ _ fuel 1 1 (two_streams_shared ino s)) as (s' & Hl & Ho);
      [by left|by left|simpl; lia|].
    cbn [fst snd] in Hl. rewrite Hl. exists s'. split; [done|]. split; [exact Ho|apply shuffle_perm].
  - by rewrite prog1_init_missing.
Qed.

(** The files of the directory. *)
Definition lab : sys :=
  Sys {[alphabet := 1; q := 2]} {[1 := letters; 2 := bytes "old"]} ∅ [] (0, 0) [].

Lemma prog1_prints_witness :
  ∃ s', Prog1.main 28 lab = Some (Ok (0, s')) ∧ out s' = bytes "aubvcwdxeyfzghijklmnopqrst".
Proof.
  destruct (prog1_prints lab 28 eq_refl ltac:(vm_compute; lia)) as (s' & H1 & H2 & _).
  exists s'. split; [exact H1|]. rewrite H2. vm_compute. reflexivity.
Defined.

(** ** 2.c *)

(** Reading a byte where the contents [c :: rest] or nothing is left. *)
Lemma read_byte fd ino p s :
  fds s !! fd = Some (OpenFile ino (Z.of_nat p) false) →
  read fd 1 s = Ok (Some (take 1 (drop p (contents s ino))),
    set_fds (<[fd := OpenFile ino (Z.of_nat (p + length (take 1 (drop p (contents s ino))))) false]>) s).
Proof.
  intros Hf. unfold read, mbind, prog_bind, get_st. rewrite Hf. cbn [f_pos f_inode].
  by rewrite Nat2Z.id, Nat2Z.inj_add.
Qed.

Lemma drop_cons_S {A} p (l : list A) x rest : drop p l = x :: rest → drop (S p) l = rest.
Proof. intros H. replace (S p) with (p + 1)%nat by lia. by rewrite <- drop_drop, H. Qed.

(** Two open files with the same position. *)
Definition both_at (fd1 fd2 ino : Z) (p : nat) (l : list Z) (s : sys) : Prop :=
  fd1 ≠ fd2 ∧ contents s ino = l ∧ fds s !! fd1 = Some (OpenFile ino (Z.of_nat p) false) ∧
  fds s !! fd2 = Some (OpenFile ino (Z.of_nat p) false).

(** Characters sent to the standard output, the state after that named. *)
Ltac written s1 :=
  match goal with |- context [write_stdout ?d ?s] =>
    change (write_stdout d s) with (Ok (tt, emit d s)); set (s1 := emit d s); cbn beta iota
  end.

Lemma prog2_loop fd1 fd2 ino l rest p s fuel :
  both_at fd1 fd2 ino p l s → drop p l = rest → (length rest + 2 ≤ fuel)%nat →
  ∃ s', Prog2.loop fuel fd1 fd2 1 1 s = Some (Ok (tt, s')) ∧ out s' = out s ++ flat_map (λ c, [c; c]) rest.
Proof.
  revert p s fuel. induction rest as [|c rest IH]; intros p s fuel (Hne & Hl & H1 & H2) Hp Hf.
  - destruct fuel as [|[|fuel]]; [simpl in Hf; lia..|]. cbn [Prog2.loop]. rewrite decide_True by done.
    unfold mbind, lprog_bind, now. rewrite (read_byte _ _ _ _ H1), Hl, Hp. cbn [take Prog2.got Prog2.result length].
    rewrite decide_False by (intros [[=] _]). eexists. split; [done|]. simpl. by rewrite app_nil_r.
  - destruct fuel as [|fuel]; [simpl in Hf; lia|]. cbn [Prog2.loop]. rewrite decide_True by done.
    unfold mbind, lprog_bind, now. rewrite (read_byte _ _ _ _ H1), Hl, Hp, firstn_cons, take_0.
    cbn [Prog2.got Prog2.result length]. written s1.
    assert (fds s1 !! fd2 = Some (OpenFile ino (Z.of_nat p) false)) as H2'
      by (simpl; by rewrite lookup_insert_ne).
    rewrite (read_byte _ _ _ _ H2'). replace (contents s1 ino) with l by (by rewrite <- Hl). rewrite Hp, firstn_cons, take_0.
    cbn [Prog2.got Prog2.result length put_when].
    written s2.
    destruct (IH (S p) s2 fuel) as (s' & Hloop & Ho).
    + split; [done|]. split; [by rewrite <- Hl|]. simpl. rewrite Nat.add_1_r.
      by rewrite lookup_insert_ne, !lookup_insert_eq by done.
    + by apply drop_cons_S in Hp.
    + simpl in Hf. lia.
    + exists s'. split; [exact Hloop|]. rewrite Ho. simpl. by rewrite <- !(assoc app).
Qed.

(** The state after the file has been opened twice. *)
Definition two_files (ino : Z) (fl : oflags) (s : sys) : sys :=
  let fd1 := new_fd (fds s) in
  let s1 := set_fds (<[fd1 := OpenFile ino 0 (o_append fl)]>) s in
  set_fds (<[new_fd (fds s1) := OpenFile ino 0 (o_append fl)]>) s1.
Definition second_fd (ino : Z) (fl : oflags) (s : sys) : Z :=
  new_fd (<[new_fd (fds s) := OpenFile ino 0 (o_append fl)]> (fds s)).

Lemma second_fd_ne ino fl s : new_fd (fds s) ≠ second_fd ino fl s.
Proof.
  intros E. pose proof (new_fd_free (<[new_fd (fds s) := OpenFile ino 0 (o_append fl)]> (fds s))) as H.
  unfold second_fd in E. by rewrite <- E, lookup_insert_eq in H.
Qed.

Lemma open_twice name ino fl s :
  names s !! name = Some ino → o_trunc fl = false →
  (fd1 ← open name fl; fd2 ← open name fl; mret (fd1, fd2)) s =
    Ok ((new_fd (fds s), second_fd ino fl s), two_files ino fl s).
Proof.
  intros Hn Ht. unfold mbind, prog_bind. rewrite (open_existing _ _ ino) by done.
  by rewrite (open_existing _ _ ino).
Qed.

(** The two open files of 2.c have positions of their own: the program prints
    every byte of its file twice in a row, whatever the file holds, and nothing when
    there is no file. Two rounds more than the file has bytes are enough. *)
Theorem prog2_prints s fuel :
  fds s !! (-1) = None →
  match names s !! alphabet with
  | Some ino =>
      (length (contents s ino) + 2 ≤ fuel)%nat →
      ∃ s', Prog2.main fuel s = Some (Ok (0, s')) ∧
        out s' = out s ++ flat_map (λ c, [c; c]) (contents s ino)
  | None => (2 ≤ fuel)%nat → Prog2.main fuel s = Some (Ok (0, s))
  end.
Proof.
  intros Hm. unfold Prog2.main, mbind, lprog_bind, now. destruct (names s !! alphabet) as [ino|] eqn:Hn; intros Hf.
  - rewrite (open_existing _ _ ino) by done. rewrite (open_existing _ _ ino) by done.
    destruct (prog2_loop (new_fd (fds s)) (second_fd ino O_RDONLY s) ino (contents s ino) (contents s ino) 0
      (two_files ino O_RDONLY s) fuel) as (s' & Hl & Ho); [|done|done|].
    + pose proof (second_fd_ne ino O_RDONLY s). split; [done|]. split; [done|]. unfold two_files. simpl.
      by rewrite lookup_insert_ne, !lookup_insert_eq by done.
    + match goal with |- context [Prog2.loop fuel ?a ?b 1 1 ?st] =>
        change (Prog2.loop fuel a b 1 1 st) with
          (Prog2.loop fuel (new_fd (fds s)) (second_fd ino O_RDONLY s) 1 1 (two_files ino O_RDONLY s)) end.
      rewrite Hl. by exists s'.
  - rewrite open_missing by done. rewrite open_missing by done. destruct fuel as [|[|fuel]]; [lia..|].
    cbn [Prog2.loop]. rewrite decide_True by done. unfold mbind, lprog_bind, now.
    unfold read, mbind, prog_bind, get_st. by rewrite Hm.
Qed.

Lemma prog2_prints_witness :
  ∃ s', Prog2.main 28 lab = Some (Ok (0, s')) ∧ out s' = flat_map (λ c, [c; c]) letters.
Proof. exact (prog2_prints lab 28 eq_refl ltac:(vm_compute; lia)). Defined.
