(* ===== verification/OpenFileThreads.v ===== *)
(** * What the threaded programs of 8/open_file guarantee *)

From S2P Require Import Prelude Posix Pthread OpenFile OpenFileSpec.
From stdpp Require Import options.
#[local] Set Default Proof Using "Type*".
Local Open Scope Z_scope.

(** ** What each thread has done *)

(** In a trace of things done, the things that thread [i] did, in order. *)
Definition of_thread {A} (i : nat) (tr : list (nat * A)) : list A := (filter (λ p, p.1 = i) tr).*2.

Lemma of_thread_snoc {A} i j (x : A) tr :
  of_thread i (tr ++ [(j, x)]) = of_thread i tr ++ (if decide (j = i) then [x] else []).
Proof.
  unfold of_thread. rewrite filter_app, fmap_app. f_equal. simpl.
  rewrite filter_cons. simpl. by case_decide.
Qed.

(** With two threads, nothing else is in the trace. *)
Lemma of_two_threads {A} (tr : list (nat * A)) :
  Forall (λ p, (p.1 < 2)%nat) tr → tr.*2 ≡ₚ of_thread 0 tr ++ of_thread 1 tr.
Proof.
  induction 1 as [|[i x] tr Hi _ IH]; simpl in *; [done|]. unfold of_thread in *. rewrite !filter_cons. simpl.
  destruct i as [|[|i]]; simpl; [by constructor| |lia]. rewrite IH. apply Permutation_middle.
Qed.

Lemma lookup_two {A} (ts : list A) i x : ts !! i = Some x → (length ts ≤ 2)%nat → i = 0%nat ∨ i = 1%nat.
Proof. intros H%lookup_lt_Some. lia. Qed.

(** What a new thread is like, when it is like one not yet created. *)
Lemma lookup_snoc_other {A} (ts : list A) (t : A) B (f : option A → B) j :
  f (Some t) = f None → f ((ts ++ [t]) !! j) = f (ts !! j).
Proof.
  intros Ht. destruct (decide (j < length ts)%nat); [by rewrite lookup_app_l|].
  rewrite (lookup_ge_None_2 ts) by lia. destruct ((ts ++ [t]) !! j) as [t'|] eqn:E; [|done].
  apply lookup_snoc_Some in E as [[? _]|[_ <-]]; [lia|done].
Qed.

(** ** 1_thread.c *)

Section Prog1Thread.
Import Prog1Thread.
Context (fd ino : Z) (l : list Z) (fs : nat * nat) (o0 : list Z).

Definition pending (t : option local) : list Z := match t with Some (Show c) => [c] | _ => [] end.

(** What a thread has printed, is about to print and has in its buffer: a part, in
    order, of what has been taken from the file. *)
Definition seen (tr : list (nat * Z)) (ts : list local) (b : list Z * list Z) (i : nat) : list Z :=
  of_thread i tr ++ pending (ts !! i) ++ pick b i.

Record inv_with (tr : list (nat * Z)) (b : list Z * list Z) (taken rest : list Z) (ts : list local) (s : sys) : Prop := {
  iv_file : shared_file fd ino l fs b rest s;
  iv_out : out s = o0 ++ concat ((λ p, line p.1 p.2) <$> tr);
  iv_two : (length ts ≤ 2)%nat;
  iv_tr : Forall (λ p, (p.1 < 2)%nat) tr;
  iv_l : l = taken ++ rest;
  iv_seen i : (i < 2)%nat → seen tr ts b i `sublist_of` taken;
  iv_all : seen tr ts b 0 ++ seen tr ts b 1 ≡ₚ taken;
  iv_ended i : ts !! i = Some Ended → pick b i = [] ∧ rest = []
}.
Definition inv (ts : list local) (s : sys) : Prop := ∃ tr b taken rest, inv_with tr b taken rest ts s.

Lemma refill_got b rest :
  ∃ got, (refill b rest).1 = b ++ got ∧ rest = got ++ (refill b rest).2 ∧
    ((refill b rest).1 = [] → (refill b rest).2 = []) ∧ (rest = [] → got = []).
Proof.
  destruct b as [|c b]; simpl.
  - exists (take 20 rest). rewrite take_drop. split_and!; [done|done| |by intros ->].
    intros E. destruct rest; [done|done].
  - exists []. by rewrite app_nil_r.
Qed.

(** Adding to what one of the threads has seen. *)
Lemma seen_more (a b c : list Z) :
  (a ++ b) ++ c ≡ₚ (a ++ c) ++ b.
Proof. rewrite <- !(assoc app). f_equiv. apply Permutation_app_comm. Qed.

Definition weight (t : option local) : nat :=
  match t with Some (Show _) => 2 | Some Ended => 0 | _ => 1 end.
Definition available (s : sys) : nat :=
  match streams s !! fs.1, streams s !! fs.2, fds s !! fd with
  | Some (Some s1), Some (Some s2), Some f =>
      length (s_buf s1) + length (s_buf s2) + length (drop (Z.to_nat (f_pos f)) (contents s ino))
  | _, _, _ => 0
  end.
Definition work (ts : list local) (s : sys) : nat :=
  2 * available s + weight (ts !! 0%nat) + weight (ts !! 1%nat).

Lemma shared_available b rest s :
  shared_file fd ino l fs b rest s → available s = (length b.1 + length b.2 + length rest)%nat.
Proof. intros [Hne H1 H2 Hi (pos & Hp & ->)]. unfold available. rewrite H1, H2, Hp. simpl. by rewrite Nat2Z.id, Hi. Qed.

Abbreviation next := (thread_start (pick (Some fs.1, Some fs.2))).

Lemma pick_put {A} i (v : A) p : pick (put i v p) i = v.
Proof. by destruct i. Qed.
Lemma pick_put_ne {A} i j (v : A) p : i ≠ j → (i < 2)%nat → (j < 2)%nat → pick (put i v p) j = pick p j.
Proof. intros. destruct i as [|[|]], j as [|[|]]; done || lia. Qed.

Lemma seen_other tr ts b i j t v :
  i ≠ j → (i < 2)%nat → (j < 2)%nat → seen tr (<[i := t]> ts) (put i v b) j = seen tr ts b j.
Proof. intros. unfold seen. by rewrite list_lookup_insert_ne, pick_put_ne. Qed.

(** Both sequences, when one grows. *)
Lemma seen_both (f g : nat → list Z) i got (taken : list Z) :
  (i < 2)%nat → f i = g i ++ got → (∀ j, (j < 2)%nat → i ≠ j → f j = g j) →
  g 0%nat ++ g 1%nat ≡ₚ taken → f 0%nat ++ f 1%nat ≡ₚ taken ++ got.
Proof.
  intros Hi Hf Hg Hp. destruct i as [|[|]]; [rewrite Hf, (Hg 1%nat)|rewrite Hf, (Hg 0%nat)|]; try lia.
  - by rewrite seen_more, Hp.
  - by rewrite (assoc app), Hp.
Qed.

(** The total of the weights, when one changes. *)
Lemma work_insert ts i t t' :
  ts !! i = Some t → (length ts ≤ 2)%nat →
  (weight (<[i := t']> ts !! 0%nat) + weight (<[i := t']> ts !! 1%nat) + weight (Some t) =
   weight (ts !! 0%nat) + weight (ts !! 1%nat) + weight (Some t'))%nat.
Proof.
  intros Hi H2. pose proof (lookup_lt_Some _ _ _ Hi) as Hlt.
  destruct (lookup_two _ _ _ Hi H2) as [->| ->]; rewrite list_lookup_insert_eq, list_lookup_insert_ne, Hi by done; lia.
Qed.

(** A thread takes a character, or ends. *)
Lemma inv_scan i ts s :
  inv ts s → ts !! i = Some Scan →
  ∃ c s', fscanf_c (Some (pick fs i)) s = Ok (c, s') ∧
    let ts' := <[i := match c with Some c => Show c | None => Ended end]> ts in
    inv ts' s' ∧ (work ts' s' < work ts s)%nat.
Proof.
  intros (tr & b & taken & rest & Hinv) Hi. pose proof (iv_file _ _ _ _ _ _ Hinv) as Hs.
  destruct (shared_fscanf _ _ _ _ _ _ _ i Hs) as (s' & Hf & Hs' & Ho).
  exists (head (refill (pick b i) rest).1), s'. split; [done|].
  destruct (refill_got (pick b i) rest) as (got & Hg1 & Hg2 & Hg3 & Hg4).
  destruct (refill (pick b i) rest) as [c rest']. cbn [fst snd] in *.
  pose proof (lookup_lt_Some _ _ _ Hi) as Hlt. pose proof (iv_two _ _ _ _ _ _ Hinv) as H2.
  set (t' := match head c with Some c => Show c | None => Ended end). cbn zeta.
  assert (pending (Some t') ++ tail c = c) as Hc by (by destruct c).
  assert (seen tr (<[i := t']> ts) (put i (tail c) b) i = seen tr ts b i ++ got) as Hseen.
  { unfold seen. rewrite list_lookup_insert_eq, pick_put, Hc, Hi, Hg1 by done. simpl. by rewrite (assoc app). }
  split.
  - exists tr, (put i (tail c) b), (taken ++ got), rest'. destruct Hinv. split; try done.
    + by rewrite Ho.
    + by rewrite length_insert.
    + by rewrite <- (assoc app), <- Hg2.
    + intros j Hj. destruct (decide (i = j)) as [<-|Hne].
      * rewrite Hseen. apply sublist_app; [by apply iv_seen0|done].
      * rewrite seen_other by lia. by apply sublist_inserts_r, iv_seen0.
    + apply (seen_both _ (seen tr ts b) i); [lia|done| |done]. intros j Hj Hne. apply seen_other; lia.
    + intros j [(<- & E & _)|[Hne Hj]]%list_lookup_insert_Some.
      * rewrite pick_put. destruct c; [|done]. split; [done|by apply Hg3].
      * destruct (iv_ended0 j Hj) as [Hb ->]. apply lookup_lt_Some in Hj. rewrite pick_put_ne by lia.
        split; [done|]. symmetry in Hg2. by apply app_nil in Hg2 as [_ ?].
  - unfold work. rewrite (shared_available _ _ _ Hs), (shared_available _ _ _ Hs').
    pose proof (work_insert ts i Scan t' Hi H2) as Hw.
    assert (length (put i (tail c) b).1 + length (put i (tail c) b).2 + length (pick b i) =
            length b.1 + length b.2 + length (tail c))%nat as Hput by (destruct i; simpl; lia).
    assert (length c + length rest' = length (pick b i) + length rest)%nat as Hlen
      by (rewrite Hg1, Hg2, !length_app; lia).
    destruct c as [|x c]; simpl in *; lia.
Qed.

(** A thread prints its character. *)
Lemma inv_show i c ts s :
  inv ts s → ts !! i = Some (Show c) →
  let ts' := <[i := Scan]> ts in
  inv ts' (emit (line i c) s) ∧ (work ts' (emit (line i c) s) < work ts s)%nat.
Proof.
  intros (tr & b & taken & rest & Hinv) Hi. pose proof (lookup_lt_Some _ _ _ Hi) as Hlt.
  pose proof (iv_two _ _ _ _ _ _ Hinv) as H2. cbn zeta.
  assert (∀ j, seen (tr ++ [(i, c)]) (<[i := Scan]> ts) b j = seen tr ts b j) as Hseen.
  { intros j. unfold seen. rewrite of_thread_snoc. case_decide as Hj.
    - subst j. rewrite list_lookup_insert_eq, Hi by done. simpl. by rewrite <- (assoc app).
    - by rewrite list_lookup_insert_ne, app_nil_r. }
  split.
  - exists (tr ++ [(i, c)]), b, taken, rest. destruct Hinv. split.
    + by apply shared_emit.
    + simpl. rewrite iv_out0, fmap_app, concat_app. simpl. by rewrite app_nil_r, (assoc app).
    + by rewrite length_insert.
    + apply Forall_app. split; [done|]. apply Forall_singleton. simpl. lia.
    + done.
    + intros j Hj. rewrite Hseen. by apply iv_seen0.
    + by rewrite !Hseen.
    + intros j [(<- & E & _)|[Hne Hj]]%list_lookup_insert_Some; [done|by apply iv_ended0].
  - pose proof (work_insert ts i (Show c) Scan Hi H2). unfold work.
    change (available (emit (line i c) s)) with (available s). simpl in *. lia.
Qed.

Lemma inv_thread i ts t m s :
  inv ts s → ts !! i = Some t → next i t = Some m →
  ∃ t' s', m s = Ok (t', s') ∧ inv (<[i := t']> ts) s' ∧ (work (<[i := t']> ts) s' < work ts s)%nat.
Proof.
  intros HI Hi Hm. destruct t as [|c|]; simpl in Hm; simplify_eq.
  - replace (pick (Some fs.1, Some fs.2) i) with (Some (pick fs i)) by (by destruct i).
    destruct (inv_scan i ts s HI Hi) as (c & s' & Hf & H). eexists _, s'.
    unfold mbind, prog_bind. rewrite Hf. split; [done|exact H].
  - pose proof (inv_show i c ts s HI Hi) as H. eexists _, _. split; [done|exact H].
Qed.

Lemma inv_create ts s : (length ts < 2)%nat → inv ts s → inv (ts ++ [Scan]) s ∧ work (ts ++ [Scan]) s = work ts s.
Proof.
  intros Hlt (tr & b & taken & rest & []).
  pose proof (lookup_snoc_other ts Scan) as Hx.
  assert (∀ j, seen tr (ts ++ [Scan]) b j = seen tr ts b j) as Hseen by (intros j; unfold seen; by rewrite (Hx _ pending)).
  split.
  - exists tr, b, taken, rest. split; try done.
    + rewrite length_app. simpl. lia.
    + intros j Hj. rewrite Hseen. by apply iv_seen0.
    + by rewrite !Hseen.
    + intros j [[_ Hj]|[_ E]]%lookup_snoc_Some; [by apply iv_ended0|done].
  - unfold work. by rewrite !(Hx _ weight).
Qed.

(** When both threads have ended. *)
Lemma inv_at_end ts s :
  inv ts s → all_ended next ts →
  ∃ tr, out s = o0 ++ concat ((λ p, line p.1 p.2) <$> tr) ∧ tr.*2 ≡ₚ l ∧
    ∀ i, (i < 2)%nat → of_thread i tr `sublist_of` l.
Proof.
  intros (tr & b & taken & rest & []) [Hlen Hend]. exists tr. split; [done|].
  assert (∀ j, (j < 2)%nat → ts !! j = Some Ended) as Hts.
  { intros j Hj. destruct (lookup_lt_is_Some_2 ts j) as [t Ht]; [lia|]. rewrite Ht. f_equal.
    specialize (Hend j t Ht). by destruct t. }
  assert (∀ j, (j < 2)%nat → seen tr ts b j = of_thread j tr ∧ rest = []) as Hseen.
  { intros j Hj. unfold seen. rewrite (Hts j Hj). destruct (iv_ended0 j (Hts j Hj)) as [-> ?].
    by rewrite app_nil_r. }
  destruct (Hseen 0%nat) as [E0 ->]; [lia|]. destruct (Hseen 1%nat) as [E1 _]; [lia|].
  rewrite app_nil_r in iv_l0. subst taken. split.
  - rewrite (of_two_threads tr) by done. by rewrite <- E0, <- E1.
  - intros j Hj. destruct (Hseen j Hj) as [<- _]. by apply iv_seen0.
Qed.
End Prog1Thread.

Lemma inv_start ino s :
  inv (new_fd (fds s)) ino (contents s ino) (length (streams s), S (length (streams s))) (out s) []
    (two_streams ino s).
Proof.
  exists [], ([], []), [], (contents s ino). split; try done.
  - apply two_streams_shared.
  - by rewrite app_nil_r.
  - simpl. lia.
  - intros i Hi. unfold seen. by destruct i as [|[|]].
Qed.

Lemma prog1_thread_init ino s :
  names s !! alphabet = Some ino →
  Prog1Thread.init s = Ok ((Some (length (streams s)), Some (S (length (streams s)))), two_streams ino s).
Proof.
  intros Hn. unfold Prog1Thread.init, mbind, prog_bind. rewrite (open_existing _ _ ino) by done. set (fd := new_fd _).
  set (s1 := set_fds _ s). assert (fds s1 !! fd = Some (OpenFile ino 0 false)) as Hf by (simpl; by rewrite lookup_insert_eq).
  rewrite (fdopen_open _ _ _ Hf). erewrite fdopen_open by exact Hf.
  cbn [streams set_streams set_fds s1 fdopen]. rewrite length_app, Nat.add_1_r.
  rewrite (setvbuf_ok _ _ (Stream fd BUFSIZ []))
    by (simpl; rewrite lookup_app_l by (rewrite length_app; simpl; lia); by rewrite list_lookup_middle).
  rewrite (setvbuf_ok _ _ (Stream fd BUFSIZ [])).
  - unfold mret, prog_ret, two_streams, set_streams. simpl. do 3 f_equal.
    rewrite <- (assoc app), (insert_app_r_alt _ _ (length _)), Nat.sub_diag by lia. simpl.
    rewrite insert_app_r_alt by lia. by rewrite Nat.sub_succ_l, Nat.sub_diag by lia.
  - simpl. rewrite list_lookup_insert_ne by lia. rewrite list_lookup_middle; [done|].
    rewrite length_app. simpl. lia.
Qed.

(** C15: whatever the order in which the two threads of 1_thread.c run, the program
    never faults, is never stuck, and ends after at most two steps for each byte and
    eight more; unless a thread could not be created, it has then printed every
    byte of the file exactly once, and each thread the bytes it got in the order of
    the file. *)
Theorem prog1_thread_prints s ino fs s0 :
  names s !! alphabet = Some ino → Prog1Thread.init s = Ok (fs, s0) →
  (∀ n c, nsteps (Pthread.step (λ _, Prog1Thread.Scan) (Prog1Thread.thread_start (pick fs)) (mret tt)) n
      (initial s0) c → (n ≤ 2 * length (contents s ino) + 8)%nat) ∧
  ∀ c, Prog1Thread.runs fs s0 c →
    (ended c ∨ ∃ c', Pthread.step (λ _, Prog1Thread.Scan) (Prog1Thread.thread_start (pick fs)) (mret tt) c c') ∧
    match c with
    | Crash _ => False
    | Run (Exit 0) _ s' => ∃ tr,
        out s' = out s ++ concat ((λ p, Prog1Thread.line p.1 p.2) <$> tr) ∧
        tr.*2 ≡ₚ contents s ino ∧
        ∀ i, (i < 2)%nat → of_thread i tr `sublist_of` contents s ino
    | Run (Exit code) _ _ => code = 1
    | Run _ _ _ => True
    end.
Proof.
  intros Hn Hinit. rewrite (prog1_thread_init ino) in Hinit by done. injection Hinit as <- <-.
  set (f := (length (streams s), S (length (streams s)))).
  change (_, _) with (Some f.1, Some f.2).
  pose proof (two_streams_shared ino s) as Hsf.
  destruct (workers_run (λ _, Prog1Thread.Scan) (Prog1Thread.thread_start (pick (Some f.1, Some f.2))) (mret tt)
    (inv (new_fd (fds s)) ino (contents s ino) f (out s))
    (work (new_fd (fds s)) ino f) _ (inv_start ino s)) as [Hbound Hruns].
  { intros ts s1 Hlt HI. destruct (inv_create _ _ _ _ _ ts s1 Hlt HI) as [? Hw]. split; [done|by rewrite Hw]. }
  { intros i ts t m s1 HI Hi Hm. by apply (inv_thread _ _ _ _ _ i ts t m s1). }
  { intros ts s1 _. by eexists. }
  split.
  - intros n c Hc%Hbound. unfold work in Hc. rewrite (shared_available _ _ _ f _ _ _ Hsf) in Hc. simpl in Hc. lia.
  - intros c Hc%Hruns. destruct Hc as [Hp Hc]. split; [exact Hp|].
    destruct c as [[i|i|code] ts s1|f']; [done|done| |done].
    destruct Hc as [-> [->|(-> & ts' & s1' & HI & Hend & [= <-])]]; [done|].
    by eapply inv_at_end.
Qed.

Lemma prog1_thread_prints_witness :
  ∃ fs s0, Prog1Thread.init lab = Ok (fs, s0) ∧
    ∀ ts s', Prog1Thread.runs fs s0 (Run (Exit 0) ts s') →
      ∃ tr, out s' = concat ((λ p, Prog1Thread.line p.1 p.2) <$> tr) ∧ tr.*2 ≡ₚ letters.
Proof.
  assert (∃ fs s0, Prog1Thread.init lab = Ok (fs, s0)) as (fs & s0 & Hinit) by (do 2 eexists; vm_compute; reflexivity).
  exists fs, s0. split; [exact Hinit|]. intros ts s' Hr.
  destruct (prog1_thread_prints lab 1 fs s0 eq_refl Hinit) as [_ H].
  destruct (H _ Hr) as [_ (tr & Ho & Hp & _)]. exists tr. split; [exact Ho|exact Hp].
Defined.

(** ** 2_thread.c *)

Section Prog2Thread.
Import Prog2Thread.
Context (fd : Z * Z) (ino : Z) (l : list Z) (o0 : list Z) (Hfd : fd.1 ≠ fd.2).

Definition to_write (t : option local) : list Z := match t with Some (Writing (Some c)) => [c] | _ => [] end.

(** Each thread has printed, or is about to, the bytes up to its own position. *)
Record inv2_with (tr : list (nat * Z)) (p : nat * nat) (ts : list local) (s : sys) : Prop := {
  i2_pos i : (i < 2)%nat → fds s !! pick fd i = Some (OpenFile ino (Z.of_nat (pick p i)) false);
  i2_l : contents s ino = l;
  i2_out : out s = o0 ++ tr.*2;
  i2_two : (length ts ≤ 2)%nat;
  i2_tr : Forall (λ p, (p.1 < 2)%nat) tr;
  i2_done i : (i < 2)%nat → of_thread i tr ++ to_write (ts !! i) = take (pick p i) l;
  i2_le i : (i < 2)%nat → (pick p i ≤ length l)%nat;
  i2_ended i : ts !! i = Some Ended → pick p i = length l;
  i2_ready i : ts !! i ≠ Some (Writing None)
}.
Definition inv2 (ts : list local) (s : sys) : Prop := ∃ tr p, inv2_with tr p ts s.

Definition weight2 (t : option local) : nat := match t with Some (Writing _) => 2 | Some Ended => 0 | _ => 1 end.
Definition left_of (s : sys) (fd : Z) : nat :=
  match fds s !! fd with Some f => length l - Z.to_nat (f_pos f) | None => 0 end.
Definition work2 (ts : list local) (s : sys) : nat :=
  2 * (left_of s fd.1 + left_of s fd.2) + weight2 (ts !! 0%nat) + weight2 (ts !! 1%nat).

Lemma left_of_pos tr p ts s i :
  inv2_with tr p ts s → (i < 2)%nat → left_of s (pick fd i) = (length l - pick p i)%nat.
Proof. intros [] Hi. unfold left_of. rewrite i2_pos0 by done. simpl. by rewrite Nat2Z.id. Qed.

Lemma work2_eq tr p ts s :
  inv2_with tr p ts s →
  work2 ts s = (2 * (length l - p.1 + (length l - p.2)) + weight2 (ts !! 0%nat) + weight2 (ts !! 1%nat))%nat.
Proof.
  intros H. unfold work2. pose proof (left_of_pos _ _ _ _ 0 H) as H0. pose proof (left_of_pos _ _ _ _ 1 H) as H1.
  simpl in H0, H1. rewrite H0, H1 by lia. done.
Qed.

Lemma work2_insert ts i t t' :
  ts !! i = Some t → (length ts ≤ 2)%nat →
  (weight2 (<[i := t']> ts !! 0%nat) + weight2 (<[i := t']> ts !! 1%nat) + weight2 (Some t) =
   weight2 (ts !! 0%nat) + weight2 (ts !! 1%nat) + weight2 (Some t'))%nat.
Proof.
  intros Hi H2. pose proof (lookup_lt_Some _ _ _ Hi) as Hlt.
  destruct (lookup_two _ _ _ Hi H2) as [->| ->]; rewrite list_lookup_insert_eq, list_lookup_insert_ne, Hi by done; lia.
Qed.

Lemma pick_ne {A} (p : A * A) i j : p.1 ≠ p.2 → (i < 2)%nat → (j < 2)%nat → i ≠ j → pick p i ≠ pick p j.
Proof. intros. destruct i as [|[|]], j as [|[|]]; simpl; congruence || lia. Qed.

(** A thread that reads goes on by [n] bytes. *)
Lemma inv2_advance i c0 t' n tr p ts s :
  inv2_with tr p ts s → ts !! i = Some (Reading c0) →
  to_write (Some t') = take n (drop (pick p i) l) → (pick p i + n ≤ length l)%nat →
  (t' = Ended → (pick p i + n)%nat = length l) → t' ≠ Writing None →
  inv2_with tr (put i (pick p i + n)%nat p) (<[i := t']> ts)
    (set_fds (<[pick fd i := OpenFile ino (Z.of_nat (pick p i + n)) false]>) s).
Proof.
  intros H Hi Ht Hle Hend Hready. pose proof (lookup_lt_Some _ _ _ Hi) as Hlt.
  pose proof (i2_two _ _ _ _ H) as H2. assert (i < 2)%nat as Hi2 by lia.
  split; try (by destruct H).
  - intros j Hj. simpl. destruct (decide (i = j)) as [<-|Hne]; [by rewrite lookup_insert_eq, pick_put|].
    rewrite lookup_insert_ne by (by apply pick_ne). rewrite pick_put_ne by lia. by apply (i2_pos _ _ _ _ H).
  - by rewrite length_insert.
  - intros j Hj. destruct (decide (i = j)) as [<-|Hne].
    + rewrite list_lookup_insert_eq, pick_put, Ht by done. pose proof (i2_done _ _ _ _ H i Hi2) as Hd.
      rewrite Hi, app_nil_r in Hd. rewrite Hd. apply take_take_drop.
    + rewrite list_lookup_insert_ne, pick_put_ne by lia. by apply (i2_done _ _ _ _ H).
  - intros j Hj. destruct (decide (i = j)) as [<-|Hne]; [by rewrite pick_put|].
    rewrite pick_put_ne by lia. by apply (i2_le _ _ _ _ H).
  - intros j [(<- & E & _)|[Hne Hj]]%list_lookup_insert_Some; [rewrite pick_put; by apply Hend|].
    pose proof (lookup_lt_Some _ _ _ Hj). rewrite pick_put_ne by lia. by apply (i2_ended _ _ _ _ H).
  - intros j [(<- & E & _)|[Hne Hj]]%list_lookup_insert_Some; [done|by apply (i2_ready _ _ _ _ H j)].
Qed.

(** A thread reads. *)
Lemma inv2_read i c0 ts s :
  inv2 ts s → ts !! i = Some (Reading c0) →
  ∃ r s', read (pick fd i) 1 s = Ok (r, s') ∧
    let t' := if decide (Prog2.result r = 0) then Ended
              else Writing (match Prog2.got r with Some c => Some c | None => c0 end) in
    inv2 (<[i := t']> ts) s' ∧ (work2 (<[i := t']> ts) s' < work2 ts s)%nat.
Proof.
  intros (tr & p & H) Hi. pose proof (lookup_lt_Some _ _ _ Hi) as Hlt. pose proof (i2_two _ _ _ _ H) as H2.
  assert (i < 2)%nat as Hi2 by lia. pose proof (i2_le _ _ _ _ H i Hi2) as Hle.
  eexists _, _. split; [by apply (read_byte _ ino (pick p i)), (i2_pos _ _ _ _ H)|].
  rewrite (i2_l _ _ _ _ H). cbn zeta.
  pose proof (length_drop l (pick p i)) as Hlen. destruct (drop (pick p i) l) as [|c rest] eqn:Hd; simpl in Hlen.
  - cbn [take length Prog2.result Prog2.got]. rewrite decide_True by done.
    opose proof (inv2_advance i c0 Ended 0 tr p ts s H Hi _ _ _ _) as Hinv; [done|lia|lia|done|]. split; [by eexists _, _|].
    pose proof (work2_insert ts i _ Ended Hi H2) as Hw. simpl in Hw.
    rewrite (work2_eq _ _ _ _ H), (work2_eq _ _ _ _ Hinv). destruct i as [|[|]]; simpl in *; lia.
  - rewrite firstn_cons, take_0. cbn [length Prog2.result Prog2.got]. rewrite decide_False by done.
    opose proof (inv2_advance i c0 (Writing (Some c)) 1 tr p ts s H Hi _ _ _ _) as Hinv; [by rewrite Hd|lia|done|done|]. split; [by eexists _, _|].
    pose proof (work2_insert ts i _ (Writing (Some c)) Hi H2) as Hw. simpl in Hw.
    rewrite (work2_eq _ _ _ _ H), (work2_eq _ _ _ _ Hinv). destruct i as [|[|]]; simpl in *; lia.
Qed.

(** A thread writes. *)
Lemma inv2_write i c ts s :
  inv2 ts s → ts !! i = Some (Writing (Some c)) →
  inv2 (<[i := Reading (Some c)]> ts) (emit [c] s) ∧
    (work2 (<[i := Reading (Some c)]> ts) (emit [c] s) < work2 ts s)%nat.
Proof.
  intros (tr & p & H) Hi. pose proof (lookup_lt_Some _ _ _ Hi) as Hlt. pose proof (i2_two _ _ _ _ H) as H2.
  split.
  - exists (tr ++ [(i, c)]), p. split; try (by destruct H).
    + simpl. by rewrite (i2_out _ _ _ _ H), fmap_app, (assoc app).
    + by rewrite length_insert.
    + apply Forall_app. split; [by destruct H|]. apply Forall_singleton. simpl. lia.
    + intros j Hj. rewrite of_thread_snoc. rewrite <- (i2_done _ _ _ _ H j Hj). case_decide as Hne.
      * subst j. rewrite list_lookup_insert_eq, Hi by done. simpl. by rewrite <- (assoc app).
      * by rewrite list_lookup_insert_ne, app_nil_r.
    + intros j [(<- & E & _)|[Hne Hj]]%list_lookup_insert_Some; [done|by apply (i2_ended _ _ _ _ H)].
    + intros j [(<- & E & _)|[Hne Hj]]%list_lookup_insert_Some; [done|by apply (i2_ready _ _ _ _ H j)].
  - pose proof (work2_insert ts i _ (Reading (Some c)) Hi H2). unfold work2, left_of in *. simpl in *. lia.
Qed.

Abbreviation next2 := (thread_start (pick fd)).

Lemma inv2_thread i ts t m s :
  inv2 ts s → ts !! i = Some t → next2 i t = Some m →
  ∃ t' s', m s = Ok (t', s') ∧ inv2 (<[i := t']> ts) s' ∧ (work2 (<[i := t']> ts) s' < work2 ts s)%nat.
Proof.
  intros HI Hi Hm. destruct t as [c|[c|]|]; simpl in Hm; simplify_eq.
  - destruct (inv2_read i c ts s HI Hi) as (r & s' & Hr & H). eexists _, s'.
    unfold mbind, prog_bind. rewrite Hr. split; [done|exact H].
  - pose proof (inv2_write i c ts s HI Hi) as H. eexists _, _. split; [done|exact H].
  - destruct HI as (tr & p & []). by destruct (i2_ready0 i).
Qed.

Lemma inv2_create ts s :
  (length ts < 2)%nat → inv2 ts s → inv2 (ts ++ [Reading None]) s ∧ work2 (ts ++ [Reading None]) s = work2 ts s.
Proof.
  intros Hlt (tr & p & H). pose proof (lookup_snoc_other ts (Reading None)) as Hx. split.
  - exists tr, p. split; try (by destruct H).
    + rewrite length_app. simpl. lia.
    + intros j Hj. by rewrite (Hx _ to_write), (i2_done _ _ _ _ H).
    + intros j [[_ Hj]|[_ E]]%lookup_snoc_Some; [by apply (i2_ended _ _ _ _ H)|done].
    + intros j [[_ Hj]|[_ E]]%lookup_snoc_Some; [by apply (i2_ready _ _ _ _ H j)|done].
  - unfold work2. by rewrite !(Hx _ weight2).
Qed.

Lemma inv2_at_end ts s :
  inv2 ts s → all_ended next2 ts →
  ∃ tr, out s = o0 ++ tr.*2 ∧ Forall (λ p, (p.1 < 2)%nat) tr ∧ ∀ i, (i < 2)%nat → of_thread i tr = l.
Proof.
  intros (tr & p & H) [Hlen Hend]. exists tr. split; [by destruct H|]. split; [by destruct H|]. intros i Hi.
  destruct (lookup_lt_is_Some_2 ts i) as [t Ht]; [lia|]. pose proof (Hend i t Ht) as Hn.
  destruct t as [|[|]|]; try done. pose proof (i2_done _ _ _ _ H i Hi) as Hd.
  rewrite Ht, (i2_ended _ _ _ _ H i Ht), app_nil_r, firstn_all in Hd. done.
Qed.
End Prog2Thread.

(** Whatever the order in which the two threads of 2_thread.c run, the program
    never faults, is never stuck, and ends after at most four steps for each byte and
    eight more; unless a thread could not be created, each thread has printed the
    whole file, in order, between the bytes of the other. *)
Theorem prog2_thread_prints s ino fd s0 :
  names s !! alphabet = Some ino → Prog2Thread.init s = Ok (fd, s0) →
  (∀ n c, nsteps (Pthread.step (λ _, Prog2Thread.Reading None) (Prog2Thread.thread_start (pick fd)) (Prog2Thread.finish fd)) n
      (initial s0) c → (n ≤ 4 * length (contents s ino) + 8)%nat) ∧
  ∀ c, Prog2Thread.runs fd s0 c →
    (ended c ∨ ∃ c', Pthread.step (λ _, Prog2Thread.Reading None) (Prog2Thread.thread_start (pick fd)) (Prog2Thread.finish fd) c c') ∧
    match c with
    | Crash _ => False
    | Run (Exit 0) _ s' => ∃ tr,
        out s' = out s ++ tr.*2 ∧ Forall (λ p, (p.1 < 2)%nat) tr ∧
        ∀ i, (i < 2)%nat → of_thread i tr = contents s ino
    | Run (Exit code) _ _ => code = 1
    | Run _ _ _ => True
    end.
Proof.
  intros Hn Hinit. unfold Prog2Thread.init in Hinit. rewrite (open_twice _ ino) in Hinit by done.
  injection Hinit as <- <-. set (fd := (new_fd (fds s), second_fd ino O_RDONLY s)).
  pose proof (second_fd_ne ino O_RDONLY s) as Hne.
  assert (inv2_with fd ino (contents s ino) (out s) [] (0%nat, 0%nat) [] (two_files ino O_RDONLY s)) as H0.
  { split; try done; [|simpl; by rewrite app_nil_r|simpl; lia|by intros [|[|]]|intros [|[|]] _; simpl; lia].
    intros i Hi. unfold two_files. destruct i as [|[|]]; simpl; [|by rewrite lookup_insert_eq|lia].
    by rewrite lookup_insert_ne, lookup_insert_eq. }
  destruct (workers_run (λ _, Prog2Thread.Reading None) (Prog2Thread.thread_start (pick fd)) (Prog2Thread.finish fd)
    (inv2 fd ino (contents s ino) (out s)) (work2 fd (contents s ino)) (two_files ino O_RDONLY s)) as [Hbound Hruns].
  { by eexists _, _. }
  { intros ts s1 Hlt HI. destruct (inv2_create fd _ _ _ Hne ts s1 Hlt HI) as [? Hw]. split; [done|by rewrite Hw]. }
  { intros i ts t m s1 HI Hi Hm. by apply (inv2_thread fd ino (contents s ino) (out s) Hne i ts t m s1). }
  { intros ts s1 _. by eexists. }
  split.
  - intros n c Hc%Hbound. rewrite (work2_eq fd _ _ _ Hne _ _ _ _ H0) in Hc. simpl in Hc. lia.
  - intros c Hc%Hruns. destruct Hc as [Hp Hc]. split; [exact Hp|].
    destruct c as [[i|i|code] ts s1|f']; [done|done| |done].
    destruct Hc as [-> [->|(-> & ts' & s1' & HI & Hend & [= <-])]]; [done|].
    by apply (inv2_at_end fd ino _ (out s) Hne ts' s1').
Qed.

Lemma prog2_thread_prints_witness :
  ∃ fd s0, Prog2Thread.init lab = Ok (fd, s0) ∧
    ∀ ts s', Prog2Thread.runs fd s0 (Run (Exit 0) ts s') →
      ∃ tr, out s' = tr.*2 ∧ ∀ i, (i < 2)%nat → of_thread i tr = letters.
Proof.
  assert (∃ fd s0, Prog2Thread.init lab = Ok (fd, s0)) as (fd & s0 & Hinit) by (do 2 eexists; vm_compute; reflexivity).
  exists fd, s0. split; [exact Hinit|]. intros ts s' Hr.
  destruct (prog2_thread_prints lab 1 fd s0 eq_refl Hinit) as [_ H].
  destruct (H _ Hr) as [_ (tr & Ho & _ & Hp)]. exists tr. split; [exact Ho|exact Hp].
Defined.

(** Without the file, [read] gives -1, which is not 0: the thread goes on to print a
    variable that was never given a value. *)
Lemma prog2_thread_missing s :
  names s !! alphabet = None → fds s !! (-1) = None →
  ∃ fd, Prog2Thread.init s = Ok (fd, s) ∧ Prog2Thread.runs fd s (Crash Uninit).
Proof.
  intros Hn Hm. exists (-1, -1). split.
  { unfold Prog2Thread.init, mbind, prog_bind. by rewrite !open_missing. }
  eapply rtc_l; [by apply step_create; lia|]. simpl.
  eapply rtc_l.
  { eapply (step_thread _ _ _ _ 0 [Prog2Thread.Reading None] _ _ _ (Prog2Thread.Writing None) s); [done|done|].
    simpl. unfold read, mbind, prog_bind, get_st. by rewrite Hm. }
  apply rtc_once. eapply (step_thread_fault _ _ _ _ 0); done.
Qed.
