(* ===== verification/OpenFileWrite.v ===== *)
(** * What the writing programs of 8/open_file guarantee *)

From S2P Require Import Prelude Posix Pthread OpenFile OpenFileSpec OpenFileThreads.
From stdpp Require Import options.
#[local] Set Default Proof Using "Type*".
Local Open Scope Z_scope.

(** ** Writing *)

Lemma overwrite_end c d : overwrite c (length c) d = c ++ d.
Proof. unfold overwrite. rewrite firstn_all, Nat.sub_diag, drop_ge by lia. by rewrite app_nil_r. Qed.

(** From the start, bytes are put over as many old ones. *)
Lemma overwrite_start c d : overwrite c 0 d = d ++ drop (length d) c.
Proof. done. Qed.

Lemma write_ok fd ino p a d s :
  fds s !! fd = Some (OpenFile ino (Z.of_nat p) a) →
  let c := contents s ino in
  let pos := if a then length c else p in
  write fd d s = Ok (Z.of_nat (length d),
    set_fds (<[fd := OpenFile ino (Z.of_nat (pos + length d)) a]>)
      (set_inodes (<[ino := overwrite c pos d]>) s)).
Proof.
  intros Hf. cbn zeta. unfold write, mbind, prog_bind, get_st. rewrite Hf. cbn [f_pos f_inode f_append].
  destruct a; by rewrite Nat2Z.id, Nat2Z.inj_add.
Qed.

Lemma contents_insert ino c s : contents (set_inodes (<[ino := c]>) s) ino = c.
Proof. unfold contents. simpl. by rewrite lookup_insert_eq. Qed.

(** The line about a file of [n] bytes. *)
Definition report (action : string) (ino : Z) (n : nat) : list Z :=
  stat_line (bytes action ++ bytes ": inode = ") (ino, Z.of_nat n) [].

Lemma print_stat_ok action ino s :
  names s !! q = Some ino →
  print_stat action s = Ok (tt, emit (report action ino (length (contents s ino)))
    (set_statbuf (ino, Z.of_nat (length (contents s ino))) s)).
Proof. intros Hn. unfold print_stat, stat, mbind, prog_bind, get_st. by rewrite Hn. Qed.

(** ** 2_1.c *)

(** Both open files append to a file with the contents [c]. *)
Record appending (fd1 fd2 ino : Z) (c : list Z) (s : sys) : Prop := {
  ap_ne : fd1 ≠ fd2;
  ap_name : names s !! q = Some ino;
  ap_c : contents s ino = c;
  ap_fst : ∃ p, fds s !! fd1 = Some (OpenFile ino (Z.of_nat p) true);
  ap_snd : ∃ p, fds s !! fd2 = Some (OpenFile ino (Z.of_nat p) true)
}.

Lemma appending_write fd1 fd2 ino c s fd d :
  appending fd1 fd2 ino c s → fd = fd1 ∨ fd = fd2 →
  ∃ n s', write fd d s = Ok (n, s') ∧ appending fd1 fd2 ino (c ++ d) s' ∧ out s' = out s.
Proof.
  intros [Hne Hn <- [p1 H1] [p2 H2]] Hfd.
  assert (∃ p, fds s !! fd = Some (OpenFile ino (Z.of_nat p) true)) as [p Hp] by (destruct Hfd as [->| ->]; eauto).
  eexists _, _. split; [by apply (write_ok _ ino p)|]. split; [|done]. rewrite overwrite_end.
  split; [done|done|by apply contents_insert| |]; simpl.
  - destruct (decide (fd = fd1)) as [->|]; [rewrite lookup_insert_eq|rewrite lookup_insert_ne by done]; eauto.
  - destruct (decide (fd = fd2)) as [->|]; [rewrite lookup_insert_eq|rewrite lookup_insert_ne by done]; eauto.
Qed.

Lemma appending_stat fd1 fd2 ino c s action :
  appending fd1 fd2 ino c s →
  ∃ s', print_stat action s = Ok (tt, s') ∧ appending fd1 fd2 ino c s' ∧
    out s' = out s ++ report action ino (length c).
Proof.
  intros [Hne Hn Hc H1 H2]. eexists. split; [by apply print_stat_ok|]. rewrite Hc. by repeat split.
Qed.

Lemma prog2_1_loop fd1 fd2 ino cs c s :
  appending fd1 fd2 ino c s →
  ∃ s', Prog2_1.loop cs fd1 fd2 s = Ok (tt, s') ∧ appending fd1 fd2 ino (c ++ cs) s' ∧
    out s' = out s ++ concat (report "write    " ino <$> seq (S (length c)) (length cs)).
Proof.
  revert c s. induction cs as [|x cs IH]; intros c s Hs.
  { exists s. split; [done|]. by rewrite !app_nil_r. }
  cbn [Prog2_1.loop]. set (fd := if decide (x mod 2 ≠ 0) then fd1 else fd2).
  destruct (appending_write fd1 fd2 ino c s fd [x] Hs) as (n & s1 & Hw & Hs1 & Ho1).
  { subst fd. case_decide; auto. }
  assert (((if decide (x mod 2 ≠ 0) then write fd1 [x] else write fd2 [x]) s) = Ok (n, s1)) as Hw'
    by (subst fd; by case_decide).
  destruct (appending_stat _ _ _ _ _ "write    " Hs1) as (s2 & Hp & Hs2 & Ho2).
  destruct (IH _ _ Hs2) as (s3 & Hl & Hs3 & Ho3).
  exists s3. split; [|split].
  - unfold mbind, prog_bind. by rewrite Hw', Hp.
  - by rewrite <- (assoc app) in Hs3.
  - rewrite Ho3, Ho2, Ho1, length_app. simpl. by rewrite Nat.add_1_r, <- (assoc app).
Qed.

(** With O_APPEND nothing is lost: 2_1.c leaves the old contents of its file
    followed by the alphabet in order, though the letters are written through two
    open files in turn, and it prints the growing size after every letter. *)
Theorem prog2_1_appends s ino :
  names s !! q = Some ino →
  let n := length (contents s ino) in
  ∃ s', Prog2_1.main s = Ok (0, s') ∧ contents s' ino = contents s ino ++ letters ∧
    out s' = out s ++ report "open fd1 " ino n ++ report "open fd2 " ino n ++
      concat (report "write    " ino <$> seq (S n) 26) ++
      report "close fd1" ino (n + 26) ++ report "close fd2" ino (n + 26).
Proof.
  intros Hn n. unfold Prog2_1.main, mbind, prog_bind. rewrite (open_existing _ _ ino) by done.
  rewrite (print_stat_ok _ ino) by done. set (s1 := emit _ _).
  rewrite (open_existing _ _ ino) by done. set (s2 := set_fds _ s1).
  rewrite (print_stat_ok _ ino) by done. set (s3 := emit _ _).
  set (fd1 := new_fd (fds s)). set (fd2 := new_fd (fds s1)).
  assert (appending fd1 fd2 ino (contents s ino) s3) as Hs3.
  { pose proof (second_fd_ne ino O_RDWR_APPEND s : fd1 ≠ fd2) as Hne. split; [done|done|done| |].
    - exists 0%nat. simpl. rewrite lookup_insert_ne by done. by rewrite lookup_insert_eq.
    - exists 0%nat. simpl. by rewrite lookup_insert_eq. }
  destruct (prog2_1_loop _ _ _ letters _ _ Hs3) as (s4 & Hl & [_ Hn4 Hc4 _ _] & Ho4). rewrite Hl.
  cbn beta iota. unfold close at 1, modify at 1. rewrite (print_stat_ok _ ino) by done.
  unfold close at 1, modify at 1. rewrite (print_stat_ok _ ino) by done.
  eexists. split; [done|]. split; [exact Hc4|]. cbn [out emit set_statbuf set_fds].
  unfold contents. cbn [inodes emit set_statbuf set_fds]. fold (contents s4 ino).
  rewrite Ho4, Hc4, length_app. subst s3 s2 s1. unfold contents. cbn [inodes out emit set_statbuf set_fds].
  fold (contents s ino).
  rewrite <- !(assoc app). done.
Qed.

Lemma prog2_1_appends_witness :
  ∃ s', Prog2_1.main lab = Ok (0, s') ∧ contents s' 2 = bytes "oldabcdefghijklmnopqrstuvwxyz".
Proof.
  destruct (prog2_1_appends lab 2 eq_refl) as (s' & H1 & H2 & _). exists s'. split; [exact H1|].
  rewrite H2. vm_compute. reflexivity.
Defined.

(** ** Two writing streams *)

(** The streams [f] on two open files of the inode [ino], which appends where [a]
    says so; [b] is what the buffers hold. *)
Record writing (f : nat * nat) (fd : Z * Z) (a : bool * bool) (ino : Z) (b : list Z * list Z) (c : list Z) (s : sys) : Prop := {
  wr_f : f.1 ≠ f.2;
  wr_fd : fd.1 ≠ fd.2;
  wr_name : names s !! q = Some ino;
  wr_c : contents s ino = c;
  wr_streams i : (i < 2)%nat → streams s !! pick f i = Some (Some (Stream (pick fd i) BUFSIZ (pick b i)));
  wr_fds i : (i < 2)%nat → fds s !! pick fd i = Some (OpenFile ino 0 (pick a i))
}.

Lemma writing_printf f fd a ino b c s i x :
  writing f fd a ino b c s → (i < 2)%nat → Z.of_nat (length (pick b i)) < BUFSIZ →
  ∃ s', fprintf_c (Some (pick f i)) x s = Ok (tt, s') ∧
    writing f fd a ino (put i (pick b i ++ [x]) b) c s' ∧ out s' = out s.
Proof.
  intros [Hf Hfd Hn Hc Hs Hfds] Hi Hlt. unfold fprintf_c, mbind, prog_bind.
  rewrite !(get_stream_ok _ _ _ (Hs i Hi)). cbn [s_size s_buf]. rewrite decide_False by lia.
  unfold mret, prog_ret. rewrite !(get_stream_ok _ _ _ (Hs i Hi)).
  eexists. split; [done|]. split; [|done]. split; try done. intros j Hj. simpl.
  destruct (decide (i = j)) as [<-|Hne].
  - rewrite list_lookup_insert_eq, pick_put by (eapply lookup_lt_Some, Hs; done). done.
  - rewrite list_lookup_insert_ne by (by apply pick_ne). rewrite pick_put_ne by done. by apply Hs.
Qed.

Lemma writing_stat f fd a ino b c s action :
  writing f fd a ino b c s →
  ∃ s', print_stat action s = Ok (tt, s') ∧ writing f fd a ino b c s' ∧
    out s' = out s ++ report action ino (length c).
Proof.
  intros [Hf Hfd Hn Hc Hs Hfds]. eexists. split; [by apply print_stat_ok|]. rewrite Hc. by repeat split.
Qed.

(** Two streams opened one after the other. *)
Lemma writing_start s s1 s2 a1 a2 ino :
  fds s1 = <[new_fd (fds s) := OpenFile ino 0 a1]> (fds s) →
  streams s1 = streams s ++ [Some (Stream (new_fd (fds s)) BUFSIZ [])] →
  fds s2 = <[new_fd (fds s1) := OpenFile ino 0 a2]> (fds s1) →
  streams s2 = streams s1 ++ [Some (Stream (new_fd (fds s1)) BUFSIZ [])] →
  names s2 !! q = Some ino → contents s2 ino = [] →
  writing (length (streams s), length (streams s1)) (new_fd (fds s), new_fd (fds s1)) (a1, a2) ino ([], []) [] s2.
Proof.
  intros Hfd1 Hst1 Hfd2 Hst2 Hn Hc.
  assert (new_fd (fds s) ≠ new_fd (fds s1)) as Hne.
  { intros E. pose proof (new_fd_free (fds s1)) as Hfree. rewrite <- E, Hfd1, lookup_insert_eq in Hfree. done. }
  split; [|done|done|done| |].
  - simpl. rewrite Hst1, length_app. simpl. lia.
  - intros i Hi. rewrite Hst2. destruct i as [|[|]]; simpl; [|by rewrite list_lookup_middle|lia].
    rewrite Hst1, lookup_app_l by (rewrite length_app; simpl; lia). by rewrite list_lookup_middle.
  - intros i Hi. rewrite Hfd2. destruct i as [|[|]]; simpl; [|by rewrite lookup_insert_eq|lia].
    rewrite lookup_insert_ne by done. by rewrite Hfd1, lookup_insert_eq.
Qed.

(** Closing one stream and then the other. *)
Lemma fclose_ok f fd n b ino a s :
  streams s !! f = Some (Some (Stream fd n b)) → fds s !! fd = Some (OpenFile ino 0 a) →
  ∃ s', fclose (Some f) s = Ok (tt, s') ∧
    contents s' ino = overwrite (contents s ino) (if a then length (contents s ino) else 0) b ∧
    names s' = names s ∧ out s' = out s ∧
    (∀ g, g ≠ f → streams s' !! g = streams s !! g) ∧ (∀ fd', fd' ≠ fd → fds s' !! fd' = fds s !! fd').
Proof.
  intros Hs Hfd. unfold fclose, fflush, mbind, prog_bind. rewrite (get_stream_ok _ _ _ Hs). cbn [s_fd s_buf].
  rewrite (write_ok fd ino 0 a) by done. eexists. split; [done|]. split; [exact (contents_insert ino _ s)|].
  split; [done|]. split; [done|]. split; simpl.
  - intros g Hg. by rewrite !list_lookup_insert_ne.
  - intros fd' Hfd'. by rewrite lookup_delete_ne, lookup_insert_ne.
Qed.

(** ** 3.c *)

(** Opening for writing empties or makes the file. *)
Lemma fopen_w s :
  ∃ ino s', fopen q mode_w s = Ok (Some (length (streams s)), s') ∧
    names s' !! q = Some ino ∧ (∀ i, names s !! q = Some i → ino = i) ∧ contents s' ino = [] ∧
    fds s' = <[new_fd (fds s) := OpenFile ino 0 false]> (fds s) ∧
    streams s' = streams s ++ [Some (Stream (new_fd (fds s)) BUFSIZ [])] ∧ out s' = out s.
Proof.
  unfold fopen, open, mbind, prog_bind, get_st. destruct (names s !! q) as [i|] eqn:Hn.
  - exists i. eexists. unfold open_inode, mbind, prog_bind, get_st. cbn [o_trunc mode_w].
    unfold modify, mret, prog_ret. cbn beta iota zeta. erewrite fdopen_open by (simpl; by rewrite lookup_insert_eq).
    split; [done|]. split; [done|]. split; [congruence|]. split; [exact (contents_insert i [] s)|done].
  - cbn [o_creat mode_w]. set (i := fresh _). exists i. eexists.
    unfold open_inode, mbind, prog_bind, get_st, modify, mret, prog_ret. cbn [o_trunc mode_w].
    cbn beta iota zeta. erewrite fdopen_open by (simpl; by rewrite lookup_insert_eq).
    split; [done|]. split; [simpl; by rewrite lookup_insert_eq|]. split; [done|].
    split; [|done]. exact (contents_insert i [] (add_name q i s)).
Qed.

Lemma prog3_loop f fd ino cs b s :
  writing f fd (false, false) ino b [] s →
  Z.of_nat (length b.1 + length cs) < BUFSIZ → Z.of_nat (length b.2 + length cs) < BUFSIZ →
  ∃ s', Prog3.loop cs (Some f.1) (Some f.2) s = Ok (tt, s') ∧
    writing f fd (false, false) ino (b.1 ++ filter (λ c, c mod 2 ≠ 0) cs, b.2 ++ filter (λ c, ¬ c mod 2 ≠ 0) cs) [] s' ∧
    out s' = out s ++ concat (replicate (length cs) (report "fprintf   " ino 0)).
Proof.
  revert b s. induction cs as [|x cs IH]; intros b s Hs H1 H2.
  { exists s. split; [done|]. simpl. rewrite !app_nil_r. by destruct b. }
  cbn [Prog3.loop length] in *. set (i := if decide (x mod 2 ≠ 0) then 0%nat else 1%nat).
  assert (i < 2)%nat as Hi by (subst i; case_decide; lia).
  destruct (writing_printf f fd _ ino b [] s i x Hs Hi) as (s1 & Hw & Hs1 & Ho1).
  { subst i. case_decide; simpl; lia. }
  destruct (writing_stat _ _ _ _ _ _ _ "fprintf   " Hs1) as (s2 & Hp & Hs2 & Ho2).
  destruct (IH _ _ Hs2) as (s3 & Hl & Hs3 & Ho3); [subst i; case_decide; simpl; rewrite ?length_app; simpl; lia..|].
  exists s3. split; [|split].
  - unfold mbind, prog_bind. replace (pick f i) with (if decide (x mod 2 ≠ 0) then f.1 else f.2) in Hw
      by (subst i; by case_decide).
    case_decide; by rewrite Hw, Hp.
  - rewrite !filter_cons. subst i. case_decide as Hx; simpl in *.
    + rewrite (decide_False (P := ¬ x mod 2 ≠ 0)) by tauto. by rewrite <- (assoc app) in Hs3.
    + rewrite (decide_True (P := ¬ x mod 2 ≠ 0)) by tauto. by rewrite <- (assoc app) in Hs3.
  - rewrite Ho3, Ho2, Ho1. simpl. by rewrite <- (assoc app).
Qed.

(** The second stream after the first is closed. *)
Record half_closed (f : nat) (fd : Z) (a : bool) (ino : Z) (b c : list Z) (s : sys) : Prop := {
  hc_name : names s !! q = Some ino;
  hc_c : contents s ino = c;
  hc_stream : streams s !! f = Some (Some (Stream fd BUFSIZ b));
  hc_fd : fds s !! fd = Some (OpenFile ino 0 a)
}.

Lemma writing_close f fd a ino b c s :
  writing f fd a ino b c s →
  ∃ s', fclose (Some f.1) s = Ok (tt, s') ∧ out s' = out s ∧
    half_closed f.2 fd.2 a.2 ino b.2 (overwrite c (if a.1 then length c else 0) b.1) s'.
Proof.
  intros [Hf Hfd Hn <- Hs Hfds].
  destruct (fclose_ok f.1 fd.1 BUFSIZ b.1 ino a.1 s (Hs 0%nat ltac:(lia)) (Hfds 0%nat ltac:(lia)))
    as (s' & Hc & Hcont & Hnames & Ho & Hst & Hfd').
  exists s'. split; [done|]. split; [done|]. split; [by rewrite Hnames|done| |].
  - rewrite Hst by done. by apply (Hs 1%nat); lia.
  - rewrite Hfd' by done. by apply (Hfds 1%nat); lia.
Qed.

Lemma half_closed_close f fd a ino b c s :
  half_closed f fd a ino b c s →
  ∃ s', fclose (Some f) s = Ok (tt, s') ∧ out s' = out s ∧ names s' !! q = Some ino ∧
    contents s' ino = overwrite c (if a then length c else 0) b.
Proof.
  intros [Hn <- Hs Hfd]. destruct (fclose_ok f fd BUFSIZ b ino a s Hs Hfd) as (s' & Hc & Hcont & Hnames & Ho & _).
  exists s'. by rewrite Hnames.
Qed.

(** The letters with an odd code, 'a', 'c', ..., and with an even code. *)
Definition odd_letters : list Z := bytes "acegikmoqsuwy".
Definition even_letters : list Z := bytes "bdfhjlnprtvxz".

(** 3.c loses every other letter. Both streams keep their letters until they are
    closed, so the size stays 0; closing the first puts its thirteen letters into the
    file, and closing the second puts the other thirteen over them. This is so
    whether the file existed or not. *)
Theorem prog3_loses_letters s :
  ∃ ino s', Prog3.main s = Ok (0, s') ∧ names s' !! q = Some ino ∧ contents s' ino = even_letters ∧
    out s' = out s ++ report "open fs1   " ino 0 ++ report "open fs2   " ino 0 ++
      concat (replicate 26 (report "fprintf   " ino 0)) ++
      report "fclose fs1" ino 13 ++ report "fclose fs2" ino 13.
Proof.
  unfold Prog3.main, mbind, prog_bind.
  destruct (fopen_w s) as (ino & s1 & H1 & Hn1 & _ & Hc1 & Hfd1 & Hst1 & Ho1). rewrite H1.
  rewrite (print_stat_ok _ ino) by done. rewrite Hc1. set (s1' := emit _ _).
  destruct (fopen_w s1') as (ino' & s2 & H2 & Hn2 & Hi2 & Hc2 & Hfd2 & Hst2 & Ho2).
  assert (ino' = ino) as -> by (by apply Hi2). rewrite H2. exists ino.
  rewrite (print_stat_ok _ ino) by done. rewrite Hc2. set (s2' := emit _ _).
  set (f := (length (streams s), length (streams s1'))). set (fd := (new_fd (fds s), new_fd (fds s1'))).
  assert (writing f fd (false, false) ino ([], []) [] s2') as Hs2.
  { by apply (writing_start s s1' s2'). }
  destruct (prog3_loop f fd ino letters _ _ Hs2) as (s3 & Hl & Hs3 & Ho3); [done..|]. cbn [f fst snd] in Hl. rewrite Hl.
  destruct (writing_close _ _ _ _ _ _ _ Hs3) as (s4 & Hc4 & Ho4 & Hs4). cbn [f fst] in Hc4. rewrite Hc4.
  rewrite (print_stat_ok _ ino) by apply Hs4. set (s4' := emit _ _).
  assert (half_closed f.2 fd.2 false ino even_letters odd_letters s4') as Hs4' by (destruct Hs4; by split).
  destruct (half_closed_close _ _ _ _ _ _ _ Hs4') as (s5 & Hc5 & Ho5 & Hn5 & Hcont). cbn [f snd] in Hc5. rewrite Hc5.
  rewrite (print_stat_ok _ ino) by done. eexists. split; [done|]. split; [done|]. split; [exact Hcont|].
  cbn [out emit set_statbuf]. rewrite Ho5, Hcont. subst s4'. cbn [out emit set_statbuf].
  rewrite Ho4, (hc_c _ _ _ _ _ _ _ Hs4), Ho3. subst s2'. cbn [out emit set_statbuf]. rewrite Ho2.
  subst s1'. cbn [out emit set_statbuf]. rewrite Ho1. by rewrite <- !(assoc app).
Qed.

(** ** Two threads that write letters *)

Section LettersLoop.
Import Prog2_1Thread.
Context (put : nat → Z → prog sys unit) (show : nat → Z * Z → list Z) (finish : prog sys unit).
(** [W tr s]: the letters of the trace have been written. *)
Context (W : list (nat * Z) → sys → Prop).
Context (W_put : ∀ tr s i c, W tr s → (i < 2)%nat → (length (of_thread i tr) ≤ 26)%nat →
    ∃ s', put i c s = Ok (tt, s') ∧ W (tr ++ [(i, c)]) s')
  (W_stat : ∀ tr s, W tr s → ∃ s', stat q s = Ok (tt, s') ∧ W tr s')
  (W_emit : ∀ tr s d, W tr s → W tr (emit d s))
  (W_finish : ∀ tr s, W tr s → ∃ s', finish s = Ok (tt, s')).

Abbreviation lnext := (letters_loop put show).

(** How many letters a thread has gone through. *)
Definition passed (t : option local) : nat :=
  match t with Some (For c) => Z.to_nat (c - 97) | Some (Stat c) | Some (Print c) => Z.to_nat (c - 96) | None => 0 end.
Definition letters_of (i n : nat) : list Z := filter (λ c, c mod 2 = Z.of_nat i) (seqZ 97 (Z.of_nat n)).
Definition in_range (t : option local) : Prop :=
  match t with Some (For c) => 97 ≤ c ≤ 123 | Some (Stat c) | Some (Print c) => 97 ≤ c ≤ 122 | None => True end.

Record invW_with (tr : list (nat * Z)) (ts : list local) (s : sys) : Prop := {
  iw_W : W tr s;
  iw_two : (length ts ≤ 2)%nat;
  iw_tr : Forall (λ p, (p.1 < 2)%nat) tr;
  iw_range i : in_range (ts !! i);
  iw_done i : (i < 2)%nat → of_thread i tr = letters_of i (passed (ts !! i))
}.
Definition invW (ts : list local) (s : sys) : Prop := ∃ tr, invW_with tr ts s.

Lemma letters_of_S i n :
  letters_of i (S n) = letters_of i n ++ (if decide ((97 + Z.of_nat n) mod 2 = Z.of_nat i) then [97 + Z.of_nat n] else []).
Proof.
  unfold letters_of. rewrite Nat2Z.inj_succ, <- Z.add_1_r, seqZ_app by lia. simpl.
  rewrite filter_app. f_equal.
Qed.

Lemma letters_of_length i n : (length (letters_of i n) ≤ n)%nat.
Proof. unfold letters_of. etrans; [apply length_filter|]. rewrite length_seqZ. lia. Qed.

Lemma passed_le t : in_range t → (passed t ≤ 26)%nat.
Proof. destruct t as [[]|]; simpl; lia. Qed.

(** Three actions for each letter left. *)
Definition weightW (t : option local) : nat :=
  match t with
  | Some (For c) => 3 * Z.to_nat (123 - c)
  | Some (Stat c) => 3 * Z.to_nat (123 - c) - 1
  | Some (Print c) => 3 * Z.to_nat (123 - c) - 2
  | None => 78
  end.
Definition workW (ts : list local) (s : sys) : nat := weightW (ts !! 0%nat) + weightW (ts !! 1%nat).

Lemma workW_insert ts i t t' s s' :
  ts !! i = Some t → (length ts ≤ 2)%nat → (weightW (Some t') < weightW (Some t))%nat →
  (workW (<[i := t']> ts) s' < workW ts s)%nat.
Proof.
  intros Hi H2 Hlt. pose proof (lookup_lt_Some _ _ _ Hi). unfold workW.
  destruct (lookup_two _ _ _ Hi H2) as [->| ->]; rewrite list_lookup_insert_eq, list_lookup_insert_ne, Hi by done; lia.
Qed.

(** A thread goes on, writing [d]. *)
Lemma invW_move tr ts s s' i t t' d :
  invW_with tr ts s → ts !! i = Some t → W (tr ++ d) s' → Forall (λ p, p.1 = i) d → in_range (Some t') →
  letters_of i (passed (Some t')) = letters_of i (passed (Some t)) ++ d.*2 →
  (weightW (Some t') < weightW (Some t))%nat →
  invW (<[i := t']> ts) s' ∧ (workW (<[i := t']> ts) s' < workW ts s)%nat.
Proof.
  intros [HW H2 Htr Hr Hd] Hi HW' Hdi Ht' Hl Hlt. pose proof (lookup_lt_Some _ _ _ Hi) as Hlen.
  split; [|by eapply workW_insert]. exists (tr ++ d). split; [done| | | |].
  - by rewrite length_insert.
  - apply Forall_app. split; [done|]. eapply Forall_impl; [done|]. simpl. lia.
  - intros j. destruct (decide (i = j)) as [<-|Hne]; [by rewrite list_lookup_insert_eq|].
    by rewrite list_lookup_insert_ne.
  - intros j Hj. assert (of_thread j (tr ++ d) = of_thread j tr ++ (if decide (i = j) then d.*2 else [])) as ->.
    { clear -Hdi. unfold of_thread. rewrite filter_app, fmap_app. f_equal.
      destruct (decide (i = j)); induction Hdi as [|[k x] d Hk _ IH]; simpl in *; [done| |done|];
        rewrite filter_cons; simpl; subst k; [rewrite decide_True by done|by rewrite decide_False].
      simpl. f_equal. exact IH. }
    rewrite Hd by done. case_decide as Hne.
    + subst j. by rewrite list_lookup_insert_eq, Hi, Hl by done.
    + by rewrite list_lookup_insert_ne, app_nil_r.
Qed.

Lemma invW_thread i ts t m s :
  invW ts s → ts !! i = Some t → lnext i t = Some m →
  ∃ t' s', m s = Ok (t', s') ∧ invW (<[i := t']> ts) s' ∧ (workW (<[i := t']> ts) s' < workW ts s)%nat.
Proof.
  intros [tr H] Hi Hm. pose proof (iw_range _ _ _ H i) as Hr. rewrite Hi in Hr.
  pose proof (lookup_two _ _ _ Hi (iw_two _ _ _ H)) as Hi01. assert (i < 2)%nat as Hi2 by (destruct Hi01; lia). clear Hi01.
  destruct t as [c|c|c]; simpl in Hm, Hr.
  - destruct (decide (c <= 122)) as [Hc|]; [|done]. injection Hm as <-.
    pose proof (letters_of_S i (Z.to_nat (c - 97))) as HS. replace (97 + Z.of_nat (Z.to_nat (c - 97))) with c in HS by lia.
    replace (S (Z.to_nat (c - 97))) with (Z.to_nat (c - 96)) in HS by lia. case_decide as Hp.
    + destruct (W_put tr s i c (iw_W _ _ _ H) Hi2) as (s' & Hput & HW').
      { rewrite (iw_done _ _ _ H i Hi2), Hi. etrans; [apply letters_of_length|]. by apply (passed_le (Some (For c))). }
      exists (Stat c), s'. unfold mbind, prog_bind. rewrite Hput. split; [done|].
      eapply (invW_move tr ts s s' i _ _ [(i, c)]); try done; [by apply Forall_singleton|simpl; lia..].
    + exists (For (c + 1)), s. split; [done|]. rewrite app_nil_r in HS.
      eapply (invW_move tr ts s s i _ _ []); try done; [rewrite app_nil_r; apply H|simpl; lia| |simpl; lia].
      simpl. replace (c + 1 - 97) with (c - 96) by lia. by rewrite app_nil_r.
  - injection Hm as <-. destruct (W_stat tr s (iw_W _ _ _ H)) as (s' & Hst & HW').
    exists (Print c), s'. unfold mbind, prog_bind. rewrite Hst. split; [done|].
    eapply (invW_move tr ts s s' i _ _ []); try done; [by rewrite app_nil_r|by rewrite app_nil_r|simpl; lia].
  - injection Hm as <-. eexists _, _. split; [done|].
    eapply (invW_move tr ts s _ i _ _ []); try done; [rewrite app_nil_r; apply W_emit, H|simpl; lia| |simpl; lia].
    simpl. replace (c + 1 - 97) with (c - 96) by lia. by rewrite app_nil_r.
Qed.

Lemma invW_create ts s :
  (length ts < 2)%nat → invW ts s → invW (ts ++ [For 97]) s ∧ (workW (ts ++ [For 97]) s ≤ workW ts s)%nat.
Proof.
  intros Hlt [tr H]. pose proof (lookup_snoc_other ts (For 97)) as Hx. split.
  - exists tr. split; try (by destruct H).
    + rewrite length_app. simpl. lia.
    + intros j. destruct ((ts ++ [For 97]) !! j) as [t|] eqn:E; [|done].
      apply lookup_snoc_Some in E as [[_ E]|[_ <-]]; [|done].
      pose proof (iw_range _ _ _ H j) as Hr. by rewrite E in Hr.
    + intros j Hj. by rewrite (Hx _ passed), (iw_done _ _ _ H).
  - unfold workW. by rewrite !(Hx _ weightW).
Qed.

Lemma invW_at_end ts s :
  invW ts s → all_ended lnext ts →
  ∃ tr, W tr s ∧ Forall (λ p, (p.1 < 2)%nat) tr ∧ ∀ i, (i < 2)%nat → of_thread i tr = letters_of i 26.
Proof.
  intros [tr H] [Hlen Hend]. exists tr. split; [by destruct H|]. split; [by destruct H|]. intros i Hi.
  destruct (lookup_lt_is_Some_2 ts i) as [t Ht]; [lia|]. pose proof (Hend i t Ht) as Hn.
  rewrite (iw_done _ _ _ H i Hi), Ht. pose proof (iw_range _ _ _ H i) as Hr. rewrite Ht in Hr.
  destruct t as [c|c|c]; simpl in *; [|done|done]. destruct (decide (c <= 122)); [done|].
  by replace c with 123 by lia.
Qed.

(** All about the runs of such a program. *)
Lemma letters_run s0 :
  W [] s0 →
  (∀ n c, nsteps (Pthread.step (λ _, For 97) lnext finish) n (initial s0) c → (n ≤ 162)%nat) ∧
  ∀ c, reachable (λ _, For 97) lnext finish s0 c →
    (ended c ∨ ∃ c', Pthread.step (λ _, For 97) lnext finish c c') ∧
    match c with
    | Crash _ => False
    | Run (Exit 0) _ s' => ∃ tr s, W tr s ∧ finish s = Ok (tt, s') ∧ Forall (λ p, (p.1 < 2)%nat) tr ∧
        ∀ i, (i < 2)%nat → of_thread i tr = letters_of i 26
    | Run (Exit code) _ _ => code = 1
    | Run _ _ _ => True
    end.
Proof.
  intros H0. destruct (workers_run (λ _, For 97) lnext finish invW workW s0) as [Hbound Hruns].
  { exists []. split; [done|simpl; lia|done|done|by intros [|i]]. }
  { intros ts s Hlt HI. by apply invW_create. }
  { intros i ts t m s HI Hi Hm. by apply (invW_thread i ts t m s). }
  { intros ts s [tr HI]. apply (W_finish tr). by destruct HI. }
  split; [intros n c Hc%Hbound; unfold workW in Hc; simpl in Hc; lia|].
  intros c Hc%Hruns. destruct Hc as [Hp Hc]. split; [exact Hp|].
  destruct c as [[i|i|code] ts s|f']; [done|done| |done].
  destruct Hc as [-> [->|(-> & ts' & s' & HI & Hend & Hfin)]]; [done|].
  destruct (invW_at_end ts' s' HI Hend) as (tr & HW & Htr & Hl). by exists tr, s'.
Qed.
End LettersLoop.

Lemma letters_even : letters_of 0 26 = even_letters.
Proof. reflexivity. Qed.
Lemma letters_odd : letters_of 1 26 = odd_letters.
Proof. reflexivity. Qed.

(** Every letter once, those of each thread in order. *)
Lemma letters_interleaved tr :
  Forall (λ p, (p.1 < 2)%nat) tr → (∀ i, (i < 2)%nat → of_thread i tr = letters_of i 26) →
  tr.*2 ≡ₚ letters ∧ filter (λ c, c ∈ even_letters) tr.*2 = even_letters ∧
  filter (λ c, c ∈ odd_letters) tr.*2 = odd_letters.
Proof.
  intros Htr Hl.
  assert (∀ i x, (i, x) ∈ tr → (i < 2)%nat ∧ x ∈ letters_of i 26) as Hin.
  { intros i x Hx. assert (i < 2)%nat as Hi by (by apply (proj1 (Forall_forall _ tr) Htr (i, x))). split; [done|].
    rewrite <- Hl by done. apply list_elem_of_fmap. exists (i, x). split; [done|]. by apply list_elem_of_filter. }
  assert (∀ i (even : list Z), (i < 2)%nat → letters_of i 26 = even →
    (∀ j x, (j < 2)%nat → x ∈ letters_of j 26 → x ∈ even ↔ j = i) → filter (λ c, c ∈ even) tr.*2 = even) as Hf.
  { intros i even Hi <- Hdis. trans (of_thread i tr); [|by apply Hl]. clear Htr Hl.
    induction tr as [|[j x] tr IH]; [done|]. destruct (Hin j x) as [Hj Hx]; [set_solver|].
    unfold of_thread in *. cbn [fmap list_fmap]. rewrite !filter_cons. cbn [fst snd].
    destruct (decide (j = i)) as [->|Hne].
    - rewrite decide_True by (by apply (Hdis i)). cbn [fmap list_fmap snd]. f_equal. apply IH. intros k y Hk. apply Hin. set_solver.
    - rewrite decide_False by (by rewrite (Hdis j)). apply IH. intros k y Hk. apply Hin. set_solver. }
  assert (∀ j x, (j < 2)%nat → x ∈ letters_of j 26 → x mod 2 = Z.of_nat j) as Hpar.
  { intros j x _ [Hm _]%list_elem_of_filter. done. }
  assert (∀ i j x, (i < 2)%nat → (j < 2)%nat → x ∈ letters_of j 26 → x ∈ letters_of i 26 ↔ j = i) as Hdis.
  { intros i j x Hi Hj Hx. split; [|by intros ->]. intros Hx'. pose proof (Hpar j x Hj Hx). pose proof (Hpar i x Hi Hx'). lia. }
  split; [|rewrite <- letters_even, <- letters_odd; split; [apply (Hf 0%nat)|apply (Hf 1%nat)]].
  2, 5: lia. 2, 4: done. 2, 3: intros j x Hj Hx; apply Hdis; [lia|done..].
  rewrite (of_two_threads tr Htr), !Hl by lia. decided.
Qed.

(** Whatever the order in which the two threads of 2_1_thread.c run, the program
    never faults, is never stuck, and ends within 162 steps; unless a thread could
    not be created, the file then has its old contents and behind them every letter
    once, those of each thread in alphabetical order. *)
Theorem prog2_1_thread_appends s ino fd s0 :
  names s !! q = Some ino → Prog2_1Thread.init s = Ok (fd, s0) →
  (∀ n c, nsteps (Pthread.step (λ _, Prog2_1Thread.For 97) (Prog2_1Thread.thread_start (pick fd)) (Prog2_1Thread.finish fd)) n
      (initial s0) c → (n ≤ 162)%nat) ∧
  ∀ c, Prog2_1Thread.runs fd s0 c →
    (ended c ∨ ∃ c', Pthread.step (λ _, Prog2_1Thread.For 97) (Prog2_1Thread.thread_start (pick fd)) (Prog2_1Thread.finish fd) c c') ∧
    match c with
    | Crash _ => False
    | Run (Exit 0) _ s' => ∃ w,
        contents s' ino = contents s ino ++ w ∧ w ≡ₚ letters ∧
        filter (λ c, c ∈ even_letters) w = even_letters ∧ filter (λ c, c ∈ odd_letters) w = odd_letters
    | Run (Exit code) _ _ => code = 1
    | Run _ _ _ => True
    end.
Proof.
  intros Hn Hinit. unfold Prog2_1Thread.init in Hinit. rewrite (open_twice _ ino) in Hinit by done.
  injection Hinit as <- <-. set (fd := (new_fd (fds s), second_fd ino O_RDWR_APPEND s)).
  pose proof (second_fd_ne ino O_RDWR_APPEND s) as Hne.
  destruct (letters_run (λ i c, _ ← write (pick fd i) [c]; mret tt) Prog2_1Thread.show (Prog2_1Thread.finish fd)
    (λ tr s1, appending fd.1 fd.2 ino (contents s ino ++ tr.*2) s1)) with (s0 := two_files ino O_RDWR_APPEND s)
    as [Hbound Hruns].
  { intros tr s1 i c Hs1 Hi _. destruct (appending_write _ _ _ _ _ (pick fd i) [c] Hs1) as (n & s2 & Hw & Hs2 & _).
    { destruct i as [|]; auto. }
    exists s2. unfold mbind, prog_bind. rewrite Hw. split; [done|]. by rewrite fmap_app, (assoc app). }
  { intros tr s1 []. unfold stat, mbind, prog_bind, get_st. rewrite ap_name0. by eexists. }
  { by intros tr s1 d []. }
  { intros tr s1 _. by eexists. }
  { rewrite app_nil_r. unfold two_files. split; simpl; [done|done|done| |].
    - exists 0%nat. by rewrite lookup_insert_ne, lookup_insert_eq.
    - exists 0%nat. by rewrite lookup_insert_eq. }
  split; [exact Hbound|]. intros c Hc%Hruns. destruct Hc as [Hp Hc]. split; [exact Hp|].
  destruct c as [[i|i|[|code|code]] ts s1|f']; try done.
  destruct Hc as (tr & s2 & [_ _ Hcont _ _] & [= <-] & Htr & Hl). exists (tr.*2). split; [exact Hcont|].
  by apply letters_interleaved.
Qed.

(** Opening the two streams of 3_thread.c. *)
Lemma prog3_thread_init s :
  ∃ ino f fd s0, Prog3Thread.init s = Ok ((Some f.1, Some f.2), s0) ∧
    writing f fd (false, true) ino ([], []) [] s0.
Proof.
  destruct (fopen_w s) as (ino & s1 & H1 & Hn1 & _ & Hc1 & Hfd1 & Hst1 & Ho1).
  unfold Prog3Thread.init, mbind, prog_bind. rewrite H1. unfold fopen, mbind, prog_bind.
  rewrite (open_existing _ _ ino) by done. erewrite fdopen_open by (simpl; by rewrite lookup_insert_eq).
  exists ino, (length (streams s), length (streams s1)), (new_fd (fds s), new_fd (fds s1)). eexists.
  split; [done|]. by apply (writing_start s s1).
Qed.

(** Closing them. *)
Lemma prog3_thread_finish f fd ino b s :
  writing f fd (false, true) ino b [] s →
  ∃ s', Prog3Thread.finish (Some f.1, Some f.2) s = Ok (tt, s') ∧ names s' !! q = Some ino ∧
    contents s' ino = b.1 ++ b.2.
Proof.
  intros Hs. destruct (writing_close _ _ _ _ _ _ _ Hs) as (s1 & H1 & _ & Hs1).
  unfold Prog3Thread.finish, mbind, prog_bind. cbn [fst snd]. rewrite H1.
  unfold stat at 1, mbind, prog_bind, get_st at 1. rewrite (hc_name _ _ _ _ _ _ _ Hs1). cbn [modify get_st write_stdout].
  unfold modify, write_stdout, modify. cbn beta iota. set (s2 := emit _ _).
  assert (half_closed f.2 fd.2 true ino b.2 (overwrite [] 0 b.1) s2) as Hs2 by (destruct Hs1; by split).
  destruct (half_closed_close _ _ _ _ _ _ _ Hs2) as (s3 & H3 & _ & Hn3 & Hc3). rewrite H3.
  unfold stat, mbind, prog_bind, get_st. rewrite Hn3. unfold modify. eexists. split; [done|].
  split; [done|]. change (contents s3 ino = b.1 ++ b.2). rewrite Hc3.
  replace (overwrite [] 0 b.1) with b.1 by (by rewrite overwrite_start, drop_nil, app_nil_r).
  apply overwrite_end.
Qed.

(** C9: whatever the order in which the two threads of 3_thread.c run, the program
    never faults, is never stuck, and ends within 162 steps; unless a thread could
    not be created, the file then holds the letters of the first thread followed by
    those of the second: opening the second stream for appending loses nothing. *)
Theorem prog3_thread_keeps_letters s fs s0 :
  Prog3Thread.init s = Ok (fs, s0) →
  (∀ n c, nsteps (Pthread.step (λ _, Prog2_1Thread.For 97) (Prog3Thread.thread_start (pick fs)) (Prog3Thread.finish fs)) n
      (initial s0) c → (n ≤ 162)%nat) ∧
  ∀ c, Prog3Thread.runs fs s0 c →
    (ended c ∨ ∃ c', Pthread.step (λ _, Prog2_1Thread.For 97) (Prog3Thread.thread_start (pick fs)) (Prog3Thread.finish fs) c c') ∧
    match c with
    | Crash _ => False
    | Run (Exit 0) _ s' => ∃ ino, names s' !! q = Some ino ∧ contents s' ino = even_letters ++ odd_letters
    | Run (Exit code) _ _ => code = 1
    | Run _ _ _ => True
    end.
Proof.
  intros Hinit. destruct (prog3_thread_init s) as (ino & f & fd & s1 & Hi & Hw). rewrite Hi in Hinit. injection Hinit as <- <-.
  assert (∀ i, pick (Some f.1, Some f.2) i = Some (pick f i)) as Hpick by (by intros [|i]).
  destruct (letters_run (λ i c, fprintf_c (pick (Some f.1, Some f.2) i) c) (Prog3Thread.show_as "write")
    (Prog3Thread.finish (Some f.1, Some f.2))
    (λ tr s1, writing f fd (false, true) ino (of_thread 0 tr, of_thread 1 tr) [] s1)) with (s0 := s1)
    as [Hbound Hruns].
  { intros tr s2 i c Hs2 Hi2 Hlen. rewrite Hpick.
    destruct (writing_printf _ _ _ _ _ _ _ i c Hs2 Hi2) as (s3 & Hp & Hs3 & _).
    { unfold BUFSIZ. destruct i as [|[|]]; simpl; lia. }
    exists s3. split; [done|]. rewrite !of_thread_snoc. destruct i as [|[|]]; simpl in *; [| |lia].
    - by rewrite app_nil_r.
    - by rewrite app_nil_r. }
  { intros tr s2 []. unfold stat, mbind, prog_bind, get_st. rewrite wr_name0. by eexists. }
  { by intros tr s2 d []. }
  { intros tr s2 Hs2. destruct (prog3_thread_finish _ _ _ _ _ Hs2) as (s3 & H3 & _). by exists s3. }
  { done. }
  split; [exact Hbound|]. intros c Hc%Hruns. destruct Hc as [Hp Hc]. split; [exact Hp|].
  destruct c as [[i|i|[|code|code]] ts s2|f']; try done.
  destruct Hc as (tr & s3 & Hs3 & Hfin & Htr & Hl). destruct (prog3_thread_finish _ _ _ _ _ Hs3) as (s4 & H4 & Hn4 & Hc4).
  rewrite Hfin in H4. injection H4 as <-. exists ino. split; [done|]. rewrite Hc4. cbn [fst snd]. by rewrite !Hl by lia.
Qed.

Lemma prog2_1_thread_appends_witness :
  ∃ fd s0, Prog2_1Thread.init lab = Ok (fd, s0) ∧
    ∀ ts s', Prog2_1Thread.runs fd s0 (Run (Exit 0) ts s') →
      ∃ w, contents s' 2 = bytes "old" ++ w ∧ w ≡ₚ letters.
Proof.
  assert (∃ fd s0, Prog2_1Thread.init lab = Ok (fd, s0)) as (fd & s0 & Hinit) by (do 2 eexists; vm_compute; reflexivity).
  exists fd, s0. split; [exact Hinit|]. intros ts s' Hr.
  destruct (prog2_1_thread_appends lab 2 fd s0 eq_refl Hinit) as [_ H].
  destruct (H _ Hr) as [_ (w & Hc & Hp & _)]. exists w. split; [exact Hc|exact Hp].
Defined.

Lemma prog3_thread_keeps_letters_witness :
  ∃ fs s0, Prog3Thread.init lab = Ok (fs, s0) ∧
    ∀ ts s', Prog3Thread.runs fs s0 (Run (Exit 0) ts s') →
      ∃ ino, contents s' ino = bytes "bdfhjlnprtvxzacegikmoqsuwy".
Proof.
  assert (∃ fs s0, Prog3Thread.init lab = Ok (fs, s0)) as (fs & s0 & Hinit) by (do 2 eexists; vm_compute; reflexivity).
  exists fs, s0. split; [exact Hinit|]. intros ts s' Hr.
  destruct (prog3_thread_keeps_letters lab fs s0 Hinit) as [_ H].
  destruct (H _ Hr) as [_ (ino & _ & Hc)]. exists ino. rewrite Hc. reflexivity.
Defined.
