(* ===== verification/Unjoined.v ===== *)
(** * Programs that do not wait for their threads

    Programs with two threads whose [main] creates them, does a number of things while
    they run, and returns, which ends them wherever they are. *)

From S2P Require Import Prelude.
From stdpp Require Import options.
#[local] Set Default Proof Using "Type*".

Section Unjoined.
Context {T S : Type}.
(** How thread [i] starts, its next action, and what [main] does, one action after the
    other, once both threads have been created. *)
Context (start : nat → T) (next : nat → T → option (prog S T)) (after : list (prog S unit)).

Inductive main_pc := Create (i : nat) | After (k : nat) | Exit (code : Z).

(** When [main] returns, the process and its threads end. *)
Inductive config :=
  | Run (pc : main_pc) (ts : list T) (s : S)
  | Crash (f : fault).

Inductive step : config → config → Prop :=
  | step_create i ts s : (i < 2)%nat → step (Run (Create i) ts s) (Run (Create (i + 1)) (ts ++ [start i]) s)
  | step_create_fails i ts s : (i < 2)%nat → step (Run (Create i) ts s) (Run (Exit 1) [] s)
  | step_created ts s : step (Run (Create 2) ts s) (Run (After 0) ts s)
  | step_after k ts m s s' :
      after !! k = Some m → m s = Ok (tt, s') → step (Run (After k) ts s) (Run (After (k + 1)) ts s')
  | step_after_fault k ts m s f :
      after !! k = Some m → m s = Fault f → step (Run (After k) ts s) (Crash f)
  | step_return ts s : step (Run (After (length after)) ts s) (Run (Exit 0) [] s)
  | step_thread pc i ts t m s t' s' :
      ts !! i = Some t → next i t = Some m → m s = Ok (t', s') →
      step (Run pc ts s) (Run pc (<[i := t']> ts) s')
  | step_thread_fault pc i ts t m s f :
      ts !! i = Some t → next i t = Some m → m s = Fault f → step (Run pc ts s) (Crash f).

Definition initial (s : S) : config := Run (Create 0) [] s.
Definition reachable (s : S) (c : config) : Prop := rtc step (initial s) c.
End Unjoined.
Arguments config : clear implicits.
#[global] Arguments Run {T S} pc ts s.
#[global] Arguments Crash {T S} f.

(** ** Invariants *)

Section Invariant.
Context {T S : Type} (start : nat → T) (next : nat → T → option (prog S T)) (after : list (prog S unit)).
(** [I] holds until the end, and gives [Q] then. *)
Context (I : list T → S → Prop) (Q : S → Prop) (s0 : S).
Context (I_start : I [] s0)
  (I_create : ∀ ts s, I ts s → (length ts < 2)%nat → I (ts ++ [start (length ts)]) s)
  (I_exit : ∀ ts s, I ts s → Q s)
  (I_after : ∀ ts s k m, I ts s → after !! k = Some m → ∃ s', m s = Ok (tt, s') ∧ I ts s')
  (I_thread : ∀ ts s i t m, I ts s → ts !! i = Some t → next i t = Some m →
     ∃ t' s', m s = Ok (t', s') ∧ I (<[i := t']> ts) s').

Definition holds (c : config T S) : Prop :=
  match c with
  | Run (Create i) ts s => length ts = i ∧ I ts s
  | Run (After _) ts s => I ts s
  | Run (Exit _) ts s => ts = [] ∧ Q s
  | Crash _ => False
  end.

Lemma holds_step c c' : step start next after c c' → holds c → holds c'.
Proof.
  destruct 1 as [i ts s Hi|i ts s Hi|ts s|k ts m s s' Hk Hm|k ts m s f Hk Hm|ts s|pc i ts t m s t' s' Ht Hn Hm
    |pc i ts t m s f Ht Hn Hm]; simpl.
  - intros [Hl HI]. rewrite length_app. simpl. split; [lia|]. rewrite <- Hl. apply I_create; [done|lia].
  - intros [_ HI]. eauto.
  - by intros [_ HI].
  - intros HI. destruct (I_after _ _ _ _ HI Hk) as (s1 & Hs1 & HI1). rewrite Hm in Hs1. by injection Hs1 as <-.
  - intros HI. destruct (I_after _ _ _ _ HI Hk) as (s1 & Hs1 & HI1). congruence.
  - eauto.
  - intros Hc. destruct pc as [j|k|code]; [destruct Hc as [Hl Hc]| |by destruct Hc as [-> _]];
      destruct (I_thread _ _ _ _ _ Hc Ht Hn) as (t1 & s1 & Hs1 & HI1); rewrite Hm in Hs1; injection Hs1 as <- <-; [|done].
    by rewrite length_insert.
  - intros Hc. destruct pc as [j|k|code]; [destruct Hc as [Hl Hc]| |by destruct Hc as [-> _]];
      destruct (I_thread _ _ _ _ _ Hc Ht Hn) as (t1 & s1 & Hs1 & HI1); congruence.
Qed.

Lemma holds_reachable c : reachable start next after s0 c → holds c.
Proof.
  revert c. apply (rtc_ind_r holds); [done|]. intros c1 c2 _ Hs Hc. by eapply holds_step.
Qed.
End Invariant.

(** ** Schedules *)

Section Schedule.
Context {T S : Type} (start : nat → T) (next : nat → T → option (prog S T)) (after : list (prog S unit)).

Inductive move := Main | Thread (i : nat).

(** The step of [main] (whose threads can be created) or of a thread. *)
Definition exec (c : config T S) (m : move) : option (config T S) :=
  match c, m with
  | Run (Create i) ts s, Main =>
      if decide (i < 2)%nat then Some (Run (Create (i + 1)) (ts ++ [start i]) s)
      else if decide (i = 2%nat) then Some (Run (After 0) ts s) else None
  | Run (After k) ts s, Main =>
      match after !! k with
      | Some m => match m s with Ok (_, s') => Some (Run (After (k + 1)) ts s') | Fault f => Some (Crash f) end
      | None => if decide (k = length after) then Some (Run (Exit 0) [] s) else None
      end
  | Run pc ts s, Thread i =>
      t ← ts !! i; m ← next i t;
      match m s with Ok (t', s') => Some (Run pc (<[i := t']> ts) s') | Fault f => Some (Crash f) end
  | _, _ => None
  end.

Lemma exec_step c m c' : exec c m = Some c' → step start next after c c'.
Proof.
  destruct c as [pc ts s|f]; [|by destruct m]. destruct m as [|i].
  - destruct pc as [i|k|code]; simpl; [| |done].
    + case_decide; [intros [= <-]; by constructor|]. case_decide; [|done]. subst. intros [= <-]. constructor.
    + destruct (after !! k) as [m|] eqn:Hk.
      * destruct (m s) as [[[] s']|f] eqn:Hm; intros [= <-]; [by eapply step_after|by eapply step_after_fault].
      * case_decide; [|done]. subst. intros [= <-]. constructor.
  - assert (exec (Run pc ts s) (Thread i) = (t ← ts !! i; m ← next i t;
      match m s with Ok (t', s') => Some (Run pc (<[i := t']> ts) s') | Fault f => Some (Crash f) end)) as ->
      by (by destruct pc).
    intros (t & Ht & (m & Hn & Hm)%bind_Some)%bind_Some.
    destruct (m s) as [[t' s']|f] eqn:Hs; simplify_eq; [by eapply step_thread|by eapply step_thread_fault].
Qed.

Fixpoint execs (c : config T S) (ms : list move) : option (config T S) :=
  match ms with [] => Some c | m :: ms => c' ← exec c m; execs c' ms end.

Lemma execs_rtc c ms c' : execs c ms = Some c' → rtc (step start next after) c c'.
Proof.
  revert c. induction ms as [|m ms IH]; intros c Hc; simpl in Hc; [by simplify_eq|].
  apply bind_Some in Hc as (c1 & H1 & Hc). eapply rtc_l; [by eapply exec_step|by apply IH].
Qed.

Lemma execs_app c ms ms' : execs c (ms ++ ms') = c' ← execs c ms; execs c' ms'.
Proof.
  revert c. induction ms as [|m ms IH]; intros c; simpl; [done|].
  destruct (exec c m) as [c1|]; simpl; [apply IH|done].
Qed.
End Schedule.
