(* ===== verification/OpenFileLists.v ===== *)
(** * The listings of the report on 8/open_file (8/open_file/report/inc/lst)

    1.c, 2.c and 3.c are the programs of 8/open_file/src. The others differ from them:
    2_1.c and 2_1_thread.c open their file without O_APPEND, and 2_thread.c and
    2_1_thread.c do not wait for their threads before they close the files and
    return. *)

From S2P Require Import Prelude Posix OpenFile Unjoined.
From stdpp Require Import options.
#[local] Set Default Proof Using "Type*".
Local Open Scope Z_scope.

(** The access mode is not kept. *)
Definition O_RDWR : oflags := OFlags false false false.

(** ** 2_1.c *)
Module List2_1.
Definition main : prog sys Z :=
  fd1 ← open q O_RDWR;
  print_stat "open fd1 ";;
  fd2 ← open q O_RDWR;
  print_stat "open fd2 ";;
  Prog2_1.loop letters fd1 fd2;;
  close fd1;;
  print_stat "close fd1";;
  close fd2;;
  print_stat "close fd2";;
  mret 0.
End List2_1.

(** ** 2_thread.c *)
Module List2Thread.
(** The threads are those of the program. *)
Definition thread_start := Prog2Thread.thread_start.

(** The files are closed one after the other. *)
Definition after (fd : Z * Z) : list (prog sys unit) := [close fd.1; close fd.2].

Definition runs (fd : Z * Z) (s : sys) : config Prog2Thread.local sys → Prop :=
  reachable (λ _, Prog2Thread.Reading None) (thread_start (Prog1Thread.pick fd)) (after fd) s.
End List2Thread.

(** ** 2_1_thread.c *)
Module List2_1Thread.
Definition init : prog sys (Z * Z) :=
  fd0 ← open q O_RDWR; fd1 ← open q O_RDWR; mret (fd0, fd1).

(** The threads write and print as those of the program do. *)
Definition thread_start := Prog2_1Thread.thread_start.

Definition runs (fd : Z * Z) (s : sys) : config Prog2_1Thread.local sys → Prop :=
  reachable (λ _, Prog2_1Thread.For 97) (thread_start (Prog1Thread.pick fd))
    (List2Thread.after fd) s.
End List2_1Thread.
