(* ===== verification/OpenFileListsSpec.v ===== *)
(** * What the listings of the report on 8/open_file do

    Two descriptors with positions of their own in one file: what the writing programs
    leave in it, and what closing a file under a thread that reads it does. *)

From S2P Require Import Prelude Posix OpenFile OpenFileSpec OpenFileThreads OpenFileWrite.
From S2P Require Import Unjoined OpenFileLists.
From stdpp Require Import options.
#[local] Set Default Proof Using "Type*".
Local Open Scope Z_scope.

(** ** Two positions in one file *)

(** Open files with positions of their own in a file with the contents [c]. *)
Record positions (fd : Z * Z) (ino : Z) (p : nat * nat) (c : list Z) (s : sys) : Prop := {
  po_ne : fd.1 ≠ fd.2;
  po_name : names s !! q = Some ino;
  po_c : contents s ino = c;
  po_fst : fds s !! fd.1 = Some (OpenFile ino (Z.of_nat p.1) false);
  po_snd : fds s !! fd.2 = Some (OpenFile ino (Z.of_nat p.2) false)
}.

Lemma positions_write_fst fd ino p c s d :
  positions fd ino p c s →
  ∃ n s', write fd.1 d s = Ok (n, s') ∧
    positions fd ino ((p.1 + length d)%nat, p.2) (overwrite c p.1 d) s' ∧ out s' = out s.
Proof.
  intros [Hne Hn <- H1 H2]. eexists _, _. split; [by apply (write_ok _ ino p.1)|]. split; [|done].
  split; simpl; [done|done|apply contents_insert|by rewrite lookup_insert_eq|].
  by rewrite lookup_insert_ne.
Qed.

Lemma positions_write_snd fd ino p c s d :
  positions fd ino p c s →
  ∃ n s', write fd.2 d s = Ok (n, s') ∧
    positions fd ino (p.1, (p.2 + length d)%nat) (overwrite c p.2 d) s' ∧ out s' = out s.
Proof.
  intros [Hne Hn <- H1 H2]. eexists _, _. split; [by apply (write_ok _ ino p.2)|]. split; [|done].
  split; simpl; [done|done|apply contents_insert| |by rewrite lookup_insert_eq].
  by rewrite lookup_insert_ne.
Qed.

Lemma positions_stat fd ino p c s action :
  positions fd ino p c s →
  ∃ s', print_stat action s = Ok (tt, s') ∧ positions fd ino p c s' ∧
    out s' = out s ++ report action ino (length c).
Proof.
  intros [Hne Hn Hc H1 H2]. eexists. split; [by apply print_stat_ok|]. rewrite Hc. by repeat split.
Qed.

Lemma positions_open s ino :
  names s !! q = Some ino →
  positions (new_fd (fds s), second_fd ino O_RDWR s) ino (0%nat, 0%nat) (contents s ino) (two_files ino O_RDWR s).
Proof.
  intros Hn. pose proof (second_fd_ne ino O_RDWR s) as Hne. unfold two_files.
  split; simpl; [done|done|done| |by rewrite lookup_insert_eq].
  rewrite lookup_insert_ne by done. by rewrite lookup_insert_eq.
Qed.

(** One byte put over a prefix and what was behind it. *)
Lemma overwrite_behind (w old : list Z) x :
  overwrite (w ++ drop (length w) old) (length w) [x] = (w ++ [x]) ++ drop (S (length w)) old.
Proof.
  unfold overwrite. rewrite take_app_length, length_app.
  replace (length w - _)%nat with 0%nat by lia. simpl. rewrite <- (assoc app). simpl. do 2 f_equal.
  rewrite drop_app_ge, drop_drop by lia. f_equal. lia.
Qed.

(** .. and another byte put over that. *)
Lemma overwrite_again (w rest : list Z) x y :
  overwrite ((w ++ [x]) ++ rest) (length w) [y] = (w ++ [y]) ++ rest.
Proof.
  unfold overwrite. rewrite <- !(assoc app), take_app_length, !length_app.
  replace (length w - _)%nat with 0%nat by lia. simpl. f_equal. f_equal.
  rewrite drop_app_ge by lia. by replace (length w + 1 - length w)%nat with 1%nat by lia.
Qed.

(** The letters two by two. *)
Definition pairs : list (Z * Z) := (λ k, (97 + 2 * k, 98 + 2 * k)) <$> seqZ 0 13.

Definition sizes (ino : Z) (n k : nat) : list Z :=
  report "write    " ino (S k `max` n) ++ report "write    " ino (S k `max` n).

#[local] Arguments report : simpl never.
#[local] Arguments sizes : simpl never.

Lemma length_behind (w old : list Z) x :
  length ((w ++ [x]) ++ drop (S (length w)) old) = (S (length w) `max` length old)%nat.
Proof. rewrite !length_app, length_drop. simpl. lia. Qed.

Lemma list2_1_loop fd ino old ps w s :
  Forall (λ p, p.1 mod 2 ≠ 0 ∧ p.2 mod 2 = 0) ps →
  positions fd ino (length w, length w) (w ++ drop (length w) old) s →
  ∃ s', Prog2_1.loop (flat_map (λ p, [p.1; p.2]) ps) fd.1 fd.2 s = Ok (tt, s') ∧
    positions fd ino (length (w ++ ps.*2), length (w ++ ps.*2))
      ((w ++ ps.*2) ++ drop (length (w ++ ps.*2)) old) s' ∧
    out s' = out s ++ concat (sizes ino (length old) <$> seq (length w) (length ps)).
Proof.
  intros Hps. revert w s. induction Hps as [|[x y] ps [Hx Hy] _ IH]; intros w s Hs.
  { exists s. simpl. split; [done|]. by rewrite !app_nil_r. }
  cbn [fst snd] in Hx, Hy. cbn [flat_map app Prog2_1.loop fst snd].
  rewrite (decide_True (P := x mod 2 ≠ 0)), (decide_False (P := y mod 2 ≠ 0)) by (done || lia). unfold mbind, prog_bind.
  destruct (positions_write_fst _ _ _ _ _ [x] Hs) as (n1 & s1 & -> & Hs1 & Ho1). cbn [fst snd] in Hs1.
  rewrite overwrite_behind in Hs1.
  destruct (positions_stat _ _ _ _ _ "write    " Hs1) as (s2 & -> & Hs2 & Ho2).
  destruct (positions_write_snd _ _ _ _ _ [y] Hs2) as (n3 & s3 & -> & Hs3 & Ho3). cbn [fst snd] in Hs3.
  rewrite overwrite_again in Hs3.
  destruct (positions_stat _ _ _ _ _ "write    " Hs3) as (s4 & -> & Hs4 & Ho4).
  destruct (IH (w ++ [y]) s4) as (s5 & Hl & Hs5 & Ho5).
  { rewrite !length_app in *. simpl in *. by replace (S (length w)) with (length w + 1)%nat in Hs4 by lia. }
  exists s5. split; [done|]. split; [by replace ((w ++ [y]) ++ ps.*2) with (w ++ y :: ps.*2) in Hs5 by (by rewrite <- (assoc app))|].
  rewrite Ho5, Ho4, Ho3, Ho2, Ho1, !length_behind, length_app, Nat.add_1_r.
  cbn [length seq fmap list_fmap concat]. 
  change (sizes ino (length old) (length w)) with
    (report "write    " ino (S (length w) `max` length old) ++ report "write    " ino (S (length w) `max` length old)).
  by rewrite <- !(assoc app).
Qed.

(** The listing 2_1.c loses every other letter: each pair of letters goes to one
    position of the file, so it holds the letters written through the second
    descriptor over the old contents, of which whatever lies behind them stays. *)
Theorem list2_1_loses_letters s ino :
  names s !! q = Some ino →
  let n := length (contents s ino) in
  ∃ s', List2_1.main s = Ok (0, s') ∧ contents s' ino = even_letters ++ drop 13 (contents s ino) ∧
    out s' = out s ++ report "open fd1 " ino n ++ report "open fd2 " ino n ++
      concat (sizes ino n <$> seq 0 13) ++
      report "close fd1" ino (13 `max` n) ++ report "close fd2" ino (13 `max` n).
Proof.
  intros Hn n. unfold List2_1.main, mbind, prog_bind. rewrite (open_existing _ _ ino) by done.
  rewrite (print_stat_ok _ ino) by done. set (s1 := emit _ _).
  rewrite (open_existing _ _ ino) by done. set (s2 := set_fds _ s1).
  rewrite (print_stat_ok _ ino) by done. set (s3 := emit _ _).
  set (fd := (new_fd (fds s), new_fd (fds s1))).
  assert (positions fd ino (0%nat, 0%nat) (contents s ino) s3) as Hs3.
  { destruct (positions_open s ino Hn). by split. }
  destruct (list2_1_loop fd ino (contents s ino) pairs [] s3) as (s4 & Hl & [_ Hn4 Hc4 _ _] & Ho4);
    [by decided|done|].
  change (flat_map _ pairs) with letters in Hl. cbn [fd fst snd] in Hl. rewrite Hl.
  change (([] ++ pairs.*2)) with even_letters in Hc4. simpl length in Hc4.
  cbn beta iota. unfold close at 1, modify at 1. rewrite (print_stat_ok _ ino) by done.
  unfold close at 1, modify at 1. rewrite (print_stat_ok _ ino) by done.
  eexists. split; [done|]. split; [exact Hc4|]. cbn [out emit set_statbuf set_fds].
  unfold contents. cbn [inodes emit set_statbuf set_fds]. fold (contents s4 ino).
  rewrite Ho4, Hc4, length_app, length_drop. subst s3 s2 s1. unfold contents. cbn [inodes out emit set_statbuf set_fds].
  fold (contents s ino). fold n. replace (length even_letters + (n - 13))%nat with (13 `max` n)%nat by (simpl; lia).
  rewrite <- !(assoc app). done.
Qed.

(** ** 2_1_thread.c *)

Section Scattered.
Import Prog1Thread Prog2_1Thread.
Context (fd : Z * Z) (ino : Z) (old : list Z).

(** The first letter of a thread. *)
Definition base (i : nat) : Z := 98 - Z.of_nat i.

(** The first [p.1] letters of thread 0 and the first [p.2] letters of thread 1 have been
    put over the old contents, in some order; either descriptor may be closed. *)
Record scattered (p : nat * nat) (s : sys) : Prop := {
  sc_ne : fd.1 ≠ fd.2;
  sc_name : names s !! q = Some ino;
  sc_fd i : (i < 2)%nat → fds s !! pick fd i = None ∨
    fds s !! pick fd i = Some (OpenFile ino (Z.of_nat (pick p i)) false);
  sc_bound i : (i < 2)%nat → (pick p i ≤ 13)%nat;
  sc_length : length (contents s ino) = (length old `max` (p.1 `max` p.2))%nat;
  sc_byte k x : contents s ino !! k = Some x →
    (∃ i, (i < 2)%nat ∧ (k < pick p i)%nat ∧ x = base i + 2 * Z.of_nat k) ∨
    ((p.1 `max` p.2 ≤ k)%nat ∧ old !! k = Some x)
}.

(** Where a thread is, by the letters it has written; it misses none while its
    descriptor is open. *)
Definition place (i : nat) (p : nat) (open : bool) (t : local) : Prop :=
  let b := base i + 2 * Z.of_nat p in
  match t with
  | For c => 97 ≤ c ≤ 123 ∧ b ≤ c + 1 ∧ (open → c ≤ b)
  | Stat c | Print c => 97 ≤ c ≤ 122 ∧ b ≤ c + 2 ∧ (open → b = c + 2)
  end.

Definition is_open (i : nat) (s : sys) : bool := bool_decide (is_Some (fds s !! pick fd i)).

Definition invS (ts : list local) (s : sys) : Prop :=
  (length ts ≤ 2)%nat ∧ ∃ p, scattered p s ∧ ∀ i, (i < 2)%nat →
    place i (pick p i) (is_open i s) (default (For 97) (ts !! i)).

Definition bump (i : nat) (p : nat * nat) : nat * nat := match i with O => (S p.1, p.2) | _ => (p.1, S p.2) end.

(** Steps that leave the file alone. *)
Lemma scattered_same p s s' :
  scattered p s → names s' = names s → inodes s' = inodes s →
  (∀ i, (i < 2)%nat → fds s' !! pick fd i = None ∨ fds s' !! pick fd i = fds s !! pick fd i) →
  scattered p s'.
Proof.
  intros [Hne Hn Hfd Hb Hl Hx] En Ei Ef. unfold contents in *.
  split; unfold contents; rewrite ?En, ?Ei; try done. intros i Hi. destruct (Ef i Hi) as [->| ->]; auto.
Qed.

Lemma place_closed i p (o o' : bool) t : place i p o t → (o' → o) → place i p o' t.
Proof. destruct t; simpl; intros (? & ? & Ho) Hoo; (split; [done|]); (split; [done|]); intros Hop; by apply Ho, Hoo. Qed.

(** A thread moves without writing, or main closes a file. *)
Lemma invS_same ts s ts' s' :
  invS ts s → names s' = names s → inodes s' = inodes s →
  (∀ i, (i < 2)%nat → fds s' !! pick fd i = None ∨ fds s' !! pick fd i = fds s !! pick fd i) →
  (length ts' ≤ 2)%nat →
  (∀ i p o, (i < 2)%nat → (o = true ↔ is_Some (fds s !! pick fd i)) → place i p o (default (For 97) (ts !! i)) →
     place i p o (default (For 97) (ts' !! i))) →
  invS ts' s'.
Proof.
  intros [Hl (p & Hs & Hp)] En Ei Ef Hl' Hts. split; [done|]. exists p.
  split; [by eapply scattered_same|]. intros i Hi. specialize (Hp i Hi).
  apply (Hts i _ _ Hi) in Hp; [|apply bool_decide_eq_true]. eapply place_closed; [exact Hp|].
  unfold is_open. rewrite !bool_decide_spec. destruct (Ef i Hi) as [->| ->]; [by intros []|done].
Qed.

(** A letter goes to the position of its thread. *)
Lemma lookup_overwrite (c : list Z) p x k y :
  (p ≤ length c)%nat → overwrite c p [x] !! k = Some y → (k = p ∧ y = x) ∨ (k ≠ p ∧ c !! k = Some y).
Proof.
  intros Hp. unfold overwrite. replace (p - length c)%nat with 0%nat by lia. simpl.
  destruct (decide (k < p)%nat) as [Hk|Hk].
  - rewrite lookup_app_l, lookup_take_lt by (rewrite ?length_take; lia). right. split; [lia|done].
  - rewrite lookup_app_r by (rewrite length_take; lia). rewrite length_take, Nat.min_l by lia.
    destruct (decide (k = p)) as [->|Hne]; [rewrite Nat.sub_diag; simpl; intros [= ->]; by left|].
    right. split; [done|]. destruct (k - p)%nat as [|j] eqn:Ej; [lia|].
    match goal with H : _ = Some y |- _ => simpl in H; rewrite lookup_drop in H end.
    by replace k with (p + 1 + j)%nat by lia.
Qed.

Lemma length_overwrite (c : list Z) p x : (p ≤ length c)%nat → length (overwrite c p [x]) = (S p `max` length c)%nat.
Proof.
  intros Hp. unfold overwrite. rewrite !length_app, length_take, length_replicate, length_drop. simpl. lia.
Qed.

Lemma scattered_write p s i :
  scattered p s → (i < 2)%nat → (pick p i < 13)%nat →
  fds s !! pick fd i = Some (OpenFile ino (Z.of_nat (pick p i)) false) →
  ∃ n s', write (pick fd i) [base i + 2 * Z.of_nat (pick p i)] s = Ok (n, s') ∧ scattered (bump i p) s' ∧
    ∀ j, (j < 2)%nat → is_Some (fds s' !! pick fd j) ↔ is_Some (fds s !! pick fd j).
Proof.
  intros [Hne Hn Hfd Hb Hl Hx] Hi Hlt Hopen.
  assert (pick p i ≤ length (contents s ino))%nat as Hp by (rewrite Hl; destruct i as [|[|]]; simpl; lia).
  eexists _, _. split; [by apply (write_ok _ ino (pick p i))|]. split.
  - split; simpl; [done|done| | | |].
    + intros j Hj. destruct (decide (i = j)) as [<-|Hij].
      * rewrite lookup_insert_eq. right. do 2 f_equal. destruct i as [|[|]]; simpl; lia.
      * rewrite lookup_insert_ne by (by apply pick_ne). destruct (Hfd j Hj) as [->| ->]; [by left|]. right.
        destruct i as [|[|]], j as [|[|]]; simpl; done || lia.
    + intros j Hj. specialize (Hb j Hj). destruct i as [|[|]], j as [|[|]]; simpl in *; lia.
    + unfold contents at 1. simpl. rewrite lookup_insert_eq. simpl. rewrite length_overwrite, Hl by done.
      destruct i as [|[|]]; simpl in *; lia.
    + intros k x. unfold contents at 1. simpl. rewrite lookup_insert_eq. simpl.
      intros [[-> ->]|[Hk Hc]]%lookup_overwrite; [| |done].
      * left. exists i. split; [done|]. split; [destruct i as [|[|]]; simpl; lia|done].
      * apply Hx in Hc as [(j & Hj & Hkj & ->)|[Hkm Ho]].
        -- left. exists j. split; [done|]. split; [destruct i as [|[|]], j as [|[|]]; simpl in *; lia|done].
        -- right. split; [destruct i as [|[|]]; simpl in *; lia|done].
  - intros j Hj. simpl. destruct (decide (pick fd i = pick fd j)) as [<-|].
    + rewrite lookup_insert_eq, Hopen. split; by eexists.
    + by rewrite lookup_insert_ne.
Qed.

Lemma default_insert (ts : list local) i j t t' :
  ts !! i = Some t → default (For 97) (<[i := t']> ts !! j) = if decide (i = j) then t' else default (For 97) (ts !! j).
Proof.
  intros Hi. case_decide as E; [subst j; by rewrite list_lookup_insert_eq by (by eapply lookup_lt_Some)|].
  by rewrite list_lookup_insert_ne.
Qed.

(** A thread goes on without touching the file. *)
Lemma invS_quiet ts s i t t' s' :
  invS ts s → ts !! i = Some t → names s' = names s → inodes s' = inodes s → fds s' = fds s →
  (∀ p o, (o = true ↔ is_Some (fds s !! pick fd i)) → place i p o t → place i p o t') →
  invS (<[i := t']> ts) s'.
Proof.
  intros HI Hi En Ei Ef Hp. eapply invS_same; [exact HI|done|done| | |].
  - intros j _. right. by rewrite Ef.
  - rewrite length_insert. by destruct HI.
  - intros j p o Hj Ho. rewrite (default_insert _ _ _ t) by done. case_decide as E; [|done].
    subst j. rewrite Hi. by apply Hp.
Qed.

Lemma invS_write ts s i c :
  invS ts s → ts !! i = Some (For c) → c ≤ 122 → c mod 2 = Z.of_nat i → is_Some (fds s !! pick fd i) →
  ∃ n s', write (pick fd i) [c] s = Ok (n, s') ∧ invS (<[i := Stat c]> ts) s'.
Proof.
  intros [Hl (p & Hs & Hp)] Hi Hc Hm Ho. assert (i < 2)%nat as Hi2 by (apply lookup_lt_Some in Hi; lia).
  assert (place i (pick p i) (is_open i s) (For c)) as (Hr & Hb & Ho')
    by (specialize (Hp i Hi2); by rewrite Hi in Hp).
  unfold is_open in Ho'. rewrite bool_decide_spec in Ho'. specialize (Ho' Ho).
  assert (c = base i + 2 * Z.of_nat (pick p i)) as Ec
    by (unfold base in *; pose proof (Z.div_mod c 2); lia).
  destruct (scattered_write p s i Hs Hi2) as (n & s' & Hw & Hs' & Hfds).
  { unfold base in Ec. lia. }
  { destruct (sc_fd _ _ Hs i Hi2) as [E|E]; [rewrite E in Ho; by destruct Ho|done]. }
  rewrite <- Ec in Hw. exists n, s'. split; [done|]. split; [by rewrite length_insert|].
  exists (bump i p). split; [done|]. intros j Hj. rewrite (default_insert _ _ _ (For c)) by done. unfold is_open.
  rewrite (bool_decide_ext _ _ (Hfds j Hj)). case_decide as E.
  - subst j. assert (pick (bump i p) i = S (pick p i)) as -> by (by destruct i).
    unfold place. split; [lia|]. split; [|intros _]; lia.
  - specialize (Hp j Hj). unfold is_open in Hp. destruct i as [|[|]], j as [|[|]]; try lia; exact Hp.
Qed.

Lemma invS_thread ts s i t m :
  invS ts s → ts !! i = Some t → thread_start (pick fd) i t = Some m →
  ∃ t' s', m s = Ok (t', s') ∧ invS (<[i := t']> ts) s'.
Proof.
  intros HI Hi Hn. assert (i < 2)%nat as Hi2 by (destruct HI; apply lookup_lt_Some in Hi; lia).
  unfold thread_start, letters_loop in Hn. destruct t as [c|c|c].
  - destruct (decide (c <= 122)) as [Hc|]; [|done]. injection Hn as <-. case_decide as Hm.
    + destruct (decide (is_Some (fds s !! pick fd i))) as [Ho|Ho].
      * destruct (invS_write ts s i c) as (n & s' & Hw & HI'); [done..|].
        exists (Stat c), s'. unfold mbind, prog_bind. by rewrite Hw.
      * exists (Stat c), s. unfold mbind, prog_bind, write, mbind, prog_bind, get_st.
        pose proof (proj2 (eq_None_not_Some _) Ho) as Hf. rewrite Hf. split; [done|].
        eapply invS_quiet; [done..|]. intros p o Hoo (? & ? & _). simpl. split; [lia|]. split; [lia|].
        intros H'. destruct o; [|done]. by destruct Ho, Hoo; auto.
    + exists (For (c + 1)), s. split; [done|]. eapply invS_quiet; [done..|].
      intros p o _ (? & ? & Hb). simpl. unfold base in *. split; [lia|]. split; [lia|].
      intros H'. specialize (Hb H'). pose proof (Z.div_mod c 2); pose proof (Z.mod_pos_bound c 2). lia.
  - injection Hn as <-. destruct HI as [Hl (p & Hs & Hp)]. exists (Print c). eexists.
    unfold mbind, prog_bind, stat, mbind, prog_bind, get_st. rewrite (sc_name _ _ Hs). split; [done|].
    eapply (invS_quiet ts s i (Stat c)); [by split; [|exists p]|done..].
  - injection Hn as <-. exists (For (c + 1)). eexists. split; [done|].
    eapply (invS_quiet ts s i (Print c)); [done..|]. intros p o _ (? & ? & Hb). simpl. split; [lia|].
    split; [lia|]. intros H'. specialize (Hb H'). lia.
Qed.
End Scattered.


(** [main] creates the threads, then closes both files, and returns. *)
Definition create : list move := [Main; Main; Main].
Definition return_after (ms : list move) : list move := create ++ ms ++ [Main; Main; Main].

(** A thread runs to its end. *)
Definition whole (i : nat) : list move := replicate 52 (Thread i).

(** What 2_1_thread.c leaves of a file that holds "old" after a schedule. *)
Definition left_by (ms : list move) : option (list Z) :=
  match List2_1Thread.init lab with
  | Ok (fd, s0) =>
      match execs (λ _, Prog2_1Thread.For 97) (Prog2_1Thread.thread_start (Prog1Thread.pick fd))
        (List2Thread.after fd) (initial s0) ms with
      | Some (Run (Exit 0) _ s) => Some (contents s 2)
      | _ => None
      end
  | Fault _ => None
  end.

Lemma left_by_runs ms w :
  left_by ms = Some w →
  ∃ fd s0 ts s, List2_1Thread.init lab = Ok (fd, s0) ∧ List2_1Thread.runs fd s0 (Run (Exit 0) ts s) ∧ contents s 2 = w.
Proof.
  unfold left_by. destruct (List2_1Thread.init lab) as [[fd s0]|f]; [|done].
  destruct (execs _ _ _ _ ms) as [[[j|k|[| |]] ts s|f]|] eqn:He; try done. intros [= <-].
  exists fd, s0, ts, s. split; [done|]. split; [|done]. by apply execs_rtc in He.
Qed.

(** What remains depends on the order: nothing at all is written when [main]
    returns first, and otherwise the letters of the second thread, those of the first,
    or a mixture can remain. *)
Theorem list2_1_thread_outcomes w :
  w ∈ [bytes "old"; odd_letters; even_letters; bytes "bdegikmoqsuwy"; bytes "ald"] →
  ∃ fd s0 ts s, List2_1Thread.init lab = Ok (fd, s0) ∧
    List2_1Thread.runs fd s0 (Run (Exit 0) ts s) ∧ contents s 2 = w.
Proof.
  intros Hw. repeat (apply elem_of_cons in Hw as [->|Hw]); [..|by apply elem_of_nil in Hw].
  - apply (left_by_runs (return_after [])). vm_compute. reflexivity.
  - apply (left_by_runs (return_after (whole 0 ++ whole 1))). vm_compute. reflexivity.
  - apply (left_by_runs (return_after (whole 1 ++ whole 0))). vm_compute. reflexivity.
  - apply (left_by_runs (return_after (replicate 8 (Thread 1) ++ replicate 14 (Thread 0) ++ replicate 44 (Thread 1)))).
    vm_compute. reflexivity.
  - apply (left_by_runs (return_after (replicate 3 (Thread 1)))). vm_compute. reflexivity.
Qed.

(** ** 2_thread.c *)

Section List2Thread.
Import Prog2Thread.
Context (fd : Z * Z).
Abbreviation run := (execs (λ _, Reading None) (thread_start (Prog1Thread.pick fd)) (List2Thread.after fd)).

Definition closed (s : sys) : Prop := fds s !! fd.1 = None.

(** [read] fails on a closed file, and -1 does not end the loop. *)
Lemma read_closed s d ts :
  closed s →
  exec (λ _, Reading None) (thread_start (Prog1Thread.pick fd)) (List2Thread.after fd)
    (Run (After 2) (Reading d :: ts) s) (Thread 0) = Some (Run (After 2) (Writing d :: ts) s).
Proof. intros Hc. simpl. unfold read, mbind, prog_bind, get_st. simpl. by rewrite Hc. Qed.

Lemma repeats c ts n s :
  closed s →
  ∃ s', run (Run (After 2) (Writing (Some c) :: ts) s) (concat (replicate n [Thread 0; Thread 0])) =
    Some (Run (After 2) (Writing (Some c) :: ts) s') ∧ closed s' ∧ out s' = out s ++ replicate n c.
Proof.
  revert s. induction n as [|n IH]; intros s Hs; [exists s; by rewrite app_nil_r|].
  destruct (IH (emit [c] s) Hs) as (s' & Hr & Hs' & Ho). exists s'. split_and!; [|done|].
  - cbn [replicate concat app execs]. cbn [exec lookup list_lookup mbind option_bind thread_start].
    exact (eq_trans (f_equal (λ o, o ≫= _) (read_closed (emit [c] s) (Some c) ts Hs)) Hr).
  - rewrite Ho. simpl. by rewrite <- (assoc app).
Qed.

(** The first byte is read. *)
Lemma first_byte ino c rest ts s :
  fds s !! fd.1 = Some (OpenFile ino 0 false) → contents s ino = c :: rest →
  exec (λ _, Reading None) (thread_start (Prog1Thread.pick fd)) (List2Thread.after fd)
    (Run (After 0) (Reading None :: ts) s) (Thread 0) =
  Some (Run (After 0) (Writing (Some c) :: ts) (set_fds (<[fd.1 := OpenFile ino 1 false]>) s)).
Proof.
  intros Hf Hc. cbn [exec lookup list_lookup mbind option_bind thread_start Prog1Thread.pick].
  unfold mbind, prog_bind. rewrite (read_byte _ ino 0) by done. by rewrite Hc.
Qed.
End List2Thread.

(** The listing 2_thread.c: when [main] closes the files before a thread has read
    anything, the thread writes a variable that was never set; when it has read a byte,
    it writes that byte over and over, any number of times, until [main] returns. *)
Theorem list2_thread_races s ino fd s0 :
  names s !! alphabet = Some ino → Prog2Thread.init s = Ok (fd, s0) →
  List2Thread.runs fd s0 (Crash Uninit) ∧
  ∀ c rest n, contents s ino = c :: rest →
    ∃ ts s', List2Thread.runs fd s0 (Run (After 2) ts s') ∧ out s' = out s ++ replicate n c.
Proof.
  intros Hn Hinit. unfold Prog2Thread.init in Hinit. rewrite (open_twice _ ino) in Hinit by done.
  injection Hinit as <- <-. set (fd := (_, _)). pose proof (second_fd_ne ino O_RDONLY s) as Hne.
  set (s0 := two_files _ _ _). set (cl := λ s, set_fds (delete fd.2) (set_fds (delete fd.1) s)).
  assert (∀ s, closed fd (cl s)) as Hcl by (intros s1; unfold closed; simpl; by rewrite lookup_delete_ne, lookup_delete_eq).
  split.
  - apply (execs_rtc _ _ _ _ (create ++ [Main; Main; Thread 0; Thread 0])).
    cbn [create app]. cbn [execs]. cbn [exec initial decide].
    change (execs (λ _, Prog2Thread.Reading None) (Prog2Thread.thread_start (Prog1Thread.pick fd)) (List2Thread.after fd)
      (Run (After 2) [Prog2Thread.Reading None; Prog2Thread.Reading None] (cl s0)) [Thread 0; Thread 0] = Some (Crash Uninit)).
    cbn [execs]. rewrite read_closed by done. done.
  - intros c rest n Hc.
    destruct (repeats fd c [Prog2Thread.Reading None] n (cl (set_fds (<[fd.1 := OpenFile ino 1 false]>) s0)))
      as (s' & Hr & _ & Ho); [apply Hcl|].
    exists (Prog2Thread.Writing (Some c) :: [Prog2Thread.Reading None]), s'. split; [|exact Ho].
    apply (execs_rtc _ _ _ _ (create ++ [Thread 0; Main; Main] ++ concat (replicate n [Thread 0; Thread 0]))).
    rewrite execs_app. change (execs _ _ _ (initial s0) create) with
      (Some (Run (After 0) [Prog2Thread.Reading None; Prog2Thread.Reading None] s0)). cbn [mbind option_bind].
    rewrite execs_app. cbn [execs]. rewrite (first_byte fd ino c rest).
    + exact Hr.
    + simpl. by rewrite lookup_insert_ne, lookup_insert_eq.
    + exact Hc.
Qed.

(** ** The theorems at work *)

Lemma list2_1_loses_letters_witness :
  ∃ s', List2_1.main lab = Ok (0, s') ∧ contents s' 2 = bytes "bdfhjlnprtvxz".
Proof.
  destruct (list2_1_loses_letters lab 2 eq_refl) as (s' & H1 & H2 & _). exists s'. split; [exact H1|].
  rewrite H2. vm_compute. reflexivity.
Defined.


Lemma list2_1_thread_outcomes_witness :
  ∃ fd s0 ts s, List2_1Thread.init lab = Ok (fd, s0) ∧
    List2_1Thread.runs fd s0 (Run (Exit 0) ts s) ∧ contents s 2 = bytes "old".
Proof. apply (list2_1_thread_outcomes (bytes "old")). apply list_elem_of_here. Defined.

Lemma list2_thread_races_witness :
  ∃ fd s0, Prog2Thread.init lab = Ok (fd, s0) ∧ List2Thread.runs fd s0 (Crash Uninit) ∧
    ∃ ts s', List2Thread.runs fd s0 (Run (After 2) ts s') ∧ out s' = bytes "aaa".
Proof.
  assert (∃ fd s0, Prog2Thread.init lab = Ok (fd, s0)) as (fd & s0 & Hinit) by (do 2 eexists; vm_compute; reflexivity).
  destruct (list2_thread_races lab 1 fd s0 eq_refl Hinit) as [H1 H2].
  exists fd, s0. split; [exact Hinit|]. split; [exact H1|].
  destruct (H2 97 (tail letters) 3%nat eq_refl) as (ts & s' & Hr & Ho).
  exists ts, s'. split; [exact Hr|exact Ho].
Defined.
