(* ===== verification/OpenFileTypes.v ===== *)
(** * The programs of 8/open_file keep the state well typed *)

From S2P Require Import Prelude Posix Pthread OpenFile.
From stdpp Require Import options.
#[local] Set Default Proof Using "Type*".
Local Open Scope Z_scope.

Create HintDb typed.
#[export] Hint Resolve typed_ret typed_open typed_fdopen typed_setvbuf typed_read typed_write typed_close
  typed_stat typed_fscanf_c typed_fprintf_c typed_fclose : typed.

Lemma typed_emit d : typed (write_stdout d).
Proof. by apply typed_modify; intros s []. Qed.

Lemma typed_crash {A} f : typed (A := A) (crash f).
Proof. by intros s a s'. Qed.

Lemma typed_get_st : typed get_st.
Proof. by intros s a s' Hs [= _ <-]. Qed.

Lemma typed_put_when {A} (r : option A) f : (∀ a, typed (f a)) → typed (put_when r f).
Proof. intros Hf. destruct r; simpl; [apply Hf|apply typed_ret]. Qed.

Lemma typed_fopen name fl : typed (fopen name fl).
Proof. apply typed_bind; auto with typed. Qed.
#[export] Hint Resolve typed_emit typed_crash typed_get_st typed_put_when typed_fopen : typed.

#[export] Hint Extern 1 (0 < _) => lia : typed.

(** Going through a program. *)
Ltac typed_step :=
  lazymatch goal with
  | |- typed (_ ≫= _) => apply typed_bind; [|intros ?]
  | |- typed (if decide ?P then _ else _) => destruct (decide P)
  | |- typed (match ?x with _ => _ end) => destruct x
  | |- _ => solve [eauto with typed]
  end.
Ltac typed := repeat typed_step.

(** Code with fuel. *)
Definition ltyped {A} (m : lprog sys A) : Prop := ∀ s a s', well_typed s → m s = Some (Ok (a, s')) → well_typed s'.

Lemma ltyped_ret {A} (a : A) : ltyped (mret a).
Proof. by intros s a' s' Hs [= _ <-]. Qed.

Lemma ltyped_now {A} (m : prog sys A) : typed m → ltyped (now m).
Proof. intros Hm s a s' Hs [= H]. by eapply Hm. Qed.

Lemma ltyped_bind {A B} (m : lprog sys A) (k : A → lprog sys B) :
  ltyped m → (∀ a, ltyped (k a)) → ltyped (m ≫= k).
Proof.
  intros Hm Hk s b s' Hs H. unfold mbind, lprog_bind in H.
  destruct (m s) as [[[a s1]|f]|] eqn:E; [|done|done]. eapply Hk; [|exact H]. by eapply Hm.
Qed.

Lemma ltyped_no_fuel {A} : ltyped (A := A) no_fuel.
Proof. by intros s a s'. Qed.

Lemma typed_prog1 fuel : ltyped (Prog1.main fuel).
Proof.
  apply ltyped_bind; [apply ltyped_now; unfold Prog1.init; typed|]. intros [fs1 fs2].
  apply ltyped_bind; [|intros; apply ltyped_ret]. generalize 1 at 2 as flag2. generalize 1 as flag1.
  induction fuel as [|fuel IH]; intros flag1 flag2; [apply ltyped_no_fuel|]. cbn [Prog1.loop].
  case_decide; [|apply ltyped_ret]. repeat (apply ltyped_bind; [apply ltyped_now; typed|intros]). apply IH.
Qed.

Lemma typed_prog2 fuel : ltyped (Prog2.main fuel).
Proof.
  do 2 (apply ltyped_bind; [apply ltyped_now; typed|intros]).
  apply ltyped_bind; [|intros; apply ltyped_ret]. generalize 1 at 2 as flag2. generalize 1 as flag1.
  induction fuel as [|fuel IH]; intros flag1 flag2; [apply ltyped_no_fuel|]. cbn [Prog2.loop].
  case_decide; [|apply ltyped_ret]. apply ltyped_bind; [apply ltyped_now; typed|intros r].
  destruct (Prog2.got r); [|apply IH]. repeat (apply ltyped_bind; [apply ltyped_now; typed|intros]). apply IH.
Qed.

Lemma typed_print_stat action : typed (print_stat action).
Proof. unfold print_stat. typed. Qed.
#[export] Hint Resolve typed_print_stat : typed.

Lemma typed_prog2_1 : typed Prog2_1.main.
Proof.
  unfold Prog2_1.main. do 4 (apply typed_bind; [typed|intros]). apply typed_bind; [|intros; typed].
  generalize letters as cs. induction cs as [|c cs IH]; cbn [Prog2_1.loop]; [typed|].
  apply typed_bind; [case_decide; typed|intros]. apply typed_bind; [typed|intros; apply IH].
Qed.

Lemma typed_prog3 : typed Prog3.main.
Proof.
  unfold Prog3.main. do 4 (apply typed_bind; [typed|intros]). apply typed_bind; [|intros; typed].
  generalize letters as cs. induction cs as [|c cs IH]; cbn [Prog3.loop]; [typed|].
  apply typed_bind; [case_decide; typed|intros]. apply typed_bind; [typed|intros; apply IH].
Qed.

(** Threads whose actions are typed. *)
Lemma typed_runs {T} (start : nat → T) next (finish : prog sys unit) s pc ts s' :
  (∀ i t m, next i t = Some m → typed m) → typed finish → well_typed s →
  reachable start next finish s (Run pc ts s') → well_typed s'.
Proof.
  intros Hnext Hfin Hs H.
  assert (∀ c c', Pthread.step start next finish c c' →
    match c with Run _ _ s => well_typed s | _ => True end →
    match c' with Run _ _ s => well_typed s | _ => True end) as Hstep.
  { intros c c'. destruct 1; intros Hc; try done; [by eapply Hfin|by eapply Hnext]. }
  cut (∀ c c', rtc (Pthread.step start next finish) c c' →
    match c with Run _ _ s => well_typed s | _ => True end →
    match c' with Run _ _ s => well_typed s | _ => True end); [intros Hr; by apply (Hr _ _ H)|].
  induction 1 as [|c1 c2 c3 H1 _ IH]; [done|]. intros Hc. by eapply IH, Hstep.
Qed.

Lemma typed_letters put show i t m :
  (∀ c, typed (put i c)) → Prog2_1Thread.letters_loop put show i t = Some m → typed m.
Proof.
  intros Hput Hm. destruct t as [c|c|c]; simpl in Hm; [case_decide; [|done]|..]; injection Hm as <-.
  - case_decide; [apply typed_bind; [apply Hput|intros]|]; typed.
  - typed.
  - typed.
Qed.

(** At the end of the four programs without threads, and in every state of the four with
    threads, names and open files refer to inodes that exist, positions are not negative
    and no stream holds more than its buffer. The calls see to that: it holds of any
    program made of them. *)
Theorem programs_typed s :
  well_typed s →
  (∀ fuel a s', Prog1.main fuel s = Some (Ok (a, s')) → well_typed s') ∧
  (∀ fuel a s', Prog2.main fuel s = Some (Ok (a, s')) → well_typed s') ∧
  (∀ a s', Prog2_1.main s = Ok (a, s') → well_typed s') ∧
  (∀ a s', Prog3.main s = Ok (a, s') → well_typed s') ∧
  (∀ fs s0 pc ts s', Prog1Thread.init s = Ok (fs, s0) → Prog1Thread.runs fs s0 (Run pc ts s') → well_typed s') ∧
  (∀ fd s0 pc ts s', Prog2Thread.init s = Ok (fd, s0) → Prog2Thread.runs fd s0 (Run pc ts s') → well_typed s') ∧
  (∀ fd s0 pc ts s', Prog2_1Thread.init s = Ok (fd, s0) → Prog2_1Thread.runs fd s0 (Run pc ts s') → well_typed s') ∧
  (∀ fs s0 pc ts s', Prog3Thread.init s = Ok (fs, s0) → Prog3Thread.runs fs s0 (Run pc ts s') → well_typed s').
Proof.
  intros Hs. split_and!.
  - intros fuel a s'. by apply typed_prog1.
  - intros fuel a s'. by apply typed_prog2.
  - intros a s'. by apply typed_prog2_1.
  - intros a s'. by apply typed_prog3.
  - intros fs s0 pc ts s' Hi. apply typed_runs; [|typed|].
    + intros i [|c|] m [= <-]; typed.
    + eapply (_ : typed Prog1Thread.init); [exact Hs|exact Hi]. Unshelve. unfold Prog1Thread.init. typed.
  - intros fd s0 pc ts s' Hi. apply typed_runs; [|unfold Prog2Thread.finish; typed|].
    + intros i [c|[c|]|] m [= <-]; typed.
    + eapply (_ : typed Prog2Thread.init); [exact Hs|exact Hi]. Unshelve. unfold Prog2Thread.init. typed.
  - intros fd s0 pc ts s' Hi. apply typed_runs; [|unfold Prog2_1Thread.finish; typed|].
    + intros i t m. apply typed_letters. intros c. typed.
    + eapply (_ : typed Prog2_1Thread.init); [exact Hs|exact Hi]. Unshelve. unfold Prog2_1Thread.init. typed.
  - intros fs s0 pc ts s' Hi. apply typed_runs; [|unfold Prog3Thread.finish; typed|].
    + intros i t m. apply typed_letters. intros c. typed.
    + eapply (_ : typed Prog3Thread.init); [exact Hs|exact Hi]. Unshelve. unfold Prog3Thread.init. typed.
Qed.

Definition disk : sys := Sys {[q := 2]} {[2 := [120]]} ∅ [] (0, 0) [].

Lemma programs_typed_witness :
  well_typed disk ∧ ∃ s', Prog2_1.main disk = Ok (0, s') ∧ well_typed s'.
Proof.
  assert (well_typed disk) as Hd.
  { split; simpl; [intros n i [<- <-]%lookup_singleton_Some; by eexists|intros fd f; by rewrite lookup_empty|done]. }
  split; [exact Hd|]. destruct (programs_typed disk Hd) as (_ & _ & H & _).
  assert (∃ s', Prog2_1.main disk = Ok (0, s')) as [s' Hm] by (eexists; vm_compute; reflexivity).
  exists s'. split; [exact Hm|]. exact (H 0 s' Hm).
Defined.
