(* ===== verification/ProcInfo.v ===== *)
(** * The process report (3/proc/main.c)

    Eleven functions that copy the files of /proc/<pid> into a report, one of them
    token by token and one line by line, and one, not called, for the page map. *)

From S2P Require Import Prelude.
From stdpp Require Import options.
#[local] Set Default Proof Using "Type*".
Local Open Scope Z_scope.

Definition BUF_SIZE : Z := 4096.
Definition PATH_MAX_LEN : Z := 128.

Definition stats : list (list Z) := bytes <$> [
  "pid"; "comm"; "state"; "ppid"; "pgrp"; "session"; "tty_nr"; "tpgid"; "flags"; "minflt";
  "cminflt"; "majflt"; "cmajflt"; "utime"; "stime"; "cutime"; "cstime"; "priority"; "nice"; "num_threads";
  "itrealvalue"; "starttime"; "vsize"; "rss"; "rsslim"; "startcode"; "endcode"; "startstack"; "kstkesp"; "kstkeip";
  "signal"; "blocked"; "sigignore"; "sigcatch"; "wchan"; "nswap"; "cnswap"; "exit_signal"; "processor"; "rt_priority";
  "policy"; "delayacct_blkio_ticks"; "guest_time"; "cguest_time"; "start_data"; "end_data"; "start_brk"; "arg_start"; "arg_end";
  "env_start"; "env_end"; "env_code"]%string.

(** ** The C library *)

(** The report: the bytes of the stream [out]. *)
Abbreviation report := (list Z) (only parsing).
Definition fprintf (d : list Z) : prog report unit := modify (λ o, o ++ d).

(** A long, an array of char with the initialiser "\0". *)
Definition int64 (x : Z) : Z := (x + 2 ^ 63) mod 2 ^ 64 - 2 ^ 63.
Definition zeros (n : Z) : list Z := replicate (Z.to_nat n) 0.

(** The minimal field width of a conversion, to the right and (with a minus) to the
    left. *)
Definition pad (n : nat) (s : list Z) : list Z := replicate (n - length s) 32 ++ s.
Definition pad_right (n : nat) (s : list Z) : list Z := s ++ replicate (n - length s) 32.

(** [fread(buf, 1, n, f)] where the file still has [rest]: the buffer, the number of
    bytes and what is left. *)
Definition fread (buf : list Z) (n : Z) (rest : list Z) : outcome (list Z * Z * list Z) :=
  let d := take (Z.to_nat n) rest in
  buf ← bwrite buf 0 d;
  Ok (buf, Z.of_nat (length d), drop (Z.to_nat n) rest).

(** A line: up to and with the next line end. *)
Fixpoint line_of (l : list Z) : list Z * list Z :=
  match l with
  | [] => ([], [])
  | x :: l => if decide (x = 10) then ([x], l) else let '(a, b) := line_of l in (x :: a, b)
  end.

(** What a pointer variable for [getline] holds: NULL; a value that was never stored, and
    is not NULL; the line that [getline] has allocated. *)
Inductive line_ptr := NullPtr | StrayPtr | LinePtr (line : list Z).

(** [getline(&buf, &size, f)]: the pointer is NULL or that of an allocated object, which
    [getline] makes or enlarges; a pointer that was never stored is used like one.
    The length of the line, or -1 at the end of the file. *)
Definition getline (buf : line_ptr) (rest : list Z) : outcome (line_ptr * Z * list Z) :=
  match buf with
  | StrayPtr => Fault Uninit
  | _ =>
      match rest with
      | [] => Ok (match buf with NullPtr => LinePtr [] | _ => buf end, -1, [])
      | _ => let '(line, rest) := line_of rest in Ok (LinePtr line, Z.of_nat (length line), rest)
      end
  end.

(** The text at the pointer. *)
Definition line_text (buf : line_ptr) : outcome (list Z) :=
  match buf with
  | LinePtr line => cstr (line ++ [0]) 0
  | NullPtr => Fault NullDeref
  | StrayPtr => Fault Uninit
  end.

(** [strspn] and [strcspn] for one character; the latter stops at a zero. *)
Fixpoint span (d : Z) (l : list Z) : nat :=
  match l with x :: l => if decide (x = d) then S (span d l) else O | [] => O end.
Fixpoint cspan (d : Z) (l : list Z) : nat :=
  match l with x :: l => if decide (x = d ∨ x = 0) then O else S (cspan d l) | [] => O end.

(** [strtok_r] from offset [s] of the buffer on: the token, the buffer with a zero
    behind it, and where to go on. *)
Definition strtok_r (buf : list Z) (s : Z) (d : Z) : outcome (option Z * list Z * Z) :=
  let l := drop (Z.to_nat s) buf in
  let start := s + Z.of_nat (span d l) in
  match drop (span d l) l with
  | [] => Fault OutOfBounds
  | (x :: _) as l =>
      if decide (x = 0) then Ok (None, buf, start)
      else
        let stop := start + Z.of_nat (cspan d l) in
        match drop (cspan d l) l with
        | [] => Fault OutOfBounds
        | y :: _ =>
            if decide (y = 0) then Ok (Some start, buf, stop)
            else Ok (Some start, <[Z.to_nat stop := 0]> buf, stop + 1)
        end
  end.

(** A digit in base 16. *)
Definition hex_digit (c : Z) : option Z :=
  if decide (48 <= c <= 57) then Some (c - 48)
  else if decide (97 <= c <= 102) then Some (c - 87)
  else if decide (65 <= c <= 70) then Some (c - 55) else None.

(** The digits at the front of [l], and what is behind them; [None] without a digit.
    Signs, a prefix 0x and numbers of more than 64 bits do not occur in a map. *)
Fixpoint hex_digits (acc : Z) (l : list Z) : Z * list Z :=
  match l with
  | c :: l' => match hex_digit c with Some d => hex_digits (16 * acc + d) l' | None => (acc, l) end
  | [] => (acc, [])
  end.
Definition scan_lx (l : list Z) : option (Z * list Z) :=
  match drop (span 32 l) l with
  | c :: l' => match hex_digit c with Some d => Some (hex_digits d l') | None => None end
  | [] => None
  end.

(** [sscanf(buf, "%lx-%lx", &a, &b)]: what is not matched is left as it was. *)
Definition scan_range (l : list Z) (a b : option Z) : option Z * option Z :=
  match scan_lx l with
  | None => (a, b)
  | Some (x, 45 :: l) =>
      match scan_lx l with Some (y, _) => (Some (int64 x), Some (int64 y)) | None => (Some (int64 x), b) end
  | Some (x, _) => (Some (int64 x), b)
  end.

(** ** The program *)

Section Report.
(** The file system: what [fopen] for reading finds ([None] is NULL; a directory can
    be opened and reads as empty), the entries of a directory, the target of a
    symbolic link ([None] is -1). *)
Context (file : list Z → option (list Z)) (dir : list Z → option (list (list Z)))
  (link : list Z → option (list Z)).

(** [snprintf(path, PATH_MAX_LEN, "/proc/%s<rest>", proc)]. *)
Definition proc_path (proc rest : list Z) : list Z :=
  take (Z.to_nat (PATH_MAX_LEN - 1)) (bytes "/proc/" ++ proc ++ rest).

Definition fopen (path : list Z) : prog report (list Z) :=
  match file path with Some d => mret d | None => crash NullDeref end.

(** [for (i = 0; i < len; ++i) if (buf[i] == 0) buf[i] = '\n'], from [i] on. *)
Fixpoint nl_loop (n : nat) (i : Z) (buf : list Z) : outcome (list Z) :=
  match n with
  | O => Ok buf
  | S n =>
      c ← bread buf i 1;
      buf ← (if decide (c = [0]) then bput buf i 10 else Ok buf);
      nl_loop n (i + 1) buf
  end.

(** The loops of fprintf_environ and fprintf_io. *)
Fixpoint copy_loop (fuel : nat) (buf rest : list Z) : lprog report unit :=
  match fuel with
  | O => no_fuel
  | S fuel =>
      '(buf, len, rest) ← now (lift (fread buf BUF_SIZE rest));
      if decide (0 < len) then
        buf ← now (lift (nl_loop (Z.to_nat len) 0 buf));
        buf ← now (lift (bput buf len 0));
        s ← now (lift (cstr buf 0));
        now (fprintf s);;
        copy_loop fuel buf rest
      else mret tt
  end.

Definition fprintf_environ (fuel : nat) (proc : list Z) : lprog report unit :=
  now (fprintf (bytes "ENVIRON" ++ [10]));;
  f ← now (fopen (proc_path proc (bytes "/environ")));
  copy_loop fuel (zeros (BUF_SIZE + 1)) f.

Definition fprintf_io (fuel : nat) (proc : list Z) : lprog report unit :=
  now (fprintf (bytes "IO" ++ [10]));;
  f ← now (fopen (proc_path proc (bytes "/io")));
  copy_loop fuel (zeros (BUF_SIZE + 1)) f.

(** The loop over the tokens; [i] counts them. *)
Fixpoint stat_loop (fuel : nat) (buf : list Z) (pch : option Z) (save : Z) (i : nat) : lprog report unit :=
  match fuel with
  | O => no_fuel
  | S fuel =>
      match pch with
      | None => mret tt
      | Some p =>
          name ← now (match stats !! i with Some n => mret n | None => crash OutOfBounds end);
          tok ← now (lift (cstr buf p));
          now (fprintf (name ++ bytes ": " ++ tok ++ [10]));;
          '(pch, buf, save) ← now (lift (strtok_r buf save 32));
          stat_loop fuel buf pch save (S i)
      end
  end.

Definition fprintf_stat (fuel : nat) (proc : list Z) : lprog report unit :=
  now (fprintf (bytes "===========" ++ [10] ++ bytes "STAT" ++ [10]));;
  f ← now (fopen (proc_path proc (bytes "/stat")));
  '(buf, _, _) ← now (lift (fread (zeros (BUF_SIZE + 1)) BUF_SIZE f));
  '(pch, buf, save) ← now (lift (strtok_r buf 0 32));
  stat_loop fuel buf pch save 0.

(** A file as one string, with the title [title]. *)
Definition fprintf_whole (title rest : string) (proc : list Z) : prog report unit :=
  fprintf (bytes title ++ [10]);;
  f ← fopen (proc_path proc (bytes rest));
  '(buf, len, _) ← lift (fread (zeros (BUF_SIZE + 1)) BUF_SIZE f);
  buf ← lift (bput buf len 0);
  s ← lift (cstr buf 0);
  fprintf (s ++ [10]).
Definition fprintf_cmdline : list Z → prog report unit := fprintf_whole "CMDLINE" "/cmdline".
Definition fprintf_comm : list Z → prog report unit := fprintf_whole "COMM" "/comm".

(** [readlink(path, str, BUF_SIZE)]: no zero is put behind the target. *)
Definition readlink (path str : list Z) : outcome (list Z) :=
  match link path with Some t => bwrite str 0 (take (Z.to_nat BUF_SIZE) t) | None => Ok str end.

Definition opendir (path : list Z) : prog report (list (list Z)) :=
  match dir path with Some l => mret l | None => crash NullDeref end.
Definition special (n : list Z) : Prop := n = [46] ∨ n = [46; 46].
#[export] Instance special_dec n : Decision (special n).
Proof. unfold special. apply _. Defined.

Fixpoint fd_loop (names : list (list Z)) (fd_path str : list Z) : prog report unit :=
  match names with
  | [] => mret tt
  | n :: names =>
      if decide (special n) then fd_loop names fd_path str
      else
        let path := take (Z.to_nat (BUF_SIZE - 1)) (fd_path ++ [47] ++ n) in
        str ← lift (readlink path str);
        s ← lift (cstr str 0);
        fprintf (n ++ bytes " -> " ++ s ++ [10]);;
        fd_loop names fd_path str
  end.

Definition fprintf_fd (proc : list Z) : prog report unit :=
  fprintf (bytes "FD" ++ [10]);;
  let fd_path := proc_path proc (bytes "/fd") in
  names ← opendir fd_path;
  fd_loop names fd_path (zeros BUF_SIZE).

(** The functions for cwd, exe and root. *)
Definition fprintf_sym (title name : string) (proc : list Z) : prog report unit :=
  fprintf (bytes title ++ bytes " SYMLINK" ++ [10]);;
  let path := proc_path proc (bytes "/" ++ bytes name) in
  f ← fopen path;
  '(buf, len, _) ← lift (fread (zeros (BUF_SIZE + 1)) BUF_SIZE f);
  _ ← lift (bput buf len 0);
  str ← lift (readlink path (zeros (BUF_SIZE + 1)));
  s ← lift (cstr str 0);
  fprintf (bytes name ++ bytes " -> " ++ s ++ [10]).
Definition fprintf_sym_cwd : list Z → prog report unit := fprintf_sym "CWD" "cwd".
Definition fprintf_sym_exe : list Z → prog report unit := fprintf_sym "EXE" "exe".
Definition fprintf_sym_root : list Z → prog report unit := fprintf_sym "ROOT" "root".

(** The loop over the lines of the map; [total] is the variable [bytes]. The bounds of
    a region are stored in variables of type long. *)
Fixpoint maps_loop (fuel : nat) (buf : line_ptr) (rest : list Z) (a b : option Z) (total : Z) : lprog report Z :=
  match fuel with
  | O => no_fuel
  | S fuel =>
      '(buf, len, rest) ← now (lift (getline buf rest));
      if decide (0 < len) then
        s ← now (lift (line_text buf));
        let '(a, b) := scan_range s a b in
        '(addr_begin, addr_end) ← now (match a, b with Some x, Some y => mret (x, y) | _, _ => crash Uninit end);
        let rec_bytes := int64 (addr_end - addr_begin) in
        now (fprintf (pad 8 (dec rec_bytes) ++ bytes "   " ++ pad 4 (dec (rec_bytes ÷ 4096)) ++ bytes "   " ++ s));;
        maps_loop fuel buf rest a b (int64 (total + rec_bytes))
      else mret total
  end.

Definition maps_title : list Z :=
  bytes "bytes     pages   addr                      perms  offset  dev   inode                     pathname" ++ [10].

(** [buf] is what the variable, which is not initialised, holds. *)
Definition fprintf_maps (fuel : nat) (buf : line_ptr) (proc : list Z) : lprog report unit :=
  now (fprintf (bytes "MAPS" ++ [10]));;
  f ← now (fopen (proc_path proc (bytes "/maps")));
  now (fprintf maps_title);;
  total ← maps_loop fuel buf f None None 0;
  now (fprintf (bytes "Size bytes: " ++ dec total ++ [10]));;
  now (fprintf (bytes "Size pages: " ++ dec (total ÷ 4096) ++ [10])).

Fixpoint task_loop (names : list (list Z)) : prog report unit :=
  match names with
  | [] => mret tt
  | n :: names =>
      (if decide (special n) then mret tt else fprintf (n ++ [10]));;
      task_loop names
  end.

Definition fprintf_task (proc : list Z) : prog report unit :=
  fprintf (bytes "TASK" ++ [10]);;
  names ← opendir (proc_path proc (bytes "/task"));
  task_loop names.

(** The fields of an entry of the page map. *)
Definition page_fields (data : Z) : list Z :=
  [Z.land data (Z.shiftl 1 55 - 1); Z.land (Z.shiftr data 55) 1; Z.land (Z.shiftr data 61) 1;
   Z.land (Z.shiftr data 62) 1; Z.land (Z.shiftr data 63) 1].

Definition fprintf_page (address data : Z) : prog report unit :=
  fprintf (bytes "0x" ++ pad_right 16 (hex address) ++ bytes " : " ++
    match page_fields data with
    | pfn :: bits => pad_right 16 (hex pfn) ++ concat ((λ b, [32] ++ pad_right 10 (dec b)) <$> bits)
    | [] => []
    end ++ [10]).

(** ** The page map, which [main] does not ask for *)

(** The entry at a byte offset of /proc/<pid>/pagemap, if [pread] finds one. *)
Context (pread : list Z → Z → option Z).
Definition page_size : Z := 4096.

Fixpoint page_loop (fuel : nat) (pm : list Z) (i stop : Z) : lprog report unit :=
  match fuel with
  | O => no_fuel
  | S fuel =>
      if decide (i < stop) then
        let index := i / page_size * 8 in
        offset ← now (match pread pm index with Some d => mret d | None => crash Uninit end);
        now (fprintf_page i offset);;
        page_loop fuel pm ((i + page_size) mod 2 ^ 64) stop
      else mret tt
  end.

(** [strtok] from [s], or from where it stopped; before the first call of this function
    that is in a buffer of another one. *)
Definition strtok (buf : list Z) (s tok : option Z) (d : Z) : outcome (option Z * list Z * option Z) :=
  match s, tok with
  | Some p, _ | None, Some p => '(t, buf, p) ← strtok_r buf p d; Ok (t, buf, Some p)
  | None, None => Fault UseAfterFree
  end.

(** [strtoul(.., 16)] of a string that starts with a digit. *)
Definition strtoul (s : list Z) : Z := (hex_digits 0 s).1.

(** The loop over the rows of a part of the map; [tok] is where [strtok] goes on. *)
Fixpoint row_loop (fuel : nat) (pm buf : list Z) (row : option Z) (save_row : Z) (tok : option Z) : lprog report unit :=
  match fuel with
  | O => no_fuel
  | S fuel =>
      match row with
      | None => mret tt
      | Some row =>
          '(addresses, buf, tok) ← now (lift (strtok buf (Some row) tok 32));
          '(start_str, buf, tok) ← now (lift (strtok buf addresses tok 45));
          '(end_str, buf, tok) ← now (lift (match start_str with
                                            | Some _ => strtok buf None tok 45
                                            | None => Ok (None, buf, tok) end));
          (match start_str, end_str with
           | Some start_str, Some end_str =>
               a ← now (lift (cstr buf start_str));
               b ← now (lift (cstr buf end_str));
               page_loop fuel pm (strtoul a) (strtoul b)
           | _, _ => mret tt
           end);;
          '(row, buf, save_row) ← now (lift (strtok_r buf save_row 10));
          row_loop fuel pm buf row save_row tok
      end
  end.

(** The loop over the parts of 4096 bytes. *)
Fixpoint parts_loop (fuel : nat) (pm buf rest : list Z) (tok : option Z) : lprog report unit :=
  match fuel with
  | O => no_fuel
  | S fuel =>
      '(buf, len, rest) ← now (lift (fread buf BUF_SIZE rest));
      if decide (0 < len) then
        buf ← now (lift (nl_loop (Z.to_nat len) 0 buf));
        buf ← now (lift (bput buf len 0));
        '(row, buf, save_row) ← now (lift (strtok_r buf 0 10));
        row_loop fuel pm buf row save_row tok;;
        parts_loop fuel pm buf rest tok
      else mret tt
  end.

Definition fprintf_pagemap_info (fuel : nat) (proc : list Z) : lprog report unit :=
  now (fprintf (bytes "PAGEMAP" ++ [10]));;
  now (fprintf (bytes "       addr        : pfn          soft-dirty file/shared swapped    present" ++ [10]));;
  maps ← now (fopen (proc_path proc (bytes "/maps")));
  parts_loop fuel (proc_path proc (bytes "/pagemap")) (zeros (BUF_SIZE + 1)) maps None.

Definition main (fuel : nat) (buf : line_ptr) (pid : list Z) : lprog report Z :=
  fprintf_environ fuel pid;;
  fprintf_stat fuel pid;;
  now (fprintf_cmdline pid);;
  now (fprintf_fd pid);;
  now (fprintf_sym_cwd pid);;
  now (fprintf_sym_exe pid);;
  now (fprintf_sym_root pid);;
  fprintf_maps fuel buf pid;;
  fprintf_io fuel pid;;
  now (fprintf_comm pid);;
  now (fprintf_task pid);;
  mret 0.
End Report.
