(* ===== verification/ProcInfoSpec.v ===== *)
(** * What the process report contains *)

From S2P Require Import Prelude ProcInfo.
From stdpp Require Import options.
#[local] Set Default Proof Using "Type*".
Local Open Scope Z_scope.

#[local] Arguments replicate : simpl never.
#[local] Arguments zeros : simpl never.

Lemma fopen_ok file path c o : file path = Some c → fopen file path o = Ok (c, o).
Proof. intros H. unfold fopen. by rewrite H. Qed.

(** ** Files copied in parts: environ and io *)

(** A part of the buffer, the zeros turned into line ends. *)
Definition zero_to_nl (c : Z) : Z := if decide (c = 0) then 10 else c.

Lemma nl_loop_ok n p d r :
  length d = n →
  nl_loop n (Z.of_nat (length p)) (p ++ d ++ r) = Ok (p ++ (zero_to_nl <$> d) ++ r).
Proof.
  revert p n. induction d as [|x d IH]; intros p n <-; [done|]. cbn [nl_loop length].
  unfold bread. rewrite decide_True by (rewrite !length_app; simpl; lia).
  rewrite Nat2Z.id, drop_app_length. cbn [app take]. change (Z.to_nat 1) with 1%nat. rewrite firstn_cons, take_0.
  unfold mbind, outcome_bind.
  assert ((if decide ([x] = [0]) then bput (p ++ x :: d ++ r) (Z.of_nat (length p)) 10 else Ok (p ++ x :: d ++ r)) =
    Ok ((p ++ [zero_to_nl x]) ++ d ++ r)) as ->.
  { unfold zero_to_nl. destruct (decide (x = 0)) as [->|Hx].
    - rewrite decide_True by done. unfold bput. rewrite decide_True by (rewrite length_app; simpl; lia).
      rewrite Nat2Z.id, insert_app_r_alt, Nat.sub_diag by lia. simpl. by rewrite <- (assoc app).
    - rewrite decide_False by congruence. by rewrite <- (assoc app). }
  replace (Z.of_nat (length p) + 1) with (Z.of_nat (length (p ++ [zero_to_nl x]))) by (rewrite length_app; simpl; lia).
  rewrite IH by done. simpl. by rewrite <- (assoc app).
Qed.

Lemma zero_to_nl_nonzero d : Forall (λ x, x ≠ 0) (zero_to_nl <$> d).
Proof. apply Forall_fmap, Forall_true. intros x. unfold zero_to_nl. simpl. by case_decide. Qed.

(** Reading into a buffer that has room for [n] bytes. *)
Lemma fread_ok buf n rest :
  0 ≤ n → n ≤ Z.of_nat (length buf) →
  fread buf n rest = Ok (take (Z.to_nat n) rest ++ drop (length (take (Z.to_nat n) rest)) buf,
    Z.of_nat (length (take (Z.to_nat n) rest)), drop (Z.to_nat n) rest).
Proof.
  intros Hn Hb. unfold fread. set (d := take _ rest).
  assert (length d ≤ Z.to_nat n)%nat as Hd by (subst d; rewrite length_take; lia).
  unfold bwrite. by rewrite decide_True by lia.
Qed.

Lemma copy_loop_ok fuel buf rest o :
  Z.of_nat (length buf) = BUF_SIZE + 1 → Z.of_nat (length rest) ≤ BUF_SIZE * (Z.of_nat fuel - 1) →
  copy_loop fuel buf rest o = Some (Ok (tt, o ++ (zero_to_nl <$> rest))).
Proof.
  revert buf rest o. induction fuel as [|fuel IH]; intros buf rest o Hb Hf; [unfold BUF_SIZE in Hf; lia|].
  cbn [copy_loop]. unfold mbind, lprog_bind, now, lift. rewrite fread_ok by (unfold BUF_SIZE in *; lia).
  set (d := take _ rest).
  assert (length d ≤ 4096)%nat as Hd by (subst d; rewrite length_take; unfold BUF_SIZE; lia).
  assert (length (drop (length d) buf) + length d = length buf)%nat as Hr by (rewrite length_drop; unfold BUF_SIZE in *; lia).
  revert Hr. generalize (drop (length d) buf) as r. intros r Hr.
  destruct (decide (0 < Z.of_nat (length d))) as [H0|H0].
  - rewrite Nat2Z.id. pose proof (nl_loop_ok (length d) [] d r eq_refl) as Hnl. cbn [length app] in Hnl.
    change (Z.of_nat 0) with 0 in Hnl. rewrite Hnl.
    destruct r as [|z r]; [unfold BUF_SIZE in Hb; simpl in Hr; lia|].
    assert (bput ((zero_to_nl <$> d) ++ z :: r) (Z.of_nat (length d)) 0 = Ok ((zero_to_nl <$> d) ++ 0 :: r)) as Hput.
    { unfold bput. rewrite decide_True by (rewrite length_app, length_fmap; simpl; lia).
      rewrite Nat2Z.id, insert_app_r_alt by (by rewrite length_fmap). by rewrite length_fmap, Nat.sub_diag. }
    rewrite Hput. pose proof (cstr_app [] (zero_to_nl <$> d) r 0 eq_refl (zero_to_nl_nonzero d)) as Hc.
    cbn [app] in Hc. rewrite Hc. unfold fprintf, modify.
    rewrite IH.
    + do 3 f_equal. rewrite <- (assoc app), <- fmap_app. subst d. by rewrite take_drop.
    + rewrite length_app, length_fmap. simpl in *. lia.
    + subst d. rewrite length_drop. rewrite length_take in *. unfold BUF_SIZE in *. lia.
  - assert (d = []) as Hd0 by (destruct d; [done|simpl in H0; lia]). assert (rest = []) as ->.
    { destruct rest; [done|]. subst d. unfold BUF_SIZE in Hd0. by change (Z.to_nat 4096) with (S 4095) in Hd0. }
    by rewrite app_nil_r.
Qed.

(** The environment and the I/O counters appear in the report whole, however long
    they are, each zero as a line end. A round more than the file has parts of 4096
    bytes is enough. *)
Theorem environ_report file fuel proc c o :
  file (proc_path proc (bytes "/environ")) = Some c →
  Z.of_nat (length c) ≤ BUF_SIZE * (Z.of_nat fuel - 1) →
  fprintf_environ file fuel proc o =
    Some (Ok (tt, o ++ bytes "ENVIRON" ++ [10] ++ (zero_to_nl <$> c))) ∧
  ∀ c', file (proc_path proc (bytes "/io")) = Some c' →
    Z.of_nat (length c') ≤ BUF_SIZE * (Z.of_nat fuel - 1) →
    fprintf_io file fuel proc o = Some (Ok (tt, o ++ bytes "IO" ++ [10] ++ (zero_to_nl <$> c'))).
Proof.
  assert (Z.of_nat (length (zeros (BUF_SIZE + 1))) = BUF_SIZE + 1) as Hz
    by (unfold zeros; rewrite length_replicate; unfold BUF_SIZE; lia).
  intros Hc Hf. split; [|intros c' Hc' Hf'];
    unfold fprintf_environ, fprintf_io, mbind, lprog_bind, now, fprintf, modify;
    erewrite fopen_ok by done; rewrite copy_loop_ok by done; by rewrite <- !(assoc app).
Qed.

Lemma environ_report_witness :
  fprintf_environ (λ _, Some (bytes "A=1" ++ [0] ++ bytes "B=2" ++ [0])) 2 (bytes "7") [] =
    Some (Ok (tt, bytes "ENVIRON" ++ [10] ++ bytes "A=1" ++ [10] ++ bytes "B=2" ++ [10])).
Proof.
  refine (proj1 (environ_report (λ _, Some (bytes "A=1" ++ [0] ++ bytes "B=2" ++ [0])) 2 (bytes "7") _ [] eq_refl _)).
  vm_compute. congruence.
Defined.

(** ** Tokens: stat *)

(** The words of a text: what is between the spaces. *)
Fixpoint words_from (w : list Z) (l : list Z) : list (list Z) :=
  match l with
  | [] => if decide (w = []) then [] else [w]
  | x :: l =>
      if decide (x = 32) then (if decide (w = []) then [] else [w]) ++ words_from [] l
      else words_from (w ++ [x]) l
  end.
Definition words : list Z → list (list Z) := words_from [].

Lemma words_span l : words (drop (span 32 l) l) = words l.
Proof.
  induction l as [|x l IH]; [done|]. simpl. case_decide as Hx; [|done]. simpl. rewrite IH. subst x.
  unfold words at 2. simpl. done.
Qed.

(** A text that starts with a word. *)
Lemma words_from_cspan w l :
  w ≠ [] → Forall (λ x, x ≠ 0) l →
  words_from w l = (w ++ take (cspan 32 l) l) :: words (drop (S (cspan 32 l)) l).
Proof.
  intros Hw Hl. revert w Hw. induction Hl as [|x l Hx _ IH]; intros w Hw; simpl.
  - by rewrite decide_False, app_nil_r.
  - destruct (decide (x = 32)) as [->|Hne].
    + rewrite decide_False, (decide_True (P := 32 = 32 ∨ 32 = 0)) by (done || by left). simpl. by rewrite app_nil_r.
    + rewrite (decide_False (P := x = 32 ∨ x = 0)) by tauto. rewrite IH by (by destruct w).
      rewrite <- (assoc app). done.
Qed.

Lemma words_cspan x l :
  x ≠ 32 → Forall (λ x, x ≠ 0) (x :: l) →
  words (x :: l) = take (cspan 32 (x :: l)) (x :: l) :: words (drop (S (cspan 32 (x :: l))) (x :: l)).
Proof.
  intros Hne H. inversion_clear H as [|? ? Hx Hl]. unfold words at 1. simpl.
  rewrite decide_False, (decide_False (P := x = 32 ∨ x = 0)) by tauto.
  rewrite words_from_cspan by done. done.
Qed.

Lemma span_app d l z r : z ≠ d → span d (l ++ z :: r) = span d l.
Proof. intros Hz. induction l as [|x l IH]; simpl; [by rewrite decide_False|]. case_decide; [by rewrite IH|done]. Qed.

Lemma cspan_app d l r : cspan d (l ++ 0 :: r) = cspan d l.
Proof. induction l as [|x l IH]; simpl; [by rewrite decide_True by auto|]. case_decide; [done|by rewrite IH]. Qed.

Lemma span_le d l : (span d l ≤ length l)%nat.
Proof. induction l; simpl; [lia|]. case_decide; lia. Qed.

Lemma cspan_le d l : (cspan d l ≤ length l)%nat.
Proof. induction l; simpl; [lia|]. case_decide; lia. Qed.

(** What stops the two. *)
Lemma span_stop d l x r : drop (span d l) l = x :: r → x ≠ d.
Proof. induction l as [|y l IH]; simpl; [done|]. case_decide; [done|]. by intros [= -> _]. Qed.

Lemma cspan_stop d l x r : Forall (λ x, x ≠ 0) l → drop (cspan d l) l = x :: r → x = d.
Proof.
  induction 1 as [|y l Hy _ IH]; simpl; [done|]. case_decide; [|done]. intros [= -> _]. tauto.
Qed.

(** [strtok] on a buffer that holds the text [t] behind [p]. *)
Lemma strtok_none p t r :
  Forall (λ x, x ≠ 0) t → words t = [] →
  ∃ save, strtok_r (p ++ t ++ 0 :: r) (Z.of_nat (length p)) 32 = Ok (None, p ++ t ++ 0 :: r, save).
Proof.
  intros Ht Hw. unfold strtok_r. rewrite Nat2Z.id, drop_app_length, span_app by done.
  rewrite drop_app_le by apply span_le. pose proof (words_span t) as Hs. rewrite Hw in Hs.
  pose proof (span_stop 32 t) as Hstop.
  assert (Forall (λ x, x ≠ 0) (drop (span 32 t) t)) as Hd by by apply Forall_drop.
  destruct (drop (span 32 t) t) as [|x l] eqn:E; [by eexists|].
  rewrite words_cspan in Hs; [done|by eapply Hstop|done].
Qed.

Lemma leading_spaces t :
  ∃ sp t2, t = sp ++ t2 ∧ span 32 t = length sp ∧ (∀ x l, t2 = x :: l → x ≠ 32) ∧ words t2 = words t.
Proof.
  exists (take (span 32 t) t), (drop (span 32 t) t). rewrite take_drop, length_take.
  split_and!; [done|pose proof (span_le 32 t); lia|intros x l; apply span_stop|apply words_span].
Qed.

Lemma strtok_some p t r w ws :
  Forall (λ x, x ≠ 0) t → words t = w :: ws →
  ∃ pos p' t' r', strtok_r (p ++ t ++ 0 :: r) (Z.of_nat (length p)) 32 =
      Ok (Some pos, p' ++ t' ++ 0 :: r', Z.of_nat (length p')) ∧
    cstr (p' ++ t' ++ 0 :: r') pos = Ok w ∧ words t' = ws ∧ Forall (λ x, x ≠ 0) t' ∧
    (length t' < length t)%nat.
Proof.
  intros Ht Hw. destruct (leading_spaces t) as (sp & t2 & -> & Hsp & Hstop & Hw2). rewrite <- Hw2 in Hw.
  unfold strtok_r. rewrite Nat2Z.id, drop_app_length, span_app, Hsp, <- !(app_assoc sp), drop_app_length by done.
  replace (Z.of_nat (length p) + Z.of_nat (length sp)) with (Z.of_nat (length (p ++ sp))) by (rewrite length_app; lia).
  apply Forall_app in Ht as [_ Hd]. rewrite (length_app sp t2). destruct t2 as [|x l]; [done|].
  specialize (Hstop x l eq_refl). rewrite words_cspan in Hw by done.
  cbn [app]. rewrite decide_False by (by inversion_clear Hd).
  change (x :: l ++ 0 :: r) with ((x :: l) ++ 0 :: r). rewrite cspan_app, drop_app_le by apply cspan_le.
  pose proof (cspan_stop 32 (x :: l)) as Hcs. set (n := cspan 32 (x :: l)) in *.
  assert (w = take n (x :: l) ∧ ws = words (drop (S n) (x :: l))) as [-> ->] by (split; congruence). clear Hw.
  assert (p ++ sp ++ (x :: l) ++ 0 :: r = (p ++ sp) ++ take n (x :: l) ++ drop n (x :: l) ++ 0 :: r) as ->
    by (rewrite (assoc app (take n _)), take_drop, <- !(assoc app); done).
  assert (Z.of_nat (length (p ++ sp)) + Z.of_nat n = Z.of_nat (length ((p ++ sp) ++ take n (x :: l)))) as ->.
  { rewrite (length_app _ (take _ _)), length_take. pose proof (cspan_le 32 (x :: l)). subst n. lia. }
  assert (Forall (λ x, x ≠ 0) (take n (x :: l))) as Htok by by apply Forall_take.
  assert (Forall (λ x, x ≠ 0) (drop n (x :: l))) as Hrest by by apply Forall_drop.
  replace (drop (S n) (x :: l)) with (drop 1 (drop n (x :: l))) by (rewrite drop_drop; f_equal; lia).
  destruct (drop n (x :: l)) as [|y t'] eqn:E.
  - eexists _, ((p ++ sp) ++ take n (x :: l)), [], r. cbn [app]. rewrite <- (app_assoc (p ++ sp)).
    split; [done|]. split; [by apply cstr_app|]. split_and!; [done|done|simpl; lia].
  - rewrite (Hcs y t' Hd eq_refl). cbn [app]. rewrite decide_False by done. inversion_clear Hrest.
    eexists _, (((p ++ sp) ++ take n (x :: l)) ++ [0]), t', r. split; [|split; [|split_and!]].
    + rewrite Nat2Z.id. do 3 f_equal.
      * rewrite (assoc app (p ++ sp)), insert_app_r_alt, Nat.sub_diag by lia. simpl. by rewrite <- !(assoc app).
      * rewrite (length_app _ [0]). simpl. lia.
    + rewrite <- !(assoc app). cbn [app]. rewrite (assoc app p sp). by apply cstr_app.
    + done.
    + done.
    + apply (f_equal length) in E. rewrite length_drop in E. simpl in *. lia.
Qed.

(** The lines for the words from the [i]-th on; there are names for 52. *)
Fixpoint stat_lines (i : nat) (ws : list (list Z)) : outcome (list Z) :=
  match ws with
  | [] => Ok []
  | w :: ws =>
      match stats !! i with
      | Some n => rest ← stat_lines (S i) ws; Ok (n ++ bytes ": " ++ w ++ [10] ++ rest)
      | None => Fault OutOfBounds
      end
  end.

Lemma stat_lines_bound i ws :
  match stat_lines i ws with
  | Ok _ => (i + length ws ≤ 52)%nat ∨ ws = []
  | Fault f => f = OutOfBounds ∧ (52 < i + length ws)%nat
  end.
Proof.
  revert i. induction ws as [|w ws IH]; intros i; cbn [stat_lines length]; [by right|].
  destruct (stats !! i) as [n|] eqn:Hi.
  - apply lookup_lt_Some in Hi. change (length stats) with 52%nat in Hi. specialize (IH (S i)). unfold mbind, outcome_bind.
    destruct (stat_lines (S i) ws) as [rest|f]; [|destruct IH; split; [done|lia]].
    left. destruct IH as [| ->]; simpl; lia.
  - apply lookup_ge_None_1 in Hi. change (length stats) with 52%nat in Hi. split; [done|lia].
Qed.

(** The rest of a report, or the fault. *)
Definition appended (o : list Z) (r : outcome (list Z)) : outcome (unit * list Z) :=
  match r with Ok d => Ok (tt, o ++ d) | Fault f => Fault f end.

Lemma appended_app o d r : appended (o ++ d) r = appended o (r' ← r; Ok (d ++ r')).
Proof. destruct r; simpl; [by rewrite <- (assoc app)|done]. Qed.

Lemma stat_loop_ok fuel p t r i o :
  Forall (λ x, x ≠ 0) t → (length t + 2 ≤ fuel)%nat →
  match strtok_r (p ++ t ++ 0 :: r) (Z.of_nat (length p)) 32 with
  | Ok (pch, buf, save) => stat_loop fuel buf pch save i o = Some (appended o (stat_lines i (words t)))
  | Fault _ => False
  end.
Proof.
  revert p t r i o. induction fuel as [|fuel IH]; intros p t r i o Ht Hf; [lia|].
  destruct (words t) as [|w ws] eqn:Hw.
  - destruct (strtok_none p t r Ht Hw) as [save ->]. cbn [stat_loop stat_lines appended]. by rewrite app_nil_r.
  - destruct (strtok_some p t r w ws Ht Hw) as (pos & p' & t' & r' & -> & Hc & Hw' & Ht' & Hlt).
    cbn [stat_loop stat_lines]. unfold mbind, lprog_bind, now. destruct (stats !! i) as [n|]; [|done].
    unfold mret, prog_ret. cbn beta iota. unfold lift. rewrite Hc. unfold fprintf, modify. cbn beta iota.
    specialize (IH p' t' r' (S i) (o ++ n ++ bytes ": " ++ w ++ [10]) Ht' ltac:(lia)).
    destruct (strtok_r (p' ++ t' ++ 0 :: r') (Z.of_nat (length p')) 32) as [[[pch buf] save]|]; [|done].
    rewrite IH, Hw', appended_app. unfold mbind, outcome_bind. destruct (stat_lines (S i) ws); [|done].
    cbn [appended]. by rewrite <- !app_assoc.
Qed.

(** C17: the words of the status file appear in the report one to a line, each behind
    its name, exactly if there are no more than the 52 names; otherwise the program
    reads past the array of names. The text of a longer file is cut at 4096 bytes. *)
Theorem stat_report file fuel proc c o :
  file (proc_path proc (bytes "/stat")) = Some c → Forall (λ x, x ≠ 0) c → (4098 ≤ fuel)%nat →
  let ws := words (take (Z.to_nat BUF_SIZE) c) in
  let o' := o ++ bytes "===========" ++ [10] ++ bytes "STAT" ++ [10] in
  if decide (length ws ≤ 52)%nat then
    fprintf_stat file fuel proc o =
      Some (Ok (tt, o' ++ concat (zip_with (λ n w, n ++ bytes ": " ++ w ++ [10]) stats ws)))
  else fprintf_stat file fuel proc o = Some (Fault OutOfBounds).
Proof.
  intros Hc Hnz Hf ws o'. set (t := take (Z.to_nat BUF_SIZE) c).
  assert (fprintf_stat file fuel proc o = Some (appended o' (stat_lines 0 ws))) as ->.
  { unfold fprintf_stat, mbind, lprog_bind, now, fprintf, modify. erewrite fopen_ok by done.
    unfold lift. rewrite fread_ok by (unfold zeros; rewrite ?length_replicate; unfold BUF_SIZE; lia). cbn beta iota.
    fold t. assert (length t ≤ 4096)%nat as Ht by (subst t; rewrite length_take; unfold BUF_SIZE; lia).
    assert (∃ r, drop (length t) (zeros (BUF_SIZE + 1)) = 0 :: r) as [r ->].
    { unfold zeros. rewrite drop_replicate. change (Z.to_nat (BUF_SIZE + 1)) with (4097)%nat.
      replace (4097 - length t)%nat with (S (4096 - length t)) by lia. by eexists. }
    pose proof (stat_loop_ok fuel [] t r 0 o' ltac:(by apply Forall_take) ltac:(lia)) as Hl.
    cbn [app length] in Hl. change (Z.of_nat 0) with 0 in Hl.
    destruct (strtok_r (t ++ 0 :: r) 0 32) as [[[pch buf] save]|]; [exact Hl|done]. }
  pose proof (stat_lines_bound 0 ws) as Hb. case_decide as Hn.
  - assert (∀ i ws, (i + length ws ≤ 52)%nat → stat_lines i ws =
      Ok (concat (zip_with (λ n w, n ++ bytes ": " ++ w ++ [10]) (drop i stats) ws))) as Hall.
    { clear. intros i ws. revert i. induction ws as [|w ws IH]; intros i Hi; cbn [stat_lines].
      - by rewrite zip_with_nil_r.
      - destruct (lookup_lt_is_Some_2 stats i) as [n Hn]; [change (length stats) with 52%nat; simpl in Hi; lia|].
        rewrite Hn, IH by (simpl in Hi; lia). rewrite (drop_S _ _ _ Hn). unfold mbind, outcome_bind. cbn [zip_with concat]. by rewrite <- !app_assoc. }
    by rewrite Hall.
  - destruct (stat_lines 0 ws); [destruct Hb as [|Hb]; [lia|by rewrite Hb in Hn; simpl in Hn; lia]|by destruct Hb as [-> _]].
Qed.

(** A status line, and the same with a space in the name of the command. *)
Definition status (comm : string) : list Z := bytes "7 (" ++ bytes comm ++ bytes ") S" ++ concat (replicate 49 (bytes " 0")).

Lemma stat_report_witness :
  ∃ d, fprintf_stat (λ _, Some (status "sh")) 4098 (bytes "7") [] = Some (Ok (tt, d)) ∧
    fprintf_stat (λ _, Some (status "web content")) 4098 (bytes "7") [] = Some (Fault OutOfBounds).
Proof.
  assert (∀ s, bool_decide (Forall (λ x, x ≠ 0) (status s)) = true → Forall (λ x, x ≠ 0) (status s)) as Hnz
    by (intros s; apply bool_decide_eq_true).
  eexists. split.
  - refine (_ (stat_report (λ _, Some (status "sh")) 4098 (bytes "7") _ [] eq_refl (Hnz "sh"%string _) _));
      [|vm_compute; reflexivity|lia].
    cbn zeta. rewrite decide_True by (vm_compute; lia). intros H. exact H.
  - refine (_ (stat_report (λ _, Some (status "web content")) 4098 (bytes "7") _ [] eq_refl (Hnz "web content"%string _) _));
      [|vm_compute; reflexivity|lia].
    cbn zeta. rewrite decide_False by (vm_compute; lia). intros H. exact H.
Defined.

(** ** The page map *)

(** An entry as the kernel puts it together. *)
Definition page_entry (pfn dirty rest shared swapped present : Z) : Z :=
  pfn + 2 ^ 55 * dirty + 2 ^ 56 * rest + 2 ^ 61 * shared + 2 ^ 62 * swapped + 2 ^ 63 * present.

(** The five fields the program takes out of an entry are those it was put
    together from, whatever the bits in between. *)
Theorem page_fields_entry pfn dirty rest shared swapped present :
  0 ≤ pfn < 2 ^ 55 → 0 ≤ dirty < 2 → 0 ≤ rest < 2 ^ 5 → 0 ≤ shared < 2 → 0 ≤ swapped < 2 → 0 ≤ present < 2 →
  page_fields (page_entry pfn dirty rest shared swapped present) = [pfn; dirty; shared; swapped; present].
Proof.
  intros H1 H2 H3 H4 H5 H6. unfold page_fields. set (e := page_entry _ _ _ _ _ _).
  assert (∀ n, 0 ≤ n → Z.land (Z.shiftr e n) 1 = e / 2 ^ n mod 2) as Hbit.
  { intros n Hn. rewrite Z.shiftr_div_pow2 by done. change 1 with (Z.ones 1) at 1. by rewrite Z.land_ones. }
  rewrite !Hbit by lia. replace (Z.shiftl 1 55 - 1) with (Z.ones 55) by done. rewrite Z.land_ones by lia.
  subst e. unfold page_entry. repeat f_equal.
  all: change (2 ^ 55) with 36028797018963968 in *; change (2 ^ 56) with 72057594037927936 in *;
    change (2 ^ 61) with 2305843009213693952 in *; change (2 ^ 62) with 4611686018427387904 in *;
    change (2 ^ 63) with 9223372036854775808 in *; change (2 ^ 5) with 32 in *; Z.to_euclidean_division_equations; lia.
Qed.

Lemma page_fields_entry_witness : page_fields (page_entry 1234 1 21 0 0 1) = [1234; 1; 0; 0; 1].
Proof. refine (page_fields_entry 1234 1 21 0 0 1 _ _ _ _ _ _); lia. Defined.

(** ** Descriptors *)

(** The buffer that is not terminated: behind a shorter target the end of a longer
    one before it stays. *)
Fixpoint fd_lines (links : list (list Z * list Z)) (prev : list Z) : list Z :=
  match links with
  | [] => []
  | (n, t) :: links =>
      let s := t ++ drop (length t) prev in
      n ++ bytes " -> " ++ s ++ [10] ++ fd_lines links s
  end.

Lemma fd_loop_ok link fd_path links prev k o :
  (∀ n t, (n, t) ∈ links → ¬ special n ∧ link (take (Z.to_nat (BUF_SIZE - 1)) (fd_path ++ [47] ++ n)) = Some t ∧
     Forall (λ x, x ≠ 0) t ∧ Z.of_nat (length t) < BUF_SIZE) →
  Forall (λ x, x ≠ 0) prev → Z.of_nat (length prev + S k) = BUF_SIZE →
  fd_loop link links.*1 fd_path (prev ++ replicate (S k) 0) o = Ok (tt, o ++ fd_lines links prev).
Proof.
  revert prev k o. induction links as [|[n t] links IH]; intros prev k o Hl Hp Hk.
  { simpl. by rewrite app_nil_r. }
  destruct (Hl n t) as (Hn & Ht & Hnz & Hlen); [set_solver|].
  cbn [fmap list_fmap fst fd_loop]. rewrite decide_False by done. unfold mbind, prog_bind, lift, readlink. rewrite Ht.
  rewrite take_ge by lia. set (s := t ++ drop (length t) prev).
  assert (∃ k', bwrite (prev ++ replicate (S k) 0) 0 t = Ok (s ++ replicate (S k') 0) ∧
    Z.of_nat (length s + S k') = BUF_SIZE) as (k' & -> & Hk').
  { unfold bwrite. rewrite decide_True by (rewrite length_app, length_replicate; lia). cbn [take app Z.to_nat].
    change (Z.to_nat 0 + length t)%nat with (length t). rewrite drop_app, drop_replicate.
    exists (k - (length t - length prev))%nat. subst s. rewrite length_app, length_drop, <- (assoc app).
    split; [|lia].
    by replace (S k - (length t - length prev))%nat with (S (k - (length t - length prev))) by lia. }
  assert (Forall (λ x, x ≠ 0) s) as Hs by (subst s; apply Forall_app; split; [done|by apply Forall_drop]).
  pose proof (cstr_app [] s (replicate k' 0) 0 eq_refl Hs) as Hc. cbn [app] in Hc.
  change (replicate (S k') 0) with (0 :: replicate k' 0). rewrite Hc. unfold fprintf, modify.
  change (0 :: replicate k' 0) with (replicate (S k') 0). rewrite IH; [|set_solver|done|done].
  cbn [fd_lines]. fold s. by rewrite <- !app_assoc.
Qed.

(** The links of the open descriptors are listed in the order of the directory,
    but the buffer is not terminated after [readlink]: each target that is shorter
    than one before it is printed with the end of that one behind it. *)
Theorem fd_report dir link proc links o :
  dir (proc_path proc (bytes "/fd")) = Some ([46] :: [46; 46] :: links.*1) →
  (∀ n t, (n, t) ∈ links → ¬ special n ∧
     link (take (Z.to_nat (BUF_SIZE - 1)) (proc_path proc (bytes "/fd") ++ [47] ++ n)) = Some t ∧
     Forall (λ x, x ≠ 0) t ∧ Z.of_nat (length t) < BUF_SIZE) →
  fprintf_fd dir link proc o = Ok (tt, o ++ bytes "FD" ++ [10] ++ fd_lines links []).
Proof.
  intros Hd Hl. unfold fprintf_fd, mbind, prog_bind, fprintf, modify, opendir. rewrite Hd.
  unfold mret, prog_ret. cbn [fd_loop]. rewrite decide_True by (by left). rewrite decide_True by (by right).
  unfold zeros. change (Z.to_nat BUF_SIZE) with (S 4095).
  pose proof (fd_loop_ok link (proc_path proc (bytes "/fd")) links [] 4095 (o ++ bytes "FD" ++ [10]) Hl) as H.
  cbn [app] in H. cbn zeta. etrans; [apply H; [done|done]|]. by rewrite <- !app_assoc.
Qed.

Definition two_links : list (list Z * list Z) := [(bytes "0", bytes "/dev/pts/0"); (bytes "1", bytes "/tmp/x")].

Lemma fd_report_witness :
  fprintf_fd (λ _, Some ([46] :: [46; 46] :: two_links.*1))
    (λ p, if decide (p = bytes "/proc/7/fd/0") then Some (bytes "/dev/pts/0") else Some (bytes "/tmp/x")) (bytes "7") [] =
  Ok (tt, bytes "FD" ++ [10] ++ bytes "0 -> /dev/pts/0" ++ [10] ++ bytes "1 -> /tmp/xts/0" ++ [10]).
Proof.
  refine (fd_report (λ _, Some ([46] :: [46; 46] :: two_links.*1)) _ (bytes "7") two_links [] eq_refl _).
  intros n t Hin. repeat (apply elem_of_cons in Hin as [[= -> ->]|Hin]); [..|by apply not_elem_of_nil in Hin].
  all: split; [intros [E|E]; done|]; split; [reflexivity|]; split; [|reflexivity].
  all: decided.
Defined.

(** ** The memory map *)

(** A region: its bounds and the text behind them; and the line the kernel prints. *)
Record region := Region { r_start : Z; r_end : Z; r_text : list Z }.
Definition pad0 (n : nat) (s : list Z) : list Z := replicate (n - length s) 48 ++ s.
Definition region_line (r : region) : list Z :=
  pad0 8 (hex (r_start r)) ++ 45 :: pad0 8 (hex (r_end r)) ++ 32 :: r_text r ++ [10].
(** An address has 64 bits; no region lies in both halves of the addresses. *)
Definition region_ok (r : region) : Prop :=
  0 ≤ r_start r ≤ r_end r ∧ (r_end r < 2 ^ 63 ∨ 2 ^ 63 ≤ r_start r ∧ r_end r < 2 ^ 64) ∧ Forall (λ x, x ≠ 0 ∧ x ≠ 10) (r_text r).
Definition region_size (r : region) : Z := r_end r - r_start r.
Definition map_size (rs : list region) : Z := foldr Z.add 0 (region_size <$> rs).

Lemma hex_digit_digit d : 0 ≤ d < 16 → hex_digit (digit d) = Some d.
Proof.
  intros Hd. unfold hex_digit, digit. destruct (decide (d < 10)).
  - rewrite decide_True by lia. f_equal. lia.
  - rewrite decide_False, decide_True by lia. f_equal. lia.
Qed.

(** Reading back the digits of a number. *)
Lemma hex_digits_digits fuel n acc l :
  0 ≤ n < 16 ^ Z.of_nat fuel →
  ∃ k, hex_digits acc (digits fuel 16 n ++ l) = hex_digits (acc * 16 ^ k + n) l ∧ 0 ≤ k.
Proof.
  revert n acc l. induction fuel as [|fuel IH]; intros n acc l Hn; [change (16 ^ Z.of_nat 0) with 1 in Hn|]; cbn [digits].
  { exists 0. assert (n = 0) as -> by lia. split; [|lia]. cbn [app]. f_equal. lia. }
  rewrite Nat2Z.inj_succ, Z.pow_succ_r in Hn by lia. case_decide.
  - exists 1. cbn [app hex_digits]. rewrite hex_digit_digit by lia. split; [rewrite Z.pow_1_r; f_equal; lia|lia].
  - destruct (IH (n / 16) acc (digit (n mod 16) :: l)) as (k & Hk & H0).
    { split; [apply Z.div_pos; lia|apply Z.div_lt_upper_bound; lia]. }
    exists (k + 1). rewrite <- app_assoc. cbn [app]. rewrite Hk. cbn [hex_digits].
    rewrite hex_digit_digit by (apply Z.mod_pos_bound; lia). split; [|lia].
    f_equal. rewrite Z.pow_add_r by lia. change (16 ^ 1) with 16. pose proof (Z.div_mod n 16 ltac:(done)).
    generalize (16 ^ k) as z. intros z. nia.
Qed.

Lemma hex_digits_zeros k l : hex_digits 0 (replicate k 48 ++ l) = hex_digits 0 l.
Proof. induction k as [|k IH]; [done|]. exact IH. Qed.

Lemma digits_hex fuel n : 0 ≤ n → Forall (λ c, is_Some (hex_digit c)) (digits fuel 16 n).
Proof.
  revert n. induction fuel as [|fuel IH]; intros n Hn; [constructor|]. cbn [digits]. case_decide.
  - constructor; [|done]. rewrite hex_digit_digit by lia. by eexists.
  - apply Forall_app. split; [apply IH, Z.div_pos; lia|]. constructor; [|done].
    rewrite hex_digit_digit by (apply Z.mod_pos_bound; lia). by eexists.
Qed.

Lemma pad0_hex n : 0 ≤ n → Forall (λ c, is_Some (hex_digit c)) (pad0 8 (hex n)) ∧ pad0 8 (hex n) ≠ [].
Proof.
  intros Hn. split.
  - apply Forall_app. split; [|by apply digits_hex]. apply Forall_replicate. by eexists.
  - unfold pad0. destruct (hex n) as [|x s]; [done|]. by intros [_ [=]]%app_nil.
Qed.

Lemma scan_pad0 n x l :
  0 ≤ n < 2 ^ 64 → hex_digit x = None → scan_lx (pad0 8 (hex n) ++ x :: l) = Some (n, x :: l).
Proof.
  intros Hn Hx. destruct (pad0_hex n) as [Hall Hne]; [lia|].
  assert (hex_digits 0 (pad0 8 (hex n) ++ x :: l) = (n, x :: l)) as Hd.
  { unfold pad0. rewrite <- app_assoc, hex_digits_zeros. unfold hex.
    destruct (hex_digits_digits 20 n 0 (x :: l)) as (k & -> & _); [change (16 ^ Z.of_nat 20) with (2 ^ 80); lia|].
    rewrite Z.mul_0_l. simpl. by rewrite Hx. }
  revert Hd. destruct (pad0 8 (hex n)) as [|c s]; [done|]. cbn [app]. inversion_clear Hall as [|? ? [d Hc] _].
  unfold scan_lx. cbn [span].
  destruct (decide (c = 32)) as [->|_]; [done|]. cbn [drop hex_digits]. rewrite Hc.
  replace (16 * 0 + d) with d by lia. by intros ->.
Qed.

Lemma scan_region r a b :
  region_ok r → scan_range (region_line r) a b = (Some (int64 (r_start r)), Some (int64 (r_end r))).
Proof.
  intros ([H1 H2] & H3 & _). unfold scan_range, region_line. rewrite scan_pad0 by (done || lia).
  cbn beta iota. by rewrite scan_pad0 by (done || lia).
Qed.

(** The size of a region is the difference of its bounds as longs. *)
Lemma region_size_long r :
  region_ok r → int64 (r_end r) - int64 (r_start r) = region_size r ∧ 0 ≤ region_size r < 2 ^ 63.
Proof.
  intros ([H1 H2] & H3 & _). unfold region_size, int64.
  change (2 ^ 64) with 18446744073709551616 in *. change (2 ^ 63) with 9223372036854775808 in *.
  Z.to_euclidean_division_equations. lia.
Qed.

Lemma hex_digit_not c : is_Some (hex_digit c) → c ≠ 0 ∧ c ≠ 10.
Proof. intros [d H]. split; intros ->; done. Qed.

(** A line of the map is a line. *)
Lemma region_line_of r l : region_ok r → line_of (region_line r ++ l) = (region_line r, l) ∧ Forall (λ x, x ≠ 0) (region_line r).
Proof.
  intros ([H1 H2] & H3 & Ht).
  assert (∃ s, region_line r = s ++ [10] ∧ Forall (λ x, x ≠ 0 ∧ x ≠ 10) s) as (s & -> & Hs).
  { exists (pad0 8 (hex (r_start r)) ++ 45 :: pad0 8 (hex (r_end r)) ++ 32 :: r_text r).
    unfold region_line. split; [by rewrite <- !app_assoc; cbn [app]; rewrite <- app_assoc|].
    destruct (pad0_hex (r_start r)) as [Ha _]; [lia|]. destruct (pad0_hex (r_end r)) as [Hb _]; [lia|].
    apply Forall_app. split; [by eapply Forall_impl; [exact Ha|apply hex_digit_not]|]. constructor; [done|].
    apply Forall_app. split; [by eapply Forall_impl; [exact Hb|apply hex_digit_not]|]. by constructor. }
  split.
  - rewrite <- app_assoc. cbn [app]. induction Hs as [|x s [_ Hx] _ IH]; [done|]. cbn [app line_of]. rewrite decide_False by done.
    by rewrite IH.
  - apply Forall_app. split; [|by constructor]. eapply Forall_impl; [exact Hs|]. by intros x [].
Qed.

(** What the report has for a region. *)
Definition region_report (r : region) : list Z :=
  pad 8 (dec (region_size r)) ++ bytes "   " ++ pad 4 (dec (region_size r ÷ 4096)) ++ bytes "   " ++ region_line r.

Lemma int64_small x : 0 ≤ x < 2 ^ 63 → int64 x = x.
Proof. intros Hx. unfold int64. rewrite Z.mod_small; lia. Qed.

(** A round for a line. *)
Lemma maps_loop_line fuel buf r l a b total o :
  buf ≠ StrayPtr → region_ok r → 0 ≤ total → total + region_size r < 2 ^ 63 →
  maps_loop (S fuel) buf (region_line r ++ l) a b total o =
    maps_loop fuel (LinePtr (region_line r)) l (Some (int64 (r_start r))) (Some (int64 (r_end r)))
      (total + region_size r) (o ++ region_report r).
Proof.
  intros Hbuf Hr Ht Hmax. destruct (region_line_of r l Hr) as [Hline Hnz].
  assert (∃ x l', region_line r = x :: l') as (x & l' & Hx).
  { unfold region_line, pad0. destruct (replicate _ _ ++ hex (r_start r)); by eexists _, _. }
  assert (getline buf (region_line r ++ l) = Ok (LinePtr (region_line r), Z.of_nat (length (region_line r)), l)) as Hget.
  { unfold getline. rewrite Hline. destruct buf; [|done|]; by rewrite Hx. }
  cbn [maps_loop]. unfold mbind, lprog_bind, now, lift. rewrite Hget. cbn beta iota.
  rewrite decide_True by (rewrite Hx; simpl; lia). unfold line_text.
  pose proof (cstr_app [] (region_line r) [] 0 eq_refl Hnz) as Hc. cbn [app] in Hc.
  rewrite Hc, scan_region by done. unfold mret, prog_ret, fprintf, modify. cbn beta iota.
  destruct (region_size_long r Hr) as [-> Hs]. by rewrite (int64_small (region_size r)), (int64_small (total + _)) by lia.
Qed.

Lemma map_size_pos rs : Forall region_ok rs → 0 ≤ map_size rs.
Proof.
  induction 1 as [|r rs Hr _ IH]; [done|]. apply region_size_long in Hr as [_ Hr].
  change (map_size (r :: rs)) with (region_size r + map_size rs). lia.
Qed.

Lemma maps_loop_ok fuel buf rs a b total o :
  Forall region_ok rs → buf ≠ StrayPtr → 0 ≤ total → total + map_size rs < 2 ^ 63 → (length rs < fuel)%nat →
  maps_loop fuel buf (concat (region_line <$> rs)) a b total o =
    Some (Ok (total + map_size rs, o ++ concat (region_report <$> rs))).
Proof.
  intros Hrs. revert fuel buf a b total o.
  induction Hrs as [|r rs Hr Hrs IH]; intros fuel buf a b total o Hbuf Ht Hmax Hf;
    (destruct fuel as [|fuel]; [simpl in Hf; lia|]); cbn [fmap list_fmap concat].
  { cbn [map_size fmap list_fmap foldr]. rewrite Z.add_0_r, app_nil_r. by destruct buf. }
  change (map_size (r :: rs)) with (region_size r + map_size rs) in *.
  pose proof (map_size_pos rs Hrs). destruct (region_size_long r Hr) as [_ Hs].
  rewrite maps_loop_line by (done || lia). cbn [fmap] in IH. rewrite IH; [|done|lia|lia|simpl in Hf; lia].
  by rewrite Z.add_assoc, <- app_assoc.
Qed.

(** C16: for a memory map as the kernel prints it, with addresses of 64 bits, the report has
    every line of the map behind the size of its region in bytes and in pages, and at
    the end the size of the whole map, as long as that is less than 2^63 bytes and the
    pointer for the lines, which is not initialised, happens to be NULL. With any other
    value in it [getline] is given a pointer that was never stored, whatever the map.
    A round more than there are lines is enough. *)
Theorem maps_report file fuel buf proc rs o :
  file (proc_path proc (bytes "/maps")) = Some (concat (region_line <$> rs)) →
  Forall region_ok rs → map_size rs < 2 ^ 63 → (length rs < fuel)%nat →
  (buf = NullPtr → fprintf_maps file fuel buf proc o = Some (Ok (tt,
    o ++ bytes "MAPS" ++ [10] ++ maps_title ++ concat (region_report <$> rs) ++
    bytes "Size bytes: " ++ dec (map_size rs) ++ [10] ++
    bytes "Size pages: " ++ dec (map_size rs ÷ 4096) ++ [10]))) ∧
  (buf = StrayPtr → fprintf_maps file fuel buf proc o = Some (Fault Uninit)).
Proof.
  intros Hfile Hrs Hmax Hf. unfold fprintf_maps, mbind, lprog_bind, now, fprintf, modify.
  rewrite (fopen_ok _ _ _ _ Hfile). split; intros ->.
  - rewrite maps_loop_ok by (done || lia). rewrite Z.add_0_l. by rewrite <- !app_assoc.
  - destruct fuel as [|fuel]; [lia|done].
Qed.

Definition dash : list region :=
  [Region 0x400000 0x41c000 (bytes "r-xp 00000000 08:02 1 /bin/dash"); Region 0x7ffe0000 0x7ffe2000 (bytes "rw-p [stack]");
   Region 0xffffffffff600000 0xffffffffff601000 (bytes "--xp 00000000 00:00 0 [vsyscall]")].

Lemma maps_report_witness :
  (∃ d, fprintf_maps (λ _, Some (concat (region_line <$> dash))) 4 NullPtr (bytes "7") [] = Some (Ok (tt, d)) ∧
    map_size dash = 126976) ∧
  fprintf_maps (λ _, Some (concat (region_line <$> dash))) 4 StrayPtr (bytes "7") [] = Some (Fault Uninit).
Proof.
  assert (Forall region_ok dash) as Hok.
  { repeat constructor; simpl; try lia; decided. }
  assert (map_size dash < 2 ^ 63) as Hm by (vm_compute; reflexivity).
  assert ((length dash < 4)%nat) as Hl by (simpl; lia). split.
  - eexists. split; [|reflexivity].
    exact (proj1 (maps_report (λ _, Some (concat (region_line <$> dash))) 4 NullPtr (bytes "7") dash [] eq_refl Hok Hm Hl) eq_refl).
  - exact (proj2 (maps_report (λ _, Some (concat (region_line <$> dash))) 4 StrayPtr (bytes "7") dash [] eq_refl Hok Hm Hl) eq_refl).
Defined.

(** ** Files printed as one string *)

(** Of the command line only what is before the first zero is printed: the name of
    the program without its arguments. *)
Lemma whole_report file title rest proc c o s :
  file (proc_path proc (bytes rest)) = Some c →
  until_nul (take (Z.to_nat BUF_SIZE) c ++ [0]) = Some s →
  fprintf_whole file title rest proc o = Ok (tt, o ++ bytes title ++ [10] ++ s ++ [10]).
Proof.
  intros Hc Hs. unfold fprintf_whole, mbind, prog_bind, fprintf, modify. rewrite (fopen_ok _ _ _ _ Hc).
  unfold lift. rewrite fread_ok by (unfold zeros; rewrite ?length_replicate; unfold BUF_SIZE; lia). cbn beta iota.
  set (t := take _ c) in *. assert (length t ≤ 4096)%nat as Ht by (subst t; rewrite length_take; unfold BUF_SIZE; lia).
  assert (∃ r, drop (length t) (zeros (BUF_SIZE + 1)) = 0 :: r) as [r ->].
  { unfold zeros. rewrite drop_replicate. change (Z.to_nat (BUF_SIZE + 1)) with (4097)%nat.
    replace (4097 - length t)%nat with (S (4096 - length t)) by lia. by eexists. }
  unfold bput. rewrite decide_True by (rewrite length_app; simpl; lia).
  rewrite Nat2Z.id, insert_app_r_alt, Nat.sub_diag by lia. cbn [insert list_insert].
  unfold cstr. rewrite decide_True by done. change (drop (Z.to_nat 0) (t ++ 0 :: r)) with (t ++ 0 :: r).
  change (0 :: r) with ([0] ++ r). rewrite (app_assoc t), (until_nul_prefix _ _ _ Hs). by rewrite <- !app_assoc.
Qed.

Example cmdline_first_word :
  fprintf_cmdline (λ _, Some (bytes "ls" ++ [0] ++ bytes "-l" ++ [0])) (bytes "7") [] =
    Ok (tt, bytes "CMDLINE" ++ [10] ++ bytes "ls" ++ [10]).
Proof. apply (whole_report _ "CMDLINE" "/cmdline" (bytes "7") (bytes "ls" ++ [0] ++ bytes "-l" ++ [0]) []); reflexivity. Qed.
