(* ===== verification/Text.v ===== *)
(** * Text in buffers

    What the programs store with [strcpy] and [sprintf]: texts with a zero behind them,
    and numbers in decimal. *)

From S2P Require Import Prelude.
From stdpp Require Import options.
#[local] Set Default Proof Using "Type*".
Local Open Scope Z_scope.

#[local] Arguments replicate : simpl never.
#[local] Arguments dec : simpl never.

(** [strcpy], [sprintf] into an array: a text and a zero. *)
Definition strcpy (b s : list Z) : outcome (list Z) := bwrite b 0 (s ++ [0]).

(** ** Numbers as text *)

Lemma length_digits fuel b n k :
  1 < b → 0 ≤ n < b ^ Z.of_nat k → (0 < k)%nat → (length (digits fuel b n) ≤ k)%nat.
Proof.
  intros Hb. revert n k. induction fuel as [|fuel IH]; intros n k Hn Hk; cbn [digits]; [simpl; lia|].
  case_decide; [simpl; lia|]. destruct k as [|k]; [lia|]. rewrite Nat2Z.inj_succ, Z.pow_succ_r in Hn by lia.
  destruct (decide (k = 0)%nat) as [->|]; [change (b ^ Z.of_nat 0) with 1 in Hn; lia|].
  rewrite length_app. cbn [length]. specialize (IH (n / b) k).
  assert (0 ≤ n / b < b ^ Z.of_nat k) by (split; [apply Z.div_pos; lia|apply Z.div_lt_upper_bound; lia]).
  specialize (IH ltac:(done) ltac:(lia)). lia.
Qed.

Lemma digits_nonzero fuel n : 0 ≤ n → Forall (λ x, x ≠ 0) (digits fuel 10 n).
Proof.
  revert n. induction fuel as [|fuel IH]; intros n Hn; cbn [digits]; [constructor|].
  assert (∀ d, 0 ≤ d → digit d ≠ 0) as Hd by (intros d Hd; unfold digit; destruct (decide (d < 10)); lia).
  case_decide; [by constructor; [apply Hd|]|]. apply Forall_app. split; [apply IH, Z.div_pos; lia|].
  constructor; [apply Hd, Z.mod_pos_bound; lia|done].
Qed.

Lemma dec_nonzero n : 0 ≤ n → Forall (λ x, x ≠ 0) (dec n).
Proof. intros Hn. unfold dec. rewrite decide_False by lia. by apply digits_nonzero. Qed.

Lemma length_dec n k : 0 ≤ n < 10 ^ Z.of_nat k → (0 < k)%nat → (length (dec n) ≤ k)%nat.
Proof. intros Hn Hk. unfold dec. rewrite decide_False by lia. by apply length_digits. Qed.

(** A number of few digits is small. *)
Lemma digits_short fuel n k :
  0 ≤ n → n < 10 ^ Z.of_nat fuel → (length (digits fuel 10 n) ≤ k)%nat → n < 10 ^ Z.of_nat k.
Proof.
  revert n k. induction fuel as [|fuel IH]; intros n k Hn Hmax; cbn [digits]; [intros _|].
  - change (10 ^ Z.of_nat 0) with 1 in Hmax. pose proof (Z.pow_pos_nonneg 10 (Z.of_nat k)). lia.
  - rewrite Nat2Z.inj_succ, Z.pow_succ_r in Hmax by lia. case_decide.
    + simpl. intros Hk. destruct k as [|k]; [lia|]. rewrite Nat2Z.inj_succ, Z.pow_succ_r by lia.
      pose proof (Z.pow_pos_nonneg 10 (Z.of_nat k)). lia.
    + rewrite length_app. cbn [length]. intros Hk. destruct k as [|k]; [lia|].
      rewrite Nat2Z.inj_succ, Z.pow_succ_r by lia. specialize (IH (n / 10) k).
      assert (n / 10 < 10 ^ Z.of_nat k).
      { apply IH; [apply Z.div_pos; lia|apply Z.div_lt_upper_bound; lia|lia]. }
      pose proof (Z.div_mod n 10 ltac:(lia)). pose proof (Z.mod_pos_bound n 10 ltac:(lia)). lia.
Qed.

Lemma dec_short n k : 0 ≤ n < 10 ^ 20 → (length (dec n) ≤ k)%nat → n < 10 ^ Z.of_nat k.
Proof. intros Hn. unfold dec. rewrite decide_False by lia. apply digits_short; lia. Qed.

(** ** Buffers *)

(** Storing at the start. *)
Lemma bwrite_start b d :
  (length d ≤ length b)%nat → bwrite b 0 d = Ok (d ++ drop (length d) b).
Proof. intros H. unfold bwrite. by rewrite decide_True by lia. Qed.

(** A text and its zero, and reading it back. *)
Lemma strcpy_ok b s :
  (length s < length b)%nat → Forall (λ x, x ≠ 0) s →
  ∃ r, strcpy b s = Ok (s ++ 0 :: r) ∧ cstr (s ++ 0 :: r) 0 = Ok s ∧ (length s + S (length r) = length b)%nat.
Proof.
  intros Hl Hs. unfold strcpy. rewrite bwrite_start by (rewrite length_app; simpl; lia).
  exists (drop (length (s ++ [0])) b). rewrite <- app_assoc. split; [done|]. split; [by apply (cstr_app [])|].
  rewrite length_drop, length_app. simpl. lia.
Qed.

Lemma strcpy_overflow b s : (length b ≤ length s)%nat → strcpy b s = Fault OutOfBounds.
Proof. intros Hl. unfold strcpy, bwrite. rewrite decide_False; [done|]. rewrite length_app. simpl. lia. Qed.

Lemma bread_text s r n : n = Z.of_nat (length s) → bread (s ++ r) 0 n = Ok s.
Proof.
  intros ->. unfold bread. rewrite decide_True by (rewrite length_app; lia).
  rewrite Nat2Z.id. change (drop (Z.to_nat 0) (s ++ r)) with (s ++ r). by rewrite take_app_length.
Qed.

(** A message is stored and read back. *)
Lemma bwrite_message (b m : list Z) :
  (length m < length b)%nat → bwrite b 0 (m ++ [0]) = Ok ((m ++ [0]) ++ drop (length m + 1) b).
Proof. intros H. unfold bwrite. rewrite length_app. simpl. by rewrite decide_True by lia. Qed.

Lemma cstr_message (m r : list Z) : Forall (λ x, x ≠ 0) m → cstr ((m ++ [0]) ++ r) 0 = Ok m.
Proof. intros Hm. rewrite <- app_assoc. by apply (cstr_app []). Qed.
