(* ===== verification/Dgram.v ===== *)
(** * Datagram servers and clients (2/client-sever/socket(..))

    A server that prints what it receives, one that answers, and their clients, over
    datagram sockets of the Unix domain. A datagram arrives whole and is cut to the
    size of the buffer; the address of its sender is cut to the size [recvfrom] is
    told, and the size it reports is that of the whole address. *)

From S2P Require Import Prelude Text.
From stdpp Require Import options.
#[local] Set Default Proof Using "Type*".
Local Open Scope Z_scope.

Definition BUFFER_SIZE : Z := 64.

(** The size of [sa_data] in [struct sockaddr]. *)
Definition SA_DATA : nat := 14.

(** The bytes of a [struct sockaddr] of family [AF_UNIX] (which is 1, in two bytes). *)
Definition sockaddr (sa_data : list Z) : list Z := [1; 0] ++ sa_data.

(** The address of a sender, as the kernel gives it: a socket that is bound has its name
    and a zero, one that is not has no address. *)
Definition bound_to (name : list Z) : list Z := sockaddr (name ++ [0]).
Definition unbound : list Z := [].

(** What a process prints, and the datagrams it sends with the bytes of the address it
    sends them to. *)
Record io := IO { printed : list Z; sent : list (list Z * list Z) }.
Definition no_io : io := IO [] [].
Definition printf (d : list Z) : prog io unit := modify (λ s, IO (printed s ++ d) (sent s)).
Definition sendto (to d : list Z) : prog io unit := modify (λ s, IO (printed s) (sent s ++ [(to, d)])).

(** Reading a datagram [d] into a buffer. *)
Definition recv (buf d : list Z) : outcome (list Z * Z) :=
  let d := take (Z.to_nat BUFFER_SIZE) d in
  buf ← bwrite buf 0 d; Ok (buf, Z.of_nat (length d)).

(** What [recvfrom] does to the object for the sender's address and to the variable for
    its size: of an address [from] no more is stored than the size says, and the size
    becomes that of [from]. *)
Definition recv_addr (addr : list Z) (addrlen : Z) (from : list Z) : outcome (list Z * Z) :=
  addr ← bwrite addr 0 (take (Z.to_nat addrlen) from); Ok (addr, Z.of_nat (length from)).

(** ** socket(send-receive) *)
Module SendReceive.
Definition SOCK_NAME : list Z := bytes "socket.socket".

(** One round of the server for the datagram it reads; [None] is an error, after
    which the server exits. [buf] is what the array held before. *)
Definition round (d : option (list Z)) (buf : list Z) : prog io (option (list Z)) :=
  match d with
  | None => mret None
  | Some d =>
      '(buf, bytes_read) ← lift (recv buf d);
      buf ← lift (bput buf bytes_read 0);
      s ← lift (cstr buf 0);
      printf (bytes "read: " ++ s ++ [10]);;
      mret (Some buf)
  end.

(** The rounds for a sequence of datagrams; the result is the exit status, if the
    server has exited. *)
Fixpoint rounds (ds : list (option (list Z))) (buf : list Z) : prog io (option Z) :=
  match ds with
  | [] => mret None
  | d :: ds => r ← round d buf; match r with Some buf => rounds ds buf | None => mret (Some 1) end
  end.

(** The server, up to the last of the datagrams: whether [socket], [bind] and
    [signal] succeed is given. *)
Definition server (ok_socket ok_bind ok_signal : bool) (stack : list Z) (ds : list (option (list Z))) : prog io (option Z) :=
  if ok_socket then
    _ ← lift (strcpy (replicate SA_DATA 0) SOCK_NAME);
    if ok_bind then if ok_signal then rounds ds stack else mret (Some 1) else mret (Some 1)
  else mret (Some 1).

Definition sigint_handler : prog io Z := printf (bytes "Server shutdown..." ++ [10]);; mret 0.

Definition client (ok_socket ok_sendto : bool) (pid : Z) (stack : list Z) : prog io Z :=
  if ok_socket then
    sa_data ← lift (strcpy (replicate SA_DATA 0) SOCK_NAME);
    buf ← lift (strcpy stack (dec pid));
    s ← lift (cstr buf 0);
    printf (bytes "send: " ++ s ++ [10]);;
    if ok_sendto then
      d ← lift (bread buf 0 (Z.of_nat (length s) + 1));
      sendto (sockaddr sa_data) d;; mret 0
    else mret 1
  else mret 1.
End SendReceive.

(** ** socket(send-receive-respond) *)
Module Respond.
Definition SOCKET : list Z := bytes "server.srv".

(** The variables of the server in the loop: its arrays, the address of the sender and
    the size of that address. *)
Record vars := Vars { buf : list Z; copy_buf : list Z; client_addr : list Z; addrlen : Z }.

(** One round of the server for the datagram [recvfrom] gives and its sender's address;
    [None] is an error, which is reported and passed over. *)
Definition round (pid : Z) (d : option (list Z * list Z)) (v : vars) : prog io vars :=
  '(v, bytes_read) ← (match d with
    | Some (from, d) =>
        '(b, n) ← lift (recv (buf v) d);
        '(addr, len) ← lift (recv_addr (client_addr v) (addrlen v) from);
        mret (Vars b (copy_buf v) addr len, n)
    | None => mret (v, -1) end);
  s ← lift (cstr (buf v) 0);
  printf (bytes "recv: " ++ s ++ [10]);;
  b ← lift (bput (buf v) bytes_read 0);
  s ← lift (cstr b 0);
  copy ← lift (strcpy (copy_buf v) (dec pid ++ bytes " --> " ++ s ++ [10]));
  c ← lift (cstr copy 0);
  printf (bytes "send: " ++ c ++ [10]);;
  d ← lift (bread copy 0 (Z.of_nat (length c) + 1));
  to ← lift (bread (client_addr v) 0 (addrlen v));
  sendto to d;;
  mret (Vars b copy (client_addr v) (addrlen v)).

Fixpoint rounds (pid : Z) (ds : list (option (list Z * list Z))) (v : vars) : prog io vars :=
  match ds with
  | [] => mret v
  | d :: ds => v ← round pid d v; rounds pid ds v
  end.

(** The size of [struct sockaddr]. *)
Definition sizeof_sockaddr : Z := 16.

(** [b], [c] and [addr] are what the arrays and [client_addr] held before. *)
Definition server (ok_socket ok_bind ok_signal : bool) (pid : Z) (b c addr : list Z)
    (ds : list (option (list Z * list Z))) : prog io (option Z) :=
  if ok_socket then
    _ ← lift (strcpy (replicate SA_DATA 0) SOCKET);
    if ok_bind then
      if ok_signal then _ ← rounds pid ds (Vars b c addr sizeof_sockaddr); mret None else mret (Some 1)
    else mret (Some 1)
  else mret (Some 1).

Definition sigint_handler : prog io Z := mret 0.

(** The name the client is bound to. *)
Definition client_name (pid : Z) : list Z := dec pid ++ bytes ".socket".

(** The client; [reply] is the datagram it reads. *)
Definition client (ok_socket ok_bind ok_sendto : bool) (pid : Z) (stack : list Z) (reply : option (list Z)) : prog io Z :=
  if ok_socket then
    sa_data ← lift (strcpy (replicate SA_DATA 0) SOCKET);
    _ ← lift (strcpy (replicate SA_DATA 0) (client_name pid));
    if ok_bind then
      buf ← lift (strcpy stack (dec pid));
      s ← lift (cstr buf 0);
      if ok_sendto then
        d ← lift (bread buf 0 (Z.of_nat (length s)));
        sendto (sockaddr sa_data) d;;
        printf (bytes "send: " ++ s ++ [10]);;
        match reply with
        | Some d =>
            '(buf, bytes_read) ← lift (recv buf d);
            buf ← lift (bput buf bytes_read 0);
            s ← lift (cstr buf 0);
            printf (bytes "read from: " ++ s ++ [10]);;
            mret 0
        | None => mret 1
        end
      else mret 1
    else mret 1
  else mret 1.
End Respond.
