(* ===== verification/DgramSpec.v ===== *)
(** * What the datagram programs guarantee *)

From S2P Require Import Prelude Text Dgram.
From stdpp Require Import options.
#[local] Set Default Proof Using "Type*".
Local Open Scope Z_scope.

#[local] Arguments replicate : simpl never.
#[local] Arguments dec : simpl never.

(** ** Buffers *)

Lemma recv_ok buf d :
  length buf = 64%nat → (length d < 64)%nat →
  recv buf d = Ok (d ++ drop (length d) buf, Z.of_nat (length d)).
Proof.
  intros Hb Hd. unfold recv. change (Z.to_nat BUFFER_SIZE) with 64%nat. rewrite take_ge by lia.
  rewrite bwrite_start by lia. done.
Qed.

(** The zero put behind what was received. *)
Lemma recv_terminated d r :
  (0 < length r)%nat → Forall (λ x, x ≠ 0) d →
  ∃ r', bput (d ++ r) (Z.of_nat (length d)) 0 = Ok (d ++ 0 :: r') ∧ cstr (d ++ 0 :: r') 0 = Ok d ∧
    S (length r') = length r ∧ (∀ k, drop (S k) r = drop k r').
Proof.
  intros Hr Hd. destruct r as [|x r]; [simpl in Hr; lia|]. exists r. unfold bput.
  rewrite decide_True by (rewrite length_app; simpl; lia). rewrite Nat2Z.id, insert_app_r_alt, Nat.sub_diag by lia.
  cbn [insert list_insert]. split; [done|]. split; [by apply (cstr_app [])|]. done.
Qed.

(** ** socket(send-receive) *)

Definition readable (d : list Z) : Prop := ∃ s r, d = s ++ r ∧ Forall (λ x, x ≠ 0) s ∧ (length d < 64)%nat ∧ (r = [] ∨ ∃ r', r = 0 :: r').
Definition text_of (d : list Z) : list Z := default [] (until_nul (d ++ [0])).

Lemma until_nul_text d r : until_nul (d ++ 0 :: r) = Some (text_of d).
Proof.
  unfold text_of. destruct (until_nul (d ++ [0])) as [s|] eqn:E; simpl.
  - change (0 :: r) with ([0] ++ r). rewrite app_assoc. by apply until_nul_prefix.
  - destruct (until_nul_in (d ++ [0])) as [s Hs]; [set_solver|]. congruence.
Qed.

Lemma cstr_text d r : cstr (d ++ 0 :: r) 0 = Ok (text_of d).
Proof. unfold cstr. rewrite decide_True by done. change (drop (Z.to_nat 0) ?l) with l. by rewrite until_nul_text. Qed.

Lemma send_receive_round d buf s :
  length buf = 64%nat → (length d < 64)%nat →
  ∃ buf', length buf' = 64%nat ∧
    SendReceive.round (Some d) buf s =
      Ok (Some buf', IO (printed s ++ bytes "read: " ++ text_of d ++ [10]) (sent s)).
Proof.
  intros Hb Hd. unfold SendReceive.round, mbind, prog_bind, lift. rewrite recv_ok by done. cbn beta iota.
  destruct (drop (length d) buf) as [|x r] eqn:E.
  { apply (f_equal length) in E. rewrite length_drop in E. simpl in E. lia. }
  unfold bput. rewrite decide_True by (rewrite length_app; simpl; lia).
  rewrite Nat2Z.id, insert_app_r_alt, Nat.sub_diag by lia. cbn [insert list_insert].
  rewrite cstr_text. exists (d ++ 0 :: r). split; [|done].
  apply (f_equal length) in E. rewrite length_drop in E. rewrite length_app. simpl in *. lia.
Qed.

(** A datagram that fills the buffer. *)
Lemma recv_full buf d :
  length buf = 64%nat → (64 ≤ length d)%nat →
  recv buf d = Ok (take 64 d, 64) ∧ bput (take 64 d) 64 0 = Fault OutOfBounds.
Proof.
  intros Hb Hd. assert (length (take 64 d) = 64%nat) as Hl by (rewrite length_take; lia). unfold recv.
  change (Z.to_nat BUFFER_SIZE) with 64%nat. rewrite bwrite_start by lia. unfold mbind, outcome_bind.
  rewrite Hl, drop_ge, app_nil_r by lia. split; [done|]. unfold bput. by rewrite Hl.
Qed.

(** The server prints the text of every datagram of less than 64 bytes, up to its
    first zero, in the order of arrival, whatever was in the buffer; what a client
    sends it prints as the client's pid. A datagram of 64 bytes or more makes it
    write past its buffer, an error of [read] makes it exit. *)
Theorem send_receive_session ds stack s :
  length stack = 64%nat → Forall (λ d, (length d < 64)%nat) ds →
  SendReceive.server true true true stack (Some <$> ds) s =
    Ok (None, IO (printed s ++ concat ((λ d, bytes "read: " ++ text_of d ++ [10]) <$> ds)) (sent s)) ∧
  (∀ d, (64 ≤ length d)%nat →
    SendReceive.server true true true stack ((Some <$> ds) ++ [Some d]) s = Fault OutOfBounds) ∧
  SendReceive.server true true true stack ((Some <$> ds) ++ [None]) s =
    Ok (Some 1, IO (printed s ++ concat ((λ d, bytes "read: " ++ text_of d ++ [10]) <$> ds)) (sent s)) ∧
  ∀ pid cstack s', 0 ≤ pid < 10 ^ 10 → length cstack = 64%nat →
    SendReceive.client true true pid cstack s' =
      Ok (0, IO (printed s' ++ bytes "send: " ++ dec pid ++ [10])
                (sent s' ++ [(bound_to SendReceive.SOCK_NAME, dec pid ++ [0])])) ∧ text_of (dec pid ++ [0]) = dec pid.
Proof.
  intros Hst Hds.
  assert (∀ l, ∃ buf, length buf = 64%nat ∧ SendReceive.rounds ((Some <$> ds) ++ l) stack s =
    SendReceive.rounds l buf (IO (printed s ++ concat ((λ d, bytes "read: " ++ text_of d ++ [10]) <$> ds)) (sent s))) as Hall.
  { intros l. revert stack Hst s. induction Hds as [|d ds Hd _ IH]; intros stack Hst s.
    - exists stack. split; [done|]. simpl. rewrite app_nil_r. by destruct s.
    - destruct (send_receive_round d stack s Hst Hd) as (buf' & Hb' & Hr).
      cbn [fmap list_fmap app SendReceive.rounds]. unfold mbind at 1, prog_bind at 1. rewrite Hr.
      destruct (IH buf' Hb' (IO (printed s ++ bytes "read: " ++ text_of d ++ [10]) (sent s))) as (buf & Hb & IH').
      exists buf. split; [done|]. cbn [fmap] in IH'. rewrite IH'. cbn [printed sent concat]. by rewrite <- !app_assoc. }
  unfold SendReceive.server, mbind, prog_bind, lift. change (strcpy (replicate SA_DATA 0) SendReceive.SOCK_NAME)
    with (Ok (SendReceive.SOCK_NAME ++ [0])). cbn beta iota. split_and!.
  - destruct (Hall []) as (buf & _ & Hr). rewrite app_nil_r in Hr. by rewrite Hr.
  - intros d Hd. destruct (Hall [Some d]) as (buf & Hb & ->). cbn [SendReceive.rounds].
    destruct (recv_full buf d Hb Hd) as [Hr Hp].
    unfold SendReceive.round, mbind, prog_bind, lift. rewrite Hr. cbn beta iota. by rewrite Hp.
  - by destruct (Hall [None]) as (buf & _ & ->).
  - intros pid cstack s' Hpid Hc. pose proof (dec_nonzero pid ltac:(lia)) as Hnz.
    pose proof (length_dec pid 10 Hpid ltac:(lia)) as Hlen. split.
    + unfold SendReceive.client, mbind, prog_bind, lift.
      change (strcpy (replicate SA_DATA 0) SendReceive.SOCK_NAME) with (Ok (SendReceive.SOCK_NAME ++ [0])).
      destruct (strcpy_ok cstack (dec pid)) as (r & -> & Hcs & _); [lia|done|]. rewrite Hcs. cbn [printf modify].
      unfold printf, modify. change (dec pid ++ 0 :: r) with (dec pid ++ [0] ++ r).
      rewrite (app_assoc (dec pid)), bread_text; [done|].
      rewrite length_app. simpl. lia.
    + unfold text_of. rewrite <- app_assoc. cbn [app]. by rewrite until_nul_app.
Qed.

Lemma send_receive_session_witness :
  SendReceive.server true true true (replicate 64 7) (Some <$> [bytes "12" ++ [0]; bytes "345" ++ [0]]) no_io =
    Ok (None, IO (bytes "read: 12" ++ [10] ++ bytes "read: 345" ++ [10]) []).
Proof.
  refine (proj1 (send_receive_session [bytes "12" ++ [0]; bytes "345" ++ [0]] (replicate 64 7) no_io eq_refl _)).
  decided.
Defined.

(** ** socket(send-receive-respond) *)

(** The answer to a datagram. *)
Definition answer (pid : Z) (d : list Z) : list Z := dec pid ++ bytes " --> " ++ d ++ [10].

(** Bytes stored over the start of others. *)
Definition overlay (w mem : list Z) : list Z := w ++ drop (length w) mem.

(** Where the answers go: the memory for the address and the size it is taken to have,
    for the addresses of the senders. *)
Fixpoint destinations (mem : list Z) (room : nat) (froms : list (list Z)) : list (list Z) :=
  match froms with
  | [] => []
  | a :: froms =>
      let mem := overlay (take room a) mem in
      take (length a) mem :: destinations mem (length a) froms
  end.

(** The addresses fit into what [recvfrom] is told to have for them. *)
Fixpoint fitting (room : nat) (froms : list (list Z)) : Prop :=
  match froms with [] => True | a :: froms => (length a ≤ room)%nat ∧ fitting (length a) froms end.

(** Addresses that are no longer than those before them are stored whole. *)
Lemma destinations_fitting mem room froms : fitting room froms → destinations mem room froms = froms.
Proof.
  revert mem room. induction froms as [|a froms IH]; intros mem room Hf; [done|]. destruct Hf as [Ha Hf].
  cbn [destinations]. rewrite (take_ge a) by done. f_equal; [apply take_app_length|by apply IH].
Qed.

(** The first address that is longer than the one before keeps the end that is there. *)
Lemma destinations_longer mem a b :
  (length a < length b ≤ 16)%nat → (length b ≤ length mem)%nat →
  destinations mem 16 [a; b] = [a; take (length a) b ++ take (length b - length a) (drop (length a) mem)].
Proof.
  intros Hab Hm. cbn [destinations]. rewrite (take_ge a) by lia. unfold overlay. rewrite take_app_length. do 2 f_equal.
  rewrite length_take, Nat.min_l by lia. rewrite drop_app_length.
  rewrite take_app_ge by (rewrite length_take; lia). f_equal. rewrite length_take, Nat.min_l by lia. done.
Qed.

Lemma length_overlay w mem : (length w ≤ length mem)%nat → length (overlay w mem) = length mem.
Proof. intros H. unfold overlay. rewrite length_app, length_drop. lia. Qed.

Lemma recv_addr_ok mem room from :
  (room ≤ length mem)%nat →
  recv_addr mem (Z.of_nat room) from = Ok (overlay (take room from) mem, Z.of_nat (length from)).
Proof.
  intros H. unfold recv_addr. rewrite Nat2Z.id, bwrite_start; [done|]. rewrite length_take. lia.
Qed.

(** The variables between the rounds: the arrays have their sizes, the last byte of
    the first is a zero, the size of the address is within the object. *)
Definition ready (v : Respond.vars) : Prop :=
  length (Respond.buf v) = 64%nat ∧ length (Respond.copy_buf v) = 64%nat ∧ last (Respond.buf v) = Some 0 ∧
  length (Respond.client_addr v) = 16%nat ∧ ∃ room, Respond.addrlen v = Z.of_nat room ∧ (room ≤ 16)%nat.

(** The text printed for a datagram: what is behind it in the buffer follows. *)
Lemma received_text buf d :
  length buf = 64%nat → (length d < 63)%nat → Forall (λ x, x ≠ 0) d → last buf = Some 0 →
  ∃ noise, cstr (d ++ drop (length d) buf) 0 = Ok (d ++ noise).
Proof.
  intros Hb Hd Hnz Hl. apply last_Some in Hl as [r0 ->]. rewrite length_app in Hb. simpl in Hb.
  rewrite drop_app_le by lia. exists (text_of (drop (length d) r0)).
  unfold cstr. rewrite decide_True by done. change (drop (Z.to_nat 0) ?l) with l.
  assert (until_nul (drop (length d) r0 ++ [0]) = Some (text_of (drop (length d) r0))) as E by apply until_nul_text.
  clear -Hnz E. revert E. generalize (drop (length d) r0) as r1. intros r1 E.
  induction Hnz as [|x d Hx _ IH]; cbn [app until_nul]; [by rewrite E|]. rewrite decide_False by done.
  destruct (until_nul (d ++ r1 ++ [0])) as [t|]; [|done]. by injection IH as ->.
Qed.

(** Behind the zero that is put after it the last byte stays. *)
Lemma received_terminated buf d :
  length buf = 64%nat → (length d < 63)%nat → Forall (λ x, x ≠ 0) d → last buf = Some 0 →
  ∃ r, bput (d ++ drop (length d) buf) (Z.of_nat (length d)) 0 = Ok (d ++ 0 :: r) ∧
    cstr (d ++ 0 :: r) 0 = Ok d ∧ length (d ++ 0 :: r) = 64%nat ∧ last (d ++ 0 :: r) = Some 0.
Proof.
  intros Hb Hd Hnz Hl. destruct (recv_terminated d (drop (length d) buf)) as (r & -> & Hc & Hr & Hk);
    [rewrite length_drop; lia|done|]. rewrite length_drop in Hr. exists r. split_and!; [done|done|rewrite length_app; simpl; lia|].
  apply last_Some in Hl as [r0 ->]. rewrite length_app in Hb, Hr. simpl in Hb, Hr. rewrite drop_app_le in Hk by lia.
  specialize (Hk (62 - length d)%nat). rewrite drop_app_ge in Hk by (rewrite length_drop; lia).
  rewrite length_drop in Hk. replace (S (62 - length d) - (length r0 - length d))%nat with 0%nat in Hk by lia.
  cbn [drop] in Hk. rewrite <- (take_drop (62 - length d) r), <- Hk. rewrite app_comm_cons, app_assoc. apply last_snoc.
Qed.

Lemma answer_nonzero pid d : 0 ≤ pid → Forall (λ x, x ≠ 0) d → Forall (λ x, x ≠ 0) (answer pid d).
Proof.
  intros Hp Hd. unfold answer. apply Forall_app. split; [by apply dec_nonzero|]. apply Forall_app.
  split; [decided|]. apply Forall_app. split; [done|by constructor].
Qed.

(** A round up to where the answer is sent. *)
Lemma respond_round pid from d v room s :
  ready v → Respond.addrlen v = Z.of_nat room → (room ≤ 16)%nat → (length d < 63)%nat → Forall (λ x, x ≠ 0) d → 0 ≤ pid →
  let mem := overlay (take room from) (Respond.client_addr v) in
  if decide (length (answer pid d) < 64)%nat then
    if decide (length from ≤ 16)%nat then
      ∃ buf' copy_buf' noise,
        Respond.round pid (Some (from, d)) v s =
          Ok (Respond.Vars buf' copy_buf' mem (Z.of_nat (length from)),
            IO (printed s ++ bytes "recv: " ++ d ++ noise ++ [10] ++ bytes "send: " ++ answer pid d ++ [10])
               (sent s ++ [(take (length from) mem, answer pid d ++ [0])])) ∧
        ready (Respond.Vars buf' copy_buf' mem (Z.of_nat (length from)))
    else Respond.round pid (Some (from, d)) v s = Fault OutOfBounds
  else Respond.round pid (Some (from, d)) v s = Fault OutOfBounds.
Proof.
  intros (Hb & Hcb & Hlast & Hca & _) Hroom Hr Hd Hnz Hpid. cbn zeta.
  unfold Respond.round, mbind, prog_bind, lift, mret, prog_ret.
  rewrite recv_ok by (done || lia). cbn beta iota. rewrite Hroom, recv_addr_ok by lia. cbn beta iota.
  cbn [Respond.buf Respond.copy_buf Respond.client_addr Respond.addrlen].
  destruct (received_text (Respond.buf v) d) as [noise ->]; [done..|]. unfold printf, modify. cbn beta iota.
  destruct (received_terminated (Respond.buf v) d) as (r & -> & -> & Hlen & Hl'); [done..|]. cbn beta iota.
  fold (answer pid d). pose proof (answer_nonzero pid d Hpid Hnz) as Hanz.
  destruct (decide (length (answer pid d) < 64)%nat) as [Ha|Ha]; [|by rewrite strcpy_overflow by lia].
  destruct (strcpy_ok (Respond.copy_buf v) (answer pid d)) as (rc & -> & -> & Hrc); [lia|done|]. cbn beta iota.
  change (answer pid d ++ 0 :: rc) with (answer pid d ++ [0] ++ rc). rewrite (app_assoc (answer pid d)), bread_text
    by (rewrite length_app; simpl; lia). cbn beta iota. unfold bread.
  set (mem := overlay _ _). assert (length mem = 16%nat) as Hm by (subst mem; rewrite length_overlay; rewrite ?length_take; lia).
  clearbody mem. rewrite Hm, Nat2Z.id. change (drop (Z.to_nat 0) mem) with mem.
  destruct (decide (length from ≤ 16)%nat); [rewrite decide_True by lia|by rewrite decide_False by lia].
  eexists _, _, noise. split; [unfold sendto, modify; cbn [printed sent]; rewrite <- !app_assoc; reflexivity|].
  split_and!; cbn; [done|rewrite !length_app; simpl; lia|done|done|by exists (length from)].
Qed.

(** A datagram the server can answer: its answer and its sender's address fit. *)
Definition answerable (pid : Z) (m : list Z * list Z) : Prop :=
  Forall (λ x, x ≠ 0) m.2 ∧ (length (answer pid m.2) < 64)%nat ∧ (length m.1 ≤ 16)%nat.

Lemma answer_length pid d : (length d < length (answer pid d))%nat ∧ (length d + 6 ≤ length (answer pid d))%nat.
Proof. unfold answer. rewrite !length_app. simpl. lia. Qed.

(** What is sent for datagrams that can be answered. *)
Definition answers (pid : Z) (mem : list Z) (room : nat) (ds : list (list Z * list Z)) : list (list Z * list Z) :=
  zip (destinations mem room ds.*1) ((λ m, answer pid m.2 ++ [0]) <$> ds).

Lemma respond_rounds pid ds v room s :
  ready v → Respond.addrlen v = Z.of_nat room → (room ≤ 16)%nat → 0 ≤ pid → Forall (answerable pid) ds →
  ∃ v' o, ready v' ∧ ∀ rest, Respond.rounds pid ((Some <$> ds) ++ rest) v s =
    Respond.rounds pid rest v' (IO o (sent s ++ answers pid (Respond.client_addr v) room ds)).
Proof.
  intros Hv Hroom Hr Hp Hds. revert v room s Hv Hroom Hr.
  induction Hds as [|[from d] ds (Hnz & Ha & Hf) _ IH]; intros v room s Hv Hroom Hr.
  - exists v, (printed s). split; [done|]. intros rest. unfold answers. simpl. rewrite app_nil_r. by destruct s.
  - simpl in Hnz, Ha, Hf. pose proof (answer_length pid d).
    pose proof (respond_round pid from d v room s Hv Hroom Hr ltac:(lia) Hnz Hp) as Hround. cbn zeta in Hround.
    rewrite !decide_True in Hround by done. destruct Hround as (b1 & c1 & noise & Hr1 & Hv1).
    destruct (IH _ (length from) (IO (printed s ++ bytes "recv: " ++ d ++ noise ++ [10] ++ bytes "send: " ++ answer pid d ++ [10])
      (sent s ++ [(take (length from) (overlay (take room from) (Respond.client_addr v)), answer pid d ++ [0])])) Hv1 eq_refl Hf)
      as (v2 & o & Hv2 & H2).
    exists v2, o. split; [done|]. intros rest. cbn [fmap list_fmap app Respond.rounds]. unfold mbind at 1, prog_bind at 1.
    rewrite Hr1. cbn [fmap] in H2. rewrite H2. do 2 f_equal. cbn [sent Respond.client_addr]. by rewrite <- app_assoc.
Qed.

(** The next round fails: an error of [recvfrom], an answer or an address that is too
    long. *)
Definition unanswerable (pid : Z) (m : option (list Z * list Z)) : Prop :=
  match m with
  | None => True
  | Some (from, d) => (length d < 63)%nat ∧ Forall (λ x, x ≠ 0) d ∧ ((64 ≤ length (answer pid d))%nat ∨ (16 < length from)%nat)
  end.

Lemma respond_round_fails pid m v s :
  ready v → 0 ≤ pid → unanswerable pid m → Respond.round pid m v s = Fault OutOfBounds.
Proof.
  intros Hv Hp Hm. destruct m as [[from d]|].
  - destruct Hm as (Hd & Hnz & Hbad). pose proof Hv as (_ & _ & _ & _ & room & Hroom & Hr).
    pose proof (respond_round pid from d v room s Hv Hroom Hr Hd Hnz Hp) as H. cbn zeta in H.
    destruct (decide _); [|done]. rewrite decide_False in H by lia. done.
  - destruct Hv as (Hb & _ & Hl & _). unfold Respond.round, mbind, prog_bind, lift, mret, prog_ret. cbn beta iota.
    assert (∃ t, cstr (Respond.buf v) 0 = Ok t) as [t ->].
    { unfold cstr. rewrite decide_True by done. change (drop (Z.to_nat 0) ?l) with l.
      destruct (until_nul_in (Respond.buf v)) as [t ->]; [|by exists t]. apply last_Some in Hl as [r ->]. set_solver. }
    done.
Qed.

(** C21: the answer to every datagram, in the order of arrival, is the pid of the server and
    the text, as long as the answers fit into 64 bytes and the addresses into the 16
    of [client_addr], and the buffer ended in a zero at the start. It is sent to the
    address that [client_addr] holds after [recvfrom] has stored as much of the
    sender's as the one before was long: to the sender if no address is longer than
    the one before, and else to the start of its address followed by what was in the
    memory. An error of [recvfrom] is not the end: the server goes on to write before
    its buffer; an answer that does not fit is written past the end of the other; an
    address that does not fit makes [sendto] read past [client_addr]. *)
Theorem respond_session pid ds buf copy_buf addr s :
  ready (Respond.Vars buf copy_buf addr Respond.sizeof_sockaddr) → 0 ≤ pid → Forall (answerable pid) ds →
  let server := Respond.server true true true pid buf copy_buf addr in
  (∃ o, server (Some <$> ds) s = Ok (None, IO o (sent s ++ answers pid addr 16 ds))) ∧
  (fitting 16 ds.*1 → answers pid addr 16 ds = (λ m, (m.1, answer pid m.2 ++ [0])) <$> ds) ∧
  (∀ a b, ds.*1 = [a; b] → (length a < length b)%nat →
    (answers pid addr 16 ds).*1 = [a; take (length a) b ++ take (length b - length a) (drop (length a) addr)]) ∧
  ∀ m, unanswerable pid m → server ((Some <$> ds) ++ [m]) s = Fault OutOfBounds.
Proof.
  intros Hv Hp Hds. cbn zeta. destruct (respond_rounds pid ds _ 16 s Hv eq_refl ltac:(lia) Hp Hds) as (v' & o & Hv' & Hall).
  unfold Respond.server, mbind, prog_bind, lift.
  change (strcpy (replicate SA_DATA 0) Respond.SOCKET) with (Ok (Respond.SOCKET ++ replicate 4 0)). cbn beta iota.
  split_and!.
  - specialize (Hall []). rewrite app_nil_r in Hall. rewrite Hall. by exists o.
  - intros Hf. unfold answers. rewrite destinations_fitting by done. clear. induction ds; by f_equal/=.
  - intros a b Hab Hlt. unfold answers. rewrite Hab. destruct Hv as (_ & _ & _ & Ha & _). cbn in Ha.
    assert (length b ≤ 16)%nat.
    { rewrite Forall_forall in Hds. assert (b ∈ ds.*1) as Hb by (rewrite Hab; set_solver).
      apply list_elem_of_fmap in Hb as ([? d] & -> & Hd). by apply Hds in Hd as (_ & _ & Hd). }
    rewrite destinations_longer by lia. apply fst_zip. apply (f_equal length) in Hab. rewrite length_fmap in Hab. by rewrite length_fmap, Hab.
  - intros m Hm. rewrite Hall. cbn [Respond.rounds]. unfold mbind, prog_bind.
    by rewrite (respond_round_fails pid m v') by done.
Qed.

(** The server answers 12 and 34; after 12 the answer to 3456 goes to a name that lacks
    its last letter. *)
Lemma respond_session_witness :
  (∃ o, Respond.server true true true 99 (replicate 64 0) (replicate 64 7) (replicate 16 0)
      (Some <$> [(bound_to (bytes "12.socket"), bytes "12"); (bound_to (bytes "34.socket"), bytes "34")]) no_io =
    Ok (None, IO o [(bound_to (bytes "12.socket"), bytes "99 --> 12" ++ [10; 0]);
                    (bound_to (bytes "34.socket"), bytes "99 --> 34" ++ [10; 0])])) ∧
  (answers 99 (replicate 16 0) 16
    [(bound_to (bytes "12.socket"), bytes "12"); (bound_to (bytes "3456.socket"), bytes "3456")]).*1 =
    [bound_to (bytes "12.socket"); bound_to (bytes "3456.socke") ++ [0]].
Proof.
  assert (ready (Respond.Vars (replicate 64 0) (replicate 64 7) (replicate 16 0) Respond.sizeof_sockaddr)) as Hv.
  { split_and!; [done..|]. by exists 16%nat. }
  assert (Forall (answerable 99) [(bound_to (bytes "12.socket"), bytes "12"); (bound_to (bytes "34.socket"), bytes "34")]) as H1.
  { repeat constructor; decided. }
  assert (Forall (answerable 99) [(bound_to (bytes "12.socket"), bytes "12"); (bound_to (bytes "3456.socket"), bytes "3456")]) as H2.
  { repeat constructor; decided. }
  destruct (respond_session 99 _ _ _ _ no_io Hv ltac:(lia) H1) as (Ho & _).
  destruct (respond_session 99 _ _ _ _ no_io Hv ltac:(lia) H2) as (_ & _ & Hto & _).
  split; [exact Ho|]. rewrite (Hto _ _ eq_refl); [reflexivity|vm_compute; lia].
Defined.

(** A client whose pid has at most six digits sends it to the server and prints the
    text of the answer; with a longer pid its own name does not fit into the address
    and overruns it. *)
Theorem respond_client pid stack reply s :
  0 ≤ pid < 2 ^ 22 → length stack = 64%nat → (length reply < 64)%nat →
  if decide (pid < 10 ^ 6) then
    Respond.client true true true pid stack (Some reply) s =
      Ok (0, IO (printed s ++ bytes "send: " ++ dec pid ++ [10] ++ bytes "read from: " ++ text_of reply ++ [10])
                (sent s ++ [(sockaddr (Respond.SOCKET ++ replicate 4 0), dec pid)]))
  else Respond.client true true true pid stack (Some reply) s = Fault OutOfBounds.
Proof.
  intros Hpid Hst Hrep. pose proof (dec_nonzero pid ltac:(lia)) as Hnz.
  unfold Respond.client, mbind, prog_bind, lift.
  change (strcpy (replicate SA_DATA 0) Respond.SOCKET) with (Ok (Respond.SOCKET ++ replicate 4 0)).
  cbn beta iota.
  case_decide as Hlt.
  - pose proof (length_dec pid 6 ltac:(change (10 ^ Z.of_nat 6) with (10 ^ 6); lia) ltac:(lia)) as Hlen.
    destruct (strcpy_ok (replicate SA_DATA 0) (Respond.client_name pid)) as (r0 & -> & _).
    { unfold Respond.client_name. rewrite length_app, length_replicate. simpl. unfold SA_DATA. lia. }
    { apply Forall_app. split; [done|]. decided. }
    destruct (strcpy_ok stack (dec pid)) as (r & -> & Hcs & Hr); [lia|done|]. rewrite Hcs. rewrite bread_text by done.
    unfold sendto, printf, modify. cbn beta iota.
    assert (length (dec pid ++ 0 :: r) = 64%nat) as Hbuf by (rewrite length_app; simpl; lia).
    rewrite recv_ok by done. cbn beta iota.
    destruct (drop (length reply) (dec pid ++ 0 :: r)) as [|x r2] eqn:E.
    { apply (f_equal length) in E. rewrite length_drop in E. simpl in E. lia. }
    unfold bput. rewrite decide_True by (rewrite length_app; simpl; lia).
    rewrite Nat2Z.id, insert_app_r_alt, Nat.sub_diag by lia. cbn [insert list_insert]. rewrite cstr_text.
    unfold mret, prog_ret. cbn [printed sent].
    by rewrite <- !app_assoc.
  - rewrite strcpy_overflow; [done|]. unfold Respond.client_name. rewrite length_app, length_replicate.
    assert (7 ≤ length (dec pid))%nat; [|simpl; unfold SA_DATA; lia].
    destruct (decide (length (dec pid) < 7)%nat) as [Hl|]; [|lia]. exfalso. apply Hlt.
    apply (dec_short pid 6); [lia|lia].
Qed.

Lemma respond_client_witness :
  Respond.client true true true 12 (replicate 64 7) (Some (answer 99 (bytes "12") ++ [0])) no_io =
    Ok (0, IO (bytes "send: 12" ++ [10] ++ bytes "read from: 99 --> 12" ++ [10; 10]) [(sockaddr (Respond.SOCKET ++ replicate 4 0), bytes "12")]) ∧
  Respond.client true true true 1234567 (replicate 64 7) (Some []) no_io = Fault OutOfBounds.
Proof.
  split.
  - opose proof (respond_client 12 (replicate 64 7) (answer 99 (bytes "12") ++ [0]) no_io _ eq_refl _) as H;
      [lia|vm_compute; lia|]. rewrite decide_True in H by lia. exact H.
  - opose proof (respond_client 1234567 (replicate 64 7) [] no_io _ eq_refl _) as H; [lia|simpl; lia|].
    rewrite decide_False in H by lia. exact H.
Defined.
