(* ===== verification/Paired.v ===== *)
(** * Two processes and a pair of sockets (2/paired-sockets/main.c)

    The parent and the child exchange a message each over a pair of connected stream
    sockets; the parent then waits for the child and reports how it ended. The steps of
    the processes interleave in any order: the calls of [sleep] order nothing. *)

From S2P Require Import Prelude.
From stdpp Require Import options.
#[local] Set Default Proof Using "Type*".
Local Open Scope Z_scope.

Definition messages0 : list Z := bytes "ayyyyyyyy".
Definition messages1 : list Z := bytes "zzzzzzzz".

(** How a process ended, as [waitpid] reports it. *)
Inductive status := Exited (code : Z) | Signalled (sig : Z) | Stopped (sig : Z).

(** Where the processes are: before the call named. *)
Inductive child_pc := CClose1 | CWrite | CPrint1 | CRead | CPrint2 | CClose0 | CExit | CGone (st : status).
Inductive parent_pc := PRead | PPrint1 | PWrite | PPrint2 | PClose0 | PClose1 | PWait | PGone (st : status).

(** The two buffers, what can be read from each socket, the descriptors of each process
    (of sockets[0] and sockets[1]), and what each process has printed. *)
Record state := St {
  cpc : child_pc; ppc : parent_pc;
  cbuf : list Z; pbuf : list Z;
  q0 : list Z; q1 : list Z;
  c0 : bool; c1 : bool; p0 : bool; p1 : bool;
  cout : list Z; pout : list Z
}.

(** [read] of at most [n] bytes from a stream socket: it waits ([None]) for bytes, or for
    the last descriptor of the other end to be closed. *)
Definition sock_read (q : list Z) (other_end : bool) (n : nat) : option (list Z * list Z) :=
  match q with
  | [] => if other_end then None else Some ([], [])
  | _ => Some (take n q, drop n q)
  end.

Section Run.
Context (pid : Z).

Definition child_line (text : string) (rest : list Z) : list Z :=
  bytes "Child (pid: " ++ dec pid ++ bytes ")   " ++ bytes text ++ rest ++ [10].
Definition parent_line (text : string) (rest : list Z) : list Z :=
  bytes "Parent               " ++ bytes text ++ rest ++ [10].

(** The child has ended: its descriptors are closed. *)
Definition child_gone (st : status) (s : state) : state :=
  St (CGone st) (ppc s) (cbuf s) (pbuf s) (q0 s) (q1 s) false false (p0 s) (p1 s) (cout s) (pout s).

(** The next step of the child; [None] when it waits or has ended. *)
Definition child_step (s : state) : option (outcome state) :=
  let '(St cpc ppc cbuf pbuf q0 q1 c0 c1 p0 p1 cout pout) := s in
  match cpc with
  | CClose1 => Some (Ok (St CWrite ppc cbuf pbuf q0 q1 c0 false p0 p1 cout pout))
  | CWrite =>
      if c1 || p1 then Some (Ok (St CPrint1 ppc cbuf pbuf q0 (q1 ++ messages0 ++ [0]) c0 c1 p0 p1 cout pout))
      else Some (Ok (child_gone (Signalled 13) s))
  | CPrint1 => Some (Ok (St CRead ppc cbuf pbuf q0 q1 c0 c1 p0 p1 (cout ++ child_line "send: " messages0) pout))
  | CRead =>
      match sock_read q0 (c1 || p1) (length messages1 + 1) with
      | None => None
      | Some (d, q0) => Some (cbuf ← bwrite cbuf 0 d; Ok (St CPrint2 ppc cbuf pbuf q0 q1 c0 c1 p0 p1 cout pout))
      end
  | CPrint2 => Some (t ← cstr cbuf 0;
      Ok (St CClose0 ppc cbuf pbuf q0 q1 c0 c1 p0 p1 (cout ++ child_line "receive: " t) pout))
  | CClose0 => Some (Ok (St CExit ppc cbuf pbuf q0 q1 false c1 p0 p1 cout pout))
  | CExit => Some (Ok (child_gone (Exited 0) s))
  | CGone _ => None
  end.

(** What the parent prints of the end of the child. *)
Definition status_line (st : status) : list Z :=
  match st with
  | Exited code => child_line "exited with code " (dec code)
  | Signalled sig | Stopped sig => child_line "received signal " (dec sig)
  end.

Definition parent_step (s : state) : option (outcome state) :=
  let '(St cpc ppc cbuf pbuf q0 q1 c0 c1 p0 p1 cout pout) := s in
  match ppc with
  | PRead =>
      match sock_read q1 (c0 || p0) (length messages0 + 1) with
      | None => None
      | Some (d, q1) => Some (pbuf ← bwrite pbuf 0 d; Ok (St cpc PPrint1 cbuf pbuf q0 q1 c0 c1 p0 p1 cout pout))
      end
  | PPrint1 => Some (t ← cstr pbuf 0;
      Ok (St cpc PWrite cbuf pbuf q0 q1 c0 c1 p0 p1 cout (pout ++ parent_line "receive: " t)))
  | PWrite =>
      if c0 || p0 then Some (Ok (St cpc PPrint2 cbuf pbuf (q0 ++ messages1 ++ [0]) q1 c0 c1 p0 p1 cout pout))
      else Some (Ok (St cpc (PGone (Signalled 13)) cbuf pbuf q0 q1 c0 c1 false false cout pout))
  | PPrint2 => Some (Ok (St cpc PClose0 cbuf pbuf q0 q1 c0 c1 p0 p1 cout (pout ++ parent_line "send: " messages1)))
  | PClose0 => Some (Ok (St cpc PClose1 cbuf pbuf q0 q1 c0 c1 false p1 cout pout))
  | PClose1 => Some (Ok (St cpc PWait cbuf pbuf q0 q1 c0 c1 p0 false cout pout))
  | PWait =>
      match cpc with
      | CGone st => Some (Ok (St cpc (PGone (Exited 0)) cbuf pbuf q0 q1 c0 c1 p0 p1 cout (pout ++ status_line st)))
      | _ => None
      end
  | PGone _ => None
  end.

(** The state after [fork], with what is on the stacks; [None]: a call failed, and the
    program exits with 1. *)
Definition main (ok_socketpair ok_fork : bool) (cstack pstack : list Z) : option state :=
  if ok_socketpair then
    if ok_fork then Some (St CClose1 PRead cstack pstack [] [] true true true true [] []) else None
  else None.

(** A step of a process, or a signal that kills the child. *)
Inductive step : state → outcome state → Prop :=
  | step_child s r : child_step s = Some r → step s r
  | step_parent s r : parent_step s = Some r → step s r
  | step_kill s sig : (∀ st, cpc s ≠ CGone st) → step s (Ok (child_gone (Signalled sig) s)).

Definition next (s s' : state) : Prop := step s (Ok s').
End Run.
