(* ===== verification/PairedSpec.v ===== *)
(** * What the two processes guarantee *)

From S2P Require Import Prelude Text Paired.
From stdpp Require Import options.
#[local] Set Default Proof Using "Type*".
Local Open Scope Z_scope.

#[local] Arguments dec : simpl never.
#[local] Arguments bytes : simpl never.

Lemma sock_read_message m other : sock_read (m ++ [0]) other (length m + 1) = Some (m ++ [0], []).
Proof.
  assert (length (m ++ [0]) = (length m + 1)%nat) as E by (rewrite length_app; done).
  unfold sock_read. rewrite take_ge, drop_ge by lia. by destruct m.
Qed.

Lemma messages_text : Forall (λ x, x ≠ 0) messages0 ∧ Forall (λ x, x ≠ 0) messages1.
Proof. split; decided. Qed.

Section Spec.
Context (pid : Z) (cstack pstack : list Z).
Context (Hcs : length cstack = 32%nat) (Hps : length pstack = 32%nat).

Definition m0 : list Z := messages0 ++ [0].
Definition m1 : list Z := messages1 ++ [0].

(** The states of a run: [k] and [j] count the steps of the child and the parent, [dead]
    is the signal that has killed the child. *)
Definition cpc_at (k : nat) (dead : option Z) : child_pc :=
  match dead with
  | Some sig => CGone (Signalled sig)
  | None => nth k [CClose1; CWrite; CPrint1; CRead; CPrint2; CClose0; CExit] (CGone (Exited 0))
  end.
Definition ppc_at (j : nat) : parent_pc :=
  nth j [PRead; PPrint1; PWrite; PPrint2; PClose0; PClose1; PWait] (PGone (Exited 0)).
Definition when {A} (b : bool) (l : list A) : list A := if b then l else [].
Definition alive (dead : option Z) : bool := match dead with Some _ => false | None => true end.
Definition kills (dead : option Z) : nat := if alive dead then 0 else 1.
Definition child_says (k : nat) : list Z :=
  when (3 <=? k)%nat (child_line pid "send: " messages0) ++ when (5 <=? k)%nat (child_line pid "receive: " messages1).
Definition parent_says (j : nat) (dead : option Z) : list Z :=
  when (2 <=? j)%nat (parent_line "receive: " messages0) ++ when (4 <=? j)%nat (parent_line "send: " messages1) ++
  when (7 <=? j)%nat (status_line pid (match dead with Some sig => Signalled sig | None => Exited 0 end)).

Definition state_at (k j : nat) (dead : option Z) : state :=
  St (cpc_at k dead) (ppc_at j)
     (if (4 <=? k)%nat then m1 ++ drop 9 cstack else cstack) (if (1 <=? j)%nat then m0 ++ drop 10 pstack else pstack)
     (when ((3 <=? j) && (k <=? 3))%nat m1) (when ((2 <=? k) && (j <=? 0))%nat m0)
     (alive dead && (k <=? 5))%nat (alive dead && (k <=? 0))%nat (j <=? 4)%nat (j <=? 5)%nat
     (child_says k) (parent_says j dead).

Definition valid (k j : nat) (dead : option Z) : Prop :=
  (j ≤ 7 ∧ k ≤ 7 ∧ (1 ≤ j → 2 ≤ k) ∧ (4 ≤ k → 3 ≤ j))%nat ∧
  match dead with Some _ => (k ≤ 6)%nat | None => j = 7%nat → k = 7%nat end.

(** Both sides of a step are the same state, up to how its lists are put together. *)
Ltac at_done :=
  unfold state_at, child_says, parent_says, m0, m1; cbn -[messages0 messages1 child_line parent_line Nat.leb app];
  cbn [Nat.leb when andb]; rewrite ?app_nil_r, ?andb_false_r, <- ?app_assoc; reflexivity.

(** The step of the child in such a state. *)
Lemma child_step_at k j dead :
  valid k j dead →
  child_step pid (state_at k j dead) =
    if decide (dead = None ∧ (k ≤ 6)%nat ∧ (k = 3%nat → (3 ≤ j)%nat)) then Some (Ok (state_at (S k) j None)) else None.
Proof using Hcs Hps.
  intros [(Hj & Hk & Hjk & Hkj) Hd]. destruct dead as [sig|]; [by rewrite decide_False by naive_solver|].
  destruct (decide (k = 3%nat ∧ (j < 3)%nat)) as [[-> Hj3]|Hn].
  { rewrite decide_False by (intros (_ & _ & H); specialize (H eq_refl); lia).
    by destruct j as [|[|[|j]]]; [..|lia]. }
  destruct (decide (k = 7%nat)) as [->|Hk7]; [by rewrite decide_False by lia|].
  rewrite decide_True by (split; [done|lia]).
  destruct (decide (k = 3%nat)) as [->|Hk3].
  { destruct j as [|[|[|j]]]; [lia..|]. unfold state_at. cbn -[m1 messages1 m0 bwrite].
    unfold m1. rewrite sock_read_message. cbn beta iota.
    rewrite bwrite_message by (rewrite Hcs; simpl; lia). at_done. }
  destruct (decide (k = 4%nat)) as [->|Hk4].
  { destruct j as [|[|[|j]]]; [lia..|]. unfold state_at. cbn -[m1 messages1 m0 cstr child_line].
    unfold m1. rewrite cstr_message by apply messages_text. at_done. }
  destruct (decide (k = 1%nat)) as [->|Hk1].
  { destruct j as [|j]; [|lia]. reflexivity. }
  destruct k as [|[|[|[|[|[|[|k]]]]]]]; try lia; at_done.
Qed.

(** The step of the parent. *)
Lemma parent_step_at k j dead :
  valid k j dead →
  parent_step pid (state_at k j dead) =
    if decide ((j ≤ 6)%nat ∧ (j = 0%nat → (2 ≤ k)%nat) ∧ (j = 6%nat → dead = None → k = 7%nat))
    then Some (Ok (state_at k (S j) dead)) else None.
Proof using Hcs Hps.
  intros [(Hj & Hk & Hjk & Hkj) Hd].
  destruct (decide (j = 0%nat)) as [->|Hj0].
  { destruct (decide (2 ≤ k)%nat) as [H2|H2].
    - rewrite decide_True by lia. destruct k as [|[|k]]; [lia..|]. assert (k ≤ 1)%nat by lia.
      unfold state_at. cbn -[m1 messages0 m0 bwrite Nat.leb]. cbn [Nat.leb when andb].
      unfold m0. rewrite sock_read_message. cbn beta iota.
      rewrite bwrite_message by (rewrite Hps; simpl; lia). at_done.
    - rewrite decide_False by lia. by destruct k as [|[|k]]; [| |lia]; destruct dead. }
  destruct (decide (j = 6%nat)) as [->|Hj6].
  { destruct dead as [sig|]; [by rewrite decide_True by naive_solver lia|].
    destruct (decide (k = 7%nat)) as [->|Hk7]; [by rewrite decide_True by lia|].
    rewrite decide_False by naive_solver lia.
    destruct k as [|[|[|[|[|[|[|k]]]]]]]; try lia; reflexivity. }
  destruct (decide (j = 7%nat)) as [->|Hj7]; [by rewrite decide_False by lia|].
  rewrite decide_True by lia.
  destruct (decide (j = 1%nat)) as [->|Hj1].
  { unfold state_at. cbn -[m1 messages0 m0 cstr parent_line Nat.leb]. cbn [Nat.leb when andb].
    unfold m0. rewrite cstr_message by apply messages_text. at_done. }
  destruct (decide (j = 2%nat)) as [->|Hj2].
  { assert (k ≤ 3)%nat by lia. unfold state_at. cbn -[m1 m0 parent_line Nat.leb]. cbn [Nat.leb when andb].
    destruct k as [|[|[|[|k]]]]; [lia|lia| | |lia]; by destruct dead. }
  destruct j as [|[|[|[|[|[|[|j]]]]]]]; try lia; at_done.
Qed.
(** A run stays in such states; every step counts. *)
Lemma step_at k j dead r :
  valid k j dead → step pid (state_at k j dead) r →
  ∃ k' j' dead', r = Ok (state_at k' j' dead') ∧ valid k' j' dead' ∧
    (k + j + kills dead < k' + j' + kills dead')%nat.
Proof.
  intros Hv Hs. inversion Hs as [? ? Hc|? ? Hp|? sig Hn]; subst; clear Hs.
  - rewrite child_step_at in Hc by done. case_decide as Hd; [|done]. destruct Hd as (-> & Hk & H3). injection Hc as <-.
    exists (S k), j, None. split; [done|]. destruct Hv as [Hv Hv']. split; [|unfold kills; simpl; lia]. split; [|intros ->; specialize (Hv' eq_refl); lia].
    destruct (decide (k = 3%nat)); naive_solver lia.
  - rewrite parent_step_at in Hp by done. case_decide as Hd; [|done]. destruct Hd as (Hj & H0 & H6). injection Hp as <-.
    exists k, (S j), dead. split; [done|]. destruct Hv as [Hv Hv']. split; [|unfold kills; simpl; lia].
    split; [destruct (decide (j = 0%nat)); lia|]. destruct dead; [done|]. intros [= ->]. by apply H6.
  - destruct dead as [sig'|]; [by destruct (Hn (Signalled sig'))|].
    destruct Hv as [Hv Hv']. assert (k ≠ 7%nat) as Hk by (intros ->; by apply (Hn (Exited 0))).
    assert (j ≠ 7%nat) as Hj by (intros ->; by specialize (Hv' eq_refl)).
    exists k, j, (Some sig). split.
    + unfold child_gone, state_at, parent_says. cbn [ppc cbuf pbuf q0 q1 p0 p1 cout pout cpc_at alive andb].
      replace (7 <=? j)%nat with false by (symmetry; apply Nat.leb_gt; lia). done.
    + split; [|unfold kills; simpl; lia]. split; [done|lia].
Qed.

Lemma runs_at n s :
  nsteps (next pid) n (state_at 0 0 None) s →
  ∃ k j dead, s = state_at k j dead ∧ valid k j dead ∧ (n ≤ k + j + kills dead)%nat.
Proof.
  revert s. induction n as [|n IH]; intros s Hn.
  - inversion Hn; subst. exists 0%nat, 0%nat, None. split; [done|]. split; [|unfold kills; simpl; lia]. split; [lia|done].
  - apply nsteps_inv_r in Hn as (s1 & H1 & H2). destruct (IH s1 H1) as (k & j & dead & -> & Hv & Hle).
    destruct (step_at k j dead _ Hv H2) as (k' & j' & dead' & [= ->] & Hv' & Hlt). exists k', j', dead'. split_and!; [done|done|unfold kills in *; lia].
Qed.

(** What the processes have printed when both have ended. *)
Definition finished (s : state) : Prop :=
  ∃ st, ppc s = PGone (Exited 0) ∧ cpc s = CGone st ∧
    pout s = parent_line "receive: " messages0 ++ parent_line "send: " messages1 ++ status_line pid st ∧
    match st with
    | Exited code => code = 0 ∧ cout s = child_line pid "send: " messages0 ++ child_line pid "receive: " messages1
    | _ => True
    end.

(** The parent waits for a message that nobody can send. *)
Definition deadlocked (s : state) : Prop :=
  ppc s = PRead ∧ q1 s = [] ∧ pout s = [] ∧ (∃ sig, cpc s = CGone (Signalled sig)) ∧ ∀ r, ¬ step pid s r.

Lemma state_end k j dead :
  valid k j dead → child_step pid (state_at k j dead) = None → parent_step pid (state_at k j dead) = None →
  finished (state_at k j dead) ∨ deadlocked (state_at k j dead).
Proof.
  intros Hv Hc Hp. pose proof (child_step_at k j dead Hv) as Hc'. pose proof (parent_step_at k j dead Hv) as Hp'.
  rewrite Hc in Hc'. rewrite Hp in Hp'. case_decide as Hp1; [done|]. case_decide as Hc1; [done|]. clear Hc' Hp'.
  destruct Hv as [Hv Hv']. destruct dead as [sig|].
  - destruct (decide (j = 7%nat)) as [->|Hj]; [left; by exists (Signalled sig)|]. right.
    assert (j = 0%nat) as ->.
    { destruct (decide (j = 0%nat)); [done|]. destruct Hp1. split_and!; [lia|intros; congruence|done]. }
    assert (k = 0 ∨ k = 1)%nat as Hk.
    { destruct (decide (2 ≤ k)%nat); [|lia]. destruct Hp1. split_and!; [lia|done|done]. }
    split; [done|]. split; [by destruct Hk as [-> | ->]|]. split; [done|].
    split; [by exists sig|]. intros r Hs. inversion Hs as [? ? H|? ? H|? ? H]; subst; [congruence|congruence|by apply (H (Signalled sig))].
  - left. assert (k = 7%nat) as ->.
    { destruct (decide (k ≤ 6)%nat) as [Hk|]; [|lia]. exfalso. destruct (decide (k = 3 ∧ j < 3)%nat) as [[-> Hj]|Hn].
      - apply Hp1. split_and!; [lia..|]. intros ->. lia.
      - apply Hc1. split_and!; [done|done|lia]. }
    assert (j = 7%nat) as ->.
    { destruct (decide (j ≤ 6)%nat) as [Hj|]; [|lia]. exfalso. apply Hp1. split_and!; [done|lia|done]. }
    by exists (Exited 0).
Qed.

(** C14: the parent and the child never fault and end after at most fourteen steps, in
    whatever order they run and whenever the child is killed. Unless it is killed both
    have then received the other's message whole, and the parent reports the exit
    status 0 of the child. If the child is killed before it has sent its message, the
    parent, which holds the child's end of the sockets open itself, waits forever; if
    later, the parent reports the signal. *)
Theorem paired_exchange s0 :
  main true true cstack pstack = Some s0 →
  (∀ n s, nsteps (next pid) n s0 s → (n ≤ 14)%nat) ∧
  (∀ s, rtc (next pid) s0 s →
    (∀ r, step pid s r → ∃ s', r = Ok s') ∧
    ((∃ s', child_step pid s = Some (Ok s') ∨ parent_step pid s = Some (Ok s')) ∨ finished s ∨ deadlocked s)) ∧
  (∃ s, rtc (next pid) s0 s ∧ deadlocked s).
Proof.
  intros [= <-]. change (St CClose1 _ _ _ _ _ _ _ _ _ _ _) with (state_at 0 0 None). split_and!.
  - intros n s (k & j & dead & -> & [Hv Hv'] & Hle)%runs_at. destruct dead; unfold kills in *; simpl in *; lia.
  - intros s [n Hn]%rtc_nsteps. destruct (runs_at n s Hn) as (k & j & dead & -> & Hv & _). split.
    + intros r (k' & j' & dead' & -> & _)%step_at; [by eexists|done].
    + pose proof (child_step_at k j dead Hv) as Hc. pose proof (parent_step_at k j dead Hv) as Hp.
      do 2 (case_decide; [left; eexists; first [left; eassumption|right; eassumption]|]). right. by apply state_end.
  - exists (state_at 0 0 (Some 9)). split.
    + apply rtc_once. by apply (step_kill pid (state_at 0 0 None) 9).
    + destruct (state_end 0 0 (Some 9)) as [H|H]; [by split; [lia|lia]|done..| |done].
      by destruct H as (st & H & _).
Qed.
End Spec.

Lemma paired_exchange_witness : ∃ s0, main true true (replicate 32 7) (replicate 32 7) = Some s0 ∧
  (∀ n s, nsteps (next 12) n s0 s → (n ≤ 14)%nat).
Proof.
  eexists. split; [reflexivity|].
  exact (proj1 (paired_exchange 12 (replicate 32 7) (replicate 32 7) eq_refl eq_refl _ eq_refl)).
Defined.
