(* ===== verification/Epoll.v ===== *)
(** * A stream server and its clients (2/client-sever/epoll)

    The server waits for events on its listening socket and on the connections; a client
    sends its pid and prints the answer. Both use messages of 32 bytes. The state has the
    clients with their connections, and the server in its loop. *)

From S2P Require Import Prelude Text.
From stdpp Require Import options.
#[local] Set Default Proof Using "Type*".
Local Open Scope Z_scope.

Definition BUFF_SIZE : Z := 32.
Definition MAX_EVENTS : nat := 4.

(** The server's end of a connection: not there yet, in the queue of the listening
    socket, accepted, closed. *)
Inductive link := Unconnected | Pending | Open | Closed.
#[export] Instance link_eq_dec : EqDecision link.
Proof. solve_decision. Defined.

(** Where a client is: before the call named. *)
Inductive client_pc := CConnect | CSend | CPrint | CRead | CShow | CClose | CDone.

(** A client with its buffers, the bytes under way in its connection to the server and
    back, the server's end of the connection, and what the client has printed. *)
Record client := Client {
  c_pc : client_pc;
  c_to : list Z; c_from : list Z;
  up : list Z; down : list Z;
  c_link : link;
  c_out : list Z
}.

(** A descriptor among the events: the listening socket, or the connection of a client. *)
Inductive event := Listen | Conn (i : nat).
#[export] Instance event_eq_dec : EqDecision event.
Proof. solve_decision. Defined.

(** The server: before [epoll_wait], in the loop over the events, ended. *)
Inductive server_pc := Wait | Batch (evs : list event) | SExit (code : Z).

Record sys := Sys {
  server : server_pc;
  msg_to : list Z; msg_from : list Z;
  s_out : list Z;
  clients : list client
}.

(** ** client.c *)
Section Client.
Context (cpid : Z).

Definition client_line (text : string) (m : list Z) : list Z :=
  bytes "client_pid " ++ dec cpid ++ bytes text ++ m ++ [10].

(** The next step of a client, where [room] says whether the queue of the listening socket
    has room; [None] when the client waits or has ended. The server's end of the
    connection is closed with the last bytes under way. *)
Definition client_step (room : bool) (c : client) : option (outcome client) :=
  let '(Client pc to from up down link out) := c in
  match pc with
  | CConnect => if room then Some (Ok (Client CSend to from up down Pending out)) else None
  | CSend => Some (
      to ← bput to (BUFF_SIZE - 1) 0;
      from ← bput from (BUFF_SIZE - 1) 0;
      to ← strcpy to (dec cpid);
      d ← bread to 0 BUFF_SIZE;
      Ok (Client CPrint to from (up ++ d) down link out))
  | CPrint => Some (
      t ← cstr to 0;
      Ok (Client CRead to from up down link (out ++ client_line " send to server msg: " t)))
  | CRead =>
      match down, link with
      | [], Closed => Some (Ok (Client CShow to from up [] link out))
      | [], _ => None
      | _, _ => Some (
          from ← bwrite from 0 (take (Z.to_nat BUFF_SIZE) down);
          Ok (Client CShow to from up (drop (Z.to_nat BUFF_SIZE) down) link out))
      end
  | CShow => Some (
      t ← cstr from 0;
      Ok (Client CClose to from up down link (out ++ client_line " received from server msg: " t)))
  | CClose => Some (Ok (Client CDone to from up down link out))
  | CDone => None
  end.
End Client.

(** ** server.c *)

(** The calls before the loop: a failure of one of them ends the server. *)
Definition server_start (spid : Z) (ok_socket ok_bind ok_listen ok_epoll ok_ctl : bool) : prog (list Z) server_pc :=
  if ok_socket && ok_bind && ok_listen && ok_epoll && ok_ctl then
    modify (λ o, o ++ bytes "server_pid: " ++ dec spid ++ [10]);; mret Wait
  else mret (SExit 1).

(** How the handling of a connection ends: the server exits, or sends [reply] (nothing,
    if it is empty) and closes the connection. *)
Inductive verdict := Exit (code : Z) | Close (reply : list Z).

(** An event on a connection; [rc] is what [read] gives, [None] being an error. *)
Definition handle (spid : Z) (ok_send : bool) (rc : option (list Z)) (msg_to msg_from : list Z) :
    prog (list Z) (list Z * list Z * verdict) :=
  msg_to ← lift (bput msg_to (BUFF_SIZE - 1) 0);
  msg_from ← lift (bput msg_from (BUFF_SIZE - 1) 0);
  match rc with
  | None => mret (msg_to, msg_from, Exit 1)
  | Some d =>
      msg_from ← lift (bwrite msg_from 0 d);
      if decide (0 < Z.of_nat (length d)) then
        t ← lift (cstr msg_from 0);
        modify (λ o, o ++ [10] ++ bytes "received client_pid: " ++ t ++ [10]);;
        msg_to ← lift (strcpy msg_to (dec spid ++ bytes "_" ++ t));
        reply ← lift (bread msg_to 0 BUFF_SIZE);
        if ok_send then
          t ← lift (cstr msg_to 0);
          modify (λ o, o ++ bytes "send to client: " ++ t ++ [10]);;
          mret (msg_to, msg_from, Close reply)
        else mret (msg_to, msg_from, Exit 1)
      else mret (msg_to, msg_from, Close [])
  end.

(** [accept] in the listening event: [client_len] is what the uninitialised variable
    holds, of which the kernel refuses negative values. *)
Definition accepting (client_len : Z) : option Z := if decide (client_len < 0) then Some 1 else None.

(** ** The system *)
Section System.
Context (spid : Z) (cpid : nat → Z) (client_len : Z).

Definition pending (c : client) : Prop := c_link c = Pending.
#[export] Instance pending_dec c : Decision (pending c).
Proof. unfold pending. apply _. Defined.

(** The queue of the listening socket takes one connection more than [listen] says. *)
Definition room (cs : list client) : bool := bool_decide (length (filter pending cs) ≤ MAX_EVENTS)%nat.

(** What [epoll_wait] reports. *)
Definition ready (cs : list client) (e : event) : Prop :=
  match e with
  | Listen => ∃ i c, cs !! i = Some c ∧ c_link c = Pending
  | Conn i => ∃ c, cs !! i = Some c ∧ c_link c = Open ∧ up c ≠ []
  end.

Definition set_link (l : link) (c : client) : client :=
  Client (c_pc c) (c_to c) (c_from c) (up c) (down c) l (c_out c).

(** What [read] takes from the connection, and the connection after it is answered. *)
Definition received (c : client) : list Z := take (Z.to_nat BUFF_SIZE) (up c).
Definition answered (reply : list Z) (c : client) : client :=
  Client (c_pc c) (c_to c) (c_from c) (drop (Z.to_nat BUFF_SIZE) (up c)) (down c ++ reply) Closed (c_out c).

Inductive step : sys → outcome sys → Prop :=
  | step_client s i c r :
      clients s !! i = Some c → client_step (cpid i) (room (clients s)) c = Some r →
      step s (c' ← r; Ok (Sys (server s) (msg_to s) (msg_from s) (s_out s) (<[i := c']> (clients s))))
  | step_wait mt mf o cs evs :
      evs ≠ [] → (length evs ≤ MAX_EVENTS)%nat → NoDup evs → Forall (ready cs) evs →
      step (Sys Wait mt mf o cs) (Ok (Sys (Batch evs) mt mf o cs))
  | step_round mt mf o cs :
      step (Sys (Batch []) mt mf o cs) (Ok (Sys Wait mt mf o cs))
  | step_accept mt mf o cs evs i c :
      cs !! i = Some c → c_link c = Pending →
      step (Sys (Batch (Listen :: evs)) mt mf o cs)
        (Ok (match accepting client_len with
             | Some code => Sys (SExit code) mt mf o cs
             | None => Sys (Batch evs) mt mf o (<[i := set_link Open c]> cs)
             end))
  | step_handle mt mf o cs evs i c :
      cs !! i = Some c →
      step (Sys (Batch (Conn i :: evs)) mt mf o cs)
        ('(mt, mf, v, o) ← handle spid true (Some (received c)) mt mf o;
         Ok (match v with
             | Exit code => Sys (SExit code) mt mf o cs
             | Close reply => Sys (Batch evs) mt mf o (<[i := answered reply c]> cs)
             end)).

Definition next (s s' : sys) : Prop := step s (Ok s').

(** The server before its loop and the clients before they connect. *)
Definition initial (s : sys) : Prop :=
  server s = Wait ∧ length (msg_to s) = 32%nat ∧ length (msg_from s) = 32%nat ∧
  Forall (λ c, c_pc c = CConnect ∧ length (c_to c) = 32%nat ∧ length (c_from c) = 32%nat ∧
               up c = [] ∧ down c = [] ∧ c_link c = Unconnected ∧ c_out c = []) (clients s).
End System.
