(* ===== verification/EpollSpec.v ===== *)
(** * What the stream server and its clients guarantee *)

From S2P Require Import Prelude Text Epoll.
From stdpp Require Import options.
#[local] Set Default Proof Using "Type*".
Local Open Scope Z_scope.

#[local] Arguments dec : simpl never.
#[local] Arguments bytes : simpl never.
#[local] Arguments replicate : simpl never.

(** A message of 32 bytes with the text [s]. *)
Definition message (s m : list Z) : Prop := length m = 32%nat ∧ cstr m 0 = Ok s.

Lemma message_nonempty s m : message s m → m ≠ [].
Proof. by intros [H _] ->. Qed.

(** A buffer after a text has been put into it. *)
Lemma strcpy_message b s :
  length b = 32%nat → (length s < 32)%nat → Forall (λ x, x ≠ 0) s → ∃ m, strcpy b s = Ok m ∧ message s m.
Proof.
  intros Hb Hs Hnz. destruct (strcpy_ok b s) as (r & H & Hc & Hl); [lia|done|].
  eexists. split; [done|]. split; [|done]. rewrite length_app. simpl. lia.
Qed.

Lemma bput_last_byte b : length b = 32%nat → ∃ b', bput b (BUFF_SIZE - 1) 0 = Ok b' ∧ length b' = 32%nat.
Proof.
  intros Hb. unfold bput. rewrite Hb. eexists. split; [reflexivity|]. by rewrite length_insert.
Qed.

Lemma bread_message m : length m = 32%nat → bread m 0 BUFF_SIZE = Ok m.
Proof.
  intros Hm. unfold bread. rewrite decide_True by (rewrite Hm; unfold BUFF_SIZE; lia).
  change (drop (Z.to_nat 0) m) with m. by rewrite take_ge by (rewrite Hm; done).
Qed.

Lemma bwrite_whole b m : length b = 32%nat → length m = 32%nat → bwrite b 0 m = Ok m.
Proof.
  intros Hb Hm. rewrite bwrite_start by lia. rewrite drop_ge by lia. by rewrite app_nil_r.
Qed.

(** ** The handler of a connection *)

Definition reply_text (spid : Z) (t : list Z) : list Z := dec spid ++ bytes "_" ++ t.

Lemma reply_text_nonzero spid t : 0 ≤ spid → Forall (λ x, x ≠ 0) t → Forall (λ x, x ≠ 0) (reply_text spid t).
Proof.
  intros Hs Ht. apply Forall_app. split; [by apply dec_nonzero|]. apply Forall_app. split; [|done].
  decided.
Qed.

Lemma handle_message spid t d mt mf o :
  length mt = 32%nat → length mf = 32%nat → message t d → 0 ≤ spid →
  (length (reply_text spid t) < 32)%nat → Forall (λ x, x ≠ 0) t →
  ∃ mt' mf' r o', handle spid true (Some d) mt mf o = Ok (mt', mf', Close r, o') ∧
    length mt' = 32%nat ∧ length mf' = 32%nat ∧ message (reply_text spid t) r ∧
    o' = o ++ [10] ++ bytes "received client_pid: " ++ t ++ [10] ++
         bytes "send to client: " ++ reply_text spid t ++ [10].
Proof.
  intros Ht Hf [Hd Hc] Hs Hl Hnz. unfold handle, mbind, prog_bind, lift, modify, mret, prog_ret.
  destruct (bput_last_byte mt Ht) as (mt1 & -> & Ht1). destruct (bput_last_byte mf Hf) as (mf1 & -> & Hf1).
  rewrite bwrite_whole by done. rewrite decide_True by (rewrite Hd; done). rewrite Hc. cbn beta iota.
  destruct (strcpy_message mt1 (reply_text spid t)) as (r & Hr & Hm); [done|done|by apply reply_text_nonzero|].
  change (dec spid ++ bytes "_" ++ t) with (reply_text spid t). rewrite Hr. cbn beta iota.
  rewrite bread_message by apply Hm. destruct Hm as [Hm1 Hm2]. rewrite Hm2. cbn beta iota.
  eexists r, d, r, _. split; [reflexivity|]. split_and!; [done|done|done|by rewrite <- !app_assoc].
Qed.

(** What another client can do: a text that is too long for the answer, and a message
    that does not end. *)
Lemma handle_overflow spid t d mt mf o :
  length mt = 32%nat → length mf = 32%nat → message t d → (32 ≤ length (reply_text spid t))%nat →
  handle spid true (Some d) mt mf o = Fault OutOfBounds.
Proof.
  intros Ht Hf [Hd Hc] Hl. unfold handle, mbind, prog_bind, lift, modify.
  destruct (bput_last_byte mt Ht) as (mt1 & -> & Ht1). destruct (bput_last_byte mf Hf) as (mf1 & -> & Hf1).
  rewrite bwrite_whole by done. rewrite decide_True by (rewrite Hd; done). rewrite Hc. cbn beta iota.
  change (dec spid ++ bytes "_" ++ t) with (reply_text spid t). by rewrite strcpy_overflow by lia.
Qed.

Lemma handle_unterminated spid d mt mf o :
  length mt = 32%nat → length mf = 32%nat → length d = 32%nat → Forall (λ x, x ≠ 0) d →
  handle spid true (Some d) mt mf o = Fault OutOfBounds.
Proof.
  intros Ht Hf Hd Hnz. unfold handle, mbind, prog_bind, lift, modify.
  destruct (bput_last_byte mt Ht) as (mt1 & -> & Ht1). destruct (bput_last_byte mf Hf) as (mf1 & -> & Hf1).
  rewrite bwrite_whole by done. rewrite decide_True by (rewrite Hd; done).
  unfold cstr. rewrite decide_True by done. change (drop (Z.to_nat 0) d) with d.
  assert (until_nul d = None) as ->; [|done].
  clear -Hnz. induction Hnz as [|x d Hx _ IH]; [done|]. cbn [until_nul]. by rewrite decide_False, IH.
Qed.

(** ** The system *)
Section Spec.
Context (spid : Z) (cpid : nat → Z) (client_len : Z).
Context (Hspid : 0 ≤ spid < 2 ^ 22) (Hcpid : ∀ i, 0 ≤ cpid i < 2 ^ 22).

Definition asked (i : nat) : list Z := dec (cpid i).
Definition answer (i : nat) : list Z := reply_text spid (asked i).
Definition said_sent (i : nat) : list Z := client_line (cpid i) " send to server msg: " (asked i).
Definition said_received (i : nat) : list Z := client_line (cpid i) " received from server msg: " (answer i).

Lemma texts_fit i : Forall (λ x, x ≠ 0) (asked i) ∧ (length (asked i) < 32)%nat ∧ (length (answer i) < 32)%nat.
Proof.
  assert (∀ n, 0 ≤ n < 2 ^ 22 → (length (dec n) ≤ 7)%nat) as Hlen
    by (intros n Hn; apply length_dec; [change (10 ^ Z.of_nat 7) with (10 ^ 7); lia|lia]).
  split; [apply dec_nonzero, Hcpid|]. specialize (Hlen _ (Hcpid i)) as H1. specialize (Hlen _ Hspid) as H2.
  unfold answer, reply_text, asked. rewrite !length_app. change (length (bytes "_")) with 1%nat. lia.
Qed.

(** Between sending and reading: the message is under way, or the answer is. *)
Definition waiting (c : client) : Prop := c_link c = Pending ∨ c_link c = Open.
Definition sent (i : nat) (c : client) : Prop :=
  (waiting c ∧ message (asked i) (up c) ∧ down c = []) ∨ (c_link c = Closed ∧ up c = [] ∧ message (answer i) (down c)).
Definition served (c : client) : Prop := c_link c = Closed ∧ up c = [] ∧ down c = [].

Definition client_ok (i : nat) (c : client) : Prop :=
  length (c_to c) = 32%nat ∧ length (c_from c) = 32%nat ∧
  match c_pc c with
  | CConnect => c_link c = Unconnected ∧ up c = [] ∧ down c = [] ∧ c_out c = []
  | CSend => waiting c ∧ up c = [] ∧ down c = [] ∧ c_out c = []
  | CPrint => message (asked i) (c_to c) ∧ sent i c ∧ c_out c = []
  | CRead => sent i c ∧ c_out c = said_sent i
  | CShow => served c ∧ message (answer i) (c_from c) ∧ c_out c = said_sent i
  | CClose | CDone => served c ∧ c_out c = said_sent i ++ said_received i
  end.

(** The steps a client and the server still have to make for a client. *)
Definition steps_left (pc : client_pc) : nat :=
  match pc with CConnect => 6 | CSend => 5 | CPrint => 4 | CRead => 3 | CShow => 2 | CClose => 1 | CDone => 0 end.
Definition events_left (l : link) : nat := match l with Unconnected | Pending => 2 | Open => 1 | Closed => 0 end.
Definition left (c : client) : nat := steps_left (c_pc c) + 3 * events_left (c_link c).

(** A step of a client moves no event. *)
Definition keeps (c c' : client) : Prop :=
  (c_link c ≠ Unconnected → c_link c' = c_link c) ∧ (c_link c = Unconnected → c_link c' ≠ Open ∧ c_link c' ≠ Closed) ∧
  (up c ≠ [] → up c' = up c) ∧ (left c' < left c)%nat.

#[local] Ltac step_done := simpl; split_and!; first [done | lia | by left | naive_solver].

Lemma client_step_ok i room c r :
  client_ok i c → client_step (cpid i) room c = Some r → ∃ c', r = Ok c' ∧ client_ok i c' ∧ keeps c c'.
Proof.
  destruct (texts_fit i) as (Hnz & Hla & _).
  destruct c as [pc to from up down link out]. intros (Hto & Hfrom & Hok). unfold client_ok, keeps, left in *. simpl in *.
  destruct pc; simpl in Hok |- *.
  - destruct Hok as (-> & -> & -> & ->). destruct room; [|done]. intros [= <-]. eexists. split; [done|]. step_done.
  - destruct Hok as (Hw & -> & -> & ->). intros [= <-]. unfold mbind, outcome_bind.
    destruct (bput_last_byte to Hto) as (to1 & -> & Hto1). destruct (bput_last_byte from Hfrom) as (from1 & -> & Hfrom1).
    destruct (strcpy_message to1 (dec (cpid i))) as (m & -> & Hm); [done..|].
    rewrite bread_message by apply Hm. eexists. split; [done|]. destruct Hm. step_done.
  - destruct Hok as ([Hm1 Hm2] & Hs & ->). intros [= <-]. rewrite Hm2. eexists. split; [done|]. step_done.
  - destruct Hok as (Hs & ->). destruct Hs as [(Hw & Hm & Hd)|(Hl & Hu & Hm)]; simpl in *; subst.
    { destruct Hw as [Hw|Hw]; simpl in Hw; by subst. }
    destruct down as [|x dn]; [by apply message_nonempty in Hm|].
    intros [= <-]. destruct Hm as [Hm1 Hm2]. rewrite take_ge, drop_ge by (change (Z.to_nat BUFF_SIZE) with 32%nat; simpl in *; lia).
    rewrite bwrite_whole by done. eexists. split; [done|]. step_done.
  - destruct Hok as (Hs & [Hm1 Hm2] & ->). intros [= <-]. rewrite Hm2. eexists. split; [done|]. step_done.
  - destruct Hok as (Hs & ->). intros [= <-]. eexists. split; [done|]. step_done.
  - done.
Qed.

(** A client that waits though the queue has room, waits for the server. *)
Lemma client_stuck i c :
  client_ok i c → c_pc c ≠ CDone → client_step (cpid i) true c = None →
  c_link c = Pending ∨ (c_link c = Open ∧ up c ≠ []).
Proof.
  destruct c as [pc to from up down link out]. intros (_ & _ & Hok) Hd. simpl in *.
  destruct pc; simpl; try done. destruct Hok as ([(Hw & Hm & Hu)|(Hl & Hu & Hm)] & ->); simpl in *; subst.
  - intros _. destruct Hw as [H|H]; simpl in H; [by left|]. right. split; [done|by eapply message_nonempty].
  - by destruct down; [apply message_nonempty in Hm|].
Qed.

(** *** The whole system *)

Definition refused (c : client) : Prop := client_len < 0 → c_link c = Unconnected ∨ c_link c = Pending.

Definition clients_ok (cs : list client) : Prop :=
  ∀ i c, cs !! i = Some c → client_ok i c ∧ refused c.

Definition server_ok (pc : server_pc) (cs : list client) : Prop :=
  match pc with
  | Wait => True
  | Batch evs => NoDup evs ∧ Forall (ready cs) evs
  | SExit code => code = 1 ∧ client_len < 0
  end.

Definition sys_ok (s : sys) : Prop :=
  length (msg_to s) = 32%nat ∧ length (msg_from s) = 32%nat ∧ clients_ok (clients s) ∧ server_ok (server s) (clients s).

Definition rank (pc : server_pc) : nat :=
  match pc with Batch [] => 3 | Wait => 2 | Batch _ => 1 | SExit _ => 0 end.
Definition work (s : sys) : nat := sum_list_with left (clients s) + rank (server s).

Lemma sum_insert (cs : list client) i c c' :
  cs !! i = Some c → (sum_list_with left (<[i := c']> cs) + left c = sum_list_with left cs + left c')%nat.
Proof.
  revert i. induction cs as [|d cs IH]; intros [|i] Hi; simplify_eq/=; [lia|]. specialize (IH i Hi). lia.
Qed.

Lemma clients_insert cs i c' : clients_ok cs → client_ok i c' → refused c' → clients_ok (<[i := c']> cs).
Proof.
  intros Hcs Hc Hr j d [(-> & <- & _)|[_ Hj]]%list_lookup_insert_Some; [done|]. by apply Hcs.
Qed.

(** An event stays ready when another client changes, and when a client makes a step. *)
Lemma ready_other cs i c' e :
  ready cs e → (∀ c, cs !! i = Some c → match e with Listen => c_link c ≠ Pending | Conn j => j ≠ i end) → ready (<[i := c']> cs) e.
Proof.
  destruct e as [|j]; simpl.
  - intros (j & d & Hj & Hd) Hi. exists j, d. split; [|done].
    destruct (decide (i = j)) as [->|]; [by apply Hi in Hj|]. by rewrite list_lookup_insert_ne.
  - intros (d & Hj & Hd) Hi. exists d. split; [|done].
    destruct (decide (i = j)) as [->|]; [by apply Hi in Hj|]. by rewrite list_lookup_insert_ne.
Qed.

Lemma ready_keeps cs i c c' e : cs !! i = Some c → keeps c c' → ready cs e → ready (<[i := c']> cs) e.
Proof.
  intros Hi (Hl & _ & Hu & _). pose proof (lookup_lt_Some _ _ _ Hi). destruct e as [|j]; simpl.
  - intros (j & d & Hj & Hd). destruct (decide (i = j)) as [->|].
    + simplify_eq. exists j, c'. rewrite list_lookup_insert_eq by done. split; [done|]. rewrite Hl; congruence.
    + exists j, d. by rewrite list_lookup_insert_ne.
  - intros (d & Hj & Hd & Hup). destruct (decide (i = j)) as [->|].
    + simplify_eq. exists c'. rewrite list_lookup_insert_eq by done. rewrite Hl, Hu by congruence. done.
    + exists d. by rewrite list_lookup_insert_ne.
Qed.

Lemma server_keeps pc cs i c c' : cs !! i = Some c → keeps c c' → server_ok pc cs → server_ok pc (<[i := c']> cs).
Proof.
  intros Hi Hk. destruct pc as [|evs|code]; simpl; [done| |done]. intros [Hnd Hr]. split; [done|].
  eapply Forall_impl; [exact Hr|]. intros e. by apply ready_keeps with c.
Qed.

(** An accepted connection and an answered one. *)
Lemma accepted_ok i c : client_ok i c → c_link c = Pending → client_ok i (set_link Open c).
Proof.
  destruct c as [pc to from up down link out]. simpl. intros (Hto & Hfrom & Hok) ->. split; [done|]. split; [done|].
  unfold sent, served, waiting in *. simpl in *. destruct pc; simpl in *; naive_solver.
Qed.

Lemma answered_ok i c r :
  client_ok i c → c_link c = Open → up c ≠ [] → message (answer i) r →
  message (asked i) (received c) ∧ client_ok i (answered r c) ∧ left c = S (S (S (left (answered r c)))).
Proof.
  destruct c as [pc to from up down link out]. intros (Hto & Hfrom & Hok) Hl Hu Hr. simpl in Hl, Hu. subst link.
  assert (message (asked i) up ∧ down = [] ∧ (pc = CPrint ∨ pc = CRead)) as (Hm & -> & Hpc).
  { unfold sent, served, waiting in Hok. simpl in Hok. destruct pc; simpl in Hok; naive_solver. }
  unfold received, answered. simpl. destruct Hm as [Hm1 Hm2].
  rewrite take_ge, drop_ge by (change (Z.to_nat BUFF_SIZE) with 32%nat; lia). split; [done|]. split.
  - split; [done|]. split; [done|]. assert (sent i (Client pc to from [] r Closed out)) as Hs by by right.
    unfold sent, served, waiting in *. simpl in *. destruct Hpc as [-> | ->]; simpl in *; naive_solver.
  - unfold left. simpl. lia.
Qed.

Lemma step_ok s r :
  sys_ok s → step spid cpid client_len s r → ∃ s', r = Ok s' ∧ sys_ok s' ∧ (work s' < work s)%nat.
Proof.
  intros (Hmt & Hmf & Hcs & Hsv) Hs.
  destruct Hs as [s i c r Hi Hc|mt mf o cs evs Hne Hlen Hnd Hr|mt mf o cs|mt mf o cs evs i c Hi Hl|mt mf o cs evs i c Hi];
    simpl in *; unfold work; cbn [clients server].
  - destruct (Hcs i c Hi) as [Hok Hrf]. destruct (client_step_ok i _ c r Hok Hc) as (c' & -> & Hok' & Hk).
    pose proof (sum_insert _ _ _ c' Hi). eexists. split; [reflexivity|]. split; [|destruct Hk as (_ & _ & _ & ?); simpl; lia].
    split; [done|]. split; [done|]. split; [|by apply server_keeps with c].
    apply clients_insert; [done|done|]. intros Hneg. destruct Hk as (H1 & H2 & _).
    destruct (decide (c_link c = Unconnected)) as [E|E]; [|by rewrite H1 by done; apply Hrf].
    destruct (H2 E). destruct (c_link c'); naive_solver.
  - eexists. split; [reflexivity|]. split; [by split_and!|]. simpl. destruct evs; [done|]. simpl. lia.
  - eexists. split; [reflexivity|]. split; [by split_and!|]. simpl. lia.
  - destruct Hsv as [[Hnin Hnd]%NoDup_cons [_ Hr]%Forall_cons]. destruct (Hcs i c Hi) as [Hok Hrf].
    unfold accepting. case_decide as Hneg; eexists; (split; [reflexivity|]).
    { (* the server gives up *) split; [by split_and!|]. simpl. lia. }
    pose proof (sum_insert cs i c (set_link Open c) Hi) as E.
    assert (left c = left (set_link Open c) + 3)%nat by (unfold left; rewrite Hl; simpl; lia).
    split; [|simpl; destruct evs; simpl in *; lia].
    split; [done|]. split; [done|]. split.
    { apply clients_insert; [done|by apply accepted_ok|]. intros ?; lia. }
    split; [done|]. apply Forall_forall. intros e He. rewrite Forall_forall in Hr.
    apply ready_other; [by apply Hr|]. intros d Hd. destruct e as [|j]; [done|]. intros ->. simplify_eq.
    destruct (Hr _ He) as (d & Hd & Hd' & _). simplify_eq. congruence.
  - destruct Hsv as [[Hnin Hnd]%NoDup_cons [(d & Hd & Hl & Hu) Hr]%Forall_cons].
    assert (d = c) as -> by congruence. destruct (Hcs i c Hi) as [Hok Hrf]. destruct (texts_fit i) as (Hnz & Hla & Hlr).
    assert (∃ r, message (answer i) r) as [r0 Hr0].
    { destruct (strcpy_message (replicate 32 0) (answer i)) as (r0 & _ & ?); [apply length_replicate|done| |by exists r0].
      apply reply_text_nonzero; [lia|done]. }
    destruct (answered_ok i c r0 Hok Hl Hu Hr0) as (Hm & _ & _).
    destruct (handle_message spid (asked i) (received c) mt mf o) as (mt' & mf' & r & o' & -> & Hmt' & Hmf' & Hmr & _);
      [done|done|done|lia|done|done|].
    destruct (answered_ok i c r Hok Hl Hu Hmr) as (_ & Hok' & Hleft).
    pose proof (sum_insert cs i c (answered r c) Hi) as E.
    eexists. split; [reflexivity|]. split; [|simpl; destruct evs; simpl in *; lia].
    split; [done|]. split; [done|]. split.
    { apply clients_insert; [done|done|]. intros Hneg. destruct (Hrf Hneg); congruence. }
    split; [done|]. apply Forall_forall. intros e He. rewrite Forall_forall in Hr.
    apply ready_other; [by apply Hr|]. intros d' Hd'. destruct e as [|j]; [congruence|]. by intros ->.
Qed.

#[local] Instance client_pc_eq_dec : EqDecision client_pc.
Proof. solve_decision. Defined.

(** Unless everyone is served, somebody can go on. *)
Lemma progress s :
  sys_ok s → 0 ≤ client_len →
  (∃ r, step spid cpid client_len s r) ∨ (server s = Wait ∧ ∀ i c, clients s !! i = Some c → c_pc c = CDone).
Proof.
  destruct s as [sv mt mf o cs]. intros (_ & _ & Hcs & Hsv) Hlen. simpl in *. destruct sv as [|evs|code]; [|left|destruct Hsv; lia].
  - destruct (decide (Exists (λ c, c_link c = Pending) cs)) as [(i & c & Hi & Hl)%Exists_lookup|Hp].
    { left. eexists. apply (step_wait _ _ _ _ _ _ _ [Listen]); [done|simpl; unfold MAX_EVENTS; lia|apply NoDup_singleton|].
      apply Forall_singleton. by exists i, c. }
    destruct (decide (Exists (λ c, c_link c = Open ∧ up c ≠ []) cs)) as [(i & c & Hi & Hl)%Exists_lookup|Hr].
    { left. eexists. apply (step_wait _ _ _ _ _ _ _ [Conn i]); [done|simpl; unfold MAX_EVENTS; lia|apply NoDup_singleton|].
      apply Forall_singleton. by exists c. }
    destruct (decide (Forall (λ c, c_pc c = CDone) cs)) as [Hd|Hd].
    { right. split; [done|]. intros i c Hi. by apply (Forall_lookup_1 _ _ _ _ Hd Hi). }
    left. apply not_Forall_Exists in Hd; [|intros c; apply _]. apply Exists_lookup in Hd as (i & c & Hi & Hd).
    assert (room cs = true) as Hroom.
    { unfold room. rewrite bool_decide_true; [done|]. replace (filter pending cs) with (@nil client); [simpl; lia|].
      destruct (filter pending cs) as [|d l] eqn:E; [done|]. exfalso. apply Hp, Exists_exists. exists d.
      assert (d ∈ filter pending cs) as [? ?]%list_elem_of_filter by (rewrite E; by left). done. }
    destruct (client_step (cpid i) true c) as [r|] eqn:E.
    { eexists. by apply (step_client _ _ _ _ i c r); simpl; rewrite ?Hroom. }
    exfalso. destruct (Hcs i c Hi) as [Hok _].
    destruct (client_stuck i c Hok Hd E); [apply Hp|apply Hr]; apply Exists_lookup; by eexists _, _.
  - destruct Hsv as [_ Hr]. destruct evs as [|[|i] evs]; [eexists; apply step_round| |]; apply Forall_cons in Hr as [He _].
    + destruct He as (i & c & Hi & Hl). eexists. by apply (step_accept _ _ _ _ _ _ _ _ i c).
    + destruct He as (c & Hi & _). eexists. by apply step_handle.
Qed.

Lemma reached_ok n s0 s :
  sys_ok s0 → nsteps (next spid cpid client_len) n s0 s → sys_ok s ∧ (n + work s ≤ work s0)%nat.
Proof.
  intros H0. apply (nsteps_measure _ sys_ok work); [|done]. intros s1 s2 H1 H2.
  by destruct (step_ok s1 _ H1 H2) as (s' & [= ->] & ?).
Qed.

Lemma initial_ok s : initial s → sys_ok s ∧ work s = (12 * length (clients s) + 2)%nat.
Proof.
  destruct s as [sv mt mf o cs]. intros (Hsv & Hmt & Hmf & Hcs). simpl in *. subst sv. split.
  - split_and!; [done|done| |done]. intros i c Hi. rewrite Forall_lookup in Hcs.
    destruct (Hcs i c Hi) as (Hpc & Hto & Hfrom & Hu & Hd & Hl & Ho). split; [|intros _; by left].
    unfold client_ok. by rewrite Hpc.
  - unfold work. simpl. enough (sum_list_with left cs = 12 * length cs)%nat by lia.
    induction Hcs as [|c cs (Hpc & _ & _ & _ & _ & Hl & _) _ IH]; [done|]. simpl. rewrite IH.
    unfold left at 1. rewrite Hpc, Hl. simpl. lia.
Qed.

Lemma not_answered i c :
  client_ok i c → c_link c = Unconnected ∨ c_link c = Pending → (c_pc c ∉ [CShow; CClose; CDone]) ∧ down c = [].
Proof.
  destruct c as [pc to from u d l o]. unfold client_ok, sent, served, waiting. simpl. intros (_ & _ & Hc) Hl.
  assert (l ≠ Closed ∧ l ≠ Open) as [Hn Hn'] by (by destruct Hl as [-> | ->]).
  destruct pc; (split; [rewrite ?elem_of_cons, elem_of_nil; intuition congruence|naive_solver]).
Qed.

(** C4: however the server and its clients are interleaved and whatever batches of events
    the server gets, nothing faults, and the system ends after at most twelve steps for
    each client and two more: then the server waits, and every client has printed its
    own pid and the answer made of the server's pid and its own. If the uninitialised
    length given to [accept] is negative the server exits instead, and no client gets an
    answer. *)
Theorem epoll_session s0 :
  initial s0 →
  (∀ n s, nsteps (next spid cpid client_len) n s0 s → (n ≤ 12 * length (clients s0) + 2)%nat) ∧
  ∀ s, rtc (next spid cpid client_len) s0 s →
    (∀ r, step spid cpid client_len s r → ∃ s', r = Ok s') ∧
    (0 ≤ client_len → (∃ s', next spid cpid client_len s s') ∨
      (server s = Wait ∧ ∀ i c, clients s !! i = Some c → c_pc c = CDone ∧ c_out c = said_sent i ++ said_received i)) ∧
    (client_len < 0 → ∀ i c, clients s !! i = Some c → (c_pc c ∉ [CShow; CClose; CDone]) ∧ down c = []).
Proof.
  intros [H0 Hw]%initial_ok. split.
  - intros n s [_ Hn]%reached_ok; [lia|done].
  - intros s [n Hn]%rtc_nsteps. destruct (reached_ok n s0 s H0 Hn) as [Hok _]. split_and!.
    + intros r Hr. destruct (step_ok s r Hok Hr) as (s' & -> & _). by eexists.
    + intros Hl. destruct (progress s Hok Hl) as [[r Hr]|[Hsv Hd]].
      * left. destruct (step_ok s r Hok Hr) as (s' & -> & _). by exists s'.
      * right. split; [done|]. intros i c Hi. specialize (Hd i c Hi). split; [done|].
        destruct Hok as (_ & _ & Hcs & _). destruct (Hcs i c Hi) as [(_ & _ & Hc) _]. rewrite Hd in Hc. apply Hc.
    + intros Hneg i c Hi. destruct Hok as (_ & _ & Hcs & _). destruct (Hcs i c Hi) as [(_ & _ & Hc) Hrf].
      specialize (Hrf Hneg). apply (not_answered i); [by destruct (Hcs i c Hi)|done].
Qed.
End Spec.

(** Two clients. *)
Definition two_clients : sys :=
  let c := Client CConnect (replicate 32 7) (replicate 32 7) [] [] Unconnected [] in
  Sys Wait (replicate 32 7) (replicate 32 7) [] [c; c].

Lemma epoll_session_witness :
  initial two_clients ∧ ∀ n s, nsteps (next 99 (λ i, Z.of_nat (i mod 10)) 16) n two_clients s → (n ≤ 26)%nat.
Proof.
  assert (initial two_clients) as H by (split_and!; repeat constructor).
  split; [exact H|]. refine (proj1 (epoll_session 99 (λ i, Z.of_nat (i mod 10)) 16 _ _ two_clients H)); [lia|].
  intros i. pose proof (Nat.mod_upper_bound i 10 ltac:(lia)). lia.
Defined.
