(* ===== verification/MdTasks.v ===== *)
(** * The task list (4/proc_info/md.c)

    A module that prints a line for every task when it is loaded, and one more for the
    task that loads it. *)

From S2P Require Import Prelude TaskInfo.
From stdpp Require Import options.
#[local] Set Default Proof Using "Type*".
Local Open Scope Z_scope.

(** The kernel log. *)
Definition printk (d : list Z) : prog (list Z) unit := modify (λ o, o ++ d).

(** "<head>taskp - %llu, task - %s, pid - %d, parent - %s, ppid - %d, state - %d,
    flags - %x, prio - %d, root - %s, policy - %d, pwd - %s<tail>". *)
Definition task_text (head : list Z) (taskp : Z) (t : task_struct) (root pwd tail : list Z) : list Z :=
  head ++ bytes "taskp - " ++ dec taskp ++ bytes ", task - " ++ comm t ++ bytes ", pid - " ++ dec (pid t) ++
  bytes ", parent - " ++ parent_comm t ++ bytes ", ppid - " ++ dec (parent_pid t) ++
  bytes ", state - " ++ dec (int32 (task_state t)) ++ bytes ", flags - " ++ hex (flags t) ++
  bytes ", prio - " ++ dec (prio t) ++ bytes ", root - " ++ root ++
  bytes ", policy - " ++ dec (int32 (policy t)) ++ bytes ", pwd - " ++ pwd ++ tail.

(** The call of [printk]: its arguments are read through [fs]. *)
Definition print_task (head : list Z) (taskp : Z) (t : task_struct) (tail : list Z) : prog (list Z) unit :=
  match fs t with
  | Some (root, pwd) => printk (task_text head taskp t root pwd tail)
  | None => crash NullDeref
  end.

Definition head_task : list Z := bytes "+ TASK: ".
Definition head_current : list Z := bytes "+ CURRENT: ".

Section Md.
(** The tasks by their addresses, each with the address of the next one; the address of
    [init_task] and [current]. *)
Context (tasks : gmap Z (task_struct * Z)) (init_task current : Z).

(** The fields of a task and its successor; what is not a task is released memory. *)
Definition deref (p : Z) : outcome (task_struct * Z) :=
  match tasks !! p with Some r => Ok r | None => Fault UseAfterFree end.

(** The do loop; [task] is the task of this round. *)
Fixpoint task_loop (fuel : nat) (task : Z) : lprog (list Z) unit :=
  match fuel with
  | O => no_fuel
  | S fuel =>
      '(t, next_task) ← now (lift (deref task));
      now (print_task head_task task t [10]);;
      if decide (next_task ≠ init_task) then task_loop fuel next_task else mret tt
  end.

Definition md_init (fuel : nat) : lprog (list Z) Z :=
  task_loop fuel init_task;;
  '(t, _) ← now (lift (deref current));
  now (print_task head_current current t [10; 10]);;
  mret 0.

Definition md_exit : prog (list Z) unit := printk (bytes "+ TASK_INFO: Good by!" ++ [10]).

(** ** The ring of the tasks *)

(** [chain p l stop]: from [p] on the tasks are [l], and the one behind them [stop]. *)
Fixpoint chain (p : Z) (l : list (Z * task_struct)) (stop : Z) : Prop :=
  match l with
  | [] => p = stop
  | (a, t) :: l => a = p ∧ ∃ next, tasks !! p = Some (t, next) ∧ chain next l stop
  end.

(** The tasks of the system, in the order of the list, from [init_task] around. *)
Definition ring (l : list (Z * task_struct)) : Prop :=
  l ≠ [] ∧ NoDup l.*1 ∧ chain init_task l init_task.

(** The line of a task, if it still has [fs]. *)
Definition line_of (head : list Z) (m : Z * task_struct) (tail : list Z) : list Z :=
  match fs m.2 with Some (root, pwd) => task_text head m.1 m.2 root pwd tail | None => [] end.

(** Every task has its file-system structure. *)
Definition alive (m : Z * task_struct) : Prop := is_Some (fs m.2).

Lemma print_task_ok head m tail o : alive m → print_task head m.1 m.2 tail o = Ok (tt, o ++ line_of head m tail).
Proof. intros [[root pwd] Hfs]. unfold print_task, line_of. by rewrite Hfs. Qed.

(** The loop from the middle of the ring on, where [rest] is what it still has to print:
    the first task that has exited ends it. *)
Lemma task_loop_chain l1 l2 p o fuel :
  l1 ++ l2 ≠ [] → chain p (l1 ++ l2) init_task → init_task ∉ tail (l1 ++ l2).*1 → Forall alive l1 →
  (length l1 + 1 ≤ fuel)%nat → match l2 with [] => True | m :: _ => ¬ alive m end →
  task_loop fuel p o =
    match l2 with
    | [] => Some (Ok (tt, o ++ concat ((λ m, line_of head_task m [10]) <$> l1)))
    | _ => Some (Fault NullDeref)
    end.
Proof.
  intros Hne Hch Hnin Hal. revert p o fuel Hne Hch Hnin.
  induction Hal as [|[a t] l1 Ha _ IH]; intros p o fuel Hne Hch Hnin Hf Hdead; (destruct fuel as [|fuel]; [simpl in Hf; lia|]).
  - destruct l2 as [|[a t] l2]; [done|]. destruct Hch as (-> & next & Hp & _).
    cbn [task_loop]. unfold mbind, lprog_bind, now, lift, deref. rewrite Hp. unfold print_task.
    unfold alive in Hdead. simpl in Hdead. destruct (fs t) as [[root pwd]|]; [|done]. destruct Hdead. by eexists.
  - destruct Hch as (-> & next & Hp & Hch).
    cbn [task_loop]. unfold mbind, lprog_bind, now, lift, deref. rewrite Hp. cbn beta iota.
    rewrite (print_task_ok head_task (p, t)) by done. cbn beta iota. cbn [app fmap list_fmap tail] in Hnin.
    destruct (l1 ++ l2) as [|[b u] l] eqn:E.
    + simpl in Hch. subst. rewrite decide_False by naive_solver. apply app_eq_nil in E as [-> ->].
      cbn [fmap list_fmap concat]. by rewrite app_nil_r.
    + assert (next ≠ init_task) as Hn by (destruct Hch as [-> _]; set_solver). rewrite decide_True by done.
      assert (init_task ∉ tail ((b, u) :: l).*1) as Hnin' by set_solver.
      rewrite (IH next); [|done|done|done|simpl in Hf; lia|done].
      destruct l2; [|done]. cbn [fmap list_fmap concat]. by rewrite <- app_assoc.
Qed.

(** C20: loading the module prints a line for every task of the ring exactly once, from
    [init_task] on in the order of the list, and then the line of the current task,
    and the loop ends after as many rounds as there are tasks. If one of the tasks has
    exited, its [fs] pointer is null and loading the module crashes the kernel. *)
Theorem md_init_lists l t next o fuel :
  ring l → tasks !! current = Some (t, next) → is_Some (fs t) → (length l < fuel)%nat →
  (Forall alive l →
    md_init fuel o = Some (Ok (0, o ++ concat ((λ m, line_of head_task m [10]) <$> l) ++
      line_of head_current (current, t) [10; 10]))) ∧
  (Exists (λ m, ¬ alive m) l → md_init fuel o = Some (Fault NullDeref)).
Proof.
  intros (Hne & Hnd & Hch) Hcur Hfs Hf.
  assert (init_task ∉ tail l.*1) as Hnin.
  { destruct l as [|[a u] l]; [done|]. destruct Hch as [-> _]. cbn in *. by apply NoDup_cons in Hnd as [? _]. }
  unfold md_init, mbind, lprog_bind. split.
  - intros Hal. opose proof (task_loop_chain l [] init_task o fuel _ _ _ Hal _ _) as H;
      [by rewrite app_nil_r..|lia|done|]. rewrite H. unfold now, lift, deref. rewrite Hcur. cbn beta iota.
    rewrite (print_task_ok head_current (current, t)) by done. unfold mret, lprog_ret. by rewrite <- app_assoc.
  - intros Hex.
    assert (∃ l1 m l2, l = l1 ++ m :: l2 ∧ Forall alive l1 ∧ ¬ alive m) as (l1 & m & l2 & -> & Hal & Hm).
    { clear -Hex. induction l as [|m l IH]; [by apply Exists_nil in Hex|].
      destruct (decide (is_Some (fs m.2))) as [Hm|Hm]; [|by exists [], m, l].
      apply Exists_cons in Hex as [|Hex]; [done|]. destruct (IH Hex) as (l1 & m' & l2 & -> & ? & ?).
      exists (m :: l1), m', l2. split_and!; [done| |done]. by constructor. }
    rewrite length_app in Hf. simpl in Hf.
    by rewrite (task_loop_chain l1 (m :: l2)) by (done || lia).
Qed.
End Md.

(** A system of two tasks; the second loads the module. *)
Definition example_tasks : gmap Z (task_struct * Z) :=
  {[ 1000 := (init_task, 2000);
     2000 := (Task (bytes "insmod") 7 (bytes "bash") 5 0 1 0x400000 120 0 0 0 0 0 (Some (bytes "/", bytes "root")), 1000) ]}.

Lemma md_init_lists_witness :
  ∃ o, md_init example_tasks 1000 2000 3 [] = Some (Ok (0, o)) ∧ length o = 438%nat.
Proof.
  eexists. split.
  - refine (proj1 (md_init_lists example_tasks 1000 2000
      [(1000, init_task); (2000, _)] _ 1000 [] 3 _ eq_refl _ _) _); [|by eexists|simpl; lia|].
    + split; [done|]. split; [decided|].
      simpl. split; [done|]. eexists. split; [reflexivity|]. split; [done|]. eexists. by split.
    + repeat constructor; by eexists.
  - vm_compute. reflexivity.
Defined.
