(* ===== verification/Interactive.v ===== *)
(** * Modules that use each other (5/interactive_module)

    md1 exports a variable and a function; md2 and md3 use them when they are loaded.
    The state is the variable md1_data, which the modules share, and the kernel log. *)

From S2P Require Import Prelude.
From stdpp Require Import options.
#[local] Set Default Proof Using "Type*".
Local Open Scope Z_scope.

Record shared := Shared { md1_data : Z; klog : list Z }.
Definition printk (d : list Z) : prog shared unit := modify (λ s, Shared (md1_data s) (klog s ++ d)).

(** A product of ints; the kernel is compiled with -fno-strict-overflow, so it wraps. *)
Definition times3 : prog shared Z := s ← get_st; mret (int32 (md1_data s * 3)).

Module Md1.
Definition initial : Z := 7.
Definition md1_func : prog shared Z := times3.
Definition md1_local : prog shared Z := times3.
Definition md1_noexport : prog shared Z := times3.
Definition md_init : prog shared Z := printk (bytes "+ module md1 start!" ++ [10]);; mret 0.
Definition md_exit : prog shared unit := printk (bytes "+ module md1 unloaded!" ++ [10]).
End Md1.

(** A line with a number. *)
Definition printk_d (text : string) (n : Z) : prog shared unit := printk (bytes text ++ dec n ++ [10]).

Module Md2.
Definition md_init : prog shared Z :=
  printk (bytes "+ module md2 start!" ++ [10]);;
  s ← get_st;
  printk_d "+ data number exported from md1 : " (md1_data s);;
  n ← Md1.md1_func;
  printk_d "+ number returned md1_proc() is : " n;;
  mret 0.
Definition md_exit : prog shared unit := printk (bytes "+ module md2 unloaded!" ++ [10]).
End Md2.

Module Md3.
Definition md_init : prog shared Z :=
  printk (bytes "+ module md3 start!" ++ [10]);;
  s ← get_st;
  printk_d "+ data int exported from md1 : " (md1_data s);;
  n ← Md1.md1_func;
  printk_d "+ number returned md1_func() is : " n;;
  mret 1.
Definition md_exit : prog shared unit := printk (bytes "+ module md3 unloaded!" ++ [10]).
End Md3.

(** What a using module prints between its first line and the end of its init. *)
Definition numbers (first second : string) (n : Z) : list Z :=
  bytes first ++ dec n ++ [10] ++ bytes second ++ dec (int32 (n * 3)) ++ [10].

(** The modules see the variable of md1 as it is when they are loaded; the three
    functions of md1 agree, and give three times the variable unless that is no int.
    None of the modules changes the variable; md3 ends with 1 where the others end
    with 0. *)
Theorem interactive_inits n l :
  Md1.md_init (Shared n l) = Ok (0, Shared n (l ++ bytes "+ module md1 start!" ++ [10])) ∧
  Md2.md_init (Shared n l) = Ok (0, Shared n (l ++ bytes "+ module md2 start!" ++ [10] ++
    numbers "+ data number exported from md1 : " "+ number returned md1_proc() is : " n)) ∧
  Md3.md_init (Shared n l) = Ok (1, Shared n (l ++ bytes "+ module md3 start!" ++ [10] ++
    numbers "+ data int exported from md1 : " "+ number returned md1_func() is : " n)) ∧
  Md1.md1_func = Md1.md1_local ∧ Md1.md1_func = Md1.md1_noexport ∧
  (- 2 ^ 31 ≤ n * 3 < 2 ^ 31 → Md1.md1_func (Shared n l) = Ok (n * 3, Shared n l)).
Proof.
  split; [done|]. split_and!; try done.
  1,2: unfold Md2.md_init, Md3.md_init, printk_d, printk, Md1.md1_func, times3, mbind, prog_bind, modify, get_st, mret, prog_ret, numbers;
    cbn [md1_data klog]; by rewrite <- !app_assoc.
  intros Hn. unfold Md1.md1_func, times3, mbind, prog_bind, get_st, mret, prog_ret. cbn [md1_data]. by rewrite int32_small.
Qed.

Example md2_numbers : ∃ l, Md2.md_init (Shared Md1.initial []) = Ok (0, Shared 7 l) ∧
  l = bytes "+ module md2 start!" ++ [10] ++ bytes "+ data number exported from md1 : 7" ++ [10] ++
      bytes "+ number returned md1_proc() is : 21" ++ [10].
Proof. eexists. split; [vm_compute; reflexivity|reflexivity]. Qed.
