(* ===== verification/ProcFiles.v ===== *)
(** * Opening and releasing the files in /proc

    The modules of 6/seq_files and 9/interrupts open their files with the library of
    sequence files and release them with it, or not. What stays allocated after a number
    of sessions is what their release functions forget. The library is code outside the
    repository: the operations of a type class, with its documented behaviour as laws. *)

From S2P Require Import Prelude Kernel.
From stdpp Require Import options.
#[local] Set Default Proof Using "Type*".
Local Open Scope Z_scope.

(** ** The library *)

(** The private data of an open file: the [seq_file], and the [seq_operations] that
    [single_open] has made for it. *)
Record file := File { private_data : option handle; op : option handle }.

(** The calls, and the sizes of what they allocate. *)
Class SeqLib (W : Type) `{!Kernel W} := {
  sizeof_seq_file : Z;
  sizeof_seq_operations : Z;
  seq_open : prog (kstate W file) Z;
  single_open : prog (kstate W file) Z;
  seq_release : prog (kstate W file) Z
}.

Definition seq_obj {W} `{!Kernel W, !SeqLib W} : kobj := KKmalloc sizeof_seq_file.
Definition op_obj {W} `{!Kernel W, !SeqLib W} : kobj := KKmalloc sizeof_seq_operations.
Arguments seq_obj W {_ _}.
Arguments op_obj W {_ _}.

(** An open that fails has allocated nothing. [seq_release] frees the [seq_file]; it knows
    nothing of operations made by [single_open]. *)
Class SeqLibLaws (W : Type) `{!Kernel W, !SeqLib W} := {
  seq_open_ok w (Q : Z → kstate W file → Prop) :
    (∀ w' r g, r < 0 → held w' = held w → Q r (KState w' g)) →
    (∀ w' h, held w !! h = None → held w' = <[h := seq_obj W]> (held w) →
       Q 0 (KState w' (File (Some h) None))) →
    wp seq_open Q (KState w (File None None));
  single_open_ok w (Q : Z → kstate W file → Prop) :
    (∀ w' r g, r < 0 → held w' = held w → Q r (KState w' g)) →
    (∀ w' h o, held w !! o = None → <[o := op_obj W]> (held w) !! h = None →
       held w' = <[h := seq_obj W]> (<[o := op_obj W]> (held w)) → Q 0 (KState w' (File (Some h) (Some o)))) →
    wp single_open Q (KState w (File None None));
  seq_release_ok w h o m (Q : Z → kstate W file → Prop) :
    held w = <[h := seq_obj W]> m → m !! h = None →
    (∀ w', held w' = m → Q 0 (KState w' (File None o))) →
    wp seq_release Q (KState w (File (Some h) o))
}.

(** ** The handlers *)

(** 6/seq_files/single_file.c *)
Module SingleOps.
Definition ct_seq_open {W} `{!Kernel W, !SeqLib W} : prog (kstate W file) Z := single_open.
Definition ct_seq_release {W} `{!Kernel W, !SeqLib W} : prog (kstate W file) Z := seq_release.
End SingleOps.

(** 6/seq_files/seq_file.c *)
Module SeqOps.
Definition ct_seq_open {W} `{!Kernel W, !SeqLib W} : prog (kstate W file) Z := seq_open.
Definition ct_seq_release {W} `{!Kernel W, !SeqLib W} : prog (kstate W file) Z := seq_release.
End SeqOps.

(** 9/interrupts/tasklet/tasklet.c *)
Module IrqOps.
Definition my_open {W} `{!Kernel W, !SeqLib W} : prog (kstate W file) Z := single_open.
Definition my_release {W} `{!Kernel W, !SeqLib W} : prog (kstate W file) Z := mret 0.
End IrqOps.

(** 9/interrupts/workqueue/mywq.c *)
Module WqOps.
Definition my_open {W} `{!Kernel W, !SeqLib W} : prog (kstate W file) Z := single_open.
Definition my_release {W} `{!Kernel W, !SeqLib W} : prog (kstate W file) Z := mret 0.
End WqOps.

(** ** Sessions *)

Section Sessions.
Context {W : Type} `{!Kernel W, !KernelLaws W, !SeqLib W, !SeqLibLaws W}.
Abbreviation M := (prog (kstate W file)).

(** [n] times a process opens the file and, if it could, closes it; the result counts
    the files that could be opened. Every file starts without private data. *)
Fixpoint sessions (open release : M Z) (n : nat) : M nat :=
  match n with
  | O => mret 0%nat
  | S n =>
      set_g (λ _, File None None);;
      res ← open;
      k ← (if decide (res = 0) then _ ← release; mret 1%nat else mret 0%nat);
      n ← sessions open release n;
      mret (k + n)%nat
  end.

(** [m'] is [m] and further objects [l]. *)
Inductive more (m : gmap handle kobj) : list kobj → gmap handle kobj → Prop :=
  | more_nil : more m [] m
  | more_cons h o l m' : m' !! h = None → more m l m' → more m (o :: l) (<[h := o]> m').

Lemma more_app m1 m2 m3 l1 l2 : more m2 l2 m3 → more m1 l1 m2 → more m1 (l2 ++ l1) m3.
Proof. induction 1; simpl; [done|]. intros. constructor; auto. Qed.

(** A session leaves [l] allocated, or nothing if the file could not be opened. *)
Definition leaves (open release : M Z) (l : list kobj) : Prop :=
  ∀ w, wp open (λ res s, (res < 0 ∧ held (world s) = held w) ∨
                         (res = 0 ∧ wp release (λ _ s', more (held w) l (held (world s'))) s))
          (KState w (File None None)).

Lemma sessions_leave open release l n w g :
  leaves open release l →
  wp (sessions open release n) (λ k s, (k ≤ n)%nat ∧ more (held w) (concat (replicate k l)) (held (world s))) (KState w g).
Proof.
  intros Hl. revert w g. induction n as [|n IH]; intros w g; cbn [sessions]; wp_steps; [split; [done|constructor]|].
  destruct (Hl w) as (res & [w1 g1] & Hres & [[Hneg Hw1]|[-> Hrel]]); eapply wp_Ok; [exact Hres| |exact Hres|]; cbn beta; cbn [world glob] in *.
  - rewrite decide_False by lia. wp_steps. eapply wp_mono; [apply IH|]. intros k s [Hk Hs].
    wp_steps. split; [simpl; lia|]. by rewrite Hw1 in Hs.
  - rewrite decide_True by done. wp_steps. eapply wp_mono; [exact Hrel|]. intros r [w2 g2] Hm. wp_steps.
    eapply wp_mono; [apply IH|]. intros k s [Hk Hs]. wp_steps. split; [lia|]. simpl.
    replace (l ++ concat (replicate k l)) with (concat (replicate k l) ++ l); [by eapply more_app|].
    clear. induction k as [|k IHk]; simpl; [by rewrite app_nil_r|]. by rewrite <- app_assoc, IHk.
Qed.

(** A file opened with [single_open] and closed with nothing. *)
Lemma never_released_leaves : leaves single_open (mret 0) [seq_obj W; op_obj W].
Proof.
  intros w'. apply single_open_ok; [intros; left; done|]. intros w1 h o Ho Hh Hw1.
  right. split; [done|]. wp_steps. simpl. rewrite Hw1. by repeat constructor.
Qed.

(** After any number of sessions, seq_file.c has left nothing allocated, single_file.c
    the operations of every file that was opened, and the files of the two interrupt
    modules those and the [seq_file] itself. *)
Theorem proc_file_sessions n w g :
  wp (sessions SeqOps.ct_seq_open SeqOps.ct_seq_release n)
    (λ k s, (k ≤ n)%nat ∧ held (world s) = held w) (KState w g) ∧
  wp (sessions SingleOps.ct_seq_open SingleOps.ct_seq_release n)
    (λ k s, (k ≤ n)%nat ∧ more (held w) (replicate k (op_obj W)) (held (world s))) (KState w g) ∧
  wp (sessions IrqOps.my_open IrqOps.my_release n)
    (λ k s, (k ≤ n)%nat ∧ more (held w) (concat (replicate k [seq_obj W; op_obj W])) (held (world s))) (KState w g) ∧
  wp (sessions WqOps.my_open WqOps.my_release n)
    (λ k s, (k ≤ n)%nat ∧ more (held w) (concat (replicate k [seq_obj W; op_obj W])) (held (world s))) (KState w g).
Proof.
  split_and!.
  - eapply wp_mono; [apply (sessions_leave _ _ [])|].
    + intros w'. apply seq_open_ok; [intros; by left|]. intros w1 h Hh Hw1. right. split; [done|].
      eapply seq_release_ok; [exact Hw1|done|]. intros w2 Hw2. simpl. rewrite Hw2. constructor.
    + intros k s [Hk Hm]. split; [done|]. replace (concat (replicate k [])) with (@nil kobj) in Hm.
      * by inversion Hm.
      * clear. by induction k.
  - eapply wp_mono; [apply (sessions_leave _ _ [op_obj W])|].
    + intros w'. apply single_open_ok; [intros; left; done|]. intros w1 h o Ho Hh Hw1. right. split; [done|].
      eapply seq_release_ok; [exact Hw1|done|]. intros w2 Hw2. simpl. rewrite Hw2. by repeat constructor.
    + intros k s [Hk Hm]. split; [done|]. replace (replicate k (op_obj W)) with (concat (replicate k [op_obj W])); [done|].
      clear. induction k as [|k IH]; [done|]. simpl. by rewrite IH.
  - apply sessions_leave, never_released_leaves.
  - apply sessions_leave, never_released_leaves.
Qed.
End Sessions.

(** ** The laws can hold *)

Section Ledger.
Abbreviation M := (prog (kstate ledger file)).

Definition ledger_seq_open : M Z :=
  p ← kmalloc 120;
  match p with
  | None => mret (- 12)
  | Some _ => set_g (λ f, File p (op f));; mret 0
  end.

Definition ledger_single_open : M Z :=
  o ← kmalloc 32;
  match o with
  | None => mret (- 12)
  | Some _ =>
      res ← ledger_seq_open;
      if decide (res ≠ 0) then kfree o;; mret res
      else set_g (λ f, File (private_data f) o);; mret 0
  end.

Definition ledger_seq_release : M Z :=
  f ← get_g; kfree (private_data f);; set_g (λ f, File None (op f));; mret 0.
End Ledger.

#[export] Instance ledger_seq : SeqLib ledger := {|
  sizeof_seq_file := 120;
  sizeof_seq_operations := 32;
  seq_open := ledger_seq_open;
  single_open := ledger_single_open;
  seq_release := ledger_seq_release
|}.

#[export] Instance ledger_seq_laws : SeqLibLaws ledger.
Proof.
  split; unfold seq_open, single_open, seq_release, ledger_seq, ledger_seq_release, ledger_single_open, ledger_seq_open, kmalloc.
  - intros w Q Herr Hok. wp_steps; [apply Hok; [by eapply ff_new|done]|apply Herr; [lia|done]].
  - intros w Q Herr Hok. wp_steps.
    all: try (apply Herr; [lia|congruence]).
    match goal with H1 : fresh_for _ _ _, E : held ?w' = _, H2 : fresh_for (held ?w') _ _ |- _ =>
      apply ff_new in H1, H2; rewrite E in * end.
    by apply Hok.
  - intros w h o m Q Hw Hm HQ. wp_steps. simpl. eapply wp_release_last; [exact Hw|done|done|].
    intros w' Hw'. wp_steps. by apply HQ.
Qed.

Lemma proc_file_sessions_witness :
  ∃ k s, sessions IrqOps.my_open IrqOps.my_release 3 (KState (Ledger ∅ 0 [2%nat]) (File None None)) = Ok (k, s) ∧
    (k ≤ 3)%nat ∧ more ∅ (concat (replicate k [seq_obj ledger; op_obj ledger])) (l_held (world s)).
Proof. exact (proj1 (proj2 (proj2 (proc_file_sessions 3 (Ledger ∅ 0 [2%nat]) (File None None))))). Defined.

(** Three sessions, of which the second cannot be opened. *)
Example sessions_leak :
  (λ x : outcome (nat * kstate ledger file), match x with Ok (k, s) => Some (k, size (l_held (world s))) | _ => None end)
    (sessions IrqOps.my_open IrqOps.my_release 3 (KState (Ledger ∅ 0 [2%nat]) (File None None))) = Some (2, 4)%nat.
Proof. vm_compute. reflexivity. Qed.
