(* ===== verification/ProcOps.v ===== *)
(** * The operation tables of the /proc files

    The modules of 6/seq_files and 9/interrupts hand the reads and seeks of their files to
    the library of sequence files, which calls them back: an iterator, or one function
    that shows everything. The library is code outside the repository: the operations of
    a type class, with its documented behaviour as laws. *)

From S2P Require Import Prelude Kernel TaskInfo SingleFile SingleFileSpec SeqFile.
From S2P Require Import Threads KernelIrq Tasklet TaskletSpec Workqueue ProcFiles.
From stdpp Require Import options.
#[local] Set Default Proof Using "Type*".
Local Open Scope Z_scope.

(** ** Sequence files *)

(** What a module gives to [seq_open] or to [single_open]. *)
Inductive seq_ops (W G : Type) :=
  | Iterator (start : Z → prog (kstate W G) (option handle))
      (show : option handle → prog (kstate W G) (list Z * Z))
      (next : option handle → prog (kstate W G) (option handle * Z))
      (stop : option handle → prog (kstate W G) unit)
  | Single (show : prog (kstate W G) (list Z * Z)).
Arguments Iterator {W G} _ _ _ _.
Arguments Single {W G} _.

(** An open file and the module. A read gives its result, the bytes for the user and the
    position afterwards. *)
Abbreviation onfile W G := (kstate W (file * G)).

Class SeqRead (W : Type) := {
  seq_read {G} : seq_ops W G → Z → Z → prog (onfile W G) (Z * list Z * Z);
  seq_lseek {G} : seq_ops W G → Z → Z → prog (onfile W G) Z
}.

Section Walks.
Context {W G : Type}.

(** The calls of an iterator keep [I], made in the documented order: [start]; [show] and
    [next] for an element, at most [n] more of them after it; [stop] with the last pointer,
    at any time. [E n v] holds while the iterator is at [v]. *)
Record walks (I : W → G → Prop) (E : nat → option handle → W → G → Prop)
    (start : Z → prog (kstate W G) (option handle)) (show : option handle → prog (kstate W G) (list Z * Z))
    (next : option handle → prog (kstate W G) (option handle * Z)) (stop : option handle → prog (kstate W G) unit) : Prop := {
  wk_start pos w g : I w g →
    wp (start pos) (λ v s, ∃ n, E n v (world s) (glob s)) (KState w g);
  wk_show n h w g : E n (Some h) w g →
    wp (show (Some h)) (λ r s, r.2 = 0 ∧ E n (Some h) (world s) (glob s)) (KState w g);
  wk_next n h w g : E n (Some h) w g →
    ∃ n', n = S n' ∧ wp (next (Some h)) (λ r s, E n' r.1 (world s) (glob s)) (KState w g);
  wk_stop n v w g : E n v w g → wp (stop v) (λ _ s, I (world s) (glob s)) (KState w g)
}.

(** The operations keep [I]. *)
Definition keeps (I : W → G → Prop) (o : seq_ops W G) : Prop :=
  match o with
  | Iterator start show next stop => ∃ E, walks I E start show next stop
  | Single show => ∀ w g, I w g → wp show (λ r s, r.2 = 0 ∧ I (world s) (glob s)) (KState w g)
  end.
End Walks.

(** The library touches the module only through its operations, and only on a file that
    was opened; a short text is read in one go from the start of the file. *)
Class SeqReadLaws (W : Type) `{!SeqRead W} := {
  seq_read_keeps {G} (I : W → G → Prop) o size pos f w g :
    keeps I o → is_Some (private_data f) → I w g →
    wp (seq_read o size pos) (λ _ s, (glob s).1 = f ∧ I (world s) (glob s).2) (KState w (f, g));
  seq_lseek_keeps {G} (I : W → G → Prop) o off whence f w g :
    keeps I o → is_Some (private_data f) → I w g →
    wp (seq_lseek o off whence) (λ _ s, (glob s).1 = f ∧ I (world s) (glob s).2) (KState w (f, g));
  seq_read_text {G} (show : prog (kstate W G) (list Z * Z)) t size f w g w' g' :
    is_Some (private_data f) → show (KState w g) = Ok ((t, 0), KState w' g') →
    t ≠ [] → Z.of_nat (length t) ≤ size → Z.of_nat (length t) < 4096 →
    seq_read (Single show) size 0 (KState w (f, g)) =
      Ok ((Z.of_nat (length t), t, Z.of_nat (length t)), KState w' (f, g'))
}.

(** ** The tables *)

Section Tables.
Context {W : Type} `{!Kernel W, !SeqRead W} {U : Type} `{!UserMem U}.

(** An operation of the module, and one of the open file. *)
Definition on_mod {G A} (m : prog (kstate W G) A) : prog (onfile W G) A := λ s,
  match m (KState (world s) (glob s).2) with
  | Ok (a, s') => Ok (a, KState (world s') ((glob s).1, glob s'))
  | Fault f => Fault f
  end.
Definition on_file {G A} (m : prog (kstate W file) A) : prog (onfile W G) A := λ s,
  match m (KState (world s) (glob s).1) with
  | Ok (a, s') => Ok (a, KState (world s') (glob s', (glob s).2))
  | Fault f => Fault f
  end.

(** [struct proc_ops]; an entry that is not set is [None]. *)
Record proc_ops (G : Type) := ProcOps {
  proc_open : prog (onfile W G) Z;
  proc_read : Z → Z → prog (onfile W G) (Z * list Z * Z);
  proc_write : option (U → Z → prog (onfile W G) Z);
  proc_release : prog (onfile W G) Z;
  proc_lseek : option (Z → Z → prog (onfile W G) Z)
}.
Arguments ProcOps {G} _ _ _ _ _.
Arguments proc_open {G} _.
Arguments proc_read {G} _ _ _.
Arguments proc_write {G} _.
Arguments proc_release {G} _.
Arguments proc_lseek {G} _.
End Tables.
Arguments proc_ops : clear implicits.
Arguments ProcOps {W U G} _ _ _ _ _.
Arguments proc_open {W U G} _.
Arguments proc_read {W U G} _ _ _.
Arguments proc_write {W U G} _.
Arguments proc_release {W U G} _.
Arguments proc_lseek {W U G} _.

(** 6/seq_files/seq_file.c *)
Module SeqTable.
Section Ops.
Context {W : Type} `{!Kernel W, !SeqLib W, !SeqRead W} {U : Type} (current : W → task_struct).
Definition ct_seq_ops : seq_ops W seqst :=
  Iterator SeqFile.ct_seq_start (SeqFile.ct_seq_show current) SeqFile.ct_seq_next SeqFile.ct_seq_stop.
Definition ct_seq_read (size ppos : Z) : prog (onfile W seqst) (Z * list Z * Z) :=
  seq_read ct_seq_ops size ppos.
Definition ct_seq_lseek (offset whence : Z) : prog (onfile W seqst) Z :=
  seq_lseek ct_seq_ops offset whence.
Definition ct_file_ops : proc_ops W U seqst :=
  ProcOps (on_file SeqOps.ct_seq_open) ct_seq_read None (on_file SeqOps.ct_seq_release) (Some ct_seq_lseek).
End Ops.
End SeqTable.

(** 6/seq_files/single_file.c *)
Module SingleTable.
Section Ops.
Context {W : Type} `{!Kernel W, !SeqLib W, !SeqRead W} {U : Type} `{!UserMem U}
  (kstrtoint : list Z → option Z) (task_of : W → handle → task_struct).
Definition shown : seq_ops W single := Single (SingleFile.ct_seq_show kstrtoint task_of).
Definition ct_seq_read (size ppos : Z) : prog (onfile W single) (Z * list Z * Z) :=
  seq_read shown size ppos.
Definition ct_seq_lseek (offset whence : Z) : prog (onfile W single) Z :=
  seq_lseek shown offset whence.
Definition ct_file_ops : proc_ops W U single :=
  ProcOps (on_file SingleOps.ct_seq_open) ct_seq_read (Some (λ u len, on_mod (SingleFile.ct_seq_write u len)))
    (on_file SingleOps.ct_seq_release) (Some ct_seq_lseek).
End Ops.
End SingleTable.

(** 9/interrupts/tasklet/tasklet.c *)
Module TaskletTable.
Section Ops.
Context {W : Type} `{!Kernel W, !SeqLib W, !SeqRead W} {U : Type}.
Definition my_read (count f_pos : Z) : prog (onfile W tstate) (Z * list Z * Z) :=
  seq_read (Single Tasklet.my_show) count f_pos.
Definition fops : proc_ops W U tstate :=
  ProcOps (on_file IrqOps.my_open) my_read None (on_file IrqOps.my_release) None.
End Ops.
End TaskletTable.

(** 9/interrupts/workqueue/mywq.c *)
Module WqTable.
Section Ops.
Context {W : Type} `{!Kernel W, !SeqLib W, !SeqRead W} {U : Type}.
Definition my_show : prog (kstate W wstate) (list Z * Z) :=
  mret (bytes "workqueue info:" ++ [10], 0).
Definition my_read (count f_pos : Z) : prog (onfile W wstate) (Z * list Z * Z) :=
  seq_read (Single my_show) count f_pos.
Definition fops : proc_ops W U wstate :=
  ProcOps (on_file WqOps.my_open) my_read None (on_file WqOps.my_release) None.
End Ops.
End WqTable.

(** ** Processes that use the files *)

Section Sessions.
Context {W : Type} `{!Kernel W, !SeqRead W} {U G : Type}.

(** The system calls on an open file; an operation that the table does not have is
    answered without the module. *)
Inductive access := ARead (size ppos : Z) | AWrite (u : U) (len : Z) | ASeek (offset whence : Z).

Definition run_access (t : proc_ops W U G) (a : access) : prog (onfile W G) unit :=
  match a with
  | ARead size ppos => proc_read t size ppos;; mret tt
  | AWrite u len => match proc_write t with Some f => f u len;; mret tt | None => mret tt end
  | ASeek offset whence => match proc_lseek t with Some f => f offset whence;; mret tt | None => mret tt end
  end.

Fixpoint run_accesses (t : proc_ops W U G) (l : list access) : prog (onfile W G) unit :=
  match l with
  | [] => mret tt
  | a :: l => run_access t a;; run_accesses t l
  end.

(** Processes that open the file, use it and close it, one after the other; the result
    counts those that could open it. *)
Fixpoint table_sessions (t : proc_ops W U G) (ls : list (list access)) : prog (onfile W G) nat :=
  match ls with
  | [] => mret 0%nat
  | l :: ls =>
      on_file (set_g (λ _, File None None));;
      res ← proc_open t;
      k ← (if decide (res = 0) then run_accesses t l;; proc_release t;; mret 1%nat else mret 0%nat);
      n ← table_sessions t ls;
      mret (k + n)%nat
  end.
End Sessions.
Arguments access : clear implicits.

Section Lift.
Context {W G : Type}.
Implicit Types (w : W) (g : G).

Lemma wp_on_file {A} (m : prog (kstate W file) A) (Q : A → onfile W G → Prop) w f g :
  wp m (λ a s, Q a (KState (world s) (glob s, g))) (KState w f) → wp (on_file m) Q (KState w (f, g)).
Proof. intros (a & s & Hm & HQ). eapply wp_Ok; [|exact HQ]. unfold on_file. simpl. by rewrite Hm. Qed.

Lemma wp_on_mod {A} (m : prog (kstate W G) A) (Q : A → onfile W G → Prop) w f g :
  wp m (λ a s, Q a (KState (world s) (f, glob s))) (KState w g) → wp (on_mod m) Q (KState w (f, g)).
Proof. intros (a & s & Hm & HQ). eapply wp_Ok; [|exact HQ]. unfold on_mod. simpl. by rewrite Hm. Qed.
End Lift.

Section Keep.
Context {W : Type} `{!Kernel W, !KernelLaws W, !SeqLib W, !SeqLibLaws W, !SeqRead W, !SeqReadLaws W} {U G : Type}.
Implicit Types (X mh : gmap handle kobj) (w : W) (g : G).

(** The module holds [mh], in a state that satisfies [P]; the open files, and what
    earlier ones have left behind, are [X]. *)
Definition beside (P : G → gmap handle kobj → Prop) X w g : Prop :=
  ∃ mh, P g mh ∧ X ##ₘ mh ∧ held w = X ∪ mh.

Lemma more_union X mh l m :
  more (X ∪ mh) l m → X ##ₘ mh → ∃ X', m = X' ∪ mh ∧ X' ##ₘ mh ∧ more X l X'.
Proof.
  induction 1 as [|h o l m Hh Hm IH]; intros Hd; [exists X; split_and!; [done|done|constructor]|].
  destruct (IH Hd) as (X' & -> & Hd' & Hm'). apply lookup_union_None in Hh as [Hh1 Hh2].
  exists (<[h := o]> X'). rewrite insert_union_l. split; [done|].
  split; [by apply map_disjoint_insert_l_2|by constructor].
Qed.

(** Opening makes a [seq_file] for the open file, and [l]. *)
Definition opens (open : prog (kstate W file) Z) (l : list kobj) : Prop :=
  ∀ w, wp open (λ res s, (res < 0 ∧ held (world s) = held w) ∨
    (res = 0 ∧ ∃ h m, private_data (glob s) = Some h ∧ m !! h = None ∧ more (held w) l m ∧
       held (world s) = <[h := seq_obj W]> m)) (KState w (File None None)).

(** Releasing gives back the [seq_file], or nothing; [l] is what stays of it. *)
Definition releases (release : prog (kstate W file) Z) (l : list kobj) : Prop :=
  (release = seq_release ∧ l = []) ∨ (release = mret 0 ∧ l = [seq_obj W]).

Lemma single_opens : opens single_open [op_obj W].
Proof.
  intros w. apply single_open_ok; [intros; by left|]. intros w' h o Ho Hh Hw'. right. split; [done|].
  eexists h, _. split; [done|]. split; [exact Hh|]. split; [|done]. repeat constructor. done.
Qed.

Lemma seq_opens : opens seq_open [].
Proof.
  intros w. apply seq_open_ok; [intros; by left|]. intros w' h Hh Hw'. right. split; [done|].
  exists h, (held w). split; [done|]. split; [exact Hh|]. split; [constructor|done].
Qed.

(** A table whose operations keep [P], whatever else is held. *)
Record table_ok (P : G → gmap handle kobj → Prop) (A : access U → Prop) (t : proc_ops W U G)
    (l : list kobj) : Prop := {
  tk_open : ∃ opn lo lr, proc_open t = on_file opn ∧ opens opn lo ∧
    (∃ rel, proc_release t = on_file rel ∧ releases rel lr) ∧ l = lr ++ lo;
  tk_access X a f w g : A a → is_Some (private_data f) → beside P X w g →
    wp (run_access t a) (λ _ s, (glob s).1 = f ∧ beside P X (world s) (glob s).2) (KState w (f, g))
}.

Lemma run_accesses_ok P A t l X acts f w g :
  table_ok P A t l → Forall A acts → is_Some (private_data f) → beside P X w g →
  wp (run_accesses t acts) (λ _ s, (glob s).1 = f ∧ beside P X (world s) (glob s).2) (KState w (f, g)).
Proof.
  intros Ht Hacts Hf. revert w g. induction Hacts as [|a acts Ha Hacts IH]; intros w g HI; simpl; [by apply wp_ret|].
  apply wp_bind. eapply wp_mono; [by eapply tk_access|]. intros [] [w' [f' g']] [Hf' HI']. simpl in *. subst f'. by apply IH.
Qed.

Lemma wp_releases rel lr (P : G → gmap handle kobj → Prop) X h op w g :
  releases rel lr → X !! h = None → beside P (<[h := seq_obj W]> X) w g →
  wp (on_file rel) (λ _ s, ∃ X', more X lr X' ∧ beside P X' (world s) (glob s).2) (KState w (File (Some h) op, g)).
Proof.
  intros [[-> ->]|[-> ->]] HX (mh & HP & Hd & Hw); apply wp_on_file.
  - apply map_disjoint_insert_l in Hd as [Hh Hd]. rewrite <- insert_union_l in Hw.
    eapply seq_release_ok; [exact Hw|by rewrite lookup_union_None|]. intros w' Hw'.
    exists X. split; [constructor|]. by exists mh.
  - apply wp_ret. exists (<[h := seq_obj W]> X). split; [repeat constructor; done|]. by exists mh.
Qed.

(** Sessions keep the module's state and leave [l] behind for every file opened. *)
Lemma table_sessions_ok P A t l ls X f w g :
  table_ok P A t l → Forall (Forall A) ls → beside P X w g →
  wp (table_sessions t ls) (λ k s, (k ≤ length ls)%nat ∧ ∃ X', more X (concat (replicate k l)) X' ∧
    beside P X' (world s) (glob s).2) (KState w (f, g)).
Proof.
  intros Ht Hls. revert X f w g. induction Hls as [|acts ls Hacts Hls IH]; intros X f w g HI; cbn [table_sessions].
  { apply wp_ret. split; [done|]. exists X. split; [constructor|done]. }
  destruct (tk_open _ _ _ _ Ht) as (opn & lo & lr & Hopn & Hopens & (rel & Hrel & Hrels) & ->).
  apply wp_bind, wp_on_file, wp_set_g, wp_bind. rewrite Hopn. apply wp_on_file.
  destruct HI as (mh & HP & Hd & Hw).
  destruct (Hopens w) as (res & [w1 f1] & Hres & [[Hneg Hw1]|[-> (h & m & Hpd & Hh & Hm & Hw1)]]);
    (eapply wp_Ok; [exact Hres|]); cbn [world glob] in *.
  - rewrite decide_False by lia. apply wp_bind, wp_ret, wp_bind.
    eapply wp_mono; [apply (IH X); exists mh; by rewrite Hw1|]. intros k s [Hk Hs]. apply wp_ret.
    split; [simpl; lia|done].
  - rewrite decide_True by done. rewrite Hw in Hm. destruct (more_union _ _ _ _ Hm Hd) as (X1 & -> & Hd1 & Hm1).
    apply lookup_union_None in Hh as [Hh1 Hh2].
    apply wp_bind, wp_bind. eapply wp_mono.
    { eapply (run_accesses_ok _ _ _ _ (<[h := seq_obj W]> X1)); [done|done|by eexists|]. exists mh.
      split; [done|]. split; [by apply map_disjoint_insert_l_2|]. by rewrite <- insert_union_l. }
    intros [] [w2 [f2 g2]] [Hf2 HI2]. cbn [world glob fst snd] in *. subst f2.
    apply wp_bind. rewrite Hrel. destruct f1 as [pd op]. cbn in Hpd. subst pd.
    eapply wp_mono; [eapply (wp_releases rel lr P X1 h); [exact Hrels|exact Hh1|exact HI2]|]. intros r [w3 [f3 g3]] (X2 & Hm2 & HI3). apply wp_ret, wp_bind.
    eapply wp_mono; [by apply (IH X2)|]. intros k s [Hk (X3 & Hm3 & HI4)]. apply wp_ret. split; [simpl; lia|].
    exists X3. split; [|done]. simpl.
    replace ((lr ++ lo) ++ concat (replicate k (lr ++ lo))) with (concat (replicate k (lr ++ lo)) ++ lr ++ lo).
    + eapply more_app; [done|]. by eapply more_app.
    + clear. induction k as [|k IHk]; simpl; [by rewrite app_nil_r|]. by rewrite <- app_assoc, IHk.
Qed.

(** Reads and seeks of operations that keep [P]. *)
Lemma reads_keep (P : G → gmap handle kobj → Prop) o X size ppos f w g :
  keeps (beside P X) o → is_Some (private_data f) → beside P X w g →
  wp (seq_read o size ppos;; mret tt) (λ _ s, (glob s).1 = f ∧ beside P X (world s) (glob s).2) (KState w (f, g)).
Proof. intros. apply wp_bind. eapply wp_mono; [by apply seq_read_keeps|]. intros. by apply wp_ret. Qed.

Lemma seeks_keep (P : G → gmap handle kobj → Prop) o X off whence f w g :
  keeps (beside P X) o → is_Some (private_data f) → beside P X w g →
  wp (seq_lseek o off whence;; mret tt) (λ _ s, (glob s).1 = f ∧ beside P X (world s) (glob s).2) (KState w (f, g)).
Proof. intros. apply wp_bind. eapply wp_mono; [by apply seq_lseek_keeps|]. intros. by apply wp_ret. Qed.
End Keep.

(** ** The modules *)

Section Modules.
Context {W : Type} `{!Kernel W, !KernelLaws W, !SeqLib W, !SeqLibLaws W, !SeqRead W, !SeqReadLaws W} {U : Type} `{!UserMem U, !UserMemLaws U}
  (current : W → task_struct) (kstrtoint : list Z → option Z) (task_of : W → handle → task_struct).
Implicit Types (X m mh : gmap handle kobj) (w : W).

(** The iterator of seq_file.c between loading and unloading: [k] cells are lost at least. *)
Definition seq_live m (k : nat) (g : seqst) mh : Prop := ∃ k', (k ≤ k')%nat ∧ SeqFile.live m k' g mh.

Lemma seq_live_same m k g g' mh :
  seq_live m k g mh → SeqFile.pointers g' = SeqFile.pointers g → seq_live m k g' mh.
Proof.
  intros (k' & Hk & extra & Hx & Hd & Hs & hd & hf & hl & Hp & Ht) Hg. exists k'. split; [done|].
  exists extra. split_and!; [done..|]. exists hd, hf, hl. by rewrite Hg.
Qed.

Lemma seq_walks m k X :
  keeps (beside (seq_live m k) X) (SeqTable.ct_seq_ops current : seq_ops W seqst).
Proof.
  exists (λ n v w g, match v with
    | None => beside (seq_live m k) X w g
    | Some h => ∃ mh x, seq_live m k g mh ∧ X ##ₘ mh ∧ X !! h = None ∧ mh !! h = None ∧
        held w = <[h := KKmalloc 8]> (X ∪ mh) ∧ cells g !! h = Some x ∧ n = S (Z.to_nat (limit - 1 - x))
    end). split.
  - intros pos w g (mh & HP & Hd & Hw). unfold SeqFile.ct_seq_start.
    case_decide; [apply wp_ret; exists 0%nat; by exists mh|]. unfold kmalloc. apply wp_bind, wp_alloc.
    + intros h w' Hf Hw'. apply wp_bind, wp_set_g, wp_ret. apply ff_new in Hf. rewrite Hw in Hf, Hw'.
      apply lookup_union_None in Hf as [??]. eexists. exists mh, pos. split_and!; simpl; try done.
      apply lookup_insert_eq.
    + intros w' Hw'. apply wp_ret. exists 0%nat, mh. split_and!; [done|done|simpl; congruence].
  - intros n h w g (mh & x & HP & Hd & HX & Hm & Hw & Hc & ->). apply wp_bind.
    eapply (SeqFile.wp_load current); [by rewrite Hw, lookup_insert_eq|done|]. apply wp_bind, wp_get_st, wp_ret.
    split; [done|]. by exists mh, x.
  - intros n h w g (mh & x & HP & Hd & HX & Hm & Hw & Hc & ->). eexists. split; [done|]. apply wp_bind.
    eapply (SeqFile.wp_load current); [by rewrite Hw, lookup_insert_eq|done|]. apply wp_bind, wp_set_g.
    case_decide; apply wp_ret; simpl.
    + exists (<[h := KKmalloc 8]> mh). rewrite insert_union_r in Hw by done.
      split; [|split; [by apply map_disjoint_insert_r_2|done]].
      destruct HP as (k' & Hk & Hl). exists (S k'). split; [lia|]. by eapply live_cell.
    + exists mh, (x + 1). split_and!; try done; [apply lookup_insert_eq|].
      unfold limit in *. lia.
  - intros n [h|] w g; [|by intros; apply wp_ret].
    intros (mh & x & HP & Hd & HX & Hm & Hw & Hc & ->). unfold SeqFile.ct_seq_stop. simpl.
    eapply wp_release_last; [exact Hw|by apply lookup_union_None|done|]. intros w' Hw'. by exists mh.
Qed.

Lemma seq_table_ok m k :
  table_ok (seq_live m k) (λ _, True) (SeqTable.ct_file_ops current : proc_ops W U seqst) [].
Proof.
  split.
  - exists SeqOps.ct_seq_open, [], []. split_and!; [done|apply seq_opens| |done].
    exists SeqOps.ct_seq_release. split; [done|by left].
  - intros X [size p|u len|off wh] f w g _ Hf HI; simpl.
    + apply reads_keep; [apply seq_walks|done|done].
    + by apply wp_ret.
    + apply seeks_keep; [apply seq_walks|done|done].
Qed.

(** The writes of single_file.c that stay in the buffer. *)
Definition proper_access (a : access U) : Prop :=
  match a with AWrite _ len => 1 ≤ len ≤ 4096 ∨ 4097 < len | _ => True end.

Lemma single_live_ref m X h o w w' g :
  beside (SingleFileSpec.live m) X w g → held w !! h = None → is_ref o → held w' = <[h := o]> (held w) →
  beside (SingleFileSpec.live m) X w' g.
Proof.
  intros (mh & HP & Hd & Hw) Hh Ho Hw'. rewrite Hw in Hh, Hw'. apply lookup_union_None in Hh as [??].
  exists (<[h := o]> mh). rewrite insert_union_r in Hw' by done.
  split; [by apply live_ref|]. split; [by apply map_disjoint_insert_r_2|done].
Qed.

Lemma single_show_keeps m X :
  keeps (beside (SingleFileSpec.live m) X) (SingleTable.shown kstrtoint task_of).
Proof.
  intros w g HI. pose proof HI as (mh & [Hok _] & _). destruct (buf_ok_string g Hok) as [str Hstr].
  eapply wp_mono; [apply (ct_seq_show_wp kstrtoint task_of w g str); [apply Hok|done]|].
  intros [text r] [w' g'] (Hg & Hr & Hres). simpl in *. subst g' r. split; [done|].
  destruct Hres as [|p w' _ Hw'|p hp w' _ Hn Hw'|p hp h w' _ Hn Hn' Hw'].
  - done.
  - destruct HI as (mh' & ?). exists mh'. by rewrite Hw'.
  - eapply single_live_ref; [exact HI|exact Hn| |exact Hw']. done.
  - destruct HI as (mh' & HP & Hd & Hw). rewrite Hw in *. apply lookup_union_None in Hn as [??].
    rewrite insert_union_r in Hn', Hw' by done. apply lookup_union_None in Hn' as [??].
    rewrite insert_union_r in Hw' by done. eexists. split; [|split; [|exact Hw']].
    + by repeat apply live_ref.
    + by repeat apply map_disjoint_insert_r_2.
Qed.

Lemma single_table_ok m :
  table_ok (SingleFileSpec.live m) proper_access (SingleTable.ct_file_ops kstrtoint task_of : proc_ops W U single) [op_obj W].
Proof.
  split.
  - exists SingleOps.ct_seq_open, [op_obj W], []. split_and!; [done|apply single_opens| |done].
    exists SingleOps.ct_seq_release. split; [done|by left].
  - intros X [size p|u len|off wh] f w g Ha Hf HI; simpl.
    + apply reads_keep; [apply single_show_keeps|done|done].
    + apply wp_bind, wp_on_mod. destruct HI as (mh & HP & Hd & Hw).
      destruct (ct_seq_write_proper w g u len (proj1 HP) Ha) as (r & g' & Hr & Hok' & Hp).
      eapply wp_Ok; [exact Hr|]. apply wp_ret. split; [done|]. exists mh. split; [|done]. by eapply live_pointers.
    + apply seeks_keep; [apply single_show_keeps|done|done].
Qed.

(** The files of the interrupt modules: reading changes nothing. *)
Lemma tasklet_table_ok t p w0 g0 :
  waiting t p (KState w0 g0) →
  table_ok (λ g mh, g = g0 ∧ mh = held w0) (λ _, True) (TaskletTable.fops : proc_ops W U tstate) [seq_obj W; op_obj W].
Proof.
  intros (Ht & [n Hn] & d & Hd & _). simpl in *. split.
  - exists IrqOps.my_open, [op_obj W], [seq_obj W]. split_and!; [done|apply single_opens| |done].
    exists IrqOps.my_release. split; [done|by right].
  - intros X [size q|u len|off wh] f w g _ Hf HI; simpl; [|by apply wp_ret..].
    apply reads_keep; [|done|done]. intros w1 g1 (mh & [-> ->] & Hdis & Hw1).
    unfold Tasklet.my_show, get_tasklet. apply wp_bind, wp_bind, wp_get_g. rewrite Ht.
    eapply wp_Ok; [eapply deref_ok; [|done]|].
    + simpl. rewrite Hw1, lookup_union_r; [done|]. by eapply map_disjoint_Some_r.
    + apply wp_ret. split; [done|]. by eexists.
Qed.

Lemma wq_table_ok w0 g0 :
  table_ok (λ g mh, g = g0 ∧ mh = held w0) (λ _, True) (WqTable.fops : proc_ops W U wstate) [seq_obj W; op_obj W].
Proof.
  split.
  - exists WqOps.my_open, [op_obj W], [seq_obj W]. split_and!; [done|apply single_opens| |done].
    exists WqOps.my_release. split; [done|by right].
  - intros X [size q|u len|off wh] f w g _ Hf HI; simpl; [|by apply wp_ret..].
    apply reads_keep; [|done|done]. intros w1 g1 HI1. apply wp_ret. by split.
Qed.

Lemma more_beside mh l X : more ∅ l X → X ##ₘ mh → more mh l (X ∪ mh).
Proof.
  induction 1 as [|h o l X Hh Hm IH]; intros Hd; [rewrite map_empty_union; constructor|].
  apply map_disjoint_insert_l in Hd as [Hmh Hd]. rewrite <- insert_union_l. constructor; [|by apply IH].
  by apply lookup_union_None.
Qed.

(** From a state in which nothing but what the module holds is held. *)
Lemma table_sessions_start {G} (P : G → gmap handle kobj → Prop) A (t : proc_ops W U G) l ls f w g :
  table_ok P A t l → Forall (Forall A) ls → P g (held w) →
  wp (table_sessions t ls) (λ k s, (k ≤ length ls)%nat ∧ ∃ X, more ∅ (concat (replicate k l)) X ∧
    beside P X (world s) (glob s).2) (KState w (f, g)).
Proof.
  intros Ht Hls HP. eapply table_sessions_ok; [done|done|]. exists (held w). split; [done|].
  split; [apply map_disjoint_empty_l|by rewrite map_empty_union].
Qed.

(** Through the table, a write of no bytes and one of a byte more than the buffer fault. *)
Lemma single_table_faults m w f g (u : U) :
  SingleFileSpec.live m g (held w) →
  let t : proc_ops W U single := SingleTable.ct_file_ops kstrtoint task_of in
  run_access t (AWrite u 0) (KState w (f, g)) = Fault OutOfBounds ∧
  run_access t (AWrite u 4097) (KState w (f, g)) = Fault OutOfBounds.
Proof using KernelLaws0 UserMemLaws0.
  intros [Hok _]. cbn zeta.
  destruct (single_write_errors w g u 0 Hok ltac:(lia)) as (_ & _ & H0 & _).
  destruct (single_write_errors w g u 4097 Hok ltac:(lia)) as (_ & H1 & _ & _).
  destruct (copy_from_user u 0) as [d r] eqn:Hc. pose proof (copy_from_user_rest u 0 d r ltac:(lia) Hc) as [Hr _].
  split; cbn; unfold mbind, prog_bind, on_mod; cbn; [rewrite H0|rewrite H1]; try done. simpl. lia.
Qed.

(** C35: processes that open a file, read, write and seek in it, and close it, one after the
    other. Nothing faults, for single_file.c unless a write has no bytes or 4097, which
    both fault; the module of the file keeps its state. What is left besides: from
    seq_file.c only positions, from single_file.c only references (of both no number is
    stated) and the operations of every file opened, from the interrupt modules what
    was made for every file opened and nothing else. *)
Theorem proc_table_sessions m ls f w :
  (∀ k g, SeqFile.live m k g (held w) →
    wp (table_sessions (SeqTable.ct_file_ops current : proc_ops W U seqst) ls)
      (λ n s, (n ≤ length ls)%nat ∧ ∃ k', (k ≤ k')%nat ∧ SeqFile.live m k' (glob s).2 (held (world s))) (KState w (f, g))) ∧
  (∀ g, SingleFileSpec.live m g (held w) → Forall (Forall proper_access) ls →
    wp (table_sessions (SingleTable.ct_file_ops kstrtoint task_of : proc_ops W U single) ls)
      (λ n s, (n ≤ length ls)%nat ∧ ∃ X, more ∅ (replicate n (op_obj W)) X ∧
        beside (SingleFileSpec.live m) X (world s) (glob s).2) (KState w (f, g))) ∧
  (∀ g u, SingleFileSpec.live m g (held w) →
    let t : proc_ops W U single := SingleTable.ct_file_ops kstrtoint task_of in
    run_access t (AWrite u 0) (KState w (f, g)) = Fault OutOfBounds ∧
    run_access t (AWrite u 4097) (KState w (f, g)) = Fault OutOfBounds) ∧
  (∀ t p g, waiting t p (KState w g) →
    wp (table_sessions (TaskletTable.fops : proc_ops W U tstate) ls)
      (λ n s, (n ≤ length ls)%nat ∧ (glob s).2 = g ∧
        more (held w) (concat (replicate n [seq_obj W; op_obj W])) (held (world s))) (KState w (f, g))) ∧
  (∀ g, wp (table_sessions (WqTable.fops : proc_ops W U wstate) ls)
      (λ n s, (n ≤ length ls)%nat ∧ (glob s).2 = g ∧
        more (held w) (concat (replicate n [seq_obj W; op_obj W])) (held (world s))) (KState w (f, g))).
Proof.
  assert (Forall (Forall (λ _ : access U, True)) ls) as Hall by (apply Forall_true; intros; by apply Forall_true).
  split_and!.
  - intros k g Hl. eapply wp_mono; [apply (table_sessions_start _ _ _ _ _ f w g (seq_table_ok m k) Hall); by exists k|].
    intros n s (Hn & X & HX & mh & (k' & Hk & Hl') & Hd & Hw). split; [done|]. exists k'. split; [done|].
    assert (X = ∅) as -> by (replace (concat (replicate n [])) with (@nil kobj) in HX; [by inversion HX|clear; by induction n]).
    rewrite map_empty_union in Hw. by rewrite Hw.
  - intros g Hl Hp. eapply wp_mono; [by apply (table_sessions_start _ _ _ _ _ f w g (single_table_ok m) Hp)|].
    intros n s (Hn & X & HX & Hb). split; [done|]. exists X. split; [|done].
    replace (replicate n (op_obj W)) with (concat (replicate n [op_obj W])); [done|].
    clear. induction n as [|n IH]; [done|]. simpl. by rewrite IH.
  - intros g u. by apply single_table_faults.
  - intros t p g Hw. eapply wp_mono; [by apply (table_sessions_start _ _ _ _ _ f w g (tasklet_table_ok t p w g Hw) Hall)|].
    intros n s (Hn & X & HX & mh & [-> ->] & Hd & ->). split; [done|]. split; [done|]. by apply more_beside.
  - intros g. eapply wp_mono; [by apply (table_sessions_start _ _ _ _ _ f w g (wq_table_ok w g) Hall)|].
    intros n s (Hn & X & HX & mh & [-> ->] & Hd & ->). split; [done|]. split; [done|]. by apply more_beside.
Qed.

Lemma show_result_nonempty w str text w' : show_result kstrtoint task_of w str text w' → text ≠ [].
Proof using Type.
  intros [| | |]; intros He; (apply (f_equal length) in He; rewrite !length_app in He; simpl in He; lia).
Qed.

(** A text that fits in a page is read in one go from the start of the file: from
    single_file.c what the pid just written asks for, from mywq.c the fixed text. *)
Theorem proc_file_cat f w :
  is_Some (private_data f) →
  (∀ g (u : U) len d, buf_ok g → 1 ≤ len ≤ 4096 → copy_from_user u len = (d, 0) →
    let t : proc_ops W U single := SingleTable.ct_file_ops kstrtoint task_of in
    ∃ write s1 text s2, proc_write t = Some write ∧ write u len (KState w (f, g)) = Ok (len, s1) ∧
      show_result kstrtoint task_of w (written d) text (world s2) ∧
      ∀ size, Z.of_nat (length text) ≤ size → Z.of_nat (length text) < 4096 →
        proc_read t size 0 s1 = Ok ((Z.of_nat (length text), text, Z.of_nat (length text)), s2)) ∧
  (∀ g size, 15 < size →
    proc_read (WqTable.fops : proc_ops W U wstate) size 0 (KState w (f, g)) =
      Ok ((16, bytes "workqueue info:" ++ [10], 16), KState w (f, g))).
Proof using KernelLaws0 SeqReadLaws0 UserMemLaws0.
  intros Hf. split.
  - intros g u len d Hok Hlen Hcopy t.
    destruct (ct_seq_write_ok w g u len d Hok Hlen Hcopy) as (g' & Hw & Hok' & _ & Hs).
    destruct (ct_seq_show_wp kstrtoint task_of w g' (written d)) as ([text r] & [w2 g2] & Hsh & Hg & Hr & Hres);
      [apply Hok'|done|]. simpl in *. subst r g2.
    eexists _, (KState w (f, g')), text, (KState w2 (f, g')). split; [done|].
    split; [unfold on_mod; simpl; by rewrite Hw|]. split; [done|]. intros size Hsz Hpage.
    apply seq_read_text; try done. by eapply show_result_nonempty.
  - intros g size Hsz. apply (seq_read_text WqTable.my_show (bytes "workqueue info:" ++ [10])); [done|done|done| |done].
    change (16 ≤ size). lia.
Qed.
End Modules.

(** ** The laws can hold, and the theorems at work *)

(** A library that shows one element a read. *)
Definition one_read {W G} (o : seq_ops W G) (size pos : Z) : prog (onfile W G) (Z * list Z * Z) :=
  match o with
  | Iterator start show next stop =>
      v ← on_mod (start pos);
      match v with
      | None => on_mod (stop None);; mret (0, [], pos)
      | Some _ =>
          '(t, _) ← on_mod (show v);
          '(v', pos') ← on_mod (next v);
          on_mod (stop v');;
          mret (Z.of_nat (length t) `min` size, take (Z.to_nat size) t, pos')
      end
  | Single show =>
      if decide (pos = 0) then
        '(t, _) ← on_mod show;
        if decide (Z.of_nat (length t) ≤ size) then mret (Z.of_nat (length t), t, Z.of_nat (length t))
        else mret (size, take (Z.to_nat size) t, size)
      else mret (0, [], pos)
  end.

#[export] Instance one_seq_read W : SeqRead W := {|
  seq_read G := one_read;
  seq_lseek G _ offset _ := mret offset
|}.

#[export] Instance one_seq_read_laws W : SeqReadLaws W.
Proof.
  split.
  - intros G I o size pos f w g Ho Hf HI. simpl. destruct o as [start show next stop|show]; simpl.
    + destruct Ho as [E [Hstart Hshow Hnext Hstop]]. apply wp_bind, wp_on_mod.
      eapply wp_mono; [by apply Hstart|]. intros [h|] [w1 g1] [n HE]; simpl in *.
      * apply wp_bind, wp_on_mod. eapply wp_mono; [by apply (Hshow n)|]. intros [t r] [w2 g2] [_ HE2]; simpl in *.
        destruct (Hnext _ _ _ _ HE2) as (n' & -> & Hn). apply wp_bind, wp_on_mod.
        eapply wp_mono; [exact Hn|]. intros [v' pos'] [w3 g3] HE3. simpl in *.
        apply wp_bind, wp_on_mod. eapply wp_mono; [by eapply Hstop|]. intros [] [w4 g4] HI4. by apply wp_ret.
      * apply wp_bind, wp_on_mod. eapply wp_mono; [by eapply Hstop|]. intros [] [w4 g4] HI4. by apply wp_ret.
    + case_decide; [|by apply wp_ret]. apply wp_bind, wp_on_mod. eapply wp_mono; [by apply Ho|].
      intros [t r] [w1 g1] [_ HI1]. case_decide; by apply wp_ret.
  - intros. by apply wp_ret.
  - intros G show t size f w g w' g' Hf Hs Ht Hsz Hpage. simpl. unfold mbind, prog_bind, on_mod. simpl.
    rewrite Hs. simpl. by rewrite decide_True by done.
Qed.

Lemma proc_table_sessions_witness :
  ∃ n s, table_sessions (TaskletTable.fops : proc_ops ledger (list Z) tstate)
      [[ARead 100 0; ASeek 0 0]; [AWrite [1] 1; ARead 4 0]] (KState sample_w (File None None, TaskletSpec.sample)) = Ok (n, s) ∧
    (n ≤ 2)%nat ∧ (glob s).2 = TaskletSpec.sample ∧
    more sample_held (concat (replicate n [seq_obj ledger; op_obj ledger])) (held (world s)).
Proof.
  exact (proj1 (proj2 (proj2 (proj2 (proc_table_sessions (U := list Z) the_task parse_digit some_task ∅
    [[ARead 100 0; ASeek 0 0]; [AWrite [1] 1; ARead 4 0]] (File None None) sample_w))))
    2%positive None TaskletSpec.sample sample_waiting).
Defined.

Lemma proc_file_cat_witness :
  ∃ s1 text s2,
    on_mod (SingleFile.ct_seq_write [120; 10] 2)
      (KState (Ledger ∅ 0 []) (File (Some 9%positive) None, SingleFileSpec.sample)) = Ok (2, s1) ∧
    show_result parse_digit some_task (Ledger ∅ 0 []) [120] text (world s2) ∧
    ∀ size, Z.of_nat (length text) ≤ size → Z.of_nat (length text) < 4096 →
      proc_read (SingleTable.ct_file_ops parse_digit some_task : proc_ops ledger (list Z) single) size 0 s1 =
        Ok ((Z.of_nat (length text), text, Z.of_nat (length text)), s2).
Proof.
  assert (copy_from_user [120; 10] 2 = ([120; 10], 0)) as Hcopy by reflexivity.
  destruct (proj1 (proc_file_cat (U := list Z) parse_digit some_task (File (Some 9%positive) None) (Ledger ∅ 0 []) (mk_is_Some _ _ eq_refl))
    SingleFileSpec.sample [120; 10] 2 [120; 10] single_sample_ok ltac:(lia) Hcopy)
    as (write & s1 & text & s2 & Hw & Hrun & Hres & Hread).
  exists s1, text, s2. injection Hw as <-. split; [exact Hrun|split; [exact Hres|exact Hread]].
Defined.
